(** * Poster resolution engine of the FRAnime Stremio addon

    A shallow embedding of the poster fallback system
    (CacheService, PosterSource, KitsuSource, TMDBSource, FallbackChain,
    MetricsCollector, PosterManager) and the properties of it that the
    specification states.

    Conventions of the embedding:
    - JavaScript numbers that hold counters, sizes and millisecond clocks are
      integers [Z]; averages and rates, which the code computes by a
      division, are exact rationals [Q] (the source uses IEEE doubles: the
      rounding of a quotient is not modelled).
    - [Date.now()] is an explicit argument [now] of every operation that
      reads the clock.
    - A JavaScript [Map], whose iteration order is insertion order, is an
      association list with unique keys ([JsMap]); a plain object used as a
      dictionary, and a [Map] whose order is never observed, is a [gmap].
      A lookup in a plain object also finds the names every object
      inherits from [Object.prototype] ([Js.inherited]); where the code
      tests such a lookup the test is modelled, and the counters kept by
      name are stated for the names that are not inherited.
    - [async] functions run without interruption from one [await] to the
      next. A call that runs alone is a function of its world; calls that
      overlap are events of a state machine ([Loop] for [getPoster],
      [Flights] for the requests on a source), and the properties that
      depend on the interleaving are stated for every order of the events.
    - The network, the file system and timers are not executed: the outcome
      of a request is an argument of the attempt, file-system calls are
      recorded as a list of operations, and a [setTimeout] is recorded as a
      pending timer that a separate function fires. *)

From stdpp Require Import gmap strings list pretty.
From Stdlib Require Import ZArith QArith Lia Ascii Sorted.

Local Open Scope Z_scope.

(** ** JavaScript helpers *)

Module Js.

(** [x || d] on a number that may be absent: [undefined] and [0] are falsy. *)
Definition num_or (x : option Z) (d : Z) : Z :=
  match x with
  | Some v => if v =? 0 then d else v
  | None => d
  end.

(** Truthiness of a string: only the empty string is falsy. *)
Definition truthy (s : string) : bool :=
  match s with
  | EmptyString => false
  | _ => true
  end.

(** [StrWhiteSpaceChar], ASCII part: TAB, LF, VT, FF, CR and SP. (The
    source strings are JavaScript strings; the whitespace characters beyond
    ASCII are not recognised here.) *)
Definition is_ws (a : ascii) : bool :=
  let n := nat_of_ascii a in
  (Nat.eqb n 9 || Nat.eqb n 10 || Nat.eqb n 11 || Nat.eqb n 12
   || Nat.eqb n 13 || Nat.eqb n 32)%bool.

Definition in_range (lo hi : nat) (a : ascii) : bool :=
  let n := nat_of_ascii a in (Nat.leb lo n && Nat.leb n hi)%bool.

Definition is_digit (a : ascii) : bool := in_range 48 57 a.
Definition is_hex (a : ascii) : bool :=
  (in_range 48 57 a || in_range 65 70 a || in_range 97 102 a)%bool.
Definition is_octal (a : ascii) : bool := in_range 48 55 a.
Definition is_binary (a : ascii) : bool := in_range 48 49 a.

Fixpoint drop_ws (l : list ascii) : list ascii :=
  match l with
  | a :: l' => if is_ws a then drop_ws l' else l
  | [] => []
  end.

Definition trim (l : list ascii) : list ascii :=
  rev (drop_ws (rev (drop_ws l))).

(** Leading decimal digits: how many, and what follows them. *)
Fixpoint skip_digits (l : list ascii) : nat * list ascii :=
  match l with
  | a :: l' =>
      if is_digit a then let '(n, r) := skip_digits l' in (S n, r) else (O, l)
  | [] => (O, [])
  end.

Definition drop_sign (l : list ascii) : list ascii :=
  match l with
  | a :: l' =>
      if (Ascii.eqb a "+" || Ascii.eqb a "-")%bool then l' else l
  | [] => []
  end.

(** Nothing, or an [ExponentPart] up to the end. *)
Definition exponent_opt (l : list ascii) : bool :=
  match l with
  | [] => true
  | a :: l' =>
      if (Ascii.eqb a "e" || Ascii.eqb a "E")%bool then
        match skip_digits (drop_sign l') with
        | (S _, []) => true
        | _ => false
        end
      else false
  end.

(** [StrUnsignedDecimalLiteral] *)
Definition unsigned_decimal (l : list ascii) : bool :=
  if String.eqb (String.string_of_list_ascii l) "Infinity" then true
  else
    let '(n1, r1) := skip_digits l in
    match r1 with
    | a :: r2 =>
        if Ascii.eqb a "." then
          let '(n2, r3) := skip_digits r2 in
          (negb (Nat.eqb (n1 + n2) 0) && exponent_opt r3)%bool
        else (negb (Nat.eqb n1 0) && exponent_opt r1)%bool
    | [] => negb (Nat.eqb n1 0)
    end.

(** [NonDecimalIntegerLiteral]: 0x, 0o or 0b and at least one digit. *)
Definition non_decimal (l : list ascii) : bool :=
  match l with
  | z :: x :: d :: ds =>
      (Ascii.eqb z "0" &&
       (if (Ascii.eqb x "x" || Ascii.eqb x "X")%bool then forallb is_hex (d :: ds)
        else if (Ascii.eqb x "o" || Ascii.eqb x "O")%bool then forallb is_octal (d :: ds)
        else if (Ascii.eqb x "b" || Ascii.eqb x "B")%bool then forallb is_binary (d :: ds)
        else false))%bool
  | _ => false
  end.

(** Whether [Number(s)] is a number: [s] is a [StringNumericLiteral]
    (blank strings convert to 0). *)
Definition is_numeric (s : string) : bool :=
  let l := trim (String.list_ascii_of_string s) in
  match l with
  | [] => true
  | _ => (non_decimal l || unsigned_decimal (drop_sign l))%bool
  end.

(** [isNaN(s)] on a string. *)
Definition isNaN (s : string) : bool := negb (is_numeric s).

(** [Array.prototype.sort((a, b) => key(a) - key(b))]: a stable sort by an
    integer key, as an insertion sort. *)
Section Sort.
Context {A : Type} (key : A -> Z).

Fixpoint insert_by (x : A) (l : list A) : list A :=
  match l with
  | [] => [x]
  | y :: l' => if key x <=? key y then x :: l else y :: insert_by x l'
  end.

Fixpoint sort_by (l : list A) : list A :=
  match l with
  | [] => []
  | x :: l' => insert_by x (sort_by l')
  end.

End Sort.

(** [s1 || s2] on optional strings: the first that is present and not empty. *)
Definition str_or (a b : option string) : option string :=
  match a with
  | Some s => if truthy s then Some s else b
  | None => b
  end.

(** A number as a division gives it: a rational (the rounding of the
    double is not modelled), [Infinity], or [NaN]. *)
Inductive number :=
| Num (q : Q)
| Infinity
| NaN.

(** [x < y] for an integer [x]: every comparison with [NaN] is false. *)
Definition lt_number (x : Z) (y : number) : bool :=
  match y with
  | Num q => negb (Qle_bool q (inject_Z x))
  | Infinity => true
  | NaN => false
  end.

(** [y - x] for an integer [x]. *)
Definition minus_number (y : number) (x : Z) : number :=
  match y with
  | Num q => Num (q - inject_Z x)
  | Infinity => Infinity
  | NaN => NaN
  end.


(** The names every plain object inherits from [Object.prototype]: a lookup
    [o[name]] that finds no own property finds the inherited one, a
    function or an object, which is truthy. *)
Definition inherited (name : string) : bool :=
  bool_decide (name ∈ [ "constructor"; "toString"; "toLocaleString"; "valueOf";
                        "hasOwnProperty"; "isPrototypeOf"; "propertyIsEnumerable";
                        "__proto__"; "__defineGetter__"; "__defineSetter__";
                        "__lookupGetter__"; "__lookupSetter__" ]).

End Js.

(** ** [Map]: insertion-ordered dictionary *)

Module JsMap.
Section WithValue.
Context {V : Type}.

Definition t := list (string * V).

Fixpoint get (k : string) (m : list (string * V)) : option V :=
  match m with
  | [] => None
  | (k', v) :: m' => if String.eqb k k' then Some v else get k m'
  end.

Definition has (k : string) (m : list (string * V)) : bool :=
  match get k m with Some _ => true | None => false end.

(** [Map.prototype.delete]: keys are unique, so dropping the binding of
    [k] is dropping every pair whose key is [k]. *)
Fixpoint delete (k : string) (m : list (string * V)) : list (string * V) :=
  match m with
  | [] => []
  | (k', v) :: m' =>
      if String.eqb k k' then delete k m' else (k', v) :: delete k m'
  end.

(** [Map.prototype.set]: an existing key keeps its position, a new key
    goes to the end. *)
Fixpoint set (k : string) (v : V) (m : list (string * V)) : list (string * V) :=
  match m with
  | [] => [(k, v)]
  | (k', v') :: m' =>
      if String.eqb k k' then (k', v) :: m' else (k', v') :: set k v m'
  end.

Definition keys (m : list (string * V)) : list string := map fst m.

(** [m.keys().next().value] *)
Definition first_key (m : list (string * V)) : option string :=
  match m with
  | [] => None
  | (k, _) :: _ => Some k
  end.

Definition size (m : list (string * V)) : Z := Z.of_nat (length m).

End WithValue.
End JsMap.

(** ** CacheService (poster-system/services/CacheService.js) *)

Module CacheService.

(** PosterCacheEntry, as stored. *)
Record Entry := mkEntry {
  animeId : string;
  posterUrl : string;
  source : string;
  timestamp : Z;
  ttl : Z;
  hits : Z
}.

(** The object handed to [set]: [timestamp], [ttl] and [hits] may be
    missing. *)
Record EntryInput := mkEntryInput {
  in_animeId : string;
  in_posterUrl : string;
  in_source : string;
  in_timestamp : option Z;
  in_ttl : option Z;
  in_hits : option Z
}.

Record Stats := mkStats {
  st_hits : Z;
  st_misses : Z;
  st_sets : Z;
  st_evictions : Z;
  st_size : Z
}.

Record Config := mkConfig {
  cfg_maxSize : option Z;
  cfg_ttl : option Z;
  cfg_persistToDisk : bool;
  cfg_cacheFilePath : string
}.

(** What a persistence write serialises. *)
Record CacheData := mkCacheData {
  cd_version : string;
  cd_timestamp : Z;
  cd_entries : gmap string Entry;
  cd_sets : Z;
  cd_evictions : Z;
  cd_size : Z
}.

(** Calls on [fs.promises], in the order they are issued. *)
Inductive FsOp :=
| MkdirDirnameOf (file : string)
| WriteFile (path : string) (data : CacheData)
| Rename (from to : string).

(** A [setTimeout] handle: when it is due, and whether it is still armed
    (neither fired nor cleared). *)
Record Timeout := mkTimeout {
  due : Z;
  armed : bool
}.

Record t := mk {
  maxSize : Z;
  defaultTTL : Z;
  persistToDisk : bool;
  cacheFilePath : string;
  cache : list (string * Entry);
  stats : Stats;
  isInitialized : bool;
  (* the handle of the debounce timer, [null] until the first save *)
  _saveTimeout : option Timeout
}.

Definition new (config : Config) : t :=
  {| maxSize := Js.num_or (cfg_maxSize config) 1000;
     defaultTTL := Js.num_or (cfg_ttl config) (24 * 60 * 60 * 1000);
     persistToDisk := cfg_persistToDisk config;
     cacheFilePath := cfg_cacheFilePath config;
     cache := [];
     stats := mkStats 0 0 0 0 0;
     isInitialized := false;
     _saveTimeout := None |}.

Definition with_cache (c : t) (m : list (string * Entry)) : t :=
  {| maxSize := maxSize c; defaultTTL := defaultTTL c;
     persistToDisk := persistToDisk c; cacheFilePath := cacheFilePath c;
     cache := m; stats := stats c; isInitialized := isInitialized c;
     _saveTimeout := _saveTimeout c |}.

Definition with_stats (c : t) (s : Stats) : t :=
  {| maxSize := maxSize c; defaultTTL := defaultTTL c;
     persistToDisk := persistToDisk c; cacheFilePath := cacheFilePath c;
     cache := cache c; stats := s; isInitialized := isInitialized c;
     _saveTimeout := _saveTimeout c |}.

Definition with_saveTimeout (c : t) (o : option Timeout) : t :=
  {| maxSize := maxSize c; defaultTTL := defaultTTL c;
     persistToDisk := persistToDisk c; cacheFilePath := cacheFilePath c;
     cache := cache c; stats := stats c; isInitialized := isInitialized c;
     _saveTimeout := o |}.

Definition with_isInitialized (c : t) (b : bool) : t :=
  {| maxSize := maxSize c; defaultTTL := defaultTTL c;
     persistToDisk := persistToDisk c; cacheFilePath := cacheFilePath c;
     cache := cache c; stats := stats c; isInitialized := b;
     _saveTimeout := _saveTimeout c |}.

Definition inc_misses (s : Stats) : Stats :=
  mkStats (st_hits s) (st_misses s + 1) (st_sets s) (st_evictions s) (st_size s).
Definition inc_hits (s : Stats) : Stats :=
  mkStats (st_hits s + 1) (st_misses s) (st_sets s) (st_evictions s) (st_size s).
Definition inc_sets (s : Stats) : Stats :=
  mkStats (st_hits s) (st_misses s) (st_sets s + 1) (st_evictions s) (st_size s).
Definition add_evictions (n : Z) (s : Stats) : Stats :=
  mkStats (st_hits s) (st_misses s) (st_sets s) (st_evictions s + n) (st_size s).
Definition set_size (n : Z) (s : Stats) : Stats :=
  mkStats (st_hits s) (st_misses s) (st_sets s) (st_evictions s) n.

(** [_isExpired(entry, now)] *)
Definition _isExpired (entry : Entry) (now : Z) : bool :=
  (timestamp entry + ttl entry) <? now.

(** [get(key)] at clock [now]. *)
Definition get (key : string) (now : Z) (c : t) : option Entry * t :=
  match JsMap.get key (cache c) with
  | None => (None, with_stats c (inc_misses (stats c)))
  | Some entry =>
      if _isExpired entry now then
        let m := JsMap.delete key (cache c) in
        let c1 := with_cache c m in
        let c2 := with_stats c1 (inc_misses (stats c1)) in
        (None, with_stats c2 (set_size (JsMap.size m) (stats c2)))
      else
        let m := JsMap.delete key (cache c) in
        let updatedEntry :=
          mkEntry (animeId entry) (posterUrl entry) (source entry)
                  (timestamp entry) (ttl entry) (hits entry + 1) in
        let c1 := with_cache c (JsMap.set key updatedEntry m) in
        (Some updatedEntry, with_stats c1 (inc_hits (stats c1)))
  end.

(** [_saveToDisk()]: clears the pending debounce timer, if any, and arms a
    new one a second ahead; the write itself is the timer's callback. *)
Definition _saveToDisk (now : Z) (c : t) : t :=
  with_saveTimeout c (Some (mkTimeout (now + 1000) true)).

(** The key the LRU branch of [set] removes, when it runs. *)
Definition evicts (key : string) (c : t) : bool :=
  (maxSize c <=? JsMap.size (cache c)) && negb (JsMap.has key (cache c)).

(** [set(key, entry)] at clock [now]. *)
Definition set (key : string) (entry : EntryInput) (now : Z) (c : t) : t :=
  let c1 :=
    if evicts key c then
      let m := match JsMap.first_key (cache c) with
               | Some firstKey => JsMap.delete firstKey (cache c)
               | None => cache c
               end in
      with_stats (with_cache c m) (add_evictions 1 (stats c))
    else c in
  let m1 := if JsMap.has key (cache c1) then JsMap.delete key (cache c1)
            else cache c1 in
  let stored :=
    mkEntry (in_animeId entry) (in_posterUrl entry) (in_source entry)
            (Js.num_or (in_timestamp entry) now)
            (Js.num_or (in_ttl entry) (defaultTTL c))
            (Js.num_or (in_hits entry) 0) in
  let m2 := JsMap.set key stored m1 in
  let c2 := with_cache c1 m2 in
  let c3 := with_stats c2 (inc_sets (stats c2)) in
  let c4 := with_stats c3 (set_size (JsMap.size m2) (stats c3)) in
  if persistToDisk c4 then _saveToDisk now c4 else c4.

(** [invalidate(key)] *)
Definition invalidate (key : string) (c : t) : bool * t :=
  let existed := JsMap.has key (cache c) in
  let m := JsMap.delete key (cache c) in
  let c1 := with_cache c m in
  (existed, with_stats c1 (set_size (JsMap.size m) (stats c1))).

(** [clear()] *)
Definition clear (now : Z) (c : t) : t :=
  let previousSize := JsMap.size (cache c) in
  let c1 := with_cache c [] in
  let c2 := with_stats c1 (set_size 0 (stats c1)) in
  let c3 := with_stats c2 (add_evictions previousSize (stats c2)) in
  if persistToDisk c3 then _saveToDisk now c3 else c3.

(** [cleanup()] *)
Definition cleanup (now : Z) (c : t) : Z * t :=
  let kept := List.filter (fun kv => negb (_isExpired (snd kv) now)) (cache c) in
  let cleaned := JsMap.size (cache c) - JsMap.size kept in
  let c1 := with_cache c kept in
  (cleaned, with_stats c1 (set_size (JsMap.size kept) (stats c1))).

(** The document both save paths build. *)
Definition cacheData (now : Z) (c : t) : CacheData :=
  {| cd_version := "1.0";
     cd_timestamp := now;
     cd_entries := list_to_map (cache c);
     cd_sets := st_sets (stats c);
     cd_evictions := st_evictions (stats c);
     cd_size := st_size (stats c) |}.

(** A [try] block of awaited file-system calls: the calls are issued in
    order until one throws; [fails] tells which do. The result is the list
    of calls that completed. *)
Fixpoint perform (fails : FsOp -> bool) (ops : list FsOp) : list FsOp :=
  match ops with
  | [] => []
  | op :: ops' => if fails op then [] else op :: perform fails ops'
  end.

(** The callback of the debounce timer armed by [_saveToDisk]. *)
Definition _saveToDisk_callback (fails : FsOp -> bool) (now : Z) (c : t)
  : list FsOp :=
  let tempFilePath := (cacheFilePath c ++ ".tmp")%string in
  perform fails
    [ MkdirDirnameOf (cacheFilePath c);
      WriteFile tempFilePath (cacheData now c);
      Rename tempFilePath (cacheFilePath c) ].

(** The event loop at clock [now]: the debounce timer fires once, when it
    is armed and due. *)
Definition fire_saveTimeout (fails : FsOp -> bool) (now : Z) (c : t)
  : list FsOp * t :=
  match _saveTimeout c with
  | Some tm =>
      if armed tm && (due tm <=? now) then
        (_saveToDisk_callback fails now c,
         with_saveTimeout c (Some (mkTimeout (due tm) false)))
      else ([], c)
  | None => ([], c)
  end.

(** [shutdown()] *)
Definition shutdown (fails : FsOp -> bool) (now : Z) (c : t)
  : list FsOp * t :=
  let c1 := match _saveTimeout c with
            | Some _ => with_saveTimeout c None
            | None => c
            end in
  let written :=
    if persistToDisk c1 then
      perform fails
        [ MkdirDirnameOf (cacheFilePath c1);
          WriteFile (cacheFilePath c1) (cacheData now c1) ]
    else [] in
  (written, with_isInitialized (with_cache c1 []) false).

(** What [_loadFromDisk] finds: no file, a file that cannot be read or
    parsed, or a document with its entries and, if present, its [stats]
    ([sets] and [evictions]). *)
Inductive DiskRead :=
| NoFile
| Unreadable
| Loaded (entries : list (string * Entry)) (saved : option (option Z * option Z)).

(** [_loadFromDisk()] at clock [now]: the entries that are not expired are
    restored; a missing or unreadable file leaves the cache as it is. *)
Definition _loadFromDisk (disk : DiskRead) (now : Z) (c : t) : t :=
  match disk with
  | Loaded entries saved =>
      let m := fold_left
                 (fun m kv => if _isExpired (snd kv) now then m
                              else JsMap.set (fst kv) (snd kv) m)
                 entries (cache c) in
      let c1 := with_cache c m in
      let s1 := match saved with
                | Some (sets, evictions) =>
                    mkStats (st_hits (stats c1)) (st_misses (stats c1))
                            (Js.num_or sets 0) (Js.num_or evictions 0)
                            (st_size (stats c1))
                | None => stats c1
                end in
      with_stats c1 (set_size (JsMap.size m) s1)
  | _ => c
  end.

(** [initialize()] past its guard: the load, when the cache persists, and
    the flag. *)
Definition initialize_body (disk : DiskRead) (now : Z) (c : t) : t :=
  let c1 := if persistToDisk c then _loadFromDisk disk now c else c in
  with_isInitialized c1 true.

(** [initialize()] at clock [now] *)
Definition initialize (disk : DiskRead) (now : Z) (c : t) : t :=
  if isInitialized c then c else initialize_body disk now c.

(** A rate: the quotient of two counters. *)
Definition ratio (n d : Z) : Q :=
  match d with
  | Zpos p => n # p
  | Zneg p => (- n) # p
  | Z0 => 0%Q
  end.

Record StatsView := mkStatsView {
  sv_stats : Stats;
  sv_hitRate : Q;
  sv_currentSize : Z;
  sv_maxSize : Z
}.

(** [getStats()]: [hits / (hits + misses) || 0]; the quotient [0 / 0] is
    [NaN], which [||] turns into [0]. *)
Definition getStats (c : t) : StatsView :=
  {| sv_stats := stats c;
     sv_hitRate := ratio (st_hits (stats c)) (st_hits (stats c) + st_misses (stats c));
     sv_currentSize := JsMap.size (cache c);
     sv_maxSize := maxSize c |}.

End CacheService.

(** ** Errors and results *)

Module Err.

(** The errors the poster sources raise; [message] is [error.message]. *)
Inductive t :=
| CircuitOpen (name : string)
| InvalidId
| NameRequired
| ApiKeyMissing
| Unavailable (name : string)
| Timeout
| Http (status : Z) (statusText : string)
| Other (message : string).

Definition message (e : t) : string :=
  match e with
  | CircuitOpen name => "Circuit breaker ouvert pour " ++ name
  | InvalidId => "ID anime invalide pour Kitsu"
  | NameRequired => "Nom d'anime requis pour TMDB"
  | ApiKeyMissing => "Clé API TMDB manquante"
  | Unavailable name => "Source " ++ name ++ " n'est pas disponible"
  | Timeout => "Timeout"
  | Http status statusText =>
      "Erreur HTTP " ++ pretty status ++ ": " ++ statusText
  | Other m => m
  end.

(** A computation that returns or throws. *)
Inductive result (A : Type) :=
| Return (a : A)
| Throw (e : t).
Arguments Return {A} a.
Arguments Throw {A} e.

End Err.

(** ** PosterSource (poster-system/interfaces/PosterSource.js) *)

Module PosterSource.

(** SourceMetrics; [lastError] holds the message of the last error. *)
Record Metrics := mkMetrics {
  totalRequests : Z;
  successfulRequests : Z;
  failedRequests : Z;
  averageResponseTime : Q;
  lastError : option string;
  consecutiveFailures : Z;
  isTemporarilyDisabled : bool;
  lastSuccessTime : Z
}.

Definition zero_metrics : Metrics :=
  mkMetrics 0 0 0 0%Q None 0 false 0.

(** What a pending [setTimeout] callback of a source does when it fires. *)
Inductive TimerAction :=
| ReenableAndReset            (* set by temporarilyDisable *)
| ReenableIfOpen              (* set by the circuit breaker when it opens *)
| RestoreRateLimit (limit : positive).  (* set by TMDB's _adjustRateLimit *)

Record Timer := mkTimer {
  due : Z;
  action : TimerAction
}.

(** The fields every source has. *)
Record Base := mkBase {
  name : string;
  priority : Z;
  isEnabled : bool;
  timeout : Z;
  metrics : Metrics;
  _responseTimes : list Z;
  timers : list Timer
}.

(** [config.rateLimit], as the repository gives it: a number of requests
    (the tests of the sources), or an object with a number of requests and
    a window in milliseconds (config/poster-config.js). *)
Inductive RateLimit :=
| Requests (n : Z)
| PerWindow (requests window : Z).

(** The configuration object a source is built from. *)
Record Config := mkConfig {
  c_enabled : option bool;
  c_timeout : option Z;
  c_rateLimit : option RateLimit;
  c_apiKey : option string;
  c_failureThreshold : option Z;
  c_disableDuration : option Z
}.

Definition empty_config : Config := mkConfig None None None None None None.

(** [constructor(name, priority, config)]: [enabled !== false],
    [timeout || 3000]. *)
Definition new (name : string) (priority : Z) (config : Config) : Base :=
  {| name := name;
     priority := priority;
     isEnabled := match c_enabled config with Some false => false | _ => true end;
     timeout := Js.num_or (c_timeout config) 3000;
     metrics := zero_metrics;
     _responseTimes := [];
     timers := [] |}.

Definition with_metrics (b : Base) (m : Metrics) : Base :=
  mkBase (name b) (priority b) (isEnabled b) (timeout b) m
         (_responseTimes b) (timers b).

Definition with_isEnabled (b : Base) (e : bool) : Base :=
  mkBase (name b) (priority b) e (timeout b) (metrics b)
         (_responseTimes b) (timers b).

Definition with_responseTimes (b : Base) (l : list Z) : Base :=
  mkBase (name b) (priority b) (isEnabled b) (timeout b) (metrics b)
         l (timers b).

Definition with_timers (b : Base) (l : list Timer) : Base :=
  mkBase (name b) (priority b) (isEnabled b) (timeout b) (metrics b)
         (_responseTimes b) l.

Definition with_timeout (b : Base) (t : Z) : Base :=
  mkBase (name b) (priority b) (isEnabled b) t (metrics b)
         (_responseTimes b) (timers b).

Definition with_priority (b : Base) (p : Z) : Base :=
  mkBase (name b) p (isEnabled b) (timeout b) (metrics b)
         (_responseTimes b) (timers b).

Definition set_isTemporarilyDisabled (d : bool) (m : Metrics) : Metrics :=
  mkMetrics (totalRequests m) (successfulRequests m) (failedRequests m)
            (averageResponseTime m) (lastError m) (consecutiveFailures m)
            d (lastSuccessTime m).

Definition set_consecutiveFailures (n : Z) (m : Metrics) : Metrics :=
  mkMetrics (totalRequests m) (successfulRequests m) (failedRequests m)
            (averageResponseTime m) (lastError m) n
            (isTemporarilyDisabled m) (lastSuccessTime m).

Definition set_averageResponseTime (a : Q) (m : Metrics) : Metrics :=
  mkMetrics (totalRequests m) (successfulRequests m) (failedRequests m)
            a (lastError m) (consecutiveFailures m)
            (isTemporarilyDisabled m) (lastSuccessTime m).

(** [getMetrics()]: a copy of the metrics. *)
Definition getMetrics (b : Base) : Metrics := metrics b.

(** [resetMetrics()] *)
Definition resetMetrics (b : Base) : Base :=
  with_responseTimes (with_metrics b zero_metrics) [].

(** [setEnabled(enabled)] *)
Definition setEnabled (enabled : bool) (b : Base) : Base :=
  let b1 := with_isEnabled b enabled in
  if enabled then with_metrics b1 (set_isTemporarilyDisabled false (metrics b1))
  else b1.

(** [temporarilyDisable(duration)] at clock [now]; the default duration is
    30 minutes. *)
Definition temporarilyDisable (duration : Z) (now : Z) (b : Base) : Base :=
  let b1 := with_metrics b (set_isTemporarilyDisabled true (metrics b)) in
  with_timers b1 (timers b1 ++ [mkTimer (now + duration) ReenableAndReset]).

Definition sum_list (l : list Z) : Z := fold_left Z.add l 0.

(** [_updateAverageResponseTime(responseTime)]: the mean of the last 100
    response times. *)
Definition _updateAverageResponseTime (responseTime : Z) (b : Base) : Base :=
  let pushed := _responseTimes b ++ [responseTime] in
  let kept := if (100 <? Z.of_nat (length pushed)) then tail pushed else pushed in
  let b1 := with_responseTimes b kept in
  with_metrics b1
    (set_averageResponseTime
       (CacheService.ratio (sum_list kept) (Z.of_nat (length kept)))
       (metrics b1)).

(** [_recordSuccess(responseTime)] at clock [now] *)
Definition _recordSuccess (responseTime : Z) (now : Z) (b : Base) : Base :=
  let m := metrics b in
  let b1 := with_metrics b
    (mkMetrics (totalRequests m + 1) (successfulRequests m + 1)
               (failedRequests m) (averageResponseTime m) (lastError m)
               0 (isTemporarilyDisabled m) now) in
  _updateAverageResponseTime responseTime b1.

(** [_recordFailure(error, responseTime)], the base-class method. *)
Definition _recordFailure (error : Err.t) (responseTime : Z) (b : Base) : Base :=
  let m := metrics b in
  let b1 := with_metrics b
    (mkMetrics (totalRequests m + 1) (successfulRequests m)
               (failedRequests m + 1) (averageResponseTime m)
               (Some (Err.message error))
               (consecutiveFailures m + 1) (isTemporarilyDisabled m)
               (lastSuccessTime m)) in
  if 0 <? responseTime then _updateAverageResponseTime responseTime b1 else b1.

(** [isAvailable()] *)
Definition isAvailable (b : Base) : bool :=
  isEnabled b && negb (isTemporarilyDisabled (metrics b)).

End PosterSource.

(** ** The circuit breaker of KitsuSource and TMDBSource

    utils/kitsu.js and poster-system/sources/TMDBSource.js carry the same
    [_canMakeRequest], [_onSuccess], [_onFailure], [resetCircuitBreaker],
    [openCircuitBreaker] and [getCircuitBreakerState], line for line; they
    are embedded once, over the fields the two classes share. *)

Module Breaker.
Import PosterSource.

Inductive CircuitState := CLOSED | OPEN | HALF_OPEN.

Record t := mk {
  circuitState : CircuitState;
  failureThreshold : Z;
  disableDuration : Z;
  nextAttemptTime : Z
}.

(** The constructor's breaker fields: [failureThreshold || 10],
    [disableDuration || 30 * 60 * 1000]. *)
Definition new (config : Config) : t :=
  {| circuitState := CLOSED;
     failureThreshold := Js.num_or (c_failureThreshold config) 10;
     disableDuration := Js.num_or (c_disableDuration config) (30 * 60 * 1000);
     nextAttemptTime := 0 |}.

Definition with_state (cb : t) (s : CircuitState) : t :=
  mk s (failureThreshold cb) (disableDuration cb) (nextAttemptTime cb).

Definition with_nextAttemptTime (cb : t) (n : Z) : t :=
  mk (circuitState cb) (failureThreshold cb) (disableDuration cb) n.

(** [_canMakeRequest()] at clock [now] *)
Definition _canMakeRequest (now : Z) (cb : t) : bool * t :=
  match circuitState cb with
  | CLOSED => (true, cb)
  | OPEN =>
      if nextAttemptTime cb <=? now then (true, with_state cb HALF_OPEN)
      else (false, cb)
  | HALF_OPEN => (true, cb)
  end.

(** [_onSuccess()] *)
Definition _onSuccess (cb : t) (b : Base) : t * Base :=
  match circuitState cb with
  | HALF_OPEN =>
      (with_state cb CLOSED,
       with_metrics b
         (set_isTemporarilyDisabled false
            (set_consecutiveFailures 0 (metrics b))))
  | _ => (cb, b)
  end.

(** [_onFailure()] at clock [now] *)
Definition _onFailure (now : Z) (cb : t) (b : Base) : t * Base :=
  match circuitState cb with
  | HALF_OPEN =>
      (with_nextAttemptTime (with_state cb OPEN) (now + disableDuration cb),
       with_metrics b (set_isTemporarilyDisabled true (metrics b)))
  | _ =>
      if failureThreshold cb <=? consecutiveFailures (metrics b) then
        let b1 := with_metrics b (set_isTemporarilyDisabled true (metrics b)) in
        (with_nextAttemptTime (with_state cb OPEN) (now + disableDuration cb),
         with_timers b1
           (timers b1 ++ [mkTimer (now + disableDuration cb) ReenableIfOpen]))
      else (cb, b)
  end.

(** The subclass override of [_recordFailure]: the base method, then
    [_onFailure]. *)
Definition _recordFailure (error : Err.t) (responseTime : Z) (now : Z)
    (cb : t) (b : Base) : t * Base :=
  _onFailure now cb (PosterSource._recordFailure error responseTime b).

(** [resetCircuitBreaker()] *)
Definition resetCircuitBreaker (cb : t) (b : Base) : t * Base :=
  (with_nextAttemptTime (with_state cb CLOSED) 0,
   with_metrics b
     (set_isTemporarilyDisabled false (set_consecutiveFailures 0 (metrics b)))).

(** [openCircuitBreaker(duration)] at clock [now] *)
Definition openCircuitBreaker (duration : Z) (now : Z) (cb : t) (b : Base)
  : t * Base :=
  (with_nextAttemptTime (with_state cb OPEN) (now + duration),
   with_metrics b (set_isTemporarilyDisabled true (metrics b))).

Record StateView := mkStateView {
  v_state : CircuitState;
  v_consecutiveFailures : Z;
  v_failureThreshold : Z;
  v_nextAttemptTime : Z;
  v_timeUntilNextAttempt : Z;
  v_isTemporarilyDisabled : bool;
  v_disableDuration : Z
}.

(** [getCircuitBreakerState()] at clock [now] *)
Definition getCircuitBreakerState (now : Z) (cb : t) (b : Base) : StateView :=
  {| v_state := circuitState cb;
     v_consecutiveFailures := consecutiveFailures (metrics b);
     v_failureThreshold := failureThreshold cb;
     v_nextAttemptTime := nextAttemptTime cb;
     v_timeUntilNextAttempt := Z.max 0 (nextAttemptTime cb - now);
     v_isTemporarilyDisabled := isTemporarilyDisabled (metrics b);
     v_disableDuration := disableDuration cb |}.

End Breaker.

(** ** The interface of a source class

    What [_executeWithMetrics] and the timers need of a subclass: its
    PosterSource fields, its own [_recordFailure] (KitsuSource and
    TMDBSource override it), and what its timer callbacks do. *)

Class SourceClass (S : Type) := {
  base_of : S -> PosterSource.Base;
  with_base : S -> PosterSource.Base -> S;
  record_failure : Err.t -> Z -> Z -> S -> S;
  run_timer : PosterSource.TimerAction -> S -> S
}.

Module Exec.
Import PosterSource.
Section WithClass.
Context {S : Type} `{SourceClass S}.

(** [_executeWithMetrics(requestFn)], called at clock [t0]; the race
    between [requestFn()] and the timeout timer settles at clock [t_end].
    [requestFn] gives what the race settles to and what the request
    function did to the source. *)
Definition _executeWithMetrics (t0 t_end : Z)
    (requestFn : S -> Err.result (option string) * S) (s : S)
  : Err.result (option string) * S :=
  if negb (isAvailable (base_of s)) then
    (Err.Throw (Err.Unavailable (name (base_of s))), s)
  else
    let startTime := t0 in
    let '(r, s1) := requestFn s in
    let responseTime := t_end - startTime in
    match r with
    | Err.Return result =>
        (Err.Return result,
         with_base s1 (_recordSuccess responseTime t_end (base_of s1)))
    | Err.Throw error =>
        (Err.Throw error, record_failure error responseTime t_end s1)
    end.

(** The event loop at clock [now]: the timers of the source that are due
    fire, earliest first, and are removed. *)
Definition fire_timers (now : Z) (s : S) : S :=
  let all := timers (base_of s) in
  let due_now := List.filter (fun t => due t <=? now) all in
  let pending := List.filter (fun t => negb (due t <=? now)) all in
  fold_left (fun s t => run_timer (action t) s)
            (Js.sort_by due due_now)
            (with_base s (with_timers (base_of s) pending)).

End WithClass.
End Exec.

(** The callback of [temporarilyDisable]'s timer. *)
Definition reenable_and_reset (b : PosterSource.Base) : PosterSource.Base :=
  PosterSource.with_metrics b
    (PosterSource.set_consecutiveFailures 0
       (PosterSource.set_isTemporarilyDisabled false (PosterSource.metrics b))).

(** ** KitsuSource (utils/kitsu.js) *)

Module KitsuSource.
Import PosterSource.

Record t := mk {
  base : Base;
  cb : Breaker.t;
  (* this.config.rateLimit *)
  rateLimit : RateLimit;
  lastRequestTime : Z;
  minRequestInterval : Js.number
}.

(** [60000 / rateLimit]: the quotient by a number, [Infinity] when the
    number is 0, and [NaN] when [rateLimit] is an object, which converts to
    no number. *)
Definition interval_of (rateLimit : RateLimit) : Js.number :=
  match rateLimit with
  | Requests (Zpos p) => Js.Num (60000 # p)
  | Requests (Zneg p) => Js.Num (-60000 # p)
  | Requests Z0 => Js.Infinity
  | PerWindow _ _ => Js.NaN
  end.

(** [new KitsuSource(config)]: name 'kitsu', priority 1; the configuration
    kept is [{timeout: 3000, enabled: true, rateLimit: 30, ...config}], so
    that [rateLimit] is 30 unless [config] has one; the interval between
    requests is [60000 / this.config.rateLimit]. *)
Definition new (config : Config) : t :=
  let rl := match c_rateLimit config with Some r => r | None => Requests 30 end in
  {| base := PosterSource.new "kitsu" 1 config;
     cb := Breaker.new config;
     rateLimit := rl;
     lastRequestTime := 0;
     minRequestInterval := interval_of rl |}.

Definition with_b (k : t) (b : Base) : t :=
  mk b (cb k) (rateLimit k) (lastRequestTime k) (minRequestInterval k).
Definition with_cb (k : t) (c : Breaker.t) : t :=
  mk (base k) c (rateLimit k) (lastRequestTime k) (minRequestInterval k).
Definition with_lastRequestTime (k : t) (n : Z) : t :=
  mk (base k) (cb k) (rateLimit k) n (minRequestInterval k).

Definition _recordFailure (error : Err.t) (responseTime now : Z) (k : t) : t :=
  let '(c, b) := Breaker._recordFailure error responseTime now (cb k) (base k) in
  with_b (with_cb k c) b.

Definition timer_callback (a : TimerAction) (k : t) : t :=
  match a with
  | ReenableAndReset => with_b k (reenable_and_reset (base k))
  | ReenableIfOpen =>
      match Breaker.circuitState (cb k) with
      | Breaker.OPEN =>
          with_b k (with_metrics (base k)
                      (set_isTemporarilyDisabled false (metrics (base k))))
      | _ => k
      end
  | RestoreRateLimit _ => k
  end.

#[global] Instance source_class : SourceClass t :=
  {| base_of := base; with_base := with_b;
     record_failure := _recordFailure; run_timer := timer_callback |}.

(** [data?.data?.attributes?.posterImage] *)
Record PosterImage := mkPosterImage {
  large : option string;
  medium : option string;
  original : option string
}.

(** What the network answers to the request of one attempt. *)
Inductive Reply :=
| Ok (posterImage : option PosterImage)
| Status (status : Z) (statusText : string)
| Rejected (message : string)
| TimedOut.

(** The world of one attempt: the clock when the rate limiter lets the
    request go, the clock when the race of [_executeWithMetrics] settles,
    and the reply. *)
Record Env := mkEnv {
  t_req : Z;
  t_end : Z;
  reply : Reply
}.

(** The delay [_waitForRateLimit] asks of [setTimeout] at clock [now], if
    it waits: it does when [timeSinceLastRequest < this.minRequestInterval]. *)
Definition waitTime (now : Z) (k : t) : option Js.number :=
  let timeSinceLastRequest := now - lastRequestTime k in
  if Js.lt_number timeSinceLastRequest (minRequestInterval k)
  then Some (Js.minus_number (minRequestInterval k) timeSinceLastRequest)
  else None.

(** [_waitForRateLimit()], entered at clock [now] and left at clock
    [t_req]: the delay it asks of [setTimeout], if it waits, and the source
    afterwards. *)
Definition _waitForRateLimit (now t_req : Z) (k : t) : option Js.number * t :=
  (waitTime now k, with_lastRequestTime k t_req).

(** The request function handed to [_executeWithMetrics], up to the moment
    the race settles. When the timeout timer wins the race nothing awaits
    the request function any more: this definition keeps its rate-limiter
    step, which comes before the network call; what it does when the
    network answers later is in [Flights]. *)
Definition requestFn (t0 : Z) (env : Env) (k : t)
  : Err.result (option string) * t :=
  let k1 := snd (_waitForRateLimit t0 (t_req env) k) in
  match reply env with
  | TimedOut => (Err.Throw Err.Timeout, k1)
  | Rejected m => (Err.Throw (Err.Other m), k1)
  | Status status statusText =>
      if status =? 404 then (Err.Return None, k1)
      else (Err.Throw (Err.Http status statusText), k1)
  | Ok poster =>
      let posterUrl :=
        match poster with
        | Some p =>
            Js.str_or (large p)
              (Js.str_or (medium p) (Js.str_or (original p) None))
        | None => None
        end in
      match posterUrl with
      | Some url =>
          let '(c, b) := Breaker._onSuccess (cb k1) (base k1) in
          (Err.Return (Some url), with_b (with_cb k1 c) b)
      | None => (Err.Return None, k1)
      end
  end.

(** [fetchPoster(animeId, animeName)] called at clock [t0]. *)
Definition fetchPoster (animeId animeName : string) (t0 : Z) (env : Env) (k : t)
  : Err.result (option string) * t :=
  let '(can, c) := Breaker._canMakeRequest t0 (cb k) in
  let k1 := with_cb k c in
  if negb can then (Err.Throw (Err.CircuitOpen (name (base k1))), k1)
  else if (negb (Js.truthy animeId) || Js.isNaN animeId)%bool then
    (Err.Throw Err.InvalidId, k1)
  else Exec._executeWithMetrics t0 (t_end env) (requestFn t0 env) k1.

Record RateLimitView := mkRateLimitView {
  rl_limit : RateLimit;
  rl_interval : Js.number;
  rl_lastRequestTime : Z
}.

Record MetricsView := mkMetricsView {
  mv_metrics : Metrics;
  mv_circuitBreaker : Breaker.StateView;
  mv_rateLimit : RateLimitView;
  mv_timeout : Z;
  mv_failureThreshold : Z;
  mv_disableDuration : Z
}.

(** [getMetrics()] at clock [now] *)
Definition getMetrics (now : Z) (k : t) : MetricsView :=
  {| mv_metrics := PosterSource.getMetrics (base k);
     mv_circuitBreaker := Breaker.getCircuitBreakerState now (cb k) (base k);
     mv_rateLimit := mkRateLimitView (rateLimit k) (minRequestInterval k)
                                     (lastRequestTime k);
     mv_timeout := timeout (base k);
     mv_failureThreshold := Breaker.failureThreshold (cb k);
     mv_disableDuration := Breaker.disableDuration (cb k) |}.

End KitsuSource.

(** ** TMDBSource (poster-system/sources/TMDBSource.js) *)

Module TMDBSource.
Import PosterSource.

Record t := mk {
  base : Base;
  cb : Breaker.t;
  apiKey : option string;
  requestTimes : list Z;
  maxRequestsPer10Sec : positive;
  rateLimitWindow : Z
}.

(** [new TMDBSource(config)]: name 'tmdb', priority 2; the key comes from
    the configuration or from the environment variable; without a key the
    source is disabled. *)
Definition new (config : Config) (env_TMDB_API_KEY : option string) : t :=
  let key := Js.str_or (c_apiKey config) (Js.str_or env_TMDB_API_KEY None) in
  let b := PosterSource.new "tmdb" 2 config in
  {| base := match key with Some _ => b | None => setEnabled false b end;
     cb := Breaker.new config;
     apiKey := key;
     requestTimes := [];
     maxRequestsPer10Sec := 40;
     rateLimitWindow := 10000 |}.

Definition with_b (s : t) (b : Base) : t :=
  mk b (cb s) (apiKey s) (requestTimes s) (maxRequestsPer10Sec s) (rateLimitWindow s).
Definition with_cb (s : t) (c : Breaker.t) : t :=
  mk (base s) c (apiKey s) (requestTimes s) (maxRequestsPer10Sec s) (rateLimitWindow s).
Definition with_requestTimes (s : t) (l : list Z) : t :=
  mk (base s) (cb s) (apiKey s) l (maxRequestsPer10Sec s) (rateLimitWindow s).
Definition with_max (s : t) (n : positive) : t :=
  mk (base s) (cb s) (apiKey s) (requestTimes s) n (rateLimitWindow s).

Definition _recordFailure (error : Err.t) (responseTime now : Z) (s : t) : t :=
  let '(c, b) := Breaker._recordFailure error responseTime now (cb s) (base s) in
  with_b (with_cb s c) b.

Definition timer_callback (a : TimerAction) (s : t) : t :=
  match a with
  | ReenableAndReset => with_b s (reenable_and_reset (base s))
  | ReenableIfOpen =>
      match Breaker.circuitState (cb s) with
      | Breaker.OPEN =>
          with_b s (with_metrics (base s)
                      (set_isTemporarilyDisabled false (metrics (base s))))
      | _ => s
      end
  | RestoreRateLimit originalLimit => with_max s originalLimit
  end.

#[global] Instance source_class : SourceClass t :=
  {| base_of := base; with_base := with_b;
     record_failure := _recordFailure; run_timer := timer_callback |}.

(** What the server answers to one [_makeRequest]: a 200 with the
    [poster_path] of each result, a 200 whose body does not parse, another
    status with the [retry_after] of its body, or a network error. *)
Inductive HttpReply :=
| H200 (poster_paths : list (option string))
| H200Unparsable
| HStatus (status : Z) (retry_after : option Z)
| HNetError.

Inductive Reply :=
| Searches (tv movie : HttpReply)
| TimedOut.

Record Env := mkEnv {
  t_req : Z;
  t_end : Z;
  reply : Reply
}.

(** [Math.min(...times)]; [None] stands for the [Infinity] of an empty list. *)
Fixpoint list_min (l : list Z) : option Z :=
  match l with
  | [] => None
  | x :: l' => match list_min l' with
               | Some m => Some (Z.min x m)
               | None => Some x
               end
  end.

Definition prune (window now : Z) (times : list Z) : list Z :=
  List.filter (fun time => now - time <? window) times.

(** The delay [_waitForRateLimit] asks of [setTimeout] at clock [now], if
    it waits. *)
Definition waitTime (now : Z) (s : t) : option Z :=
  let recent := prune (rateLimitWindow s) now (requestTimes s) in
  if Z.pos (maxRequestsPer10Sec s) <=? Z.of_nat (length recent) then
    match list_min recent with
    | Some oldestRequest =>
        let w := rateLimitWindow s - (now - oldestRequest) + 100 in
        if 0 <? w then Some w else None
    | None => None (* not reached: the limit is at least 1 *)
    end
  else None.

(** [_waitForRateLimit()], entered at clock [now] and left at clock [t_req]. *)
Definition _waitForRateLimit (now t_req : Z) (s : t) : t :=
  let recent := prune (rateLimitWindow s) now (requestTimes s) in
  let after :=
    match waitTime now s with
    | Some _ => prune (rateLimitWindow s) t_req recent
    | None => recent
    end in
  with_requestTimes s (after ++ [t_req]).

(** [canMakeRequestNow()] *)
Definition canMakeRequestNow (now : Z) (s : t) : bool :=
  Z.of_nat (length (prune (rateLimitWindow s) now (requestTimes s)))
  <? Z.pos (maxRequestsPer10Sec s).

(** [_adjustRateLimit(retryAfter)] at clock [now]: halves the limit and sets
    the timer that restores it. *)
Definition _adjustRateLimit (retryAfter : Z) (now : Z) (s : t) : t :=
  let originalLimit := maxRequestsPer10Sec s in
  let s1 := with_max s (Pos.max 1 (Z.to_pos (Z.pos originalLimit / 2))) in
  with_b s1 (with_timers (base s1)
    (timers (base s1) ++
       [mkTimer (now + (retryAfter * 1000 + 5000)) (RestoreRateLimit originalLimit)])).

(** [_makeRequest(url)] with [_handleHttpError]: the results, or the
    rejection, and what handling the status did to the source. The messages
    of the rejections are the fixed texts of [_handleHttpError]; they are
    kept as [Err.Http]. *)
Definition _makeRequest (now : Z) (r : HttpReply) (s : t)
  : Err.result (list (option string)) * t :=
  match r with
  | H200 paths => (Err.Return paths, s)
  | H200Unparsable => (Err.Throw (Err.Other "Erreur parsing JSON"), s)
  | HNetError => (Err.Throw (Err.Other "Erreur réseau"), s)
  | HStatus status retry_after =>
      if status =? 401 then
        (Err.Throw (Err.Http 401 ""), with_b s (setEnabled false (base s)))
      else if status =? 404 then (Err.Return [], s)
      else if status =? 429 then
        (Err.Throw (Err.Http 429 ""),
         match retry_after with
         | Some ra => if ra =? 0 then s else _adjustRateLimit ra now s
         | None => s
         end)
      else (Err.Throw (Err.Http status ""), s)
  end.

(** [_searchAsTVShow] and [_searchAsMovie]: the first result with a poster;
    every error of the request is caught and gives [null]. *)
Definition _search (now : Z) (r : HttpReply) (s : t) : option string * t :=
  match _makeRequest now r s with
  | (Err.Return paths, s1) =>
      (match List.filter Js.truthy (omap id paths) with
       | p :: _ => Some ("https://image.tmdb.org/t/p/w500" +:+ p)
       | [] => None
       end, s1)
  | (Err.Throw _, s1) => (None, s1)
  end.

(** The request function handed to [_executeWithMetrics]; see
    [KitsuSource.requestFn] for the case of a timeout. *)
Definition requestFn (t0 : Z) (env : Env) (s : t)
  : Err.result (option string) * t :=
  let s1 := _waitForRateLimit t0 (t_req env) s in
  match reply env with
  | TimedOut => (Err.Throw Err.Timeout, s1)
  | Searches tv movie =>
      let '(fromTv, s2) := _search (t_end env) tv s1 in
      let '(posterUrl, s3) :=
        match fromTv with
        | Some u => (Some u, s2)
        | None => _search (t_end env) movie s2
        end in
      match posterUrl with
      | Some url =>
          let '(c, b) := Breaker._onSuccess (cb s3) (base s3) in
          (Err.Return (Some url), with_b (with_cb s3 c) b)
      | None => (Err.Return None, s3)
      end
  end.

(** [fetchPoster(animeId, animeName)] called at clock [t0]. *)
Definition fetchPoster (animeId animeName : string) (t0 : Z) (env : Env) (s : t)
  : Err.result (option string) * t :=
  let '(can, c) := Breaker._canMakeRequest t0 (cb s) in
  let s1 := with_cb s c in
  if negb can then (Err.Throw (Err.CircuitOpen (name (base s1))), s1)
  else if negb (Js.truthy animeName) then (Err.Throw Err.NameRequired, s1)
  else match apiKey s1 with
       | None => (Err.Throw Err.ApiKeyMissing, s1)
       | Some _ => Exec._executeWithMetrics t0 (t_end env) (requestFn t0 env) s1
       end.

Record RateLimitView := mkRateLimitView {
  rl_limit : positive;
  rl_window : Z;
  rl_currentRequests : Z;
  rl_requestTimes : list Z
}.

Record MetricsView := mkMetricsView {
  mv_metrics : Metrics;
  mv_circuitBreaker : Breaker.StateView;
  mv_rateLimit : RateLimitView;
  mv_timeout : Z;
  mv_hasApiKey : bool;
  mv_failureThreshold : Z;
  mv_disableDuration : Z
}.

(** [getMetrics()] at clock [now] *)
Definition getMetrics (now : Z) (s : t) : MetricsView :=
  {| mv_metrics := PosterSource.getMetrics (base s);
     mv_circuitBreaker := Breaker.getCircuitBreakerState now (cb s) (base s);
     mv_rateLimit := mkRateLimitView (maxRequestsPer10Sec s) (rateLimitWindow s)
                       (Z.of_nat (length (requestTimes s))) (requestTimes s);
     mv_timeout := timeout (base s);
     mv_hasApiKey := match apiKey s with Some _ => true | None => false end;
     mv_failureThreshold := Breaker.failureThreshold (cb s);
     mv_disableDuration := Breaker.disableDuration (cb s) |}.

End TMDBSource.

(** ** NautiljonSource (poster-system/sources/NautiljonSource.js) *)

Module NautiljonSource.
Import PosterSource.

Record t := mk {
  base : Base;
  lastRequestTime : Z;
  minRequestInterval : Z
}.

(** [new NautiljonSource(config)]: name 'Nautiljon', priority 3, 6 s
    between requests. The configuration handed to the base constructor is
    [{timeout: 5000, enabled: ..., ...config}], of which it takes
    [timeout || 3000]: 5 s when [config] has no timeout, the configured one
    when it is truthy, 3 s otherwise. *)
Definition new (config : Config) : t :=
  {| base := with_timeout (PosterSource.new "Nautiljon" 3 config)
                          (match c_timeout config with
                           | None => 5000
                           | Some v => Js.num_or (Some v) 3000
                           end);
     lastRequestTime := 0;
     minRequestInterval := 6000 |}.

Definition with_b (s : t) (b : Base) : t :=
  mk b (lastRequestTime s) (minRequestInterval s).

Definition timer_callback (a : TimerAction) (s : t) : t :=
  match a with
  | ReenableAndReset => with_b s (reenable_and_reset (base s))
  | _ => s
  end.

#[global] Instance source_class : SourceClass t :=
  {| base_of := base; with_base := with_b;
     record_failure := fun e rt _ s => with_b s (PosterSource._recordFailure e rt (base s));
     run_timer := timer_callback |}.

(** What the scraping of one attempt ends in. *)
Inductive Reply :=
| Scraped (posterUrl : option string)
| Failed (message : string)
| TimedOut.

Record Env := mkEnv {
  t_req : Z;
  t_end : Z;
  reply : Reply
}.

(** [_ensureRateLimit()], entered at clock [now] and left at clock [t_req]. *)
Definition _ensureRateLimit (now t_req : Z) (s : t) : Z * t :=
  let timeSinceLastRequest := now - lastRequestTime s in
  let waitTime :=
    if timeSinceLastRequest <? minRequestInterval s
    then minRequestInterval s - timeSinceLastRequest else 0 in
  (waitTime, mk (base s) t_req (minRequestInterval s)).

Definition requestFn (t0 : Z) (env : Env) (s : t)
  : Err.result (option string) * t :=
  let s1 := snd (_ensureRateLimit t0 (t_req env) s) in
  match reply env with
  | TimedOut => (Err.Throw Err.Timeout, s1)
  | Failed m => (Err.Throw (Err.Other m), s1)
  | Scraped posterUrl => (Err.Return posterUrl, s1)
  end.

(** [fetchPoster(animeId, animeName)] called at clock [t0]. *)
Definition fetchPoster (animeId animeName : string) (t0 : Z) (env : Env) (s : t)
  : Err.result (option string) * t :=
  Exec._executeWithMetrics t0 (t_end env) (requestFn t0 env) s.

End NautiljonSource.

(** ** FallbackChain (poster-system/services/FallbackChain.js) *)

Module FallbackChain.
Import PosterSource.

(** The sources that can be registered: the three classes of the
    repository. *)
Inductive Source :=
| Kitsu (k : KitsuSource.t)
| Tmdb (s : TMDBSource.t)
| Nautiljon (n : NautiljonSource.t).

Definition base (s : Source) : Base :=
  match s with
  | Kitsu k => base_of k
  | Tmdb t => base_of t
  | Nautiljon n => base_of n
  end.

Definition set_base (s : Source) (b : Base) : Source :=
  match s with
  | Kitsu k => Kitsu (with_base k b)
  | Tmdb t => Tmdb (with_base t b)
  | Nautiljon n => Nautiljon (with_base n b)
  end.

(** The world of one attempt on a source: the clock when its
    [fetchPoster] is called, the clock when its rate limiter lets the
    request go, the clock when the attempt settles, and what the network
    answers, for whichever class the source is of. *)
Record Attempt := mkAttempt {
  t_start : Z;
  t_req : Z;
  t_end : Z;
  kitsu_reply : KitsuSource.Reply;
  tmdb_reply : TMDBSource.Reply;
  nautiljon_reply : NautiljonSource.Reply
}.

(** [source.fetchPoster(animeId, animeName)], by the class of the source:
    one attempt from the call to the moment [_executeWithMetrics] settles,
    with no other request on the source in between. Requests that overlap
    on a source, and what a request given up by the timeout does later,
    are in [Flights]. *)
Definition source_fetchPoster (animeId animeName : string) (a : Attempt)
    (s : Source) : Err.result (option string) * Source :=
  match s with
  | Kitsu k =>
      let '(r, k') := KitsuSource.fetchPoster animeId animeName (t_start a)
                        (KitsuSource.mkEnv (t_req a) (t_end a) (kitsu_reply a)) k in
      (r, Kitsu k')
  | Tmdb t =>
      let '(r, t') := TMDBSource.fetchPoster animeId animeName (t_start a)
                        (TMDBSource.mkEnv (t_req a) (t_end a) (tmdb_reply a)) t in
      (r, Tmdb t')
  | Nautiljon n =>
      let '(r, n') := NautiljonSource.fetchPoster animeId animeName (t_start a)
                        (NautiljonSource.mkEnv (t_req a) (t_end a) (nautiljon_reply a)) n in
      (r, Nautiljon n')
  end.

(** The statistics of one source, as [getSourcesStats] reports them. *)
Inductive ClassMetrics :=
| KitsuMetrics (v : KitsuSource.MetricsView)
| TmdbMetrics (v : TMDBSource.MetricsView)
| PlainMetrics (m : Metrics).

Definition source_getMetrics (now : Z) (s : Source) : ClassMetrics :=
  match s with
  | Kitsu k => KitsuMetrics (KitsuSource.getMetrics now k)
  | Tmdb t => TmdbMetrics (TMDBSource.getMetrics now t)
  | Nautiljon n => PlainMetrics (PosterSource.getMetrics (base_of n))
  end.

Record SourceStats := mkSourceStats {
  ss_metrics : ClassMetrics;
  ss_priority : Z;
  ss_enabled : bool;
  ss_available : bool
}.

Record t := mk {
  sourcesConfig : gmap string Config;
  sources : list (string * Source)
}.

Definition new (sourcesConfig : gmap string Config) : t :=
  mk sourcesConfig [].

(** [registerSource(source)] *)
Definition registerSource (s : Source) (c : t) : t :=
  mk (sourcesConfig c) (JsMap.set (name (base s)) s (sources c)).

(** [_getOrderedSources()]: the enabled sources by ascending priority. *)
Definition _getOrderedSources (c : t) : list Source :=
  Js.sort_by (fun s => priority (base s))
    (List.filter (fun s => isEnabled (base s)) (map snd (sources c))).

(** [_getFailureThreshold()] *)
Definition _getFailureThreshold : Z := 10.

Record Result := mkResult {
  url : option string;
  source : string
}.

(** The [for] loop of [fetchPoster] over the ordered sources. The sources
    are objects shared with the [sources] map: the loop is over their names
    and reads and writes the map. [world] gives the attempt of each source. *)
Fixpoint walk (animeId animeName : string) (world : string -> Attempt)
    (ordered : list string) (srcs : list (string * Source))
  : Result * list (string * Source) :=
  match ordered with
  | [] => (mkResult None "all_sources_failed", srcs)
  | n :: rest =>
      match JsMap.get n srcs with
      | None => walk animeId animeName world rest srcs
      | Some src =>
          if negb (isAvailable (base src)) then
            walk animeId animeName world rest srcs
          else
            let a := world n in
            match source_fetchPoster animeId animeName a src with
            | (Err.Return (Some posterUrl), src') =>
                if Js.truthy posterUrl then
                  (mkResult (Some posterUrl) (name (base src')),
                   JsMap.set n src' srcs)
                else walk animeId animeName world rest (JsMap.set n src' srcs)
            | (Err.Return None, src') =>
                walk animeId animeName world rest (JsMap.set n src' srcs)
            | (Err.Throw _, src') =>
                let src'' :=
                  if _getFailureThreshold <=? consecutiveFailures (metrics (base src'))
                  then set_base src' (temporarilyDisable (30 * 60 * 1000) (t_end a) (base src'))
                  else src' in
                walk animeId animeName world rest (JsMap.set n src'' srcs)
            end
      end
  end.

(** [fetchPoster(animeId, animeName)] *)
Definition fetchPoster (animeId animeName : string) (world : string -> Attempt)
    (c : t) : Result * t :=
  let orderedSources := _getOrderedSources c in
  match orderedSources with
  | [] => (mkResult None "no_sources_available", c)
  | _ =>
      let '(r, srcs) := walk animeId animeName world
                          (map (fun s => name (base s)) orderedSources)
                          (sources c) in
      (r, mk (sourcesConfig c) srcs)
  end.

(** [setSourceEnabled(sourceName, enabled)] *)
Definition setSourceEnabled (sourceName : string) (enabled : bool) (c : t) : t :=
  match JsMap.get sourceName (sources c) with
  | Some s =>
      mk (sourcesConfig c)
         (JsMap.set sourceName (set_base s (setEnabled enabled (base s))) (sources c))
  | None => c
  end.

(** [getSourcesStats()] at clock [now] *)
Definition getSourcesStats (now : Z) (c : t) : gmap string SourceStats :=
  list_to_map
    (map (fun kv =>
            (fst kv,
             mkSourceStats (source_getMetrics now (snd kv))
                           (priority (base (snd kv)))
                           (isEnabled (base (snd kv)))
                           (isAvailable (base (snd kv)))))
         (sources c)).

(** [resetMetrics()] *)
Definition resetMetrics (c : t) : t :=
  mk (sourcesConfig c)
     (map (fun kv => (fst kv, set_base (snd kv) (PosterSource.resetMetrics (base (snd kv)))))
          (sources c)).

End FallbackChain.

(** ** MetricsCollector (poster-system/services/MetricsCollector.js)

    [sourceUsage] and [errorTypes] are plain objects used as dictionaries.
    The maps below are those dictionaries for the names that no object
    inherits from [Object.prototype] ([Js.inherited]): the names of the
    sources of the repository, 'all_sources_failed', the names of errors.
    Under an inherited name ('constructor', 'toString', ...) the lookups of
    [recordSuccess] and [recordFailure] find the inherited value, and what
    they store is no counter; the properties that count per name are
    stated for the other names. *)

Module MetricsCollector.

Record Usage := mkUsage {
  success : Z;
  failure : Z
}.

Record t := mk {
  totalRequests : Z;
  successfulRequests : Z;
  failedRequests : Z;
  cacheHits : Z;
  cacheMisses : Z;
  averageResponseTime : Q;
  sourceUsage : gmap string Usage;
  errorTypes : gmap string Z;
  startTime : Z;
  _responseTimes : list Z
}.

(** [new MetricsCollector()] at clock [now]; [reset()] builds the same. *)
Definition new (now : Z) : t :=
  mk 0 0 0 0 0 0%Q ∅ ∅ now [].

Definition reset (now : Z) (m : t) : t := new now.

(** [recordCacheHit()] *)
Definition recordCacheHit (m : t) : t :=
  mk (totalRequests m) (successfulRequests m) (failedRequests m)
     (cacheHits m + 1) (cacheMisses m) (averageResponseTime m)
     (sourceUsage m) (errorTypes m) (startTime m) (_responseTimes m).

(** [recordCacheMiss()] *)
Definition recordCacheMiss (m : t) : t :=
  mk (totalRequests m) (successfulRequests m) (failedRequests m)
     (cacheHits m) (cacheMisses m + 1) (averageResponseTime m)
     (sourceUsage m) (errorTypes m) (startTime m) (_responseTimes m).

Definition usage_of (m : t) (source : string) : Usage :=
  match sourceUsage m !! source with
  | Some u => u
  | None => mkUsage 0 0
  end.

(** [_updateAverageResponseTime(responseTime)]: the mean of the last 1000. *)
Definition _updateAverageResponseTime (responseTime : Z) (m : t) : t :=
  let pushed := _responseTimes m ++ [responseTime] in
  let kept := if (1000 <? Z.of_nat (length pushed)) then tail pushed else pushed in
  mk (totalRequests m) (successfulRequests m) (failedRequests m)
     (cacheHits m) (cacheMisses m)
     (CacheService.ratio (PosterSource.sum_list kept) (Z.of_nat (length kept)))
     (sourceUsage m) (errorTypes m) (startTime m) kept.

(** [recordSuccess(source, responseTime = 0)] *)
Definition recordSuccess (source : string) (responseTime : Z) (m : t) : t :=
  let u := usage_of m source in
  let m1 :=
    mk (totalRequests m + 1) (successfulRequests m + 1) (failedRequests m)
       (cacheHits m) (cacheMisses m) (averageResponseTime m)
       (<[source := mkUsage (success u + 1) (failure u)]> (sourceUsage m))
       (errorTypes m) (startTime m) (_responseTimes m) in
  if 0 <? responseTime then _updateAverageResponseTime responseTime m1 else m1.

(** [recordFailure(errorType, source = null)] *)
Definition recordFailure (errorType : string) (source : option string) (m : t) : t :=
  let count := match errorTypes m !! errorType with Some n => n | None => 0 end in
  let usage :=
    match source with
    | Some s =>
        if Js.truthy s then
          let u := usage_of m s in
          <[s := mkUsage (success u) (failure u + 1)]> (sourceUsage m)
        else sourceUsage m
    | None => sourceUsage m
    end in
  mk (totalRequests m + 1) (successfulRequests m) (failedRequests m + 1)
     (cacheHits m) (cacheMisses m) (averageResponseTime m)
     usage (<[errorType := count + 1]> (errorTypes m))
     (startTime m) (_responseTimes m).

(** A thrown value, as far as the collector looks at it. *)
Record JsError := mkJsError {
  err_name : string;
  err_message : string
}.

(** [recordError(error)]: [error.name || 'UnknownError'] *)
Definition recordError (error : JsError) (m : t) : t :=
  recordFailure (if Js.truthy (err_name error) then err_name error
                 else "UnknownError") None m.

(** The value of [totalRequests / (uptime / 60000) || 0]: the division by a
    zero uptime gives [Infinity], or [NaN] (turned into 0 by [||]) when no
    request was counted. *)
Inductive Rate :=
| Finite (q : Q)
| Infinite.

Record StatsView := mkStatsView {
  sv_totalRequests : Z;
  sv_successfulRequests : Z;
  sv_failedRequests : Z;
  sv_cacheHits : Z;
  sv_cacheMisses : Z;
  sv_averageResponseTime : Q;
  sv_sourceUsage : gmap string Usage;
  sv_errorTypes : gmap string Z;
  sv_startTime : Z;
  sv_uptime : Z;
  sv_successRate : Q;
  sv_cacheHitRate : Q;
  sv_requestsPerMinute : Rate
}.

(** [getStats()] at clock [now] *)
Definition getStats (now : Z) (m : t) : StatsView :=
  let uptime := now - startTime m in
  let totalCacheRequests := cacheHits m + cacheMisses m in
  {| sv_totalRequests := totalRequests m;
     sv_successfulRequests := successfulRequests m;
     sv_failedRequests := failedRequests m;
     sv_cacheHits := cacheHits m;
     sv_cacheMisses := cacheMisses m;
     sv_averageResponseTime := averageResponseTime m;
     sv_sourceUsage := sourceUsage m;
     sv_errorTypes := errorTypes m;
     sv_startTime := startTime m;
     sv_uptime := uptime;
     sv_successRate :=
       if 0 <? totalRequests m
       then CacheService.ratio (successfulRequests m) (totalRequests m) else 0%Q;
     sv_cacheHitRate :=
       if 0 <? totalCacheRequests
       then CacheService.ratio (cacheHits m) totalCacheRequests else 0%Q;
     sv_requestsPerMinute :=
       if uptime =? 0 then
         (if totalRequests m =? 0 then Finite 0%Q else Infinite)
       else Finite (CacheService.ratio (totalRequests m * 60000) uptime) |}.

End MetricsCollector.

(** ** PosterManager (poster-system/PosterManager.js) *)

Module PosterManager.
Import MetricsCollector.

(** PosterResult *)
Record PosterResult := mkPosterResult {
  url : option string;
  source : string;
  fromCache : bool;
  responseTime : Z
}.

(** How a promise of a poster settles. *)
Inductive Settled :=
| Fulfilled (r : PosterResult)
| Rejected (e : JsError).

(** The awaited calls of [_getPosterInternal] on the services of the
    manager, inside its [try] block: each may throw. *)
Inductive Site :=
| CacheGet
| ChainFetchPoster
| CacheSet.

(** The world of one step of the manager: the clock when the step starts,
    which awaited service calls throw and what, what the cache file holds,
    the attempt each source gets, the clock when the result is cached and
    the clock when the result is built. *)
Record World := mkWorld {
  now : Z;
  throws : Site -> option JsError;
  disk : CacheService.DiskRead;
  attempts : string -> FallbackChain.Attempt;
  t_set : Z;
  t_done : Z
}.

(** The constructor's argument; an absent field takes its default in
    [_mergeDefaultConfig]. *)
Record Config := mkConfig {
  cfg_ttl : option Z;
  cfg_maxSize : option Z;
  cfg_persistToDisk : bool;
  cfg_cacheFilePath : string;
  cfg_sources : gmap string PosterSource.Config
}.

Record t := mk {
  (* this.config.cache.ttl, this.config.cache.maxSize, this.config.sources *)
  config_cache_ttl : Z;
  config_cache_maxSize : Z;
  config_sources : gmap string PosterSource.Config;
  cache : CacheService.t;
  fallbackChain : FallbackChain.t;
  metrics : MetricsCollector.t;
  isInitialized : bool;
  (* the in-flight request of each key: the identifier of its promise *)
  concurrentRequests : gmap string nat
}.

(** [new PosterManager(config)] at clock [now] *)
Definition new (config : Config) (now : Z) : t :=
  let ttl := match cfg_ttl config with Some v => v | None => 24 * 60 * 60 * 1000 end in
  let maxSize := match cfg_maxSize config with Some v => v | None => 1000 end in
  {| config_cache_ttl := ttl;
     config_cache_maxSize := maxSize;
     config_sources := cfg_sources config;
     cache := CacheService.new
                (CacheService.mkConfig (Some maxSize) (Some ttl)
                   (cfg_persistToDisk config) (cfg_cacheFilePath config));
     fallbackChain := FallbackChain.new (cfg_sources config);
     metrics := MetricsCollector.new now;
     isInitialized := false;
     concurrentRequests := ∅ |}.

Definition with_cache (m : t) (c : CacheService.t) : t :=
  mk (config_cache_ttl m) (config_cache_maxSize m) (config_sources m)
     c (fallbackChain m) (metrics m) (isInitialized m) (concurrentRequests m).
Definition with_chain (m : t) (c : FallbackChain.t) : t :=
  mk (config_cache_ttl m) (config_cache_maxSize m) (config_sources m)
     (cache m) c (metrics m) (isInitialized m) (concurrentRequests m).
Definition with_metrics (m : t) (x : MetricsCollector.t) : t :=
  mk (config_cache_ttl m) (config_cache_maxSize m) (config_sources m)
     (cache m) (fallbackChain m) x (isInitialized m) (concurrentRequests m).
Definition with_isInitialized (m : t) (b : bool) : t :=
  mk (config_cache_ttl m) (config_cache_maxSize m) (config_sources m)
     (cache m) (fallbackChain m) (metrics m) b (concurrentRequests m).
Definition with_concurrentRequests (m : t) (r : gmap string nat) : t :=
  mk (config_cache_ttl m) (config_cache_maxSize m) (config_sources m)
     (cache m) (fallbackChain m) (metrics m) (isInitialized m) r.

(** The body of [initialize()] once its guard is passed.
    [cache.initialize()] is called at once and tests its own guard then,
    [cacheReady] is what it found; the rest of it, and of the body, runs
    when its [await]s resume. Nothing in the [try] block throws:
    [_loadFromDisk] catches what the file system and the parser throw, and
    [validateSources] compares two lists of names and logs. *)
Definition initialize_body (cacheReady : bool) (w : World) (m : t) : t :=
  with_isInitialized
    (with_cache m
       (if cacheReady then cache m
        else CacheService.initialize_body (disk w) (now w) (cache m)))
    true.

(** [initialize()], run without interruption. *)
Definition initialize (w : World) (m : t) : t :=
  if isInitialized m then m
  else initialize_body (CacheService.isInitialized (cache m)) w m.

(** [`${animeId}:${animeName}`] *)
Definition cacheKey (animeId animeName : string) : string :=
  animeId +:+ ":" +:+ animeName.

(** Where [_getPosterInternal] stands at its first [await]: [cache.get] has
    run, or thrown. *)
Inductive Started :=
| GotCache (cachedResult : option CacheService.Entry)
| GetThrew (e : JsError).

(** [_getPosterInternal], up to its first [await]: the call of
    [cache.get]. *)
Definition _getPosterInternal_start (key : string) (w : World) (m : t)
  : Started * t :=
  match throws w CacheGet with
  | Some e => (GetThrew e, m)
  | None =>
      let '(cachedResult, c) := CacheService.get key (now w) (cache m) in
      (GotCache cachedResult, with_cache m c)
  end.

(** The [catch] block of [_getPosterInternal]. *)
Definition on_error (startTime : Z) (w : World) (error : JsError) (m : t)
  : Settled * t :=
  (Fulfilled (mkPosterResult None "error" false (t_done w - startTime)),
   with_metrics m (recordError error (metrics m))).

(** The [try] block of [_getPosterInternal], from its first [await] on:
    the result it returns, or the error thrown in it, and the manager at
    that point. *)
Definition try_finish (animeId animeName key : string)
    (startTime : Z) (w : World) (st : Started) (m : t)
  : (JsError + PosterResult) * t :=
  match st with
  | GetThrew e => (inl e, m)
  | GotCache (Some cachedResult) =>
      (inr (mkPosterResult (Some (CacheService.posterUrl cachedResult))
                           (CacheService.source cachedResult)
                           true (t_done w - startTime)),
       with_metrics m (recordCacheHit (metrics m)))
  | GotCache None =>
      let m1 := with_metrics m (recordCacheMiss (metrics m)) in
      match throws w ChainFetchPoster with
      | Some e => (inl e, m1)
      | None =>
          let '(fallbackResult, chain) :=
            FallbackChain.fetchPoster animeId animeName (attempts w)
                                      (fallbackChain m1) in
          let m2 := with_chain m1 chain in
          let result :=
            mkPosterResult (FallbackChain.url fallbackResult)
                           (FallbackChain.source fallbackResult)
                           false (t_done w - startTime) in
          let not_found :=
            (inr result,
             with_metrics m2 (recordFailure "all_sources_failed" None (metrics m2))) in
          match FallbackChain.url fallbackResult with
          | Some posterUrl =>
              if Js.truthy posterUrl then
                match throws w CacheSet with
                | Some e => (inl e, m2)
                | None =>
                    let m3 := with_cache m2
                      (CacheService.set key
                         (CacheService.mkEntryInput animeId posterUrl
                            (FallbackChain.source fallbackResult)
                            (Some (t_set w)) (Some (config_cache_ttl m2)) (Some 1))
                         (t_set w) (cache m2)) in
                    (inr result,
                     with_metrics m3
                       (recordSuccess (FallbackChain.source fallbackResult) 0
                                      (metrics m3)))
                end
              else not_found
          | None => not_found
          end
      end
  end.

(** [_getPosterInternal], from its first [await] on: the [try] block, and
    the [catch] block on what it throws. *)
Definition _getPosterInternal_finish (animeId animeName key : string)
    (startTime : Z) (w : World) (st : Started) (m : t) : Settled * t :=
  match try_finish animeId animeName key startTime w st m with
  | (inr result, m1) => (Fulfilled result, m1)
  | (inl error, m1) => on_error startTime w error m1
  end.

(** [_getPosterInternal(animeId, animeName, cacheKey, startTime)], run
    without interruption. *)
Definition _getPosterInternal (animeId animeName key : string) (startTime : Z)
    (w : World) (m : t) : Settled * t :=
  let '(st, m1) := _getPosterInternal_start key w m in
  _getPosterInternal_finish animeId animeName key startTime w st m1.

Record ConfigView := mkConfigView {
  cv_cacheSize : Z;
  cv_cacheTTL : Z;
  cv_sourcesCount : Z
}.

Record StatsView := mkStatsView {
  sv_cache : CacheService.StatsView;
  sv_sources : gmap string FallbackChain.SourceStats;
  sv_global : MetricsCollector.StatsView;
  sv_config : ConfigView
}.

(** [getStats()] at clock [now] *)
Definition getStats (clock : Z) (m : t) : StatsView :=
  {| sv_cache := CacheService.getStats (cache m);
     sv_sources := FallbackChain.getSourcesStats clock (fallbackChain m);
     sv_global := MetricsCollector.getStats clock (metrics m);
     sv_config := mkConfigView (config_cache_maxSize m) (config_cache_ttl m)
                               (Z.of_nat (size (config_sources m))) |}.

(** [resetMetrics()] at clock [now] *)
Definition resetMetrics (clock : Z) (m : t) : t :=
  with_chain (with_metrics m (MetricsCollector.reset clock (metrics m)))
             (FallbackChain.resetMetrics (fallbackChain m)).

End PosterManager.

(** ** The event loop around [PosterManager.getPoster]

    [getPoster] is an [async] function: several calls are in progress at
    once, and each runs without interruption from one [await] to the next.
    The loop state holds the manager, the requests made by
    [_getPosterInternal] with their promises, and where each caller of
    [getPoster] stands. An event is one uninterrupted run, and the events
    come in any order. Two runs are coarser than the source: the chain walk
    of a request, with the awaits inside it, is one event; and the
    initialisation a caller awaits tests its guards at the call and takes
    effect, as one event, when it completes. *)

Module Loop.
Import PosterManager.

Inductive Caller :=
(* suspended at [await this.initialize()]: the guard of [initialize] is
   passed and [cache.initialize()] is called, [cacheReady] is what its
   guard found *)
| Initializing (animeId animeName : string) (cacheReady : bool)
(* suspended at the [await] of the promise of request [p]; the owner made
   the request and runs the [finally] block *)
| Waiting (p : nat) (key : string) (owner : bool)
(* resumed from the [await] of the promise of request [p] *)
| Done (p : nat) (o : Settled).

(** Where a request stands: [_getPosterInternal] is at its first [await],
    or has run to its end and settled its promise. *)
Inductive Status :=
| Running (st : Started)
| Complete (o : Settled).

(** A call of [_getPosterInternal(animeId, animeName, cacheKey, startTime)]. *)
Record Request := mkRequest {
  animeId : string;
  animeName : string;
  key : string;
  startTime : Z;
  status : Status
}.

Record t := mk {
  manager : PosterManager.t;
  requests : list Request;
  callers : gmap nat Caller
}.

Definition start (m : PosterManager.t) : t := mk m [] ∅.

Inductive Event :=
(* a new caller, [c], calls [getPoster(animeId, animeName)] *)
| Call (c : nat) (animeId animeName : string) (w : World)
(* the [initialize()] awaited by caller [c] completes, and [c] goes on *)
| InitDone (c : nat) (w : World)
(* the [_getPosterInternal] of request [p] runs to its end *)
| Run (p : nat) (w : World)
(* caller [c] resumes after the promise it awaits has settled *)
| Resume (c : nat).

(** [getPoster] from line 74 on: the key, the in-flight check, and either
    the [await] of the promise in flight or a new [_getPosterInternal],
    registered in flight and awaited. *)
Definition enter (c : nat) (animeId animeName : string) (w : World) (l : t) : t :=
  let key := cacheKey animeId animeName in
  let startTime := now w in
  match concurrentRequests (manager l) !! key with
  | Some p =>
      mk (manager l) (requests l) (<[c := Waiting p key false]> (callers l))
  | None =>
      let '(st, m1) := _getPosterInternal_start key w (manager l) in
      let p := length (requests l) in
      mk (with_concurrentRequests m1 (<[key := p]> (concurrentRequests m1)))
         (requests l ++ [mkRequest animeId animeName key startTime (Running st)])
         (<[c := Waiting p key true]> (callers l))
  end.

Definition step (e : Event) (l : t) : t :=
  match e with
  | Call c animeId animeName w =>
      match callers l !! c with
      | Some _ => l
      | None =>
          if isInitialized (manager l) then enter c animeId animeName w l
          else mk (manager l) (requests l)
                  (<[c := Initializing animeId animeName
                          (CacheService.isInitialized (cache (manager l)))]> (callers l))
      end
  | InitDone c w =>
      match callers l !! c with
      | Some (Initializing animeId animeName cacheReady) =>
          enter c animeId animeName w
            (mk (initialize_body cacheReady w (manager l)) (requests l) (callers l))
      | _ => l
      end
  | Run p w =>
      match requests l !! p with
      | Some r =>
          match status r with
          | Running st =>
              let '(o, m1) :=
                _getPosterInternal_finish (animeId r) (animeName r) (key r)
                                          (startTime r) w st (manager l) in
              mk m1
                 (<[p := mkRequest (animeId r) (animeName r) (key r) (startTime r)
                                   (Complete o)]> (requests l))
                 (callers l)
          | Complete _ => l
          end
      | None => l
      end
  | Resume c =>
      match callers l !! c with
      | Some (Waiting p key owner) =>
          match requests l !! p with
          | Some r =>
              match status r with
              | Complete o =>
                  let m1 :=
                    if owner then
                      with_concurrentRequests (manager l)
                        (delete key (concurrentRequests (manager l)))
                    else manager l in
                  mk m1 (requests l) (<[c := Done p o]> (callers l))
              | Running _ => l
              end
          | None => l
          end
      | _ => l
      end
  end.

Definition run (events : list Event) (l : t) : t :=
  fold_left (fun l e => step e l) events l.

(** [getPoster(animeId, animeName)] when no other call is in progress: the
    call, its initialisation if the manager needs one, the request, and
    the caller's resumption. *)
Definition getPoster (animeId animeName : string) (w : World)
    (m : PosterManager.t) : option Settled * PosterManager.t :=
  let l := run [Call 0%nat animeId animeName w; InitDone 0%nat w;
                Run 0%nat w; Resume 0%nat] (start m) in
  (match callers l !! 0%nat with
   | Some (Done _ o) => Some o
   | _ => None
   end, manager l).

(** The request [p] is in progress for [key]: [_getPosterInternal] has not
    run to its end. A chain walk is part of such a request. *)
Definition in_progress (l : t) (p : nat) (k : string) : Prop :=
  exists r st, requests l !! p = Some r /\ key r = k /\ status r = Running st.

(** How the promise of request [p] settled, once it has. *)
Definition outcome (l : t) (p : nat) : option Settled :=
  match requests l !! p with
  | Some r => match status r with Complete o => Some o | Running _ => None end
  | None => None
  end.

(** What the event loop keeps, whatever the order of the events: the
    in-flight entry of a key stands for as long as the caller that made the
    request, its owner, is suspended on it, and a key has one owner at
    most; a caller suspended on a request is suspended on a request for its
    key; a caller that resumed has the result the promise settled with; a
    request in progress is the one in flight for its key; and a promise
    settles by fulfilling. *)
Definition coherent (l : t) : Prop :=
  (forall k p, concurrentRequests (manager l) !! k = Some p ->
     exists c, callers l !! c = Some (Waiting p k true)) /\
  (forall c p k, callers l !! c = Some (Waiting p k true) ->
     concurrentRequests (manager l) !! k = Some p) /\
  (forall c1 c2 p1 p2 k,
     callers l !! c1 = Some (Waiting p1 k true) ->
     callers l !! c2 = Some (Waiting p2 k true) -> c1 = c2) /\
  (forall c p k b, callers l !! c = Some (Waiting p k b) ->
     exists r, requests l !! p = Some r /\ key r = k) /\
  (forall c p o, callers l !! c = Some (Done p o) -> outcome l p = Some o) /\
  (forall p k, in_progress l p k -> concurrentRequests (manager l) !! k = Some p) /\
  (forall p o, outcome l p = Some o -> exists res, o = Fulfilled res).

End Loop.

(** ** Notions the properties are stated with *)

Module CacheTrace.
Import CacheService.

(** A use of the cache. *)
Inductive Op :=
| Get (key : string) (now : Z)
| Set_ (key : string) (entry : EntryInput) (now : Z).

Definition apply (op : Op) (c : t) : t :=
  match op with
  | Get key now => snd (get key now c)
  | Set_ key entry now => set key entry now c
  end.

(** The key an operation touches on cache [c]: the key of a [set], and the
    key of a [get] that hits. A [get] that misses, or that finds its entry
    expired, touches nothing. *)
Definition touched (op : Op) (c : t) : option string :=
  match op with
  | Get key now =>
      match fst (get key now c) with
      | Some _ => Some key
      | None => None
      end
  | Set_ key _ _ => Some key
  end.

(** Runs the operations in order; [log] receives, for each, the key it
    touched. *)
Fixpoint run_from (ops : list Op) (c : t) (log : list (option string))
  : t * list (option string) :=
  match ops with
  | [] => (c, log)
  | op :: ops' => run_from ops' (apply op c) (log ++ [touched op c])
  end.

Definition run (ops : list Op) (c : t) : t * list (option string) :=
  run_from ops c [].

(** The position in the log of the last operation that touched [k]. *)
Fixpoint last_touch (log : list (option string)) (k : string) : option nat :=
  match log with
  | [] => None
  | o :: log' =>
      match last_touch log' k with
      | Some i => Some (S i)
      | None =>
          match o with
          | Some k' => if String.eqb k' k then Some O else None
          | None => None
          end
      end
  end.

(** [k1] was last touched before [k2] was: [k2] is the more recently
    touched of the two. *)
Definition touched_before (log : list (option string)) (k1 k2 : string) : Prop :=
  exists i j,
    last_touch log k1 = Some i /\ last_touch log k2 = Some j /\ (i < j)%nat.

(** The keys are in the order of their last touch, and each was touched. *)
Definition ordered (log : list (option string)) (keys : list string) : Prop :=
  StronglySorted (touched_before log) keys /\
  Forall (fun k => exists i, last_touch log k = Some i) keys.

End CacheTrace.

(** The entry [get] returns and stores on a hit: one more hit. *)
Definition touch (entry : CacheService.Entry) : CacheService.Entry :=
  CacheService.mkEntry (CacheService.animeId entry) (CacheService.posterUrl entry)
    (CacheService.source entry) (CacheService.timestamp entry)
    (CacheService.ttl entry) (CacheService.hits entry + 1).

(** ** Sample states *)

(** A cache of capacity 3 holding one entry set at clock 1000 with a ttl
    of 100. *)
Definition cache_with_one_entry : CacheService.t :=
  CacheService.set "1:X"
    (CacheService.mkEntryInput "1" "u1" "kitsu" (Some 1000) (Some 100) None)
    1000
    (CacheService.new (CacheService.mkConfig (Some 3) (Some 100) false "cache.json")).

(** The LRU test of the repository: capacity 3, keys 1 to 3 set in turn,
    then key 1 read. *)
Definition lru_config : CacheService.Config :=
  CacheService.mkConfig (Some 3) (Some 1000) false "cache.json".

Definition lru_entry (id : string) : CacheService.EntryInput :=
  CacheService.mkEntryInput id ("url" +:+ id) "kitsu" None None None.

Definition lru_ops : list CacheTrace.Op :=
  [ CacheTrace.Set_ "key1" (lru_entry "1") 10;
    CacheTrace.Set_ "key2" (lru_entry "2") 20;
    CacheTrace.Set_ "key3" (lru_entry "3") 30;
    CacheTrace.Get "key1" 40 ].

(** A cache with persistence switched on, holding one entry. *)
Definition persistent_cache : CacheService.t :=
  CacheService.set "1:X"
    (CacheService.mkEntryInput "1" "u1" "kitsu" (Some 1000) (Some 100) None)
    1000
    (CacheService.new
       (CacheService.mkConfig (Some 3) (Some 100) true "cache/poster-cache.json")).

(** The statistics without their clock readings: the fields computed from
    [Date.now()] are set to a fixed value. *)
Module ClockFree.

Definition breaker (v : Breaker.StateView) : Breaker.StateView :=
  Breaker.mkStateView (Breaker.v_state v) (Breaker.v_consecutiveFailures v)
    (Breaker.v_failureThreshold v) (Breaker.v_nextAttemptTime v)
    0 (Breaker.v_isTemporarilyDisabled v) (Breaker.v_disableDuration v).

Definition class_metrics (m : FallbackChain.ClassMetrics) : FallbackChain.ClassMetrics :=
  match m with
  | FallbackChain.KitsuMetrics v =>
      FallbackChain.KitsuMetrics
        (KitsuSource.mkMetricsView (KitsuSource.mv_metrics v)
           (breaker (KitsuSource.mv_circuitBreaker v))
           (KitsuSource.mv_rateLimit v) (KitsuSource.mv_timeout v)
           (KitsuSource.mv_failureThreshold v) (KitsuSource.mv_disableDuration v))
  | FallbackChain.TmdbMetrics v =>
      FallbackChain.TmdbMetrics
        (TMDBSource.mkMetricsView (TMDBSource.mv_metrics v)
           (breaker (TMDBSource.mv_circuitBreaker v))
           (TMDBSource.mv_rateLimit v) (TMDBSource.mv_timeout v)
           (TMDBSource.mv_hasApiKey v)
           (TMDBSource.mv_failureThreshold v) (TMDBSource.mv_disableDuration v))
  | FallbackChain.PlainMetrics m => FallbackChain.PlainMetrics m
  end.

Definition source_stats (s : FallbackChain.SourceStats) : FallbackChain.SourceStats :=
  FallbackChain.mkSourceStats (class_metrics (FallbackChain.ss_metrics s))
    (FallbackChain.ss_priority s) (FallbackChain.ss_enabled s)
    (FallbackChain.ss_available s).

Definition global (v : MetricsCollector.StatsView) : MetricsCollector.StatsView :=
  MetricsCollector.mkStatsView
    (MetricsCollector.sv_totalRequests v) (MetricsCollector.sv_successfulRequests v)
    (MetricsCollector.sv_failedRequests v) (MetricsCollector.sv_cacheHits v)
    (MetricsCollector.sv_cacheMisses v) (MetricsCollector.sv_averageResponseTime v)
    (MetricsCollector.sv_sourceUsage v) (MetricsCollector.sv_errorTypes v)
    (MetricsCollector.sv_startTime v)
    0 (MetricsCollector.sv_successRate v) (MetricsCollector.sv_cacheHitRate v)
    (MetricsCollector.Finite 0%Q).

Definition manager (v : PosterManager.StatsView) : PosterManager.StatsView :=
  PosterManager.mkStatsView (PosterManager.sv_cache v)
    (source_stats <$> PosterManager.sv_sources v)
    (global (PosterManager.sv_global v))
    (PosterManager.sv_config v).

End ClockFree.

(** A manager created at clock 0 with one Kitsu source registered. *)
Definition manager_with_kitsu : PosterManager.t :=
  let m := PosterManager.new
             (PosterManager.mkConfig (Some 100) (Some 10) false "cache.json" ∅) 0 in
  PosterManager.with_isInitialized
    (PosterManager.with_chain m
       (FallbackChain.registerSource
          (FallbackChain.Kitsu (KitsuSource.new PosterSource.empty_config))
          (PosterManager.fallbackChain m)))
    true.

(** The rejections [fetchPoster] raises on a precondition, before
    [_executeWithMetrics] records anything: circuit breaker open, invalid
    anime id, anime name or API key missing, source not available. *)
Definition is_precondition (e : Err.t) : bool :=
  match e with
  | Err.CircuitOpen _ | Err.InvalidId | Err.NameRequired
  | Err.ApiKeyMissing | Err.Unavailable _ => true
  | _ => false
  end.

(** The circuit breaker of a source, for the classes that have one. *)
Definition breaker (s : FallbackChain.Source) : option Breaker.t :=
  match s with
  | FallbackChain.Kitsu k => Some (KitsuSource.cb k)
  | FallbackChain.Tmdb t => Some (TMDBSource.cb t)
  | FallbackChain.Nautiljon _ => None
  end.

Definition set_breaker (s : FallbackChain.Source) (cb : Breaker.t)
  : FallbackChain.Source :=
  match s with
  | FallbackChain.Kitsu k => FallbackChain.Kitsu (KitsuSource.with_cb k cb)
  | FallbackChain.Tmdb t => FallbackChain.Tmdb (TMDBSource.with_cb t cb)
  | FallbackChain.Nautiljon n => FallbackChain.Nautiljon n
  end.

(** The source once [_canMakeRequest] has run at clock [t0]: an open
    breaker whose cooldown is over has become half-open. *)
Definition breaker_checked (t0 : Z) (s : FallbackChain.Source) : FallbackChain.Source :=
  match breaker s with
  | Some cb => set_breaker s (snd (Breaker._canMakeRequest t0 cb))
  | None => s
  end.

(** A result without a poster URL: [null], or the empty string. *)
Definition no_url (u : option string) : bool :=
  match u with
  | Some s => negb (Js.truthy s)
  | None => true
  end.

(** A Kitsu source with the thresholds of the repository's tests: the
    breaker opens at 3 consecutive failures, for one second. *)
Definition test_kitsu : KitsuSource.t :=
  KitsuSource.new
    (PosterSource.mkConfig None (Some 3000) None None (Some 3) (Some 1000)).

Definition kitsu_in (st : Breaker.CircuitState) (nextAttemptTime : Z) : KitsuSource.t :=
  KitsuSource.with_cb test_kitsu
    (Breaker.mk st (Breaker.failureThreshold (KitsuSource.cb test_kitsu))
                (Breaker.disableDuration (KitsuSource.cb test_kitsu))
                nextAttemptTime).

(** An attempt called at [t0] whose request leaves the limiter at [t0] and
    settles 50 ms later with the given reply from Kitsu. *)
Definition kitsu_attempt (t0 : Z) (r : KitsuSource.Reply) : FallbackChain.Attempt :=
  FallbackChain.mkAttempt t0 t0 (t0 + 50) r TMDBSource.TimedOut
                          NautiljonSource.TimedOut.

(** A chain of Nautiljon (priority 3) and Kitsu (priority 1), registered in
    that order, and a world in which Kitsu answers 404 and Nautiljon finds
    a poster. *)
Definition sample_chain : FallbackChain.t :=
  FallbackChain.registerSource (FallbackChain.Kitsu test_kitsu)
    (FallbackChain.registerSource
       (FallbackChain.Nautiljon (NautiljonSource.new PosterSource.empty_config))
       (FallbackChain.new ∅)).

Definition sample_world (n : string) : FallbackChain.Attempt :=
  FallbackChain.mkAttempt 10000 10000 10050
    (KitsuSource.Status 404 "Not Found")
    TMDBSource.TimedOut
    (NautiljonSource.Scraped (Some "https://www.nautiljon.com/images/x.jpg")).

(** The rate limiter of the specification (section 4.3), in its words: a
    sliding window over the timestamps of the recent attempts. Before an
    attempt the timestamps older than the window are pruned; if those left
    are at the limit, the attempt is delayed until the oldest of them
    leaves the window, plus a safety margin. *)
Module SlidingWindow.

Definition recent (window now : Z) (timestamps : list Z) : list Z :=
  List.filter (fun t => now - t <? window) timestamps.

(** The delay before an attempt at clock [now]; [None] when the attempt
    goes at once. *)
Definition delay (window limit margin now : Z) (timestamps : list Z) : option Z :=
  let kept := recent window now timestamps in
  if limit <=? Z.of_nat (length kept) then
    match TMDBSource.list_min kept with
    | Some oldest => Some (oldest + window + margin - now)
    | None => None
    end
  else None.

End SlidingWindow.

(** The configuration of Kitsu in config/poster-config.js. *)
Definition shipped_kitsu_config : PosterSource.Config :=
  PosterSource.mkConfig (Some true) (Some 3000)
    (Some (PosterSource.PerWindow 30 60000)) None None None.


(** The world [w] in which the awaited call at [site] throws [e]. *)
Definition throwing (site : PosterManager.Site) (e : MetricsCollector.JsError)
    (w : PosterManager.World) : PosterManager.World :=
  PosterManager.mkWorld (PosterManager.now w)
    (fun s =>
       match s, site with
       | PosterManager.CacheGet, PosterManager.CacheGet
       | PosterManager.ChainFetchPoster, PosterManager.ChainFetchPoster
       | PosterManager.CacheSet, PosterManager.CacheSet => Some e
       | _, _ => PosterManager.throws w s
       end)
    (PosterManager.disk w) (PosterManager.attempts w)
    (PosterManager.t_set w) (PosterManager.t_done w).

(** The result that stands for a caught error. *)
Definition error_result (startTime : Z) (w : PosterManager.World)
  : PosterManager.PosterResult :=
  PosterManager.mkPosterResult None "error" false (PosterManager.t_done w - startTime).

(** A world at clock [t] in which nothing throws, there is no cache file,
    and Kitsu answers with a poster. *)
Definition calm_world (t : Z) : PosterManager.World :=
  PosterManager.mkWorld t (fun _ => None) CacheService.NoFile
    (fun _ => FallbackChain.mkAttempt t t (t + 50)
                (KitsuSource.Ok (Some (KitsuSource.mkPosterImage (Some "u1") None None)))
                TMDBSource.TimedOut NautiljonSource.TimedOut)
    (t + 60) (t + 70).

Definition type_error : MetricsCollector.JsError :=
  MetricsCollector.mkJsError "TypeError" "source.isAvailable is not a function".

(** The calls of [getPoster(animeId, animeName)] by the callers [cws], each
    in its own world. *)
Definition calls (animeId animeName : string)
    (cws : list (nat * PosterManager.World)) : list Loop.Event :=
  map (fun cw => Loop.Call (fst cw) animeId animeName (snd cw)) cws.

(** The callers [cws] recorded as awaiting the request [p] in flight for
    [key]. *)
Definition joined (p : nat) (key : string) (cws : list (nat * PosterManager.World))
    (cm : gmap nat Loop.Caller) : gmap nat Loop.Caller :=
  fold_left (fun cm cw => <[fst cw := Loop.Waiting p key false]> cm) cws cm.

(** The loop of [manager_with_kitsu], nothing in progress. *)
Definition quiet_loop : Loop.t := Loop.start manager_with_kitsu.

(** Where the request of a call that runs alone stands once
    [_getPosterInternal] has reached its first [await]: the manager is
    initialised, [cache.get] has run, and the request is registered in
    flight as promise 0. *)
Definition request_state (animeId animeName : string) (w : PosterManager.World)
    (m : PosterManager.t) : PosterManager.Started * PosterManager.t :=
  let key := PosterManager.cacheKey animeId animeName in
  let m1 := PosterManager.initialize w m in
  let st := fst (PosterManager._getPosterInternal_start key w m1) in
  let m2 := snd (PosterManager._getPosterInternal_start key w m1) in
  (st, PosterManager.with_concurrentRequests m2
         (<[key := 0%nat]> (PosterManager.concurrentRequests m2))).

(** A manager whose cache persists to disk, with one Kitsu source
    registered, not initialised yet; nothing is in progress. *)
Definition cold_manager : PosterManager.t :=
  let m := PosterManager.new
             (PosterManager.mkConfig (Some 100) (Some 10) true "cache/posters.json" ∅) 0 in
  PosterManager.with_chain m
    (FallbackChain.registerSource
       (FallbackChain.Kitsu (KitsuSource.new PosterSource.empty_config))
       (PosterManager.fallbackChain m)).

(** A world at clock [t] in which nothing throws, there is no cache file,
    and the request to Kitsu ends in a network error 50 ms later. *)
Definition failing_world (t : Z) : PosterManager.World :=
  PosterManager.mkWorld t (fun _ => None) CacheService.NoFile
    (fun _ => FallbackChain.mkAttempt t t (t + 50)
                (KitsuSource.Rejected "Network error")
                TMDBSource.TimedOut NautiljonSource.TimedOut)
    (t + 60) (t + 70).

(** ** Further notions: the cache under all its operations *)

Module CacheOps.
Import CacheService.

(** A call of one of the public operations of the cache. *)
Inductive Op :=
| Get (key : string) (now : Z)
| Set_ (key : string) (entry : EntryInput) (now : Z)
| Invalidate (key : string)
| Clear (now : Z)
| Cleanup (now : Z).

Definition apply (op : Op) (c : t) : t :=
  match op with
  | Get key now => snd (get key now c)
  | Set_ key entry now => set key entry now c
  | Invalidate key => snd (invalidate key c)
  | Clear now => clear now c
  | Cleanup now => snd (cleanup now c)
  end.

Definition run (ops : list Op) (c : t) : t :=
  fold_left (fun c op => apply op c) ops c.

(** What every operation keeps: the keys are distinct, the [size] statistic
    is the size of the map, and the map holds at most [maxSize] entries (one
    entry when [maxSize] is not positive). *)
Definition ok (c : t) : Prop :=
  List.NoDup (JsMap.keys (cache c)) /\
  st_size (stats c) = JsMap.size (cache c) /\
  JsMap.size (cache c) <= Z.max 1 (maxSize c).

(** The entry [set] stores for an input: the input with its defaults. *)
Definition stored (entry : EntryInput) (now : Z) (c : t) : Entry :=
  mkEntry (in_animeId entry) (in_posterUrl entry) (in_source entry)
          (Js.num_or (in_timestamp entry) now)
          (Js.num_or (in_ttl entry) (defaultTTL c))
          (Js.num_or (in_hits entry) 0).

(** The key the LRU branch of [set] deletes, when it runs. *)
Definition victim (key : string) (c : t) : option string :=
  if evicts key c then JsMap.first_key (cache c) else None.

(** What [_loadFromDisk] finds when the cache file holds the document
    [data]: [entries] is [Object.entries(cacheData.entries)], the entries of
    the document in the order the parsed object enumerates them, and the
    saved counters are those of the document. *)
Definition read_back (data : CacheData) (entries : list (string * Entry)) : DiskRead :=
  Loaded entries (Some (Some (cd_sets data), Some (cd_evictions data))).

(** [entries] enumerates the entries of the document: each key once. *)
Definition enumerates (entries : list (string * Entry)) (data : CacheData) : Prop :=
  List.NoDup (map fst entries) /\ list_to_map entries = cd_entries data.

(** A burst of [set]s, each at its clock. *)
Definition sets (burst : list (string * EntryInput * Z)) (c : t) : t :=
  fold_left (fun c s => set (fst (fst s)) (snd (fst s)) (snd s) c) burst c.

End CacheOps.

(** A cache of capacity 2 after five operations. *)
Definition sample_ops : list CacheOps.Op :=
  [ CacheOps.Set_ "a" (lru_entry "1") 10;
    CacheOps.Set_ "b" (lru_entry "2") 20;
    CacheOps.Get "a" 30;
    CacheOps.Set_ "c" (lru_entry "3") 40;
    CacheOps.Invalidate "zz" ].

Definition small_config : CacheService.Config :=
  CacheService.mkConfig (Some 2) (Some 1000) false "cache.json".

(** ** Further notions: sequences of attempts on a source

    The attempts of a sequence are made one after the other, each settled
    before the next is called; the timers of the source fire where a
    sequence says so. Attempts that overlap are in [Flights]. *)

Module Attempts.
Import PosterSource.

(** One call of [fetchPoster] on a source: its arguments and the world of
    the attempt. *)
Record Call := mkCall {
  animeId : string;
  animeName : string;
  attempt : FallbackChain.Attempt
}.

Definition fetch (c : Call) (s : FallbackChain.Source)
  : Err.result (option string) * FallbackChain.Source :=
  FallbackChain.source_fetchPoster (animeId c) (animeName c) (attempt c) s.

(** The source after the calls, made one after the other. *)
Definition after (calls : list Call) (s : FallbackChain.Source) : FallbackChain.Source :=
  fold_left (fun s c => snd (fetch c s)) calls s.

(** How each of the calls settles. *)
Fixpoint results (calls : list Call) (s : FallbackChain.Source)
  : list (Err.result (option string)) :=
  match calls with
  | [] => []
  | c :: rest => fst (fetch c s) :: results rest (snd (fetch c s))
  end.

(** The call failed: it threw, and not on a precondition. *)
Definition failed (r : Err.result (option string)) : bool :=
  match r with
  | Err.Throw e => negb (is_precondition e)
  | Err.Return _ => false
  end.

(** The call was turned away on a precondition. *)
Definition turned_away (r : Err.result (option string)) : bool :=
  match r with
  | Err.Throw e => is_precondition e
  | Err.Return _ => false
  end.

(** The call returned a poster. *)
Definition found (r : Err.result (option string)) : bool :=
  match r with
  | Err.Return u => negb (no_url u)
  | Err.Throw _ => false
  end.

(** The timers that clear [isTemporarilyDisabled] when they fire. *)
Definition reenables (t : Timer) : bool :=
  match action t with
  | RestoreRateLimit _ => false
  | _ => true
  end.

Definition pending_reenable (b : Base) : list Timer :=
  List.filter reenables (timers b).

(** The event loop at clock [now], for a source of any class. *)
Definition fire_timers (now : Z) (s : FallbackChain.Source) : FallbackChain.Source :=
  match s with
  | FallbackChain.Kitsu k => FallbackChain.Kitsu (Exec.fire_timers now k)
  | FallbackChain.Tmdb t => FallbackChain.Tmdb (Exec.fire_timers now t)
  | FallbackChain.Nautiljon n => FallbackChain.Nautiljon (Exec.fire_timers now n)
  end.

(** The base [b1] is [b], except for what a request to TMDB may do before
    it settles: switch the source off (on a 401) and set timers that
    restore the rate limit (on a 429). *)
Definition as_before (b1 b : Base) : Prop :=
  metrics b1 = metrics b /\
  pending_reenable b1 = pending_reenable b /\
  name b1 = name b.

(** The callback of a timer of a source, for a source of any class. *)
Definition run_timer_on (a : TimerAction) (s : FallbackChain.Source)
  : FallbackChain.Source :=
  match s with
  | FallbackChain.Kitsu k => FallbackChain.Kitsu (run_timer a k)
  | FallbackChain.Tmdb t => FallbackChain.Tmdb (run_timer a t)
  | FallbackChain.Nautiljon n => FallbackChain.Nautiljon (run_timer a n)
  end.

(** What happens to a source over time: it is called, or the event loop
    runs its due timers. *)
Inductive Tick :=
| Fetch (c : Call)
| Timers (now : Z).

Definition tick (t : Tick) (s : FallbackChain.Source) : FallbackChain.Source :=
  match t with
  | Fetch c => snd (fetch c s)
  | Timers now => fire_timers now s
  end.

Definition run (ticks : list Tick) (s : FallbackChain.Source) : FallbackChain.Source :=
  fold_left (fun s t => tick t s) ticks s.

(** How the calls among the ticks settle. *)
Fixpoint outcomes (ticks : list Tick) (s : FallbackChain.Source)
  : list (Err.result (option string)) :=
  match ticks with
  | [] => []
  | Fetch c :: rest => fst (fetch c s) :: outcomes rest (tick (Fetch c) s)
  | Timers now :: rest => outcomes rest (tick (Timers now) s)
  end.

(** [openCircuitBreaker(duration)] at clock [now] and
    [resetCircuitBreaker()], on a source of a class that has them. *)
Definition openCircuitBreaker (duration now : Z) (s : FallbackChain.Source)
  : FallbackChain.Source :=
  match breaker s with
  | Some cb =>
      let '(cb', b') := Breaker.openCircuitBreaker duration now cb (FallbackChain.base s) in
      set_breaker (FallbackChain.set_base s b') cb'
  | None => s
  end.

Definition resetCircuitBreaker (s : FallbackChain.Source) : FallbackChain.Source :=
  match breaker s with
  | Some cb =>
      let '(cb', b') := Breaker.resetCircuitBreaker cb (FallbackChain.base s) in
      set_breaker (FallbackChain.set_base s b') cb'
  | None => s
  end.

(** The counters of the metrics agree: every request counted is a success
    or a failure, and the consecutive failures are among the failures. *)
Definition counted (m : Metrics) : Prop :=
  totalRequests m = successfulRequests m + failedRequests m /\
  0 <= successfulRequests m /\
  0 <= consecutiveFailures m <= failedRequests m.

End Attempts.

(** A failing attempt on Kitsu called at [t0], which settles 50 ms later. *)
Definition failing_call (t0 : Z) : Attempts.Call :=
  Attempts.mkCall "123" "Test Anime"
    (kitsu_attempt t0 (KitsuSource.Rejected "Network error")).

(** An attempt on Kitsu called at [t0] that finds a poster. *)
Definition finding_call (t0 : Z) : Attempts.Call :=
  Attempts.mkCall "123" "Test Anime"
    (kitsu_attempt t0
       (KitsuSource.Ok (Some (KitsuSource.mkPosterImage
                                (Some "https://example.com/poster.jpg") None None)))).

(** ** Further notions: the chain and its sources *)

Module ChainMore.
Import PosterSource.

(** The map of the sources as [registerSource] builds it: each source
    under its own name. *)
Definition keyed (srcs : list (string * FallbackChain.Source)) : Prop :=
  Forall (fun kv => name (FallbackChain.base (snd kv)) = fst kv) srcs /\
  List.NoDup (JsMap.keys srcs).

(** A chain with the given sources, registered in that order. *)
Definition chain_of (l : list FallbackChain.Source) : FallbackChain.t :=
  fold_left (fun c s => FallbackChain.registerSource s c) l (FallbackChain.new ∅).

(** The names of the sources the walk goes through, in order. *)
Definition ordered_names (c : FallbackChain.t) : list string :=
  map (fun s => name (FallbackChain.base s)) (FallbackChain._getOrderedSources c).

(** One turn of the loop of [fetchPoster] on a source that is available:
    the call of the source, and what the [catch] does to it. *)
Definition attempted (animeId animeName : string) (a : FallbackChain.Attempt)
    (src : FallbackChain.Source) : FallbackChain.Source :=
  match FallbackChain.source_fetchPoster animeId animeName a src with
  | (Err.Throw _, src') =>
      if FallbackChain._getFailureThreshold
           <=? consecutiveFailures (metrics (FallbackChain.base src'))
      then FallbackChain.set_base src'
             (temporarilyDisable (30 * 60 * 1000) (FallbackChain.t_end a)
                                 (FallbackChain.base src'))
      else src'
  | (Err.Return _, src') => src'
  end.

(** One call of the chain: its arguments and the world of the attempts. *)
Record Walk := mkWalk {
  w_animeId : string;
  w_animeName : string;
  w_world : string -> FallbackChain.Attempt
}.

Definition fetch (w : Walk) (c : FallbackChain.t) : FallbackChain.Result * FallbackChain.t :=
  FallbackChain.fetchPoster (w_animeId w) (w_animeName w) (w_world w) c.

(** The chain after the calls, made one after the other, and their
    results. *)
Definition after (ws : list Walk) (c : FallbackChain.t) : FallbackChain.t :=
  fold_left (fun c w => snd (fetch w c)) ws c.

Fixpoint results (ws : list Walk) (c : FallbackChain.t) : list FallbackChain.Result :=
  match ws with
  | [] => []
  | w :: rest => fst (fetch w c) :: results rest (snd (fetch w c))
  end.

(** The scraping of the attempt fails: it throws, or times out. *)
Definition nautiljon_fails (a : FallbackChain.Attempt) : bool :=
  match FallbackChain.nautiljon_reply a with
  | NautiljonSource.Scraped _ => false
  | _ => true
  end.

(** A world in which the scraping of Nautiljon times out, the attempt
    made at [t0] and settled 5 s later. *)
Definition nautiljon_down (t0 : Z) : Walk :=
  mkWalk "123" "Test Anime"
    (fun _ => FallbackChain.mkAttempt t0 t0 (t0 + 5000) (KitsuSource.Ok None)
                TMDBSource.TimedOut NautiljonSource.TimedOut).

(** A Nautiljon source under the name of the class. *)
Definition nautiljon : FallbackChain.Source :=
  FallbackChain.Nautiljon (NautiljonSource.new empty_config).

End ChainMore.

(** ** Further notions: the manager and its cache *)

Module ManagerMore.
Import PosterManager.

(** [invalidateCache(animeId, animeName)] *)
Definition invalidateCache (animeId animeName : string) (m : t) : bool * t :=
  let cacheKey := cacheKey animeId animeName in
  let '(existed, c) := CacheService.invalidate cacheKey (cache m) in
  (existed, with_cache m c).

(** [clearCache()] at clock [clock] *)
Definition clearCache (clock : Z) (m : t) : t :=
  with_cache m (CacheService.clear clock (cache m)).

(** [setSourceEnabled(sourceName, enabled)]: when
    [this.config.sources[sourceName]] is truthy. [config.sources] is a
    plain object: the lookup finds the entry of the source, or, for a name
    that every object inherits ('constructor', 'toString', ...), the
    property of [Object.prototype]. In that case [enabled] is written on
    the inherited object, which is no part of the configuration, and the
    chain is told all the same. *)
Definition setSourceEnabled (sourceName : string) (enabled : bool) (m : t) : t :=
  match config_sources m !! sourceName with
  | Some source_config =>
      let source_config' :=
        PosterSource.mkConfig (Some enabled)
          (PosterSource.c_timeout source_config) (PosterSource.c_rateLimit source_config)
          (PosterSource.c_apiKey source_config)
          (PosterSource.c_failureThreshold source_config)
          (PosterSource.c_disableDuration source_config) in
      mk (config_cache_ttl m) (config_cache_maxSize m)
         (<[sourceName := source_config']> (config_sources m))
         (cache m)
         (FallbackChain.setSourceEnabled sourceName enabled (fallbackChain m))
         (metrics m) (isInitialized m) (concurrentRequests m)
  | None =>
      if Js.inherited sourceName then
        with_chain m
          (FallbackChain.setSourceEnabled sourceName enabled (fallbackChain m))
      else m
  end.


(** A manager with the sample chain, its Kitsu source configured, its
    Nautiljon source not. *)
Definition manager_with_two : t :=
  mk 100 10 {[ "kitsu" := PosterSource.empty_config ]}
     (CacheService.new (CacheService.mkConfig (Some 10) (Some 100) false "cache.json"))
     sample_chain (MetricsCollector.new 0) true ∅.

(** A source of the class Nautiljon registered under another name, as a
    source of a class of one's own may be. *)
Definition named (name : string) : FallbackChain.Source :=
  FallbackChain.Nautiljon
    (NautiljonSource.with_b (NautiljonSource.new PosterSource.empty_config)
       (PosterSource.new name 3 PosterSource.empty_config)).

(** The manager [manager_with_two] with one more source, named
    'constructor', which has no entry in the configuration. *)
Definition manager_with_three : t :=
  with_chain manager_with_two
    (FallbackChain.registerSource (named "constructor") (fallbackChain manager_with_two)).

(** One request for a poster, with its arguments and its world, when no
    other call is in progress. *)
Record Request := mkRequest {
  r_animeId : string;
  r_animeName : string;
  r_startTime : Z;
  r_world : World
}.

Definition request (r : Request) (m : t) : Settled * t :=
  _getPosterInternal (r_animeId r) (r_animeName r)
    (cacheKey (r_animeId r) (r_animeName r)) (r_startTime r) (r_world r) m.

(** The manager after the requests, made one after the other. *)
Definition served (rs : list Request) (m : t) : t :=
  fold_left (fun m r => snd (request r m)) rs m.

End ManagerMore.

(** ** Further notions: the collector of the global metrics *)

Module MetricsOps.
Import MetricsCollector.

(** The calls that count. *)
Inductive Op :=
| CacheHit
| CacheMiss
| Success (source : string) (responseTime : Z)
| Failure (errorType : string) (source : option string)
| Error (error : JsError)
| Reset (now : Z).

Definition apply (op : Op) (m : t) : t :=
  match op with
  | CacheHit => recordCacheHit m
  | CacheMiss => recordCacheMiss m
  | Success source responseTime => recordSuccess source responseTime m
  | Failure errorType source => recordFailure errorType source m
  | Error error => recordError error m
  | Reset now => reset now m
  end.

Definition run (ops : list Op) (m : t) : t :=
  fold_left (fun m op => apply op m) ops m.

(** The names under which a call counts: the source, the type of the
    error. *)
Definition names (op : Op) : list string :=
  match op with
  | Success source _ => [source]
  | Failure errorType (Some source) => [errorType; source]
  | Failure errorType None => [errorType]
  | Error error =>
      [if Js.truthy (err_name error) then err_name error else "UnknownError"]
  | _ => []
  end.

(** The counts of the call are filed under names of its own: none is a
    name that the objects [sourceUsage] and [errorTypes] inherit from
    [Object.prototype]. (Under such a name the code finds the inherited
    property where it looks for a count, and counts nothing.) *)
Definition plain (op : Op) : Prop :=
  Forall (fun name => Js.inherited name = false) (names op).

(** The sum of a counter over the entries of an object. *)
Definition sum_values {V} (f : V -> Z) (o : gmap string V) : Z :=
  map_fold (fun _ v sum => sum + f v) 0 o.

Record SourceStat := mkSourceStat {
  s_success : Z;
  s_failure : Z;
  s_total : Z;
  s_successRate : Q
}.

(** [getSourceStats()] *)
Definition getSourceStats (m : t) : gmap string SourceStat :=
  (fun usage =>
     let total := success usage + failure usage in
     mkSourceStat (success usage) (failure usage) total
       (if 0 <? total then CacheService.ratio (success usage) total else 0%Q))
  <$> sourceUsage m.

Record ErrorStat := mkErrorStat {
  e_count : Z;
  e_percentage : Q
}.

(** [Object.values(this.metrics.errorTypes).reduce((sum, count) => sum + count, 0)] *)
Definition totalErrors (m : t) : Z := sum_values (fun count => count) (errorTypes m).

(** [getErrorStats()] *)
Definition getErrorStats (m : t) : gmap string ErrorStat :=
  (fun count =>
     mkErrorStat count
       (if 0 <? totalErrors m
        then (CacheService.ratio count (totalErrors m) * 100)%Q else 0%Q))
  <$> errorTypes m.

(** What the counters of the collector keep. *)
Definition ok (m : t) : Prop :=
  totalRequests m = successfulRequests m + failedRequests m /\
  sum_values success (sourceUsage m) = successfulRequests m /\
  sum_values (fun count => count) (errorTypes m) = failedRequests m /\
  sum_values failure (sourceUsage m) <= failedRequests m /\
  0 <= cacheHits m /\ 0 <= cacheMisses m /\
  (forall k u, sourceUsage m !! k = Some u -> 0 <= success u /\ 0 <= failure u) /\
  (forall k n, errorTypes m !! k = Some n -> 0 < n).

(** A rate between 0 and 1. *)
Definition is_rate (q : Q) : Prop := (0 <= q)%Q /\ (q <= 1)%Q.

End MetricsOps.

(** The counts of a small run: two posters from Kitsu, one from
    Nautiljon, two posters not found, an error. *)
Definition sample_counts : list MetricsOps.Op :=
  [MetricsOps.CacheMiss; MetricsOps.Success "kitsu" 0;
   MetricsOps.CacheHit;
   MetricsOps.CacheMiss; MetricsOps.Failure "all_sources_failed" None;
   MetricsOps.CacheMiss; MetricsOps.Success "Nautiljon" 0;
   MetricsOps.CacheMiss; MetricsOps.Success "kitsu" 0;
   MetricsOps.Error type_error;
   MetricsOps.CacheMiss; MetricsOps.Failure "all_sources_failed" None].

(** ** Further notions: runs of the rate limiters *)

Module LimiterRuns.

(** One passage through a rate limiter: the clock at which it is entered
    and the clock at which it lets the request go. *)
Record Pass := mkPass {
  entered : Z;
  left : Z
}.

(** The requests among [times] that fall in the window ending at [t]. *)
Definition in_window (window t : Z) (times : list Z) : list Z :=
  List.filter (fun t' => t - t' <? window) times.

(** The requests, newest first, are at least [window / rate] apart. *)
Fixpoint spaced (rate window : Z) (newest_first : list Z) : Prop :=
  match newest_first with
  | a :: rest =>
      match rest with
      | b :: _ => window <= (a - b) * rate
      | [] => True
      end /\ spaced rate window rest
  | [] => True
  end.

(** *** TMDB *)

Definition tmdb_pass (p : Pass) (s : TMDBSource.t) : TMDBSource.t :=
  TMDBSource._waitForRateLimit (entered p) (left p) s.

Definition tmdb_run (ps : list Pass) (s : TMDBSource.t) : TMDBSource.t :=
  fold_left (fun s p => tmdb_pass p s) ps s.

(** The passes are made one after the other from clock [c0] on, and a pass
    that waits resumes no earlier than its timer is due. *)
Fixpoint tmdb_timely (c0 : Z) (ps : list Pass) (s : TMDBSource.t) : Prop :=
  match ps with
  | [] => True
  | p :: rest =>
      c0 <= entered p /\
      entered p + match TMDBSource.waitTime (entered p) s with
                  | Some w => w
                  | None => 0
                  end <= left p /\
      tmdb_timely (left p) rest (tmdb_pass p s)
  end.

(** What the limiter of TMDB keeps, [hist] being the clocks of the
    requests it has let go and [c0] the clock of the last: no more
    timestamps than its limit, and all those of the requests that are in
    the window at any later clock. *)
Definition kept (c0 : Z) (hist : list Z) (s : TMDBSource.t) : Prop :=
  Z.of_nat (length (TMDBSource.requestTimes s)) <= Z.pos (TMDBSource.maxRequestsPer10Sec s) /\
  forall c, c0 <= c ->
    in_window (TMDBSource.rateLimitWindow s) c hist
    = in_window (TMDBSource.rateLimitWindow s) c (TMDBSource.requestTimes s).

(** [getNextRequestDelay()] at clock [now] *)
Definition getNextRequestDelay (now : Z) (s : TMDBSource.t) : Z :=
  if TMDBSource.canMakeRequestNow now s then 0
  else
    let recentRequests :=
      TMDBSource.prune (TMDBSource.rateLimitWindow s) now (TMDBSource.requestTimes s) in
    if (length recentRequests =? 0)%nat then 0
    else
      match TMDBSource.list_min recentRequests with
      | Some oldestRequest =>
          Z.max 0 (TMDBSource.rateLimitWindow s - (now - oldestRequest) + 100)
      | None => 0 (* not reached: the list is not empty *)
      end.

(** *** Kitsu *)

Definition kitsu_pass (p : Pass) (k : KitsuSource.t) : KitsuSource.t :=
  snd (KitsuSource._waitForRateLimit (entered p) (left p) k).

Definition kitsu_run (ps : list Pass) (k : KitsuSource.t) : KitsuSource.t :=
  fold_left (fun k p => kitsu_pass p k) ps k.


(** *** Nautiljon *)

Definition nautiljon_pass (p : Pass) (n : NautiljonSource.t) : NautiljonSource.t :=
  snd (NautiljonSource._ensureRateLimit (entered p) (left p) n).

Definition nautiljon_run (ps : list Pass) (n : NautiljonSource.t) : NautiljonSource.t :=
  fold_left (fun n p => nautiljon_pass p n) ps n.

Fixpoint nautiljon_timely (c0 : Z) (ps : list Pass) (n : NautiljonSource.t) : Prop :=
  match ps with
  | [] => True
  | p :: rest =>
      c0 <= entered p /\
      entered p + fst (NautiljonSource._ensureRateLimit (entered p) (left p) n)
      <= left p /\
      nautiljon_timely (left p) rest (nautiljon_pass p n)
  end.

End LimiterRuns.

(** Forty-two requests to TMDB: forty in a burst at clock 0, the next one
    waits for the window to pass, the last one goes at once. *)
Definition tmdb_burst : list LimiterRuns.Pass :=
  repeat (LimiterRuns.mkPass 0 0) 40
  ++ [LimiterRuns.mkPass 0 10100; LimiterRuns.mkPass 10100 10100].


Definition nautiljon_passes : list LimiterRuns.Pass :=
  [LimiterRuns.mkPass 10000 10000; LimiterRuns.mkPass 10000 16000;
   LimiterRuns.mkPass 30000 30000].


(** ** NautiljonSource: the comparison of titles
    (poster-system/sources/NautiljonSource.js) *)

Module Text.

(** A JavaScript string: the sequence of its UTF-16 code units. *)
Definition jsstring := list N.

(** The code units of an ASCII string. *)
Definition of_string (s : string) : jsstring :=
  map N_of_ascii (String.list_ascii_of_string s).

(** The class [\s] of a regular expression without the [u] flag, which is
    also what [trim] strips: TAB, LF, VT, FF, CR, SP, NBSP, U+1680,
    U+2000 to U+200A, U+2028, U+2029, U+202F, U+205F, U+3000 and U+FEFF. *)
Definition is_space (c : N) : bool :=
  (((9 <=? c) && (c <=? 13)) || (c =? 32) || (c =? 160) || (c =? 5760)
   || ((8192 <=? c) && (c <=? 8202)) || (c =? 8232) || (c =? 8233)
   || (c =? 8239) || (c =? 8287) || (c =? 12288) || (c =? 65279))%N.

(** The class [\w]: [A-Za-z0-9_]. *)
Definition is_word (c : N) : bool :=
  (((48 <=? c) && (c <=? 57)) || ((65 <=? c) && (c <=? 90)) || (c =? 95)
   || ((97 <=? c) && (c <=? 122)))%N.

Definition space : N := 32%N.
Definition hyphen : N := 45%N.

(** [s.replace(/[...]/g, ' ')] for a class of single code units. *)
Definition replace_class (class : N -> bool) (s : jsstring) : jsstring :=
  map (fun c => if class c then space else c) s.

(** [s.replace(/\s+/g, ' ')]: [in_run] tells that the code unit before was
    white space. *)
Fixpoint collapse_from (in_run : bool) (s : jsstring) : jsstring :=
  match s with
  | [] => []
  | c :: rest =>
      if is_space c then
        if in_run then collapse_from true rest else space :: collapse_from true rest
      else c :: collapse_from false rest
  end.

Definition collapse (s : jsstring) : jsstring := collapse_from false s.

Fixpoint trim_start (s : jsstring) : jsstring :=
  match s with
  | c :: rest => if is_space c then trim_start rest else s
  | [] => []
  end.

(** [s.trim()] *)
Definition trim (s : jsstring) : jsstring :=
  rev (trim_start (rev (trim_start s))).

(** [s.split(/\s+/)]: the pieces between the runs of white space; a run at
    the start or at the end leaves an empty piece there. [piece] is the
    piece being read, last code unit first. *)
Fixpoint split_from (piece : jsstring) (in_run : bool) (s : jsstring) : list jsstring :=
  match s with
  | [] => [rev piece]
  | c :: rest =>
      if is_space c then
        if in_run then split_from piece true rest
        else rev piece :: split_from [] true rest
      else split_from (c :: piece) false rest
  end.

Definition split_spaces (s : jsstring) : list jsstring := split_from [] false s.

Fixpoint starts_with (sub s : jsstring) : bool :=
  match sub, s with
  | [], _ => true
  | _ :: _, [] => false
  | a :: sub', b :: s' => (a =? b)%N && starts_with sub' s'
  end.

(** [s.includes(sub)] *)
Fixpoint includes (s sub : jsstring) : bool :=
  starts_with sub s ||
  match s with
  | [] => false
  | _ :: s' => includes s' sub
  end.

(** [_normalizeSearchQuery(query)] *)
Definition _normalizeSearchQuery (query : jsstring) : jsstring :=
  trim (collapse
          (replace_class (fun c => negb (is_word c || is_space c || (c =? hyphen)%N))
                         query)).

(** What the body of the two loops of [_calculateSimilarity] does to
    [commonWords] for one pair of words. *)
Definition count_pair (commonWords : Z) (word1 word2 : jsstring) : Z :=
  if (2 <? length word1)%nat && (2 <? length word2)%nat then
    if bool_decide (word1 = word2) then commonWords + 2
    else if includes word1 word2 || includes word2 word1 then commonWords + 1
    else commonWords
  else commonWords.

(** [_calculateSimilarity(str1, str2)] *)
Definition _calculateSimilarity (str1 str2 : jsstring) : Q :=
  match str1, str2 with
  | [], _ | _, [] => 0%Q
  | _, _ =>
      if bool_decide (str1 = str2) then 1%Q
      else
        let words1 := split_spaces str1 in
        let words2 := split_spaces str2 in
        let commonWords :=
          fold_left (fun commonWords word1 =>
                       fold_left (fun commonWords word2 =>
                                    count_pair commonWords word1 word2)
                                 words2 commonWords)
                    words1 0 in
        let maxWords := Z.max (Z.of_nat (length words1)) (Z.of_nat (length words2)) in
        if 0 <? maxWords then CacheService.ratio commonWords (maxWords * 2) else 0%Q
  end.

(** A search result scraped from the page. *)
Record Result := mkResult {
  title : jsstring;
  url : jsstring;
  element : jsstring
}.

(** [scoredResults.sort((a, b) => b.score - a.score)]: the sort is stable;
    by insertion, each result going before the first one that does not
    score more than it. *)
Fixpoint insert_by_score (x : Result * Q) (l : list (Result * Q)) : list (Result * Q) :=
  match l with
  | [] => [x]
  | y :: l' =>
      if Qle_bool (snd y) (snd x) then x :: l else y :: insert_by_score x l'
  end.

Definition sort_by_score (l : list (Result * Q)) : list (Result * Q) :=
  fold_right insert_by_score [] l.

Section WithLowerCase.
(** [String.prototype.toLowerCase] *)
Context (toLowerCase : jsstring -> jsstring).

(** [_normalizeForComparison(str)] *)
Definition _normalizeForComparison (str : jsstring) : jsstring :=
  trim (collapse
          (replace_class (fun c => negb (is_word c || is_space c)) (toLowerCase str))).

(** The score [_findBestMatch] gives a result. *)
Definition score (searchTerm : jsstring) (result : Result) : Q :=
  _calculateSimilarity (_normalizeForComparison searchTerm)
                       (_normalizeForComparison (title result)).

(** [_findBestMatch(searchTerm, results)], for an array of results: the
    result returned, with its score. *)
Definition _findBestMatch (searchTerm : jsstring) (results : list Result)
  : option (Result * Q) :=
  match results with
  | [] => None
  | _ =>
      let normalizedSearch := _normalizeForComparison searchTerm in
      let scoredResults :=
        map (fun result =>
               (result,
                _calculateSimilarity normalizedSearch
                                     (_normalizeForComparison (title result))))
            results in
      match sort_by_score scoredResults with
      | bestMatch :: _ =>
          if negb (Qle_bool (snd bestMatch) (3 # 10)) then Some bestMatch else None
      | [] => None
      end
  end.

End WithLowerCase.

(** The code units a normalised query is made of: those of [\w], the
    hyphen and the space. *)
Definition allowed (c : N) : bool :=
  is_word c || (c =? hyphen)%N || (c =? space)%N.

(** No white space next to white space. *)
Fixpoint no_run (s : jsstring) : bool :=
  match s with
  | a :: rest =>
      match rest with
      | b :: _ => negb (is_space a && is_space b)
      | [] => true
      end && no_run rest
  | [] => true
  end.

(** The string does not start with white space. *)
Definition starts_clean (s : jsstring) : Prop :=
  match s with
  | c :: _ => is_space c = false
  | [] => True
  end.

(** Words of [A-Za-z0-9_-] with single spaces between them, and no white
    space at either end. *)
Definition tidy (s : jsstring) : Prop :=
  forallb allowed s = true /\ no_run s = true /\
  starts_clean s /\ starts_clean (rev s).

(** The sum of a list of numbers. *)
Definition total (l : list Z) : Z := fold_right Z.add 0 l.

(** The number of words of a string, and its words too short to count. *)
Definition words (s : jsstring) : Z := Z.of_nat (length (split_spaces s)).

Definition short_words (s : jsstring) : Prop :=
  Forall (fun w => (length w <= 2)%nat) (split_spaces s).

(** Two titles that share their words three by two. *)
Definition title_twice : jsstring := of_string "abc abc".
Definition title_thrice : jsstring := of_string "abc abc abc".

(** [toLowerCase] on ASCII strings. *)
Definition ascii_lower (s : jsstring) : jsstring :=
  map (fun c => if (65 <=? c) && (c <=? 90) then c + 32 else c)%N s.

End Text.

(** ** Requests in flight on a source

    [fetchPoster] of a source is an [async] function: several calls are in
    progress at once (the catalog handler asks for five posters at a time,
    and a request abandoned by the timeout of [_executeWithMetrics] goes
    on), and each runs without interruption from one [await] to the next.
    The state holds the source and its requests in flight. An event is one
    uninterrupted run: a call of [fetchPoster] up to its first pending
    [await]; a request going on when the timer of the rate limiter fires;
    a request going on when the network answers; the timeout timer of
    [_executeWithMetrics] firing; the timers of the source firing. The
    events come in any order, each with the clock it runs at. *)

Module Flights.
Import PosterSource.

(** The [await] a request stands at. *)
Inductive Phase :=
(* the timer of the rate limiter *)
| Waiting
(* the request to the server (Kitsu, Nautiljon), or the search as a TV
   show (TMDB) *)
| Fetching
(* the search as a film (TMDB) *)
| FetchingMovie.

(** A request in flight: the [startTime] of [_executeWithMetrics], where
    the request function stands, and whether the timeout has settled the
    race, so that nothing awaits the request function any more. *)
Record Flight := mkFlight {
  startTime : Z;
  phase : Phase;
  abandoned : bool
}.

(** What the network answers to a request. *)
Inductive Answer :=
| KitsuOk (posterImage : option KitsuSource.PosterImage)
| KitsuStatus (status : Z) (statusText : string)
| KitsuRejected (message : string)
| TmdbAnswer (r : TMDBSource.HttpReply)
| NautiljonScraped (posterUrl : option string)
| NautiljonFailed (message : string).

Record t := mk {
  source : FallbackChain.Source;
  flights : gmap nat Flight
}.

Definition start (s : FallbackChain.Source) : t := mk s ∅.

Inductive Event :=
(* [fetchPoster(animeId, animeName)] is called; the request it may start
   is [rid] *)
| Call (rid : nat) (animeId animeName : string) (now : Z)
(* the timer of the rate limiter fires for request [rid] *)
| Waited (rid : nat) (now : Z)
(* the network answers request [rid] *)
| Replied (rid : nat) (a : Answer) (now : Z)
(* the timeout timer of the [_executeWithMetrics] of request [rid] fires *)
| TimedOut (rid : nat) (now : Z)
(* the timers of the source that are due fire *)
| Timers (now : Z).

(** A call of [fetchPoster] up to its first pending [await]: it has thrown,
    or its request is in flight. *)
Inductive Entered :=
| Refused (e : Err.t)
| Took (f : Flight).

(** KitsuSource: [_canMakeRequest], the validation of the id, the
    availability test of [_executeWithMetrics], and [_waitForRateLimit] up
    to its timer; without a wait the request leaves at once. *)
Definition kitsu_enter (animeId : string) (now : Z) (k : KitsuSource.t)
  : Entered * KitsuSource.t :=
  let '(can, c) := Breaker._canMakeRequest now (KitsuSource.cb k) in
  let k1 := KitsuSource.with_cb k c in
  if negb can then (Refused (Err.CircuitOpen (name (KitsuSource.base k1))), k1)
  else if (negb (Js.truthy animeId) || Js.isNaN animeId)%bool then
    (Refused Err.InvalidId, k1)
  else if negb (isAvailable (KitsuSource.base k1)) then
    (Refused (Err.Unavailable (name (KitsuSource.base k1))), k1)
  else
    match KitsuSource.waitTime now k1 with
    | Some _ => (Took (mkFlight now Waiting false), k1)
    | None => (Took (mkFlight now Fetching false), KitsuSource.with_lastRequestTime k1 now)
    end.

(** TMDBSource: [_canMakeRequest], the validation of the name and of the
    key, the availability test, and [_waitForRateLimit] up to its timer:
    the request times are pruned, and without a wait the time of the
    request is pushed. *)
Definition tmdb_enter (animeName : string) (now : Z) (s : TMDBSource.t)
  : Entered * TMDBSource.t :=
  let '(can, c) := Breaker._canMakeRequest now (TMDBSource.cb s) in
  let s1 := TMDBSource.with_cb s c in
  if negb can then (Refused (Err.CircuitOpen (name (TMDBSource.base s1))), s1)
  else if negb (Js.truthy animeName) then (Refused Err.NameRequired, s1)
  else
    match TMDBSource.apiKey s1 with
    | None => (Refused Err.ApiKeyMissing, s1)
    | Some _ =>
        if negb (isAvailable (TMDBSource.base s1)) then
          (Refused (Err.Unavailable (name (TMDBSource.base s1))), s1)
        else
          let recent := TMDBSource.prune (TMDBSource.rateLimitWindow s1) now
                          (TMDBSource.requestTimes s1) in
          match TMDBSource.waitTime now s1 with
          | Some _ =>
              (Took (mkFlight now Waiting false), TMDBSource.with_requestTimes s1 recent)
          | None =>
              (Took (mkFlight now Fetching false),
               TMDBSource.with_requestTimes s1 (recent ++ [now]))
          end
    end.

(** NautiljonSource: the availability test and [_ensureRateLimit] up to its
    timer. *)
Definition nautiljon_enter (now : Z) (n : NautiljonSource.t)
  : Entered * NautiljonSource.t :=
  if negb (isAvailable (NautiljonSource.base n)) then
    (Refused (Err.Unavailable (name (NautiljonSource.base n))), n)
  else if now - NautiljonSource.lastRequestTime n <? NautiljonSource.minRequestInterval n
  then (Took (mkFlight now Waiting false), n)
  else (Took (mkFlight now Fetching false),
        NautiljonSource.mk (NautiljonSource.base n) now
                           (NautiljonSource.minRequestInterval n)).

Definition enter (animeId animeName : string) (now : Z) (s : FallbackChain.Source)
  : Entered * FallbackChain.Source :=
  match s with
  | FallbackChain.Kitsu k =>
      let '(r, k1) := kitsu_enter animeId now k in (r, FallbackChain.Kitsu k1)
  | FallbackChain.Tmdb t =>
      let '(r, t1) := tmdb_enter animeName now t in (r, FallbackChain.Tmdb t1)
  | FallbackChain.Nautiljon n =>
      let '(r, n1) := nautiljon_enter now n in (r, FallbackChain.Nautiljon n1)
  end.

(** The rate limiter after its timer: Kitsu and Nautiljon note the time of
    the request, TMDB prunes its request times again and pushes it. *)
Definition waited (now : Z) (s : FallbackChain.Source) : FallbackChain.Source :=
  match s with
  | FallbackChain.Kitsu k => FallbackChain.Kitsu (KitsuSource.with_lastRequestTime k now)
  | FallbackChain.Tmdb t =>
      FallbackChain.Tmdb
        (TMDBSource.with_requestTimes t
           (TMDBSource.prune (TMDBSource.rateLimitWindow t) now (TMDBSource.requestTimes t)
            ++ [now]))
  | FallbackChain.Nautiljon n =>
      FallbackChain.Nautiljon
        (NautiljonSource.mk (NautiljonSource.base n) now
                            (NautiljonSource.minRequestInterval n))
  end.

(** How the request function goes on when the network answers: it returns,
    it throws, or (TMDB, no poster among the TV shows) it searches the
    films. *)
Inductive Outcome :=
| Returned (posterUrl : option string)
| Threw (e : Err.t)
| SearchesOn.

(** [this._onSuccess()] on a source with a circuit breaker. *)
Definition on_success (s : FallbackChain.Source) : FallbackChain.Source :=
  match s with
  | FallbackChain.Kitsu k =>
      let '(c, b) := Breaker._onSuccess (KitsuSource.cb k) (KitsuSource.base k) in
      FallbackChain.Kitsu (KitsuSource.with_b (KitsuSource.with_cb k c) b)
  | FallbackChain.Tmdb t =>
      let '(c, b) := Breaker._onSuccess (TMDBSource.cb t) (TMDBSource.base t) in
      FallbackChain.Tmdb (TMDBSource.with_b (TMDBSource.with_cb t c) b)
  | FallbackChain.Nautiljon n => s
  end.

(** The request function from the answer on. [None]: the answer is not one
    a request of this source awaits in this phase.
    Kitsu: a 404 returns [null], another status that is not ok throws; a
    body with a poster calls [_onSuccess] and returns the poster.
    TMDB: [_searchAsTVShow], then [_searchAsMovie], each catching what its
    request throws; a poster calls [_onSuccess].
    Nautiljon: what the scraping gives, or throws. *)
Definition respond (a : Answer) (ph : Phase) (now : Z) (s : FallbackChain.Source)
  : option (Outcome * FallbackChain.Source) :=
  match s, a, ph with
  | FallbackChain.Kitsu k, KitsuRejected m, Fetching => Some (Threw (Err.Other m), s)
  | FallbackChain.Kitsu k, KitsuStatus status statusText, Fetching =>
      Some (if status =? 404 then Returned None
            else Threw (Err.Http status statusText), s)
  | FallbackChain.Kitsu k, KitsuOk poster, Fetching =>
      let posterUrl :=
        match poster with
        | Some p =>
            Js.str_or (KitsuSource.large p)
              (Js.str_or (KitsuSource.medium p) (Js.str_or (KitsuSource.original p) None))
        | None => None
        end in
      match posterUrl with
      | Some url => Some (Returned (Some url), on_success s)
      | None => Some (Returned None, s)
      end
  | FallbackChain.Tmdb t, TmdbAnswer r, Fetching =>
      match TMDBSource._search now r t with
      | (Some url, t1) => Some (Returned (Some url), on_success (FallbackChain.Tmdb t1))
      | (None, t1) => Some (SearchesOn, FallbackChain.Tmdb t1)
      end
  | FallbackChain.Tmdb t, TmdbAnswer r, FetchingMovie =>
      match TMDBSource._search now r t with
      | (Some url, t1) => Some (Returned (Some url), on_success (FallbackChain.Tmdb t1))
      | (None, t1) => Some (Returned None, FallbackChain.Tmdb t1)
      end
  | FallbackChain.Nautiljon n, NautiljonScraped posterUrl, Fetching =>
      Some (Returned posterUrl, s)
  | FallbackChain.Nautiljon n, NautiljonFailed m, Fetching =>
      Some (Threw (Err.Other m), s)
  | _, _, _ => None
  end.

(** [this._recordFailure(error, responseTime)] at clock [now], by the
    class of the source. *)
Definition recordFailure (error : Err.t) (responseTime now : Z)
    (s : FallbackChain.Source) : FallbackChain.Source :=
  match s with
  | FallbackChain.Kitsu k => FallbackChain.Kitsu (record_failure error responseTime now k)
  | FallbackChain.Tmdb t => FallbackChain.Tmdb (record_failure error responseTime now t)
  | FallbackChain.Nautiljon n =>
      FallbackChain.Nautiljon (record_failure error responseTime now n)
  end.

(** [_executeWithMetrics] after its [await]: the request function has
    settled the race with [r] at clock [now], and the success or the
    failure is recorded. When the timeout had settled the race before,
    nothing awaits [r], and nothing is recorded. *)
Definition settle (f : Flight) (now : Z) (r : Err.result (option string))
    (s : FallbackChain.Source)
  : option (Err.result (option string)) * FallbackChain.Source :=
  if abandoned f then (None, s)
  else
    let responseTime := now - startTime f in
    match r with
    | Err.Return result =>
        (Some r, FallbackChain.set_base s
                   (_recordSuccess responseTime now (FallbackChain.base s)))
    | Err.Throw error => (Some r, recordFailure error responseTime now s)
    end.

(** One event: how [fetchPoster] settles for its caller, if the event
    settles it, and the state afterwards. *)
Definition step (e : Event) (x : t) : option (Err.result (option string)) * t :=
  match e with
  | Call rid animeId animeName now =>
      match flights x !! rid with
      | Some _ => (None, x)
      | None =>
          match enter animeId animeName now (source x) with
          | (Refused err, s1) => (Some (Err.Throw err), mk s1 (flights x))
          | (Took f, s1) => (None, mk s1 (<[rid := f]> (flights x)))
          end
      end
  | Waited rid now =>
      match flights x !! rid with
      | Some f =>
          match phase f with
          | Waiting =>
              (None, mk (waited now (source x))
                        (<[rid := mkFlight (startTime f) Fetching (abandoned f)]>
                           (flights x)))
          | _ => (None, x)
          end
      | None => (None, x)
      end
  | Replied rid a now =>
      match flights x !! rid with
      | Some f =>
          match respond a (phase f) now (source x) with
          | Some (SearchesOn, s1) =>
              (None, mk s1 (<[rid := mkFlight (startTime f) FetchingMovie (abandoned f)]>
                              (flights x)))
          | Some (Returned posterUrl, s1) =>
              let '(d, s2) := settle f now (Err.Return posterUrl) s1 in
              (d, mk s2 (delete rid (flights x)))
          | Some (Threw err, s1) =>
              let '(d, s2) := settle f now (Err.Throw err) s1 in
              (d, mk s2 (delete rid (flights x)))
          | None => (None, x)
          end
      | None => (None, x)
      end
  | TimedOut rid now =>
      match flights x !! rid with
      | Some f =>
          if abandoned f then (None, x)
          else
            (Some (Err.Throw Err.Timeout),
             mk (recordFailure Err.Timeout (now - startTime f) now (source x))
                (<[rid := mkFlight (startTime f) (phase f) true]> (flights x)))
      | None => (None, x)
      end
  | Timers now => (None, mk (Attempts.fire_timers now (source x)) (flights x))
  end.

Definition run (events : list Event) (x : t) : t :=
  fold_left (fun x e => snd (step e x)) events x.

(** How the calls settle for their callers, in the order they do. *)
Fixpoint delivered (events : list Event) (x : t) : list (Err.result (option string)) :=
  match events with
  | [] => []
  | e :: rest =>
      match fst (step e x) with
      | Some r => r :: delivered rest (snd (step e x))
      | None => delivered rest (snd (step e x))
      end
  end.

End Flights.

(** ** The step relation of the circuit breaker, as the code has it

    The state of a breaker is its [circuitState], its [nextAttemptTime], and
    the [consecutiveFailures] and [isTemporarilyDisabled] of the metrics of
    its source. What happens to the source is seen as one of seven things. *)
Module BreakerSpec.
Import Breaker.

Record State := mkState {
  state : CircuitState;
  nextAttemptAt : Z;
  failures : Z;
  disabled : bool
}.

Inductive Label :=
(* a call at [now] is thrown back by the open breaker *)
| Rejected (now : Z)
(* a call at [now] is let through by the breaker *)
| Passed (now : Z)
(* a request returns a poster; [recorded]: the race of
   [_executeWithMetrics] was still open, and the success is recorded *)
| Found (recorded : bool)
(* a request returns no poster, and the success is recorded *)
| NotFound
(* a failure is recorded at [now]: a request threw, or timed out *)
| Failed (now : Z)
(* timers of the source fire, in this order *)
| Fired (actions : list PosterSource.TimerAction)
(* anything else *)
| Quiet.

(** The state in which a call let through goes on: [OPEN] has become
    [HALF_OPEN]. *)
Definition on_entry (s : CircuitState) : CircuitState :=
  match s with
  | OPEN => HALF_OPEN
  | _ => s
  end.

(** An open breaker rejects while the clock is before [nextAttemptAt]. *)
Definition rejects (now : Z) (s : State) : Prop :=
  state s = OPEN /\ now < nextAttemptAt s.

(** What the callback of a timer does. *)
Definition fired (s : State) (a : PosterSource.TimerAction) : State :=
  match a with
  | PosterSource.ReenableAndReset => mkState (state s) (nextAttemptAt s) 0 false
  | PosterSource.ReenableIfOpen =>
      match state s with
      | OPEN => mkState OPEN (nextAttemptAt s) (failures s) false
      | _ => s
      end
  | PosterSource.RestoreRateLimit _ => s
  end.

Inductive step (threshold cooldown : Z) : State -> Label -> State -> Prop :=
| step_rejected s now :
    rejects now s ->
    step threshold cooldown s (Rejected now) s
| step_passed s now :
    ~ rejects now s ->
    step threshold cooldown s (Passed now)
         (mkState (on_entry (state s)) (nextAttemptAt s) (failures s) (disabled s))
| step_found_closes s recorded :
    state s = HALF_OPEN ->
    step threshold cooldown s (Found recorded)
         (mkState CLOSED (nextAttemptAt s) 0 false)
| step_found_recorded s :
    state s <> HALF_OPEN ->
    step threshold cooldown s (Found true)
         (mkState (state s) (nextAttemptAt s) 0 (disabled s))
| step_found_dropped s :
    state s <> HALF_OPEN ->
    step threshold cooldown s (Found false) s
| step_not_found s :
    step threshold cooldown s NotFound
         (mkState (state s) (nextAttemptAt s) 0 (disabled s))
| step_failed_opens s now :
    state s = HALF_OPEN \/ threshold <= failures s + 1 ->
    step threshold cooldown s (Failed now)
         (mkState OPEN (now + cooldown) (failures s + 1) true)
| step_failed_counts s now :
    state s <> HALF_OPEN ->
    failures s + 1 < threshold ->
    step threshold cooldown s (Failed now)
         (mkState (state s) (nextAttemptAt s) (failures s + 1) (disabled s))
| step_fired s actions :
    step threshold cooldown s (Fired actions) (fold_left fired actions s)
| step_quiet s :
    step threshold cooldown s Quiet s.

(** The breaker state of a source. *)
Definition state_of (cb : Breaker.t) (b : PosterSource.Base) : State :=
  mkState (circuitState cb) (nextAttemptTime cb)
          (PosterSource.consecutiveFailures (PosterSource.metrics b))
          (PosterSource.isTemporarilyDisabled (PosterSource.metrics b)).

(** The timers of [b] that fire at [now], in the order they fire. *)
Definition due_actions (now : Z) (b : PosterSource.Base) : list PosterSource.TimerAction :=
  map PosterSource.action
    (Js.sort_by PosterSource.due
       (List.filter (fun t => PosterSource.due t <=? now) (PosterSource.timers b))).

(** What an event is for the breaker, by what the source is seen to do:
    how the call is thrown back, what the request function ends in, and
    whether the race of [_executeWithMetrics] was still open. *)
Definition observe (e : Flights.Event) (x : Flights.t) : Label :=
  match e with
  | Flights.Call rid animeId animeName now =>
      match Flights.flights x !! rid with
      | Some _ => Quiet
      | None =>
          match fst (Flights.enter animeId animeName now (Flights.source x)) with
          | Flights.Refused (Err.CircuitOpen _) => Rejected now
          | _ => Passed now
          end
      end
  | Flights.Waited _ _ => Quiet
  | Flights.Replied rid a now =>
      match Flights.flights x !! rid with
      | Some f =>
          match Flights.respond a (Flights.phase f) now (Flights.source x) with
          | Some (Flights.Returned (Some _), _) => Found (negb (Flights.abandoned f))
          | Some (Flights.Returned None, _) =>
              if Flights.abandoned f then Quiet else NotFound
          | Some (Flights.Threw _, _) =>
              if Flights.abandoned f then Quiet else Failed now
          | _ => Quiet
          end
      | None => Quiet
      end
  | Flights.TimedOut rid now =>
      match Flights.flights x !! rid with
      | Some f => if Flights.abandoned f then Quiet else Failed now
      | None => Quiet
      end
  | Flights.Timers now => Fired (due_actions now (FallbackChain.base (Flights.source x)))
  end.

End BreakerSpec.

(** ** Sample runs on a source *)

(** The breaker is locked: it is not closed, its source is marked
    temporarily disabled, no timer is pending that clears the mark, and no
    request is in flight. *)
Definition locked (x : Flights.t) : Prop :=
  (exists cb, breaker (Flights.source x) = Some cb /\
              Breaker.circuitState cb <> Breaker.CLOSED) /\
  PosterSource.isTemporarilyDisabled
    (PosterSource.metrics (FallbackChain.base (Flights.source x))) = true /\
  Attempts.pending_reenable (FallbackChain.base (Flights.source x)) = [] /\
  Flights.flights x = ∅.

(** A poster of Kitsu. *)
Definition kitsu_poster : Flights.Answer :=
  Flights.KitsuOk (Some (KitsuSource.mkPosterImage
                           (Some "https://example.com/poster.jpg") None None)).

(** A Kitsu source whose breaker is half-open, with the probe in flight
    since clock 5000. *)
Definition probing : Flights.t :=
  Flights.mk (FallbackChain.Kitsu (kitsu_in Breaker.HALF_OPEN 4000))
             {[ 0%nat := Flights.mkFlight 5000 Flights.Fetching false ]}.

(** A Kitsu source with two consecutive failures, one short of its
    threshold, and two requests in flight. *)
Definition two_in_flight : Flights.t :=
  Flights.run [Flights.Call 0%nat "123" "Test Anime" 5000;
               Flights.Call 1%nat "456" "Other Anime" 5001]
    (Flights.start
       (FallbackChain.Kitsu
          (KitsuSource.with_b test_kitsu
             (PosterSource.with_metrics (KitsuSource.base test_kitsu)
                (PosterSource.set_consecutiveFailures 2
                   (PosterSource.metrics (KitsuSource.base test_kitsu))))))).

(** The events of an attempt that runs alone on a source: the call, the
    timer of the rate limiter if the request waits, and the answers of the
    network or, when the attempt times out, the timeout. *)
Definition attempt_events (animeId animeName : string) (a : FallbackChain.Attempt)
    (s : FallbackChain.Source) : list Flights.Event :=
  let t_end := FallbackChain.t_end a in
  Flights.Call 0%nat animeId animeName (FallbackChain.t_start a)
  :: Flights.Waited 0%nat (FallbackChain.t_req a)
  :: match s with
     | FallbackChain.Kitsu _ =>
         match FallbackChain.kitsu_reply a with
         | KitsuSource.Ok poster => [Flights.Replied 0%nat (Flights.KitsuOk poster) t_end]
         | KitsuSource.Status status statusText =>
             [Flights.Replied 0%nat (Flights.KitsuStatus status statusText) t_end]
         | KitsuSource.Rejected m => [Flights.Replied 0%nat (Flights.KitsuRejected m) t_end]
         | KitsuSource.TimedOut => [Flights.TimedOut 0%nat t_end]
         end
     | FallbackChain.Tmdb _ =>
         match FallbackChain.tmdb_reply a with
         | TMDBSource.Searches tv movie =>
             [Flights.Replied 0%nat (Flights.TmdbAnswer tv) t_end;
              Flights.Replied 0%nat (Flights.TmdbAnswer movie) t_end]
         | TMDBSource.TimedOut => [Flights.TimedOut 0%nat t_end]
         end
     | FallbackChain.Nautiljon _ =>
         match FallbackChain.nautiljon_reply a with
         | NautiljonSource.Scraped posterUrl =>
             [Flights.Replied 0%nat (Flights.NautiljonScraped posterUrl) t_end]
         | NautiljonSource.Failed m =>
             [Flights.Replied 0%nat (Flights.NautiljonFailed m) t_end]
         | NautiljonSource.TimedOut => [Flights.TimedOut 0%nat t_end]
         end
     end.

(** * Properties

    ** Sample evaluations *)

Example isNaN_samples :
  map Js.isNaN ["123"; "abc"; " 42 "; "1e3"; "0x1F"; "-.5"; "."; "12px"; "Infinity"; "+-1"]
  = [false; true; false; false; false; false; true; true; false; true].
Proof. reflexivity. Qed.


(** ** The insertion-ordered map *)

Module JsMapFacts.
Section WithValue.
Context {V : Type}.
Implicit Types (m : list (string * V)) (k : string) (v : V).

Lemma get_delete_same k m : JsMap.get k (JsMap.delete k m) = None.
Proof.
  induction m as [|[k' v'] m IH]; simpl; [reflexivity|].
  destruct (String.eqb k k') eqn:E; simpl; [assumption|].
  now rewrite E.
Qed.

Lemma get_delete_other k k' m :
  k <> k' -> JsMap.get k' (JsMap.delete k m) = JsMap.get k' m.
Proof.
  intros Hne. induction m as [|[k0 v0] m IH]; simpl; [reflexivity|].
  destruct (String.eqb k k0) eqn:E; simpl.
  - apply String.eqb_eq in E. subst k0.
    destruct (String.eqb k' k) eqn:E'; [|assumption].
    apply String.eqb_eq in E'. congruence.
  - now rewrite IH.
Qed.

Lemma get_set_same k v m : JsMap.get k (JsMap.set k v m) = Some v.
Proof.
  induction m as [|[k' v'] m IH]; simpl.
  - now rewrite String.eqb_refl.
  - destruct (String.eqb k k') eqn:E; simpl; now rewrite E.
Qed.

Lemma get_set_other k k' v m :
  k <> k' -> JsMap.get k' (JsMap.set k v m) = JsMap.get k' m.
Proof.
  intros Hne. induction m as [|[k0 v0] m IH]; simpl.
  - destruct (String.eqb k' k) eqn:E; [|reflexivity].
    apply String.eqb_eq in E. congruence.
  - destruct (String.eqb k k0) eqn:E; simpl.
    + apply String.eqb_eq in E. subst k0.
      destruct (String.eqb k' k) eqn:E'; [|reflexivity].
      apply String.eqb_eq in E'. congruence.
    + now rewrite IH.
Qed.

Lemma get_None_not_key k m :
  JsMap.get k m = None <-> ~ In k (JsMap.keys m).
Proof.
  induction m as [|[k' v'] m IH]; simpl.
  - tauto.
  - destruct (String.eqb k k') eqn:E.
    + apply String.eqb_eq in E. subst. split; [discriminate|tauto].
    + apply String.eqb_neq in E. rewrite IH. split.
      * intros H [H1|H1]; [congruence|tauto].
      * tauto.
Qed.

Lemma has_false_not_key k m :
  JsMap.has k m = false <-> ~ In k (JsMap.keys m).
Proof.
  unfold JsMap.has. rewrite <- get_None_not_key.
  destruct (JsMap.get k m); split; congruence.
Qed.

(** Setting a key that is absent appends it. *)
Lemma set_absent k v m :
  JsMap.get k m = None -> JsMap.set k v m = m ++ [(k, v)].
Proof.
  induction m as [|[k' v'] m IH]; simpl; [reflexivity|].
  destruct (String.eqb k k') eqn:E; [discriminate|].
  intros H. now rewrite IH.
Qed.

Lemma keys_delete k m :
  JsMap.keys (JsMap.delete k m)
  = List.filter (fun k' => negb (String.eqb k k')) (JsMap.keys m).
Proof.
  induction m as [|[k' v'] m IH]; simpl; [reflexivity|].
  destruct (String.eqb k k'); simpl; now rewrite IH.
Qed.

Lemma delete_absent k m : JsMap.get k m = None -> JsMap.delete k m = m.
Proof.
  induction m as [|[k' v'] m IH]; simpl; [reflexivity|].
  destruct (String.eqb k k'); [discriminate|].
  intros H. now rewrite IH.
Qed.

Lemma keys_app m1 m2 : JsMap.keys (m1 ++ m2) = JsMap.keys m1 ++ JsMap.keys m2.
Proof. unfold JsMap.keys. apply map_app. Qed.

(** Deleting a key and setting it again moves it to the end. *)
Lemma keys_move_to_end k v m :
  JsMap.keys (JsMap.set k v (JsMap.delete k m))
  = List.filter (fun k' => negb (String.eqb k k')) (JsMap.keys m) ++ [k].
Proof.
  rewrite set_absent by apply get_delete_same.
  rewrite keys_app, keys_delete. reflexivity.
Qed.

End WithValue.
End JsMapFacts.

(** ** CacheService: expiry *)

Module CacheFacts.
Import CacheService.

Lemma get_expired key now c entry :
  JsMap.get key (cache c) = Some entry ->
  timestamp entry + ttl entry < now ->
  fst (get key now c) = None /\
  JsMap.get key (cache (snd (get key now c))) = None /\
  st_misses (stats (snd (get key now c))) = st_misses (stats c) + 1 /\
  st_hits (stats (snd (get key now c))) = st_hits (stats c).
Proof.
  intros Hget Hlt. unfold get. rewrite Hget.
  assert (E : _isExpired entry now = true) by (unfold _isExpired; lia).
  rewrite E. simpl. repeat split. apply JsMapFacts.get_delete_same.
Qed.

Lemma get_live key now c entry :
  JsMap.get key (cache c) = Some entry ->
  now <= timestamp entry + ttl entry ->
  fst (get key now c) = Some (touch entry) /\
  JsMap.get key (cache (snd (get key now c))) = Some (touch entry) /\
  st_hits (stats (snd (get key now c))) = st_hits (stats c) + 1 /\
  st_misses (stats (snd (get key now c))) = st_misses (stats c).
Proof.
  intros Hget Hle. unfold get. rewrite Hget.
  assert (E : _isExpired entry now = false) by (unfold _isExpired; lia).
  rewrite E. simpl. repeat split. apply JsMapFacts.get_set_same.
Qed.

End CacheFacts.

(** C4, as the code has it: an entry is expired only once the clock is
    past [timestamp + ttl]. A [get] at a clock [now] with
    [timestamp + ttl < now] returns nothing, removes the entry and counts a
    miss, not a hit; a [get] at [now <= timestamp + ttl], the instant
    [now = timestamp + ttl] included, returns the entry with one more hit,
    keeps it and counts a hit, not a miss. *)
Theorem C4_get_expires_strictly_after_ttl :
  forall key now c entry,
    JsMap.get key (CacheService.cache c) = Some entry ->
    let r := CacheService.get key now c in
    if CacheService.timestamp entry + CacheService.ttl entry <? now then
      fst r = None /\
      JsMap.get key (CacheService.cache (snd r)) = None /\
      CacheService.st_misses (CacheService.stats (snd r))
        = CacheService.st_misses (CacheService.stats c) + 1 /\
      CacheService.st_hits (CacheService.stats (snd r))
        = CacheService.st_hits (CacheService.stats c)
    else
      fst r = Some (touch entry) /\
      JsMap.get key (CacheService.cache (snd r)) = Some (touch entry) /\
      CacheService.st_hits (CacheService.stats (snd r))
        = CacheService.st_hits (CacheService.stats c) + 1 /\
      CacheService.st_misses (CacheService.stats (snd r))
        = CacheService.st_misses (CacheService.stats c).
Proof.
  intros key now c entry Hget r.
  destruct (Z.ltb_spec (CacheService.timestamp entry + CacheService.ttl entry) now).
  - apply (CacheFacts.get_expired key now c entry); assumption.
  - apply (CacheFacts.get_live key now c entry); assumption.
Qed.

Lemma C4_get_expires_strictly_after_ttl_witness :
  let r := CacheService.get "1:X" 1101 cache_with_one_entry in
  fst r = None /\
  JsMap.get "1:X" (CacheService.cache (snd r)) = None /\
  CacheService.st_misses (CacheService.stats (snd r)) = 0 + 1 /\
  CacheService.st_hits (CacheService.stats (snd r)) = 0.
Proof.
  exact (C4_get_expires_strictly_after_ttl "1:X" 1101 cache_with_one_entry
           (CacheService.mkEntry "1" "u1" "kitsu" 1000 100 0) eq_refl).
Defined.

(** C4 as stated fails at the instant [now = timestamp + ttl]: the entry
    set at 1000 with a ttl of 100 is still returned by a [get] at 1100, and
    the [get] counts a hit and no miss. *)
Lemma C4_counterexample_expiry_instant :
  let entry := CacheService.mkEntry "1" "u1" "kitsu" 1000 100 0 in
  let r := CacheService.get "1:X" 1100 cache_with_one_entry in
  JsMap.get "1:X" (CacheService.cache cache_with_one_entry) = Some entry /\
  1100 >= CacheService.timestamp entry + CacheService.ttl entry /\
  fst r <> None /\
  JsMap.get "1:X" (CacheService.cache (snd r)) <> None /\
  CacheService.st_hits (CacheService.stats (snd r)) = 1 /\
  CacheService.st_misses (CacheService.stats (snd r)) = 0.
Proof.
  vm_compute. repeat split; try discriminate; intros H; discriminate H.
Qed.


(** ** CacheService: the order of the map is the order of last touch *)

Module LruFacts.
Import CacheService CacheTrace.

Lemma last_touch_bound log k i :
  last_touch log k = Some i -> (i < length log)%nat.
Proof.
  revert i. induction log as [|o log IH]; simpl; intros i; [discriminate|].
  destruct (last_touch log k) as [j|].
  - intros [= <-]. specialize (IH j eq_refl). lia.
  - destruct o as [k'|]; [|discriminate].
    destruct (String.eqb k' k); [|discriminate].
    intros [= <-]. lia.
Qed.

Lemma last_touch_snoc_same log k :
  last_touch (log ++ [Some k]) k = Some (length log).
Proof.
  induction log as [|o log IH]; simpl.
  - now rewrite String.eqb_refl.
  - now rewrite IH.
Qed.

Lemma last_touch_snoc_other log o k :
  o <> Some k -> last_touch (log ++ [o]) k = last_touch log k.
Proof.
  intros Hne. induction log as [|x log IH]; simpl.
  - destruct o as [k'|]; [|reflexivity].
    destruct (String.eqb k' k) eqn:E; [|reflexivity].
    apply String.eqb_eq in E. congruence.
  - now rewrite IH.
Qed.

Lemma sorted_filter {A} (R : A -> A -> Prop) (f : A -> bool) l :
  StronglySorted R l -> StronglySorted R (List.filter f l).
Proof.
  induction 1 as [|a l Hs IH Hall]; simpl; [constructor|].
  destruct (f a); [|assumption].
  constructor; [assumption|].
  rewrite List.Forall_forall in *. intros x Hx.
  apply List.filter_In in Hx. apply Hall. tauto.
Qed.

Lemma sorted_snoc {A} (R : A -> A -> Prop) l x :
  StronglySorted R l -> Forall (fun y => R y x) l ->
  StronglySorted R (l ++ [x]).
Proof.
  induction 1 as [|a l Hs IH Hall]; simpl; intros Hx.
  - repeat constructor.
  - inversion Hx; subst. constructor; [auto|].
    apply List.Forall_app. split; [assumption|]. repeat constructor. assumption.
Qed.

Lemma sorted_weaken {A} (R R' : A -> A -> Prop) l :
  (forall x y, In x l -> In y l -> R x y -> R' x y) ->
  StronglySorted R l -> StronglySorted R' l.
Proof.
  intros Himp Hs. induction Hs as [|a l Hs IH Hall]; [constructor|].
  constructor.
  - apply IH. intros x y Hx Hy. apply Himp; now right.
  - rewrite List.Forall_forall in *. intros x Hx.
    apply Himp; [now left | now right | auto].
Qed.

Lemma forall_filter {A} (P : A -> Prop) (f : A -> bool) l :
  Forall P l -> Forall P (List.filter f l).
Proof.
  rewrite !List.Forall_forall. intros H x Hx.
  apply List.filter_In in Hx. apply H. tauto.
Qed.

(** An operation that touches nothing keeps the order, whatever keys it
    removes. *)
Lemma ordered_untouched log keys f :
  CacheTrace.ordered log keys -> CacheTrace.ordered (log ++ [None]) (List.filter f keys).
Proof.
  intros [Hs Ht]. split.
  - apply sorted_filter.
    apply (sorted_weaken (touched_before log)); [|assumption].
    intros x y _ _ (i & j & Hi & Hj & Hlt). exists i, j.
    rewrite !last_touch_snoc_other by discriminate. auto.
  - apply forall_filter. rewrite List.Forall_forall in *.
    intros x Hx. destruct (Ht x Hx) as [i Hi]. exists i.
    now rewrite last_touch_snoc_other by discriminate.
Qed.

(** An operation that touches [k] and leaves it last keeps the order. *)
Lemma ordered_touched log keys f k :
  (forall x, f x = true -> x <> k) ->
  CacheTrace.ordered log keys ->
  CacheTrace.ordered (log ++ [Some k]) (List.filter f keys ++ [k]).
Proof.
  intros Hf [Hs Ht].
  assert (Hother : forall x, In x (List.filter f keys) ->
            last_touch (log ++ [Some k]) x = last_touch log x).
  { intros x Hx. apply List.filter_In in Hx.
    apply last_touch_snoc_other. intros [= ->]. now apply (Hf x). }
  split.
  - apply sorted_snoc.
    + apply (sorted_weaken (touched_before log)).
      * intros x y Hx Hy (i & j & Hi & Hj & Hlt). exists i, j.
        rewrite !Hother by assumption. auto.
      * now apply sorted_filter.
    + rewrite List.Forall_forall. intros x Hx.
      pose proof (Hother x Hx) as Hsame.
      apply List.filter_In in Hx. rewrite List.Forall_forall in Ht.
      destruct (Ht x (proj1 Hx)) as [i Hi].
      exists i, (length log). rewrite Hsame, last_touch_snoc_same.
      repeat split; [assumption|]. now apply last_touch_bound in Hi.
  - apply List.Forall_app. split.
    + rewrite List.Forall_forall in *. intros x Hx.
      rewrite (Hother x Hx). apply List.filter_In in Hx. apply Ht. tauto.
    + repeat constructor. exists (length log). apply last_touch_snoc_same.
Qed.

Lemma filter_true {A} (l : list A) : List.filter (fun _ => true) l = l.
Proof. induction l; simpl; congruence. Qed.

Lemma filter_filter {A} (f g : A -> bool) (l : list A) :
  List.filter f (List.filter g l) = List.filter (fun x => g x && f x) l.
Proof.
  induction l as [|a l IH]; simpl; [reflexivity|].
  destruct (g a); simpl; [destruct (f a); simpl|]; congruence.
Qed.

(** The keys after a [get]. *)
Lemma keys_get key now c :
  match fst (get key now c) with
  | Some _ =>
      JsMap.keys (cache (snd (get key now c)))
      = List.filter (fun k' => negb (String.eqb key k')) (JsMap.keys (cache c)) ++ [key]
  | None =>
      exists f, JsMap.keys (cache (snd (get key now c)))
                = List.filter f (JsMap.keys (cache c))
  end.
Proof.
  unfold get. destruct (JsMap.get key (cache c)) as [entry|] eqn:Hget; simpl.
  - destruct (_isExpired entry now); simpl.
    + eexists. apply JsMapFacts.keys_delete.
    + apply JsMapFacts.keys_move_to_end.
  - exists (fun _ => true). now rewrite filter_true.
Qed.

(** The keys after a [set]: some keys are dropped, never [key], which goes
    last. *)
Lemma keys_set key entry now c :
  exists f, (forall x, f x = true -> x <> key) /\
    JsMap.keys (cache (set key entry now c))
    = List.filter f (JsMap.keys (cache c)) ++ [key].
Proof.
  unfold set.
  set (c1 := if evicts key c then _ else c).
  assert (Hc1 : exists g, JsMap.keys (cache c1) = List.filter g (JsMap.keys (cache c))).
  { subst c1. destruct (evicts key c); simpl.
    - destruct (JsMap.first_key (cache c)) as [firstKey|].
      + eexists. apply JsMapFacts.keys_delete.
      + exists (fun _ => true). now rewrite filter_true.
    - exists (fun _ => true). now rewrite filter_true. }
  destruct Hc1 as [g Hg].
  set (m1 := if JsMap.has key (cache c1) then _ else _).
  assert (Hm1 : m1 = JsMap.delete key (cache c1)).
  { subst m1. destruct (JsMap.has key (cache c1)) eqn:Hhas; [reflexivity|].
    symmetry. apply JsMapFacts.delete_absent.
    unfold JsMap.has in Hhas. now destruct (JsMap.get key (cache c1)). }
  exists (fun x => g x && negb (String.eqb key x)). split.
  - intros x Hx Heq. subst x. rewrite String.eqb_refl in Hx.
    now destruct (g key).
  - match goal with
    | |- context [if ?b then _saveToDisk _ ?x else ?y] =>
        replace (cache (if b then _saveToDisk now x else y))
          with (JsMap.set key
                  (mkEntry (in_animeId entry) (in_posterUrl entry) (in_source entry)
                     (Js.num_or (in_timestamp entry) now)
                     (Js.num_or (in_ttl entry) (defaultTTL c))
                     (Js.num_or (in_hits entry) 0)) m1)
          by (destruct b; reflexivity)
    end.
    rewrite Hm1, JsMapFacts.keys_move_to_end, Hg, filter_filter. reflexivity.
Qed.

(** Every operation keeps the keys in the order of their last touch. *)
Lemma ordered_apply op c log :
  CacheTrace.ordered log (JsMap.keys (cache c)) ->
  CacheTrace.ordered (log ++ [touched op c]) (JsMap.keys (cache (apply op c))).
Proof.
  intros Hord. destruct op as [key now | key entry now]; simpl.
  - pose proof (keys_get key now c) as Hk.
    destruct (fst (get key now c)).
    + rewrite Hk. apply ordered_touched; [|assumption].
      intros x Hx ->. now rewrite String.eqb_refl in Hx.
    + destruct Hk as [f ->]. now apply ordered_untouched.
  - destruct (keys_set key entry now c) as (f & Hf & ->).
    now apply ordered_touched.
Qed.

Lemma ordered_run_from ops c log :
  CacheTrace.ordered log (JsMap.keys (cache c)) ->
  CacheTrace.ordered (snd (run_from ops c log)) (JsMap.keys (cache (fst (run_from ops c log)))).
Proof.
  revert c log. induction ops as [|op ops IH]; simpl; intros c log H; [assumption|].
  apply IH. now apply ordered_apply.
Qed.

Lemma ordered_run ops config :
  CacheTrace.ordered (snd (run ops (new config)))
          (JsMap.keys (cache (fst (run ops (new config))))).
Proof. apply ordered_run_from. split; constructor. Qed.

Lemma maxSize_get key now c : maxSize (snd (get key now c)) = maxSize c.
Proof.
  unfold get. destruct (JsMap.get key (cache c)) as [e|]; [|reflexivity].
  now destruct (_isExpired e now).
Qed.

Lemma maxSize_set key entry now c : maxSize (set key entry now c) = maxSize c.
Proof.
  unfold set. destruct (evicts key c); simpl;
    match goal with |- context [if ?b then _ else _] => destruct b end;
    reflexivity.
Qed.

Lemma maxSize_run_from ops c log :
  maxSize (fst (run_from ops c log)) = maxSize c.
Proof.
  revert c log. induction ops as [|op ops IH]; simpl; intros c log; [reflexivity|].
  rewrite IH. destruct op; simpl; [apply maxSize_get | apply maxSize_set].
Qed.

Lemma maxSize_new_nonzero config : maxSize (new config) <> 0.
Proof.
  unfold new, Js.num_or; simpl. destruct (cfg_maxSize config) as [v|]; [|lia].
  destruct (Z.eqb_spec v 0); lia.
Qed.

(** What [set] does to the keys of a full cache that lacks the key. *)
Lemma set_full_new_key key entry now c victim rest :
  JsMap.keys (cache c) = victim :: rest ->
  ~ In victim rest ->
  JsMap.has key (cache c) = false ->
  maxSize c <= JsMap.size (cache c) ->
  JsMap.keys (cache (set key entry now c)) = rest ++ [key].
Proof.
  intros Hkeys Hnotin Hhas Hfull.
  assert (Hev : evicts key c = true).
  { unfold evicts. rewrite Hhas. simpl. rewrite andb_true_r. lia. }
  destruct (cache c) as [|[k0 v0] m] eqn:Hc; [discriminate|].
  simpl in Hkeys. injection Hkeys as -> Hrest.
  assert (Hdel : JsMap.delete victim ((victim, v0) :: m) = m).
  { simpl. rewrite String.eqb_refl.
    apply JsMapFacts.delete_absent. apply JsMapFacts.get_None_not_key.
    unfold JsMap.keys in *. now rewrite Hrest. }
  assert (Hkm : JsMap.get key m = None).
  { unfold JsMap.has in Hhas. simpl in Hhas.
    destruct (String.eqb key victim); [discriminate|].
    now destruct (JsMap.get key m). }
  unfold set. rewrite Hev, Hc. cbn [JsMap.first_key]. rewrite Hdel.
  cbn [cache with_stats with_cache].
  assert (Hhm : JsMap.has key m = false) by (unfold JsMap.has; now rewrite Hkm).
  rewrite Hhm.
  match goal with
  | |- context [if ?b then _saveToDisk _ ?x else ?y] =>
      replace (cache (if b then _saveToDisk now x else y)) with (cache y)
        by (destruct b; reflexivity)
  end.
  cbn [cache with_stats with_cache].
  rewrite JsMapFacts.set_absent by assumption.
  rewrite JsMapFacts.keys_app. simpl. unfold JsMap.keys in *. now rewrite Hrest.
Qed.

End LruFacts.

(** C5: in a cache driven from its creation by any sequence of [get] and
    [set] operations, a [set] of a new key while the cache holds [maxSize]
    entries evicts exactly one key, the first of the map; every other key
    stays, the new key goes last, and every key that stays was touched (by
    a [get] that hit or by a [set]) more recently than the evicted key. *)
Theorem C5_set_evicts_least_recently_touched :
  forall config ops key entry now,
    let c := fst (CacheTrace.run ops (CacheService.new config)) in
    let log := snd (CacheTrace.run ops (CacheService.new config)) in
    JsMap.has key (CacheService.cache c) = false ->
    JsMap.size (CacheService.cache c) = CacheService.maxSize c ->
    exists victim rest,
      JsMap.keys (CacheService.cache c) = victim :: rest /\
      JsMap.keys (CacheService.cache (CacheService.set key entry now c))
        = rest ++ [key] /\
      ~ In victim (rest ++ [key]) /\
      Forall (fun k => CacheTrace.touched_before log victim k) rest.
Proof.
  intros config ops key entry now c log Hhas Hsize.
  pose proof (LruFacts.ordered_run ops config) as [Hs _].
  fold c log in Hs.
  assert (Hmax : CacheService.maxSize c <> 0).
  { subst c. unfold CacheTrace.run. rewrite LruFacts.maxSize_run_from.
    apply LruFacts.maxSize_new_nonzero. }
  destruct (JsMap.keys (CacheService.cache c)) as [|victim rest] eqn:Hkeys.
  { exfalso. apply Hmax. rewrite <- Hsize. unfold JsMap.size, JsMap.keys in *.
    destruct (CacheService.cache c); [reflexivity | discriminate]. }
  inversion Hs as [|? ? Hs' Hall]; subst.
  assert (Hnotin : ~ In victim rest).
  { intros Hin. rewrite List.Forall_forall in Hall.
    destruct (Hall victim Hin) as (i & j & Hi & Hj & Hlt).
    rewrite Hi in Hj. injection Hj as ->. lia. }
  exists victim, rest. repeat split.
  - apply LruFacts.set_full_new_key with (victim := victim); try assumption. lia.
  - rewrite List.in_app_iff. intros [Hin | [-> | []]]; [auto|].
    apply JsMapFacts.has_false_not_key in Hhas. apply Hhas.
    rewrite Hkeys. now left.
  - assumption.
Qed.

Lemma C5_set_evicts_least_recently_touched_witness :
  let c := fst (CacheTrace.run lru_ops (CacheService.new lru_config)) in
  let log := snd (CacheTrace.run lru_ops (CacheService.new lru_config)) in
  exists victim rest,
    JsMap.keys (CacheService.cache c) = victim :: rest /\
    JsMap.keys (CacheService.cache (CacheService.set "key4" (lru_entry "4") 50 c))
      = rest ++ ["key4"] /\
    ~ In victim (rest ++ ["key4"]) /\
    Forall (fun k => CacheTrace.touched_before log victim k) rest.
Proof.
  exact (C5_set_evicts_least_recently_touched lru_config lru_ops "key4"
           (lru_entry "4") 50 eq_refl eq_refl).
Defined.

(** The test 'devrait maintenir l'ordre LRU lors des accès': after key 1 is
    read, setting key 4 evicts key 2. *)
Example lru_order_after_access :
  let c := fst (CacheTrace.run lru_ops (CacheService.new lru_config)) in
  JsMap.keys (CacheService.cache c) = ["key2"; "key3"; "key1"] /\
  JsMap.keys (CacheService.cache (CacheService.set "key4" (lru_entry "4") 50 c))
    = ["key3"; "key1"; "key4"] /\
  snd (CacheTrace.run lru_ops (CacheService.new lru_config))
    = [Some "key1"; Some "key2"; Some "key3"; Some "key1"].
Proof. vm_compute. repeat split. Qed.


(** ** CacheService: persistence *)

Module PersistFacts.
Import CacheService.

Lemma tmp_path_differs (path : string) : path +:+ ".tmp" <> path.
Proof.
  induction path as [|a path IH].
  - discriminate.
  - intros H. apply IH. change (String a (path +:+ ".tmp") = String a path) in H.
    now injection H.
Qed.

Lemma perform_sublist fails ops op : In op (perform fails ops) -> In op ops.
Proof.
  induction ops as [|o ops IH]; simpl; [tauto|].
  destruct (fails o); simpl; [tauto|]. intros [H|H]; auto.
Qed.

Lemma perform_no_failure ops : perform (fun _ => false) ops = ops.
Proof. induction ops as [|o ops IH]; simpl; congruence. Qed.

End PersistFacts.

(** C8, as the code has it: both saves serialise the entries of the map
    with the [sets] and [evictions] counters. The debounced save writes the
    document to the path of the cache file with [.tmp] appended and then
    renames that file over the cache file; whichever of its calls fail, it
    never writes to the cache file itself. The final save of [shutdown]
    writes the same document straight to the cache file. *)
Theorem C8_persistence_writes :
  forall now c,
    let data := CacheService.cacheData now c in
    let target := CacheService.cacheFilePath c in
    let tmp := target +:+ ".tmp" in
    (CacheService.cd_entries data = list_to_map (CacheService.cache c) /\
     CacheService.cd_sets data = CacheService.st_sets (CacheService.stats c) /\
     CacheService.cd_evictions data
       = CacheService.st_evictions (CacheService.stats c)) /\
    (CacheService._saveToDisk_callback (fun _ => false) now c
       = [CacheService.MkdirDirnameOf target;
          CacheService.WriteFile tmp data;
          CacheService.Rename tmp target] /\
     tmp <> target /\
     forall fails d,
       ~ In (CacheService.WriteFile target d)
            (CacheService._saveToDisk_callback fails now c)) /\
    fst (CacheService.shutdown (fun _ => false) now c)
      = if CacheService.persistToDisk c
        then [CacheService.MkdirDirnameOf target;
              CacheService.WriteFile target data]
        else [].
Proof.
  intros now c data target tmp. repeat split.
  - apply PersistFacts.tmp_path_differs.
  - intros fails d Hin. apply PersistFacts.perform_sublist in Hin.
    simpl in Hin. destruct Hin as [H|[H|[H|[]]]]; try discriminate.
    injection H as H _. now apply PersistFacts.tmp_path_differs in H.
  - unfold CacheService.shutdown.
    destruct (CacheService._saveTimeout c); simpl;
      destruct (CacheService.persistToDisk c); reflexivity.
Qed.

(** C8 as stated fails for the final save: [shutdown] on a cache with
    persistence writes the document to the cache file itself, not to a
    temporary path, and renames nothing. *)
Lemma C8_counterexample_shutdown_not_atomic :
  let c := persistent_cache in
  let ops := fst (CacheService.shutdown (fun _ => false) 2000 c) in
  CacheService.persistToDisk c = true /\
  ops = [CacheService.MkdirDirnameOf "cache/poster-cache.json";
         CacheService.WriteFile "cache/poster-cache.json"
                                (CacheService.cacheData 2000 c)] /\
  forall a b, ~ In (CacheService.Rename a b) ops.
Proof.
  repeat split. intros a b [H|[H|[]]]; discriminate H.
Qed.

(** A [set] on a cache with persistence arms the debounce timer a second
    ahead; when it fires the three calls are issued, once. *)
Example debounced_save_fires_once :
  let c := persistent_cache in
  CacheService._saveTimeout c = Some (CacheService.mkTimeout 2000 true) /\
  fst (CacheService.fire_saveTimeout (fun _ => false) 1999 c) = [] /\
  length (fst (CacheService.fire_saveTimeout (fun _ => false) 2000 c)) = 3%nat /\
  fst (CacheService.fire_saveTimeout (fun _ => false) 2001
         (snd (CacheService.fire_saveTimeout (fun _ => false) 2000 c))) = [].
Proof. repeat split. Qed.


(** ** Statistics *)

Module StatsFacts.

Lemma sources_stats_clock_free t1 t2 (c : FallbackChain.t) :
  ClockFree.source_stats <$> FallbackChain.getSourcesStats t1 c
  = ClockFree.source_stats <$> FallbackChain.getSourcesStats t2 c.
Proof.
  unfold FallbackChain.getSourcesStats.
  induction (FallbackChain.sources c) as [|[k s] l IH]; simpl.
  - now rewrite !fmap_empty.
  - rewrite !fmap_insert, IH. f_equal.
    unfold ClockFree.source_stats. simpl. f_equal.
    destruct s; reflexivity.
Qed.

Lemma global_stats_clock_free t1 t2 (m : MetricsCollector.t) :
  ClockFree.global (MetricsCollector.getStats t1 m)
  = ClockFree.global (MetricsCollector.getStats t2 m).
Proof. reflexivity. Qed.

End StatsFacts.

(** C9, as the code has it: with no mutation between them, two calls of
    [getStats] at clocks [t1] and [t2] return the same cache statistics and
    the same configuration summary, and the same global and per-source
    statistics but for the values computed from the clock: [uptime] (the
    clock less [startTime]) and [requestsPerMinute] of the global metrics
    and [timeUntilNextAttempt] of a circuit breaker. *)
Theorem C9_stats_equal_up_to_clock :
  forall t1 t2 (m : PosterManager.t),
    let s1 := PosterManager.getStats t1 m in
    let s2 := PosterManager.getStats t2 m in
    PosterManager.sv_cache s1 = PosterManager.sv_cache s2 /\
    PosterManager.sv_config s1 = PosterManager.sv_config s2 /\
    ClockFree.manager s1 = ClockFree.manager s2 /\
    ClockFree.global (MetricsCollector.getStats t1 (PosterManager.metrics m))
      = ClockFree.global (MetricsCollector.getStats t2 (PosterManager.metrics m)) /\
    MetricsCollector.sv_uptime (PosterManager.sv_global s1)
      = t1 - MetricsCollector.startTime (PosterManager.metrics m) /\
    MetricsCollector.sv_uptime (PosterManager.sv_global s2)
      = t2 - MetricsCollector.startTime (PosterManager.metrics m).
Proof.
  intros t1 t2 m s1 s2. repeat split.
  unfold ClockFree.manager, s1, s2, PosterManager.getStats. simpl.
  f_equal. apply StatsFacts.sources_stats_clock_free.
Qed.

(** C9 as stated fails for the global metrics and for the aggregated
    statistics: two calls of [getStats] one second apart, with nothing in
    between, differ in [uptime]. The collector and the manager were
    created at clock 0. *)
Lemma C9_counterexample_clock_in_stats :
  let g := MetricsCollector.recordCacheHit (MetricsCollector.new 0) in
  MetricsCollector.getStats 1000 g <> MetricsCollector.getStats 2000 g /\
  MetricsCollector.sv_uptime (MetricsCollector.getStats 1000 g) = 1000 /\
  MetricsCollector.sv_uptime (MetricsCollector.getStats 2000 g) = 2000 /\
  PosterManager.getStats 1000 manager_with_kitsu
    <> PosterManager.getStats 2000 manager_with_kitsu.
Proof.
  repeat split.
  - intros H. apply (f_equal MetricsCollector.sv_uptime) in H. discriminate H.
  - intros H.
    apply (f_equal (fun s => MetricsCollector.sv_uptime (PosterManager.sv_global s))) in H.
    discriminate H.
Qed.


(** ** Sources: what an attempt records *)

Module SourceFacts.
Import PosterSource.

Lemma metrics_updateAverage rt b :
  metrics (_updateAverageResponseTime rt b)
  = set_averageResponseTime
      (averageResponseTime (metrics (_updateAverageResponseTime rt b)))
      (metrics b).
Proof. reflexivity. Qed.

(** [_recordSuccess] counts a request and a success, resets the
    consecutive failures and leaves the failures as they are. *)
Lemma recordSuccess_metrics rt now b :
  let m := metrics b in
  let m' := metrics (_recordSuccess rt now b) in
  totalRequests m' = totalRequests m + 1 /\
  successfulRequests m' = successfulRequests m + 1 /\
  failedRequests m' = failedRequests m /\
  consecutiveFailures m' = 0 /\
  lastError m' = lastError m /\
  isTemporarilyDisabled m' = isTemporarilyDisabled m /\
  lastSuccessTime m' = now.
Proof. repeat split. Qed.

Lemma recordSuccess_fields rt now b :
  let b' := _recordSuccess rt now b in
  name b' = name b /\ priority b' = priority b /\ isEnabled b' = isEnabled b /\
  timeout b' = timeout b /\ timers b' = timers b.
Proof. repeat split. Qed.

(** [_recordFailure] counts a request, a failure and one more consecutive
    failure. *)
Lemma recordFailure_metrics e rt b :
  let m := metrics b in
  let m' := metrics (_recordFailure e rt b) in
  totalRequests m' = totalRequests m + 1 /\
  successfulRequests m' = successfulRequests m /\
  failedRequests m' = failedRequests m + 1 /\
  consecutiveFailures m' = consecutiveFailures m + 1 /\
  lastError m' = Some (Err.message e) /\
  isTemporarilyDisabled m' = isTemporarilyDisabled m /\
  lastSuccessTime m' = lastSuccessTime m.
Proof. unfold _recordFailure. destruct (0 <? rt); repeat split. Qed.

Lemma recordFailure_fields e rt b :
  let b' := _recordFailure e rt b in
  name b' = name b /\ priority b' = priority b /\ isEnabled b' = isEnabled b /\
  timeout b' = timeout b /\ timers b' = timers b.
Proof. unfold _recordFailure. destruct (0 <? rt); repeat split. Qed.

Lemma str_or_truthy a b u :
  (forall s, b = Some s -> Js.truthy s = true) ->
  Js.str_or a b = Some u -> Js.truthy u = true.
Proof.
  intros Hb. unfold Js.str_or. destruct a as [s|]; [|apply Hb].
  destruct (Js.truthy s) eqn:E; [|apply Hb]. now intros [= <-].
Qed.

End SourceFacts.

(** ** KitsuSource *)

Module KitsuFacts.
Import PosterSource KitsuSource.

(** [fetchPoster], step by step. *)
Lemma kitsu_fetchPoster_unfold animeId animeName t0 env k :
  fetchPoster animeId animeName t0 env k =
    let k1 := with_cb k (snd (Breaker._canMakeRequest t0 (cb k))) in
    if negb (fst (Breaker._canMakeRequest t0 (cb k))) then
      (Err.Throw (Err.CircuitOpen (name (base k))), k1)
    else if (negb (Js.truthy animeId) || Js.isNaN animeId)%bool then
      (Err.Throw Err.InvalidId, k1)
    else if negb (isAvailable (base k)) then
      (Err.Throw (Err.Unavailable (name (base k))), k1)
    else
      match requestFn t0 env k1 with
      | (Err.Return result, k2) =>
          (Err.Return result,
           with_b k2 (_recordSuccess (t_end env - t0) (t_end env) (base k2)))
      | (Err.Throw error, k2) =>
          (Err.Throw error, _recordFailure error (t_end env - t0) (t_end env) k2)
      end.
Proof.
  unfold fetchPoster, Exec._executeWithMetrics.
  destruct (Breaker._canMakeRequest t0 (cb k)) as [can c]. simpl.
  destruct can; simpl; [|reflexivity].
  destruct (negb (Js.truthy animeId) || Js.isNaN animeId)%bool; [reflexivity|].
  destruct (isAvailable (base k)); simpl; [|reflexivity].
  destruct (requestFn t0 env (with_cb k c)) as [[r|e] k2]; reflexivity.
Qed.

(** What the request function does to the source, by what it returns or
    throws. *)
Lemma kitsu_requestFn_spec t0 env k :
  let k1 := with_lastRequestTime k (t_req env) in
  match fst (requestFn t0 env k) with
  | Err.Return (Some url) =>
      Js.truthy url = true /\
      snd (requestFn t0 env k)
      = with_b (with_cb k1 (fst (Breaker._onSuccess (cb k) (base k))))
               (snd (Breaker._onSuccess (cb k) (base k)))
  | Err.Return None => snd (requestFn t0 env k) = k1
  | Err.Throw e => is_precondition e = false /\ snd (requestFn t0 env k) = k1
  end.
Proof.
  unfold requestFn. simpl.
  destruct (reply env) as [poster|status statusText|m|]; simpl; auto.
  - destruct poster as [p|]; simpl; [|reflexivity].
    destruct (Js.str_or (large p) _) as [url|] eqn:E; simpl; [|reflexivity].
    destruct (Breaker._onSuccess (cb k) (base k)) as [c b] eqn:Es. simpl.
    split; [|reflexivity].
    revert E. apply SourceFacts.str_or_truthy.
    intros s. apply SourceFacts.str_or_truthy.
    intros s'. apply SourceFacts.str_or_truthy. discriminate.
  - destruct (status =? 404); simpl; auto.
Qed.

End KitsuFacts.

(** ** The circuit breaker *)

Module KitsuBreaker.
Import PosterSource Breaker KitsuSource.

Lemma kitsu_with_cb_same (k : KitsuSource.t) : with_cb k (cb k) = k.
Proof. now destruct k. Qed.

End KitsuBreaker.

(** ** TMDBSource *)

Module TmdbFacts.
Import PosterSource TMDBSource.

Lemma tmdb_fetchPoster_unfold animeId animeName t0 env s :
  fetchPoster animeId animeName t0 env s =
    let s1 := with_cb s (snd (Breaker._canMakeRequest t0 (cb s))) in
    if negb (fst (Breaker._canMakeRequest t0 (cb s))) then
      (Err.Throw (Err.CircuitOpen (name (base s))), s1)
    else if negb (Js.truthy animeName) then (Err.Throw Err.NameRequired, s1)
    else match apiKey s with
    | None => (Err.Throw Err.ApiKeyMissing, s1)
    | Some _ =>
      if negb (isAvailable (base s)) then
        (Err.Throw (Err.Unavailable (name (base s))), s1)
      else
        match requestFn t0 env s1 with
        | (Err.Return result, s2) =>
            (Err.Return result,
             with_b s2 (_recordSuccess (t_end env - t0) (t_end env) (base s2)))
        | (Err.Throw error, s2) =>
            (Err.Throw error, _recordFailure error (t_end env - t0) (t_end env) s2)
        end
    end.
Proof.
  unfold fetchPoster, Exec._executeWithMetrics.
  destruct (Breaker._canMakeRequest t0 (cb s)) as [can c]. simpl.
  destruct can; simpl; [|reflexivity].
  destruct (Js.truthy animeName); simpl; [|reflexivity].
  destruct (apiKey s); [|reflexivity].
  destruct (isAvailable (base s)); simpl; [|reflexivity].
  destruct (requestFn t0 env (with_cb s c)) as [[r|e] s2]; reflexivity.
Qed.

(** A request leaves the metrics and the breaker as they are. *)
Lemma makeRequest_keeps now r s :
  metrics (base (snd (_makeRequest now r s))) = metrics (base s) /\
  cb (snd (_makeRequest now r s)) = cb s /\
  apiKey (snd (_makeRequest now r s)) = apiKey s.
Proof.
  destruct r as [paths| |status retry_after|]; simpl; auto.
  destruct (status =? 401); simpl; auto.
  destruct (status =? 404); simpl; auto.
  destruct (status =? 429); simpl; auto.
  destruct retry_after as [ra|]; auto.
  destruct (ra =? 0); simpl; auto.
Qed.

Lemma search_keeps now r s :
  metrics (base (snd (_search now r s))) = metrics (base s) /\
  cb (snd (_search now r s)) = cb s /\
  match fst (_search now r s) with
  | Some url => Js.truthy url = true
  | None => True
  end.
Proof.
  unfold _search. pose proof (makeRequest_keeps now r s) as (H1 & H2 & _).
  destruct (_makeRequest now r s) as [[paths|e] s1]; simpl in *; auto.
  repeat split; auto.
  destruct (List.filter Js.truthy (omap id paths)); auto.
Qed.

Lemma tmdb_requestFn_spec t0 env s :
  exists s3,
    metrics (base s3) = metrics (base s) /\ cb s3 = cb s /\
    match fst (requestFn t0 env s) with
    | Err.Return (Some url) =>
        Js.truthy url = true /\
        snd (requestFn t0 env s)
        = with_b (with_cb s3 (fst (Breaker._onSuccess (cb s) (base s3))))
                 (snd (Breaker._onSuccess (cb s) (base s3)))
    | Err.Return None => snd (requestFn t0 env s) = s3
    | Err.Throw e => is_precondition e = false /\ snd (requestFn t0 env s) = s3
    end.
Proof.
  unfold requestFn.
  set (s1 := _waitForRateLimit t0 (t_req env) s).
  assert (H1 : metrics (base s1) = metrics (base s) /\ cb s1 = cb s) by (split; reflexivity).
  destruct H1 as [Hm1 Hc1].
  destruct (reply env) as [tv movie|]; simpl.
  2:{ exists s1. auto. }
  pose proof (search_keeps (t_end env) tv s1) as (Hm2 & Hc2 & Hu2).
  destruct (_search (t_end env) tv s1) as [fromTv s2]. simpl in *.
  assert (Hsel : exists posterUrl s3,
    (match fromTv with
     | Some u => (Some u, s2)
     | None => _search (t_end env) movie s2
     end) = (posterUrl, s3) /\
    metrics (base s3) = metrics (base s) /\ cb s3 = cb s /\
    match posterUrl with Some url => Js.truthy url = true | None => True end).
  { destruct fromTv as [u|].
    - exists (Some u), s2. repeat split; congruence.
    - pose proof (search_keeps (t_end env) movie s2) as (Hm3 & Hc3 & Hu3).
      destruct (_search (t_end env) movie s2) as [fromMovie s3]. simpl in *.
      exists fromMovie, s3. repeat split; congruence. }
  destruct Hsel as (posterUrl & s3 & -> & Hm3 & Hc3 & Hu3).
  exists s3. repeat split; try assumption.
  destruct posterUrl as [url|]; simpl; [|reflexivity].
  rewrite Hc3.
  destruct (Breaker._onSuccess (cb s) (base s3)) as [c b]. simpl. auto.
Qed.

End TmdbFacts.

Module TmdbBreaker.
Import PosterSource Breaker TMDBSource.

Lemma tmdb_with_cb_same (s : TMDBSource.t) : with_cb s (cb s) = s.
Proof. now destruct s. Qed.

End TmdbBreaker.

(** C3 as stated fails in the half-open state: a successful attempt that
    finds no poster (here a 404 from Kitsu) is recorded as a success and
    leaves the breaker half-open instead of closing it. *)
Lemma C3_counterexample_half_open_not_found :
  let s := FallbackChain.Kitsu (kitsu_in Breaker.HALF_OPEN 4000) in
  let a := kitsu_attempt 5000 (KitsuSource.Status 404 "Not Found") in
  let r := FallbackChain.source_fetchPoster "123" "Test Anime" a s in
  fst r = Err.Return None /\
  PosterSource.successfulRequests (PosterSource.metrics (FallbackChain.base (snd r))) = 1 /\
  PosterSource.failedRequests (PosterSource.metrics (FallbackChain.base (snd r))) = 0 /\
  option_map Breaker.circuitState (breaker (snd r)) = Some Breaker.HALF_OPEN /\
  option_map Breaker.circuitState (breaker (snd r)) <> Some Breaker.CLOSED.
Proof. vm_compute. repeat split. discriminate. Qed.

(** The tests of the repository on the breaker of Kitsu: three failures
    open it; a request while it is open is rejected; a success with a
    poster in the half-open state closes it; a failure in the half-open
    state opens it again. *)
Example kitsu_breaker_tests :
  let fail t := kitsu_attempt t (KitsuSource.Rejected "Network error") in
  let found t := kitsu_attempt t
    (KitsuSource.Ok (Some (KitsuSource.mkPosterImage
                             (Some "https://example.com/poster.jpg") None None))) in
  let go a k := snd (KitsuSource.fetchPoster "123" "Test Anime"
                       (FallbackChain.t_start a)
                       (KitsuSource.mkEnv (FallbackChain.t_req a) (FallbackChain.t_end a)
                          (FallbackChain.kitsu_reply a)) k) in
  let after3 := go (fail 6000) (go (fail 4000) (go (fail 2000) test_kitsu)) in
  Breaker.circuitState (KitsuSource.cb after3) = Breaker.OPEN /\
  Breaker.nextAttemptTime (KitsuSource.cb after3) = 7050 /\
  PosterSource.isTemporarilyDisabled (PosterSource.metrics (KitsuSource.base after3)) = true /\
  fst (KitsuSource.fetchPoster "123" "Test Anime" 6500
         (KitsuSource.mkEnv 6500 6550 (KitsuSource.Ok None)) after3)
    = Err.Throw (Err.CircuitOpen "kitsu") /\
  Breaker.circuitState (KitsuSource.cb (go (found 9000) (kitsu_in Breaker.HALF_OPEN 0)))
    = Breaker.CLOSED /\
  Breaker.circuitState (KitsuSource.cb (go (fail 9000) (kitsu_in Breaker.HALF_OPEN 0)))
    = Breaker.OPEN.
Proof. vm_compute. repeat split. Qed.

(** ** Precondition rejections and successes without a poster *)

Module AttemptFacts.
Import PosterSource.

Lemma kitsu_outcome animeId animeName t0 env k :
  let r := fst (KitsuSource.fetchPoster animeId animeName t0 env k) in
  let k' := snd (KitsuSource.fetchPoster animeId animeName t0 env k) in
  match r with
  | Err.Throw e =>
      is_precondition e = true ->
      k' = KitsuSource.with_cb k (snd (Breaker._canMakeRequest t0 (KitsuSource.cb k)))
  | Err.Return u =>
      isAvailable (KitsuSource.base k) = true /\
      (no_url u = true ->
       exists b, metrics b = metrics (KitsuSource.base k) /\
                 KitsuSource.base k'
                 = _recordSuccess (KitsuSource.t_end env - t0) (KitsuSource.t_end env) b)
  end.
Proof.
  intros r k'. subst r k'. rewrite KitsuFacts.kitsu_fetchPoster_unfold. cbn zeta.
  destruct (negb (fst (Breaker._canMakeRequest t0 (KitsuSource.cb k)))); [simpl; auto|].
  destruct (negb (Js.truthy animeId) || Js.isNaN animeId)%bool; [simpl; auto|].
  destruct (isAvailable (KitsuSource.base k)) eqn:Hav; simpl negb; cbv iota; [|simpl; auto].
  set (k1 := KitsuSource.with_cb k _).
  pose proof (KitsuFacts.kitsu_requestFn_spec t0 env k1) as Hreq.
  destruct (KitsuSource.requestFn t0 env k1) as [[[url|]|e] k2]; simpl in Hreq; simpl.
  - destruct Hreq as [Htr _]. split; [reflexivity|]. rewrite Htr. discriminate.
  - subst k2. split; [reflexivity|]. intros _. now exists (KitsuSource.base k).
  - destruct Hreq as [Hpre _]. congruence.
Qed.

Lemma tmdb_outcome animeId animeName t0 env s :
  let r := fst (TMDBSource.fetchPoster animeId animeName t0 env s) in
  let s' := snd (TMDBSource.fetchPoster animeId animeName t0 env s) in
  match r with
  | Err.Throw e =>
      is_precondition e = true ->
      s' = TMDBSource.with_cb s (snd (Breaker._canMakeRequest t0 (TMDBSource.cb s)))
  | Err.Return u =>
      isAvailable (TMDBSource.base s) = true /\
      (no_url u = true ->
       exists b, metrics b = metrics (TMDBSource.base s) /\
                 TMDBSource.base s'
                 = _recordSuccess (TMDBSource.t_end env - t0) (TMDBSource.t_end env) b)
  end.
Proof.
  intros r s'. subst r s'. rewrite TmdbFacts.tmdb_fetchPoster_unfold. cbn zeta.
  destruct (negb (fst (Breaker._canMakeRequest t0 (TMDBSource.cb s)))); [simpl; auto|].
  destruct (negb (Js.truthy animeName)); [simpl; auto|].
  destruct (TMDBSource.apiKey s); [|simpl; auto].
  destruct (isAvailable (TMDBSource.base s)) eqn:Hav; simpl negb; cbv iota; [|simpl; auto].
  set (s1 := TMDBSource.with_cb s _).
  destruct (TmdbFacts.tmdb_requestFn_spec t0 env s1) as (s3 & Hm & Hc & Hreq).
  destruct (TMDBSource.requestFn t0 env s1) as [[[url|]|e] s2]; simpl in Hreq; simpl.
  - destruct Hreq as [Htr _]. split; [reflexivity|]. rewrite Htr. discriminate.
  - subst s2. split; [reflexivity|]. intros _. now exists (TMDBSource.base s3).
  - destruct Hreq as [Hpre _]. congruence.
Qed.

Lemma nautiljon_outcome animeId animeName t0 env s :
  let r := fst (NautiljonSource.fetchPoster animeId animeName t0 env s) in
  let s' := snd (NautiljonSource.fetchPoster animeId animeName t0 env s) in
  match r with
  | Err.Throw e => is_precondition e = true -> s' = s
  | Err.Return u =>
      isAvailable (NautiljonSource.base s) = true /\
      exists b, metrics b = metrics (NautiljonSource.base s) /\
                NautiljonSource.base s'
                = _recordSuccess (NautiljonSource.t_end env - t0)
                                 (NautiljonSource.t_end env) b
  end.
Proof.
  intros r s'. subst r s'.
  unfold NautiljonSource.fetchPoster, Exec._executeWithMetrics. simpl.
  destruct (isAvailable (NautiljonSource.base s)) eqn:Hav; simpl; [|auto].
  unfold NautiljonSource.requestFn.
  destruct (NautiljonSource.reply env); simpl.
  - split; [reflexivity|]. now exists (NautiljonSource.base s).
  - discriminate.
  - discriminate.
Qed.

(** An attempt that returns, with no poster, has counted a success. *)
Lemma returned_without_poster animeId animeName a s u :
  fst (FallbackChain.source_fetchPoster animeId animeName a s) = Err.Return u ->
  no_url u = true ->
  let s' := snd (FallbackChain.source_fetchPoster animeId animeName a s) in
  isAvailable (FallbackChain.base s) = true /\
  exists b, metrics b = metrics (FallbackChain.base s) /\
            FallbackChain.base s'
            = _recordSuccess (FallbackChain.t_end a - FallbackChain.t_start a)
                             (FallbackChain.t_end a) b.
Proof.
  destruct s as [k|t|n]; simpl.
  - pose proof (kitsu_outcome animeId animeName (FallbackChain.t_start a)
                  (KitsuSource.mkEnv (FallbackChain.t_req a) (FallbackChain.t_end a)
                     (FallbackChain.kitsu_reply a)) k) as H.
    destruct (KitsuSource.fetchPoster _ _ _ _ k) as [r k']. simpl in *.
    intros -> Hu. destruct H as [Hav Hb]. auto.
  - pose proof (tmdb_outcome animeId animeName (FallbackChain.t_start a)
                  (TMDBSource.mkEnv (FallbackChain.t_req a) (FallbackChain.t_end a)
                     (FallbackChain.tmdb_reply a)) t) as H.
    destruct (TMDBSource.fetchPoster _ _ _ _ t) as [r t']. simpl in *.
    intros -> Hu. destruct H as [Hav Hb]. auto.
  - pose proof (nautiljon_outcome animeId animeName (FallbackChain.t_start a)
                  (NautiljonSource.mkEnv (FallbackChain.t_req a) (FallbackChain.t_end a)
                     (FallbackChain.nautiljon_reply a)) n) as H.
    destruct (NautiljonSource.fetchPoster _ _ _ _ n) as [r n']. simpl in *.
    intros -> Hu. exact H.
Qed.

(** An attempt rejected on a precondition has done nothing but the check
    of the breaker. *)
Lemma rejected_on_precondition animeId animeName a s e :
  fst (FallbackChain.source_fetchPoster animeId animeName a s) = Err.Throw e ->
  is_precondition e = true ->
  snd (FallbackChain.source_fetchPoster animeId animeName a s)
  = breaker_checked (FallbackChain.t_start a) s.
Proof.
  destruct s as [k|t|n]; simpl.
  - pose proof (kitsu_outcome animeId animeName (FallbackChain.t_start a)
                  (KitsuSource.mkEnv (FallbackChain.t_req a) (FallbackChain.t_end a)
                     (FallbackChain.kitsu_reply a)) k) as H.
    destruct (KitsuSource.fetchPoster _ _ _ _ k) as [r k']. simpl in *.
    intros -> Hp. now rewrite (H Hp).
  - pose proof (tmdb_outcome animeId animeName (FallbackChain.t_start a)
                  (TMDBSource.mkEnv (FallbackChain.t_req a) (FallbackChain.t_end a)
                     (FallbackChain.tmdb_reply a)) t) as H.
    destruct (TMDBSource.fetchPoster _ _ _ _ t) as [r t']. simpl in *.
    intros -> Hp. now rewrite (H Hp).
  - pose proof (nautiljon_outcome animeId animeName (FallbackChain.t_start a)
                  (NautiljonSource.mkEnv (FallbackChain.t_req a) (FallbackChain.t_end a)
                     (FallbackChain.nautiljon_reply a)) n) as H.
    destruct (NautiljonSource.fetchPoster _ _ _ _ n) as [r n']. simpl in *.
    intros -> Hp. now rewrite (H Hp).
Qed.

Lemma breaker_checked_base t0 s :
  FallbackChain.base (breaker_checked t0 s) = FallbackChain.base s.
Proof. destruct s; reflexivity. Qed.

Lemma breaker_checked_same t0 s :
  (forall cb, breaker s = Some cb ->
     Breaker.circuitState cb <> Breaker.OPEN \/ t0 < Breaker.nextAttemptTime cb) ->
  breaker_checked t0 s = s.
Proof.
  intros H. unfold breaker_checked.
  destruct (breaker s) as [cb|] eqn:Hb; [|reflexivity].
  specialize (H cb eq_refl).
  assert (Hsame : snd (Breaker._canMakeRequest t0 cb) = cb).
  { unfold Breaker._canMakeRequest.
    destruct (Breaker.circuitState cb) eqn:Hst; try reflexivity.
    destruct (Z.leb_spec (Breaker.nextAttemptTime cb) t0); [|reflexivity].
    destruct H; [congruence | lia]. }
  rewrite Hsame. destruct s as [k|t|n]; simpl in *.
  - injection Hb as <-. now destruct k.
  - injection Hb as <-. now destruct t.
  - reflexivity.
Qed.

Lemma breaker_checked_due t0 s cb :
  breaker s = Some cb ->
  Breaker.circuitState cb = Breaker.OPEN ->
  Breaker.nextAttemptTime cb <= t0 ->
  breaker (breaker_checked t0 s) = Some (Breaker.with_state cb Breaker.HALF_OPEN).
Proof.
  intros Hb Hst Hdue. unfold breaker_checked. rewrite Hb.
  assert (Hc : snd (Breaker._canMakeRequest t0 cb) = Breaker.with_state cb Breaker.HALF_OPEN).
  { unfold Breaker._canMakeRequest. rewrite Hst.
    destruct (Z.leb_spec (Breaker.nextAttemptTime cb) t0); [reflexivity | lia]. }
  rewrite Hc. destruct s; simpl in *; congruence.
Qed.

End AttemptFacts.

(** C10, as the code has it: when [fetchPoster] rejects on a precondition
    (circuit breaker open, invalid anime id, anime name or API key missing,
    source not available) nothing has been recorded: the PosterSource
    fields of the source, with every metrics field, are what they were, and
    so is the rate limiter. The circuit breaker is what it was too, but in
    one case: [_canMakeRequest] runs first, so a breaker that is open with
    its cooldown over is half-open after the call, though the call was
    rejected on a later precondition. *)
Theorem C10_precondition_rejection_records_nothing :
  forall animeId animeName a s e,
    fst (FallbackChain.source_fetchPoster animeId animeName a s) = Err.Throw e ->
    is_precondition e = true ->
    let s' := snd (FallbackChain.source_fetchPoster animeId animeName a s) in
    s' = breaker_checked (FallbackChain.t_start a) s /\
    FallbackChain.base s' = FallbackChain.base s /\
    ((forall cb, breaker s = Some cb ->
        Breaker.circuitState cb <> Breaker.OPEN \/
        FallbackChain.t_start a < Breaker.nextAttemptTime cb) ->
     s' = s) /\
    (forall cb, breaker s = Some cb ->
       Breaker.circuitState cb = Breaker.OPEN ->
       Breaker.nextAttemptTime cb <= FallbackChain.t_start a ->
       breaker s' = Some (Breaker.with_state cb Breaker.HALF_OPEN)).
Proof.
  intros animeId animeName a s e Hr Hp s'. subst s'.
  rewrite (AttemptFacts.rejected_on_precondition _ _ _ _ _ Hr Hp).
  repeat split.
  - apply AttemptFacts.breaker_checked_base.
  - apply AttemptFacts.breaker_checked_same.
  - apply AttemptFacts.breaker_checked_due.
Qed.

Lemma C10_precondition_rejection_records_nothing_witness :
  let s := FallbackChain.Kitsu test_kitsu in
  let a := kitsu_attempt 5000 (KitsuSource.Ok None) in
  let s' := snd (FallbackChain.source_fetchPoster "abc" "Test Anime" a s) in
  s' = breaker_checked 5000 s /\
  FallbackChain.base s' = FallbackChain.base s /\
  ((forall cb, breaker s = Some cb ->
      Breaker.circuitState cb <> Breaker.OPEN \/ 5000 < Breaker.nextAttemptTime cb) ->
   s' = s) /\
  (forall cb, breaker s = Some cb ->
     Breaker.circuitState cb = Breaker.OPEN ->
     Breaker.nextAttemptTime cb <= 5000 ->
     breaker s' = Some (Breaker.with_state cb Breaker.HALF_OPEN)).
Proof.
  exact (C10_precondition_rejection_records_nothing "abc" "Test Anime"
           (kitsu_attempt 5000 (KitsuSource.Ok None))
           (FallbackChain.Kitsu test_kitsu) Err.InvalidId eq_refl eq_refl).
Defined.

(** C10 as stated fails for the state of the circuit breaker: a call with
    an invalid anime id on a Kitsu source whose breaker is open with its
    cooldown over is rejected for the id, and leaves the breaker
    half-open. *)
Lemma C10_counterexample_breaker_state_changes :
  let s := FallbackChain.Kitsu (kitsu_in Breaker.OPEN 4000) in
  let a := kitsu_attempt 5000 (KitsuSource.Ok None) in
  let r := FallbackChain.source_fetchPoster "abc" "Test Anime" a s in
  fst r = Err.Throw Err.InvalidId /\
  option_map Breaker.circuitState (breaker s) = Some Breaker.OPEN /\
  option_map Breaker.circuitState (breaker (snd r)) = Some Breaker.HALF_OPEN /\
  breaker (snd r) <> breaker s.
Proof. vm_compute. repeat split. discriminate. Qed.

(** ** The fallback chain *)

Module ChainFacts.
Import PosterSource.

Section Sort.
Context {A : Type} (key : A -> Z).

Lemma insert_by_sorted x l :
  StronglySorted (fun a b => key a <= key b) l ->
  StronglySorted (fun a b => key a <= key b) (Js.insert_by key x l).
Proof.
  induction 1 as [|y l Hs IH Hall]; simpl.
  - repeat constructor.
  - destruct (Z.leb_spec (key x) (key y)).
    + constructor; [now constructor|].
      constructor; [assumption|].
      rewrite List.Forall_forall in *. intros z Hz. specialize (Hall z Hz). lia.
    + constructor; [assumption|].
      assert (Hin : forall z, In z (Js.insert_by key x l) -> z = x \/ In z l).
      { clear. induction l as [|w l IH]; simpl.
        - intros z [->|[]]. now left.
        - destruct (key x <=? key w); simpl.
          + intros z [->|[->|H]]; auto.
          + intros z [->|H]; auto. destruct (IH z H); auto. }
      rewrite List.Forall_forall in *. intros z Hz.
      destruct (Hin z Hz) as [->|Hz']; [lia | auto].
Qed.

Lemma sort_by_sorted l :
  StronglySorted (fun a b => key a <= key b) (Js.sort_by key l).
Proof.
  induction l as [|x l IH]; simpl; [constructor|]. now apply insert_by_sorted.
Qed.

Lemma insert_by_perm x l : Permutation (x :: l) (Js.insert_by key x l).
Proof.
  induction l as [|y l IH]; simpl; [reflexivity|].
  destruct (key x <=? key y); [reflexivity|].
  rewrite perm_swap. now constructor.
Qed.

Lemma sort_by_perm l : Permutation l (Js.sort_by key l).
Proof.
  induction l as [|x l IH]; simpl; [reflexivity|].
  rewrite <- insert_by_perm. now constructor.
Qed.

End Sort.

(** The chain tries the enabled sources, each once, by ascending
    priority. *)
Lemma ordered_sources c :
  StronglySorted (fun a b => priority (FallbackChain.base a) <= priority (FallbackChain.base b))
                 (FallbackChain._getOrderedSources c) /\
  Permutation (List.filter (fun s => isEnabled (FallbackChain.base s))
                           (map snd (FallbackChain.sources c)))
              (FallbackChain._getOrderedSources c).
Proof.
  unfold FallbackChain._getOrderedSources. split.
  - apply sort_by_sorted.
  - apply sort_by_perm.
Qed.

End ChainFacts.

(** The chain on the sample: Kitsu, of priority 1, is tried first though
    registered last; it finds nothing and counts a success; Nautiljon
    supplies the poster. *)
Example chain_falls_back :
  let r := FallbackChain.fetchPoster "123" "X" sample_world sample_chain in
  map (fun s => PosterSource.name (FallbackChain.base s))
      (FallbackChain._getOrderedSources sample_chain) = ["kitsu"; "Nautiljon"] /\
  fst r = FallbackChain.mkResult (Some "https://www.nautiljon.com/images/x.jpg")
                                 "Nautiljon" /\
  option_map (fun s => PosterSource.successfulRequests
                         (PosterSource.metrics (FallbackChain.base s)))
             (JsMap.get "kitsu" (FallbackChain.sources (snd r))) = Some 1.
Proof. vm_compute. repeat split. Qed.


(** ** Rate limiters *)

Module LimiterFacts.

Lemma list_min_spec l m :
  TMDBSource.list_min l = Some m -> In m l /\ Forall (fun x => m <= x) l.
Proof.
  revert m. induction l as [|x l IH]; simpl; intros m; [discriminate|].
  destruct (TMDBSource.list_min l) as [m'|] eqn:E.
  - intros [= <-]. destruct (IH m' eq_refl) as [Hin Hall]. split.
    + destruct (Z.min_spec x m') as [[_ ->]|[_ ->]]; auto.
    + constructor; [lia|].
      rewrite List.Forall_forall in *. intros y Hy. specialize (Hall y Hy). lia.
  - intros [= <-]. destruct l; [|simpl in E; destruct (TMDBSource.list_min l); discriminate].
    split; [now left | repeat constructor; lia].
Qed.

Lemma list_min_nonempty l : l <> [] -> exists m, TMDBSource.list_min l = Some m.
Proof.
  destruct l as [|x l]; [congruence|]. intros _. simpl.
  destruct (TMDBSource.list_min l); eauto.
Qed.

(** TMDB waits exactly as the sliding window of the specification does,
    with its own window and limit and a margin of 100 ms. *)
Lemma tmdb_waitTime now s :
  TMDBSource.waitTime now s
  = SlidingWindow.delay (TMDBSource.rateLimitWindow s)
      (Z.pos (TMDBSource.maxRequestsPer10Sec s)) 100 now (TMDBSource.requestTimes s).
Proof.
  unfold TMDBSource.waitTime, SlidingWindow.delay, TMDBSource.prune, SlidingWindow.recent.
  set (kept := List.filter _ _).
  destruct (Z.pos (TMDBSource.maxRequestsPer10Sec s) <=? Z.of_nat (length kept)); [|reflexivity].
  destruct (TMDBSource.list_min kept) as [oldest|] eqn:E; [|reflexivity].
  apply list_min_spec in E. destruct E as [Hin _].
  apply List.filter_In in Hin. destruct Hin as [_ Hlt].
  apply Z.ltb_lt in Hlt.
  destruct (Z.ltb_spec 0 (TMDBSource.rateLimitWindow s - (now - oldest) + 100)); [|lia].
  f_equal. lia.
Qed.

Lemma tmdb_delay_positive now s w :
  TMDBSource.waitTime now s = Some w ->
  100 < w /\
  Z.pos (TMDBSource.maxRequestsPer10Sec s)
  <= Z.of_nat (length (SlidingWindow.recent (TMDBSource.rateLimitWindow s) now
                         (TMDBSource.requestTimes s))) /\
  exists oldest,
    In oldest (SlidingWindow.recent (TMDBSource.rateLimitWindow s) now
                 (TMDBSource.requestTimes s)) /\
    Forall (fun t => oldest <= t)
           (SlidingWindow.recent (TMDBSource.rateLimitWindow s) now
              (TMDBSource.requestTimes s)) /\
    now + w = oldest + TMDBSource.rateLimitWindow s + 100.
Proof.
  rewrite tmdb_waitTime. unfold SlidingWindow.delay.
  set (kept := SlidingWindow.recent _ _ _).
  destruct (Z.leb_spec (Z.pos (TMDBSource.maxRequestsPer10Sec s)) (Z.of_nat (length kept)));
    [|discriminate].
  destruct (TMDBSource.list_min kept) as [oldest|] eqn:E; [|discriminate].
  intros [= <-]. apply list_min_spec in E. destruct E as [Hin Hall].
  pose proof Hin as Hin'. apply List.filter_In in Hin'. destruct Hin' as [_ Hlt].
  apply Z.ltb_lt in Hlt.
  split; [lia|]. split; [assumption|]. exists oldest. repeat split; auto. lia.
Qed.

End LimiterFacts.



(** The Kitsu source of the configuration the repository ships, whose
    [rateLimit] is the object [{requests: 30, window: 60000}]: whenever
    the last request was, the next one does not wait. *)
Example shipped_kitsu_never_waits :
  forall now lastRequestTime,
    KitsuSource.waitTime now
      (KitsuSource.with_lastRequestTime (KitsuSource.new shipped_kitsu_config)
                                        lastRequestTime) = None.
Proof. reflexivity. Qed.


(** ** PosterManager: errors *)

Module ManagerFacts.
Import MetricsCollector PosterManager.

(** [_getPosterInternal] settles by fulfilling, whatever is thrown inside. *)
Lemma finish_fulfils animeId animeName key startTime w st m :
  exists r, fst (_getPosterInternal_finish animeId animeName key startTime w st m)
            = Fulfilled r.
Proof.
  unfold _getPosterInternal_finish, on_error.
  destruct (try_finish animeId animeName key startTime w st m) as [[e|r] m1];
    simpl; eauto.
Qed.

(** Neither block of the request touches the in-flight map or the
    initialisation flag. *)
Lemma try_finish_keeps animeId animeName key startTime w st m :
  concurrentRequests (snd (try_finish animeId animeName key startTime w st m))
  = concurrentRequests m /\
  isInitialized (snd (try_finish animeId animeName key startTime w st m))
  = isInitialized m.
Proof.
  unfold try_finish.
  destruct st as [[cached|]|e]; simpl; auto.
  destruct (throws w ChainFetchPoster); simpl; auto.
  destruct (FallbackChain.fetchPoster _ _ _ _) as [fr chain]. simpl.
  destruct (FallbackChain.url fr) as [u|]; simpl; auto.
  destruct (Js.truthy u); simpl; auto.
  destruct (throws w CacheSet); simpl; auto.
Qed.

Lemma finish_concurrentRequests animeId animeName key startTime w st m :
  concurrentRequests (snd (_getPosterInternal_finish animeId animeName key startTime w st m))
  = concurrentRequests m.
Proof.
  unfold _getPosterInternal_finish, on_error.
  pose proof (try_finish_keeps animeId animeName key startTime w st m) as [H _].
  destruct (try_finish animeId animeName key startTime w st m) as [[e|r] m1];
    simpl in *; assumption.
Qed.

Lemma finish_isInitialized animeId animeName key startTime w st m :
  isInitialized (snd (_getPosterInternal_finish animeId animeName key startTime w st m))
  = isInitialized m.
Proof.
  unfold _getPosterInternal_finish, on_error.
  pose proof (try_finish_keeps animeId animeName key startTime w st m) as [_ H].
  destruct (try_finish animeId animeName key startTime w st m) as [[e|r] m1];
    simpl in *; assumption.
Qed.

Lemma start_concurrentRequests key w m :
  concurrentRequests (snd (_getPosterInternal_start key w m)) = concurrentRequests m.
Proof.
  unfold _getPosterInternal_start. destruct (throws w CacheGet); [reflexivity|].
  now destruct (CacheService.get key (now w) (cache m)).
Qed.

Lemma start_isInitialized key w m :
  isInitialized (snd (_getPosterInternal_start key w m)) = isInitialized m.
Proof.
  unfold _getPosterInternal_start. destruct (throws w CacheGet); [reflexivity|].
  now destruct (CacheService.get key (now w) (cache m)).
Qed.

(** A cache miss sends the request to the chain. *)
Lemma start_miss key w m :
  throws w CacheGet = None ->
  fst (CacheService.get key (now w) (cache m)) = None ->
  fst (_getPosterInternal_start key w m) = GotCache None.
Proof.
  intros Ht Hmiss. unfold _getPosterInternal_start. rewrite Ht.
  destruct (CacheService.get key (now w) (cache m)) as [r c]. simpl in *. now subst.
Qed.

(** A request that went to the chain did not come from the cache. *)
Lemma finish_after_miss animeId animeName key startTime w m r :
  fst (_getPosterInternal_finish animeId animeName key startTime w (GotCache None) m)
    = Fulfilled r ->
  fromCache r = false.
Proof.
  unfold _getPosterInternal_finish, on_error, try_finish.
  destruct (throws w ChainFetchPoster); simpl; [now intros [= <-]|].
  destruct (FallbackChain.fetchPoster _ _ _ _) as [fr chain]. simpl.
  destruct (FallbackChain.url fr) as [u|]; simpl; [|now intros [= <-]].
  destruct (Js.truthy u); simpl; [|now intros [= <-]].
  destruct (throws w CacheSet); simpl; now intros [= <-].
Qed.

End ManagerFacts.

(** ** The event loop *)

Module LoopFacts.
Import MetricsCollector PosterManager Loop.

Lemma run_app e1 e2 l : run (e1 ++ e2) l = run e2 (run e1 l).
Proof. unfold run. apply fold_left_app. Qed.

Lemma run_cons e es l : run (e :: es) l = run es (step e l).
Proof. reflexivity. Qed.

Lemma run_snoc es e l : run (es ++ [e]) l = step e (run es l).
Proof. now rewrite run_app. Qed.

Lemma lookup_snoc {A} (l : list A) (x : A) : (l ++ [x]) !! length l = Some x.
Proof. induction l as [|a l IH]; simpl; auto. Qed.

Lemma insert_snoc {A} (l : list A) (x y : A) : <[length l := y]> (l ++ [x]) = l ++ [y].
Proof. induction l as [|a l IH]; simpl; [reflexivity|]. now rewrite IH. Qed.

(** A call whose key has no request in flight starts one and owns it. *)
Lemma enter_owner c animeId animeName w l :
  concurrentRequests (manager l) !! cacheKey animeId animeName = None ->
  enter c animeId animeName w l
  = let key := cacheKey animeId animeName in
    let st := fst (_getPosterInternal_start key w (manager l)) in
    let m1 := snd (_getPosterInternal_start key w (manager l)) in
    let p := length (requests l) in
    mk (with_concurrentRequests m1 (<[key := p]> (concurrentRequests m1)))
       (requests l ++ [mkRequest animeId animeName key (now w) (Running st)])
       (<[c := Waiting p key true]> (callers l)).
Proof.
  intros Hnone. unfold enter. rewrite Hnone.
  now destruct (_getPosterInternal_start (cacheKey animeId animeName) w (manager l)).
Qed.

(** A call whose key has a request in flight awaits that request. *)
Lemma enter_joiner c animeId animeName w l p :
  concurrentRequests (manager l) !! cacheKey animeId animeName = Some p ->
  enter c animeId animeName w l
  = mk (manager l) (requests l)
       (<[c := Waiting p (cacheKey animeId animeName) false]> (callers l)).
Proof. intros Hsome. unfold enter. now rewrite Hsome. Qed.

Lemma step_call c animeId animeName w l :
  callers l !! c = None ->
  isInitialized (manager l) = true ->
  step (Call c animeId animeName w) l = enter c animeId animeName w l.
Proof. intros Hc H. unfold step. now rewrite Hc, H. Qed.

Lemma step_call_uninitialised c animeId animeName w l :
  callers l !! c = None ->
  isInitialized (manager l) = false ->
  step (Call c animeId animeName w) l
  = mk (manager l) (requests l)
       (<[c := Initializing animeId animeName
               (CacheService.isInitialized (cache (manager l)))]> (callers l)).
Proof. intros Hc H. unfold step. now rewrite Hc, H. Qed.

Lemma step_init_done c w l animeId animeName cacheReady :
  callers l !! c = Some (Initializing animeId animeName cacheReady) ->
  step (InitDone c w) l
  = enter c animeId animeName w
      (mk (initialize_body cacheReady w (manager l)) (requests l) (callers l)).
Proof. intros H. unfold step. now rewrite H. Qed.

Lemma step_run p w l r st :
  requests l !! p = Some r -> status r = Running st ->
  step (Run p w) l
  = let res := _getPosterInternal_finish (animeId r) (animeName r) (key r)
                 (startTime r) w st (manager l) in
    mk (snd res)
       (<[p := mkRequest (animeId r) (animeName r) (key r) (startTime r)
                         (Complete (fst res))]> (requests l))
       (callers l).
Proof.
  intros H Hst. unfold step. rewrite H, Hst.
  now destruct (_getPosterInternal_finish _ _ _ _ w st (manager l)).
Qed.

Lemma step_resume c l p k owner r o :
  callers l !! c = Some (Waiting p k owner) ->
  requests l !! p = Some r -> status r = Complete o ->
  step (Resume c) l
  = mk (if owner
        then with_concurrentRequests (manager l)
               (delete k (concurrentRequests (manager l)))
        else manager l)
       (requests l) (<[c := Done p o]> (callers l)).
Proof. intros Hc Hp Hst. unfold step. now rewrite Hc, Hp, Hst. Qed.

Lemma initialize_body_keeps cacheReady w m :
  concurrentRequests (initialize_body cacheReady w m) = concurrentRequests m /\
  fallbackChain (initialize_body cacheReady w m) = fallbackChain m /\
  isInitialized (initialize_body cacheReady w m) = true.
Proof. repeat split. Qed.

Lemma start_fallbackChain k w m :
  fallbackChain (snd (_getPosterInternal_start k w m)) = fallbackChain m.
Proof.
  unfold _getPosterInternal_start. destruct (throws w CacheGet); [reflexivity|].
  now destruct (CacheService.get k (now w) (cache m)).
Qed.

Lemma enter_fallbackChain c animeId animeName w l :
  fallbackChain (manager (enter c animeId animeName w l)) = fallbackChain (manager l).
Proof.
  unfold enter.
  destruct (concurrentRequests (manager l) !! cacheKey animeId animeName);
    [reflexivity|].
  pose proof (start_fallbackChain (cacheKey animeId animeName) w (manager l)) as H.
  destruct (_getPosterInternal_start (cacheKey animeId animeName) w (manager l)).
  exact H.
Qed.

(** The requests of the loop: none is forgotten, and one that has settled
    stays as it is. *)
Lemma outcome_snoc m rs cs x p o :
  outcome (mk m rs cs) p = Some o -> forall m' cs', outcome (mk m' (rs ++ [x]) cs') p = Some o.
Proof.
  unfold outcome. cbn [requests]. intros H m' cs'.
  destruct (rs !! p) as [r|] eqn:E; [|discriminate].
  now rewrite (lookup_app_l_Some _ _ _ _ E).
Qed.

End LoopFacts.

(** ** What the event loop keeps *)

Module CoherentFacts.
Import MetricsCollector PosterManager Loop.

Lemma coherent_start m : concurrentRequests m = ∅ -> coherent (start m).
Proof.
  intros Hm. unfold coherent, start, in_progress, outcome.
  cbn [manager requests callers]. rewrite Hm.
  split; [|split; [|split; [|split; [|split; [|split]]]]].
  - intros k p H. now rewrite lookup_empty in H.
  - intros c p k H. now rewrite lookup_empty in H.
  - intros c1 c2 p1 p2 k H. now rewrite lookup_empty in H.
  - intros c p k b H. now rewrite lookup_empty in H.
  - intros c p o H. now rewrite lookup_empty in H.
  - intros p k (r & st & H & _). discriminate.
  - intros p o H. discriminate.
Qed.

(** Only the in-flight map, the requests and the callers matter. *)
Lemma coherent_manager l m' :
  concurrentRequests m' = concurrentRequests (manager l) ->
  coherent l -> coherent (mk m' (requests l) (callers l)).
Proof.
  intros Hm (A & B & F & C & D & E & G).
  unfold coherent, in_progress, outcome in *. cbn [manager requests callers].
  rewrite Hm. repeat split; assumption.
Qed.

(** A caller that stands at no [await] of a request: a new caller, or one
    that awaits its initialisation. *)
Lemma coherent_enter c animeId animeName w l :
  coherent l ->
  (forall p k b, callers l !! c <> Some (Waiting p k b)) ->
  (forall p o, callers l !! c <> Some (Done p o)) ->
  coherent (enter c animeId animeName w l).
Proof.
  intros (A & B & F & C & D & E & G) HnW HnD.
  set (k := cacheKey animeId animeName).
  assert (Hother : forall c' x, callers l !! c' = Some x ->
            (exists p k b, x = Waiting p k b) \/ (exists p o, x = Done p o) -> c' <> c).
  { intros c' x Hx Hcase ->. destruct Hcase as [(p & k0 & b & ->)|(p & o & ->)].
    - now apply (HnW p k0 b). - now apply (HnD p o). }
  destruct (concurrentRequests (manager l) !! k) as [p|] eqn:Ek.
  - (* a request is in flight: the caller joins it *)
    rewrite (LoopFacts.enter_joiner _ _ _ _ _ _ Ek). fold k.
    unfold coherent, in_progress, outcome in *. cbn [manager requests callers].
    split; [|split; [|split; [|split; [|split; [|split]]]]].
    + intros k' p' H. destruct (A k' p' H) as [c0 Hc0]. exists c0.
      rewrite lookup_insert_ne; [assumption|].
      intros Heq. symmetry in Heq. revert Heq. apply (Hother c0 _ Hc0); eauto.
    + intros c' p' k' H. destruct (decide (c' = c)) as [->|Hne].
      * rewrite lookup_insert_eq in H. discriminate.
      * rewrite lookup_insert_ne in H by congruence. now apply (B c').
    + intros c1 c2 p1 p2 k' H1 H2.
      destruct (decide (c1 = c)) as [->|Hne1];
        [rewrite lookup_insert_eq in H1; discriminate|].
      destruct (decide (c2 = c)) as [->|Hne2];
        [rewrite lookup_insert_eq in H2; discriminate|].
      rewrite lookup_insert_ne in H1, H2 by congruence. now apply (F c1 c2 p1 p2 k').
    + intros c' p' k' b H. destruct (decide (c' = c)) as [->|Hne].
      * rewrite lookup_insert_eq in H. injection H as <- <- <-.
        destruct (A k p Ek) as [c0 Hc0]. now apply (C c0 p k true).
      * rewrite lookup_insert_ne in H by congruence. now apply (C c' p' k' b).
    + intros c' p' o H. destruct (decide (c' = c)) as [->|Hne].
      * rewrite lookup_insert_eq in H. discriminate.
      * rewrite lookup_insert_ne in H by congruence. now apply (D c').
    + assumption.
    + assumption.
  - (* none is: the caller starts one *)
    rewrite (LoopFacts.enter_owner _ _ _ _ _ Ek). cbn zeta. fold k.
    set (st := fst (_getPosterInternal_start k w (manager l))).
    set (m1 := snd (_getPosterInternal_start k w (manager l))).
    assert (Hm1 : concurrentRequests m1 = concurrentRequests (manager l))
      by apply ManagerFacts.start_concurrentRequests.
    unfold coherent, in_progress, outcome in *. cbn [manager requests callers].
    cbn [concurrentRequests with_concurrentRequests]. rewrite Hm1.
    split; [|split; [|split; [|split; [|split; [|split]]]]].
    + intros k' p' H. destruct (decide (k' = k)) as [->|Hne].
      * rewrite lookup_insert_eq in H. injection H as <-.
        exists c. apply lookup_insert_eq.
      * rewrite lookup_insert_ne in H by congruence.
        destruct (A k' p' H) as [c0 Hc0]. exists c0.
        rewrite lookup_insert_ne; [assumption|].
        intros Heq. symmetry in Heq. revert Heq. apply (Hother c0 _ Hc0); eauto.
    + intros c' p' k' H. destruct (decide (c' = c)) as [->|Hne].
      * rewrite lookup_insert_eq in H. injection H as <- <-. apply lookup_insert_eq.
      * rewrite lookup_insert_ne in H by congruence.
        pose proof (B c' p' k' H) as Hold.
        rewrite lookup_insert_ne; [assumption|]. intros <-. congruence.
    + intros c1 c2 p1 p2 k' H1 H2.
      destruct (decide (c1 = c)) as [->|Hne1]; destruct (decide (c2 = c)) as [->|Hne2];
        try reflexivity.
      * rewrite lookup_insert_eq in H1. injection H1 as <- <-.
        rewrite lookup_insert_ne in H2 by congruence.
        pose proof (B c2 p2 _ H2). congruence.
      * rewrite lookup_insert_eq in H2. injection H2 as <- <-.
        rewrite lookup_insert_ne in H1 by congruence.
        pose proof (B c1 p1 _ H1). congruence.
      * rewrite lookup_insert_ne in H1, H2 by congruence. now apply (F c1 c2 p1 p2 k').
    + intros c' p' k' b H. destruct (decide (c' = c)) as [->|Hne].
      * rewrite lookup_insert_eq in H. injection H as <- <- <-.
        eexists. split; [apply LoopFacts.lookup_snoc|reflexivity].
      * rewrite lookup_insert_ne in H by congruence.
        destruct (C c' p' k' b H) as (r & Hr & Hk). exists r.
        split; [now apply lookup_app_l_Some|assumption].
    + intros c' p' o H. destruct (decide (c' = c)) as [->|Hne].
      * rewrite lookup_insert_eq in H. discriminate.
      * rewrite lookup_insert_ne in H by congruence.
        pose proof (D c' p' o H) as Hold.
        destruct (requests l !! p') as [r|] eqn:Er; [|discriminate].
        now rewrite (lookup_app_l_Some _ _ _ _ Er).
    + intros p' k' (r & st' & Hr & Hk & Hst).
      apply lookup_app_Some in Hr as [Hr|[Hlen Hr]].
      * assert (Hold : concurrentRequests (manager l) !! k' = Some p')
          by (apply E; eauto).
        rewrite lookup_insert_ne; [assumption|]. intros <-. congruence.
      * destruct (p' - length (requests l))%nat as [|n] eqn:En; [|destruct n; discriminate].
        injection Hr as <-. cbn in Hk. subst k'.
        replace p' with (length (requests l)) by lia. apply lookup_insert_eq.
    + intros p' o H.
      destruct ((requests l ++ [mkRequest animeId animeName k (now w) (Running st)]) !! p')
        as [r|] eqn:Er; [|discriminate].
      apply lookup_app_Some in Er as [Er|[Hlen Er]].
      * apply (G p' o). now rewrite Er.
      * destruct (p' - length (requests l))%nat as [|n]; [|destruct n; discriminate].
        injection Er as <-. discriminate.
Qed.

Lemma coherent_step e l : coherent l -> coherent (step e l).
Proof.
  intros Hco. destruct e as [c animeId animeName w|c w|p w|c]; unfold step.
  - (* a call *)
    destruct (callers l !! c) as [x|] eqn:Ec; [assumption|].
    destruct (isInitialized (manager l)).
    + apply coherent_enter; [assumption| |]; intros *; congruence.
    + destruct Hco as (A & B & F & C & D & E & G).
      unfold coherent, in_progress, outcome in *. cbn [manager requests callers].
      split; [|split; [|split; [|split; [|split; [|split]]]]]; try assumption.
      * intros k' p' H. destruct (A k' p' H) as [c0 Hc0]. exists c0.
        rewrite lookup_insert_ne; [assumption|]. intros <-. congruence.
      * intros c' p' k' H. destruct (decide (c' = c)) as [->|Hne].
        -- rewrite lookup_insert_eq in H. discriminate.
        -- rewrite lookup_insert_ne in H by congruence. now apply (B c').
      * intros c1 c2 p1 p2 k' H1 H2.
        destruct (decide (c1 = c)) as [->|Hne1];
          [rewrite lookup_insert_eq in H1; discriminate|].
        destruct (decide (c2 = c)) as [->|Hne2];
          [rewrite lookup_insert_eq in H2; discriminate|].
        rewrite lookup_insert_ne in H1, H2 by congruence.
        now apply (F c1 c2 p1 p2 k').
      * intros c' p' k' b H. destruct (decide (c' = c)) as [->|Hne].
        -- rewrite lookup_insert_eq in H. discriminate.
        -- rewrite lookup_insert_ne in H by congruence. now apply (C c' p' k' b).
      * intros c' p' o H. destruct (decide (c' = c)) as [->|Hne].
        -- rewrite lookup_insert_eq in H. discriminate.
        -- rewrite lookup_insert_ne in H by congruence. now apply (D c').
  - (* an initialisation completes *)
    destruct (callers l !! c) as [[animeId animeName cacheReady|p k b|p o]|] eqn:Ec;
      try assumption.
    apply coherent_enter.
    + now apply (coherent_manager l).
    + cbn [callers]. intros *. congruence.
    + cbn [callers]. intros *. congruence.
  - (* a request runs to its end *)
    destruct (requests l !! p) as [r|] eqn:Er; [|assumption].
    destruct (status r) as [st|o] eqn:Est; [|assumption].
    pose proof (ManagerFacts.finish_concurrentRequests (animeId r) (animeName r) (key r)
                  (startTime r) w st (manager l)) as Hcr.
    pose proof (ManagerFacts.finish_fulfils (animeId r) (animeName r) (key r)
                  (startTime r) w st (manager l)) as [res Hres].
    destruct (_getPosterInternal_finish (animeId r) (animeName r) (key r)
                (startTime r) w st (manager l)) as [o m1].
    cbn [fst snd] in Hcr, Hres. subst o.
    pose proof (lookup_lt_Some _ _ _ Er) as Hlt.
    destruct Hco as (A & B & F & C & D & E & G).
    unfold coherent, in_progress, outcome in *. cbn [manager requests callers].
    rewrite Hcr.
    split; [|split; [|split; [|split; [|split; [|split]]]]]; try assumption.
    + intros c' p' k' b H. destruct (C c' p' k' b H) as (r' & Hr' & Hk').
      destruct (decide (p' = p)) as [->|Hne].
      * rewrite list_lookup_insert_eq by assumption.
        eexists. split; [reflexivity|]. cbn. congruence.
      * rewrite list_lookup_insert_ne by congruence. eauto.
    + intros c' p' o H. pose proof (D c' p' o H) as Hold.
      destruct (decide (p' = p)) as [->|Hne].
      * rewrite Er, Est in Hold. discriminate.
      * now rewrite list_lookup_insert_ne by congruence.
    + intros p' k' (r' & st' & Hr' & Hk' & Hst').
      destruct (decide (p' = p)) as [->|Hne].
      * rewrite list_lookup_insert_eq in Hr' by assumption.
        injection Hr' as <-. discriminate.
      * rewrite list_lookup_insert_ne in Hr' by congruence. apply E. eauto.
    + intros p' o H. destruct (decide (p' = p)) as [->|Hne].
      * rewrite list_lookup_insert_eq in H by assumption. cbn in H.
        injection H as <-. eauto.
      * rewrite list_lookup_insert_ne in H by congruence. now apply (G p').
  - (* a caller resumes *)
    destruct (callers l !! c) as [[animeId animeName cacheReady|p k owner|p o]|] eqn:Ec;
      try assumption.
    destruct (requests l !! p) as [r|] eqn:Er; [|assumption].
    destruct (status r) as [st|o] eqn:Est; [assumption|].
    destruct Hco as (A & B & F & C & D & E & G).
    assert (Hcr : forall k' p',
              concurrentRequests
                (if owner
                 then with_concurrentRequests (manager l)
                        (delete k (concurrentRequests (manager l)))
                 else manager l) !! k' = Some p' ->
              concurrentRequests (manager l) !! k' = Some p' /\
              (owner = true -> k' <> k)).
    { intros k' p'. destruct owner; cbn.
      - intros H. apply lookup_delete_Some in H as [Hne H]. auto.
      - intros H. split; [assumption|discriminate]. }
    assert (Hcr' : forall k' p',
              concurrentRequests (manager l) !! k' = Some p' ->
              (owner = true -> k' <> k) ->
              concurrentRequests
                (if owner
                 then with_concurrentRequests (manager l)
                        (delete k (concurrentRequests (manager l)))
                 else manager l) !! k' = Some p').
    { intros k' p' H Hne. destruct owner; cbn; [|assumption].
      rewrite lookup_delete_ne; [assumption|]. intros <-. now apply Hne. }
    unfold coherent, in_progress, outcome in *. cbn [manager requests callers].
    split; [|split; [|split; [|split; [|split; [|split]]]]]; try assumption.
    + intros k' p' H. apply Hcr in H as [H Hne].
      destruct (A k' p' H) as [c0 Hc0]. exists c0.
      rewrite lookup_insert_ne; [assumption|].
      intros <-. rewrite Ec in Hc0. injection Hc0 as -> -> ->. now apply Hne.
    + intros c' p' k' H. destruct (decide (c' = c)) as [->|Hne].
      * rewrite lookup_insert_eq in H. discriminate.
      * rewrite lookup_insert_ne in H by congruence.
        apply Hcr'; [now apply (B c')|].
        intros -> ->. apply Hne. now apply (F c' c p' p k).
    + intros c1 c2 p1 p2 k' H1 H2.
      destruct (decide (c1 = c)) as [->|Hne1];
        [rewrite lookup_insert_eq in H1; discriminate|].
      destruct (decide (c2 = c)) as [->|Hne2];
        [rewrite lookup_insert_eq in H2; discriminate|].
      rewrite lookup_insert_ne in H1, H2 by congruence.
      now apply (F c1 c2 p1 p2 k').
    + intros c' p' k' b H. destruct (decide (c' = c)) as [->|Hne].
      * rewrite lookup_insert_eq in H. discriminate.
      * rewrite lookup_insert_ne in H by congruence. now apply (C c' p' k' b).
    + intros c' p' o' H. destruct (decide (c' = c)) as [->|Hne].
      * rewrite lookup_insert_eq in H. injection H as <- <-.
        now rewrite Er, Est.
      * rewrite lookup_insert_ne in H by congruence. now apply (D c').
    + intros p' k' Hp. pose proof (E p' k' Hp) as Hold.
      apply Hcr'; [assumption|]. intros -> ->.
      pose proof (B c p k Ec) as Hown.
      assert (p' = p) by congruence. subst p'.
      destruct Hp as (r' & st' & Hr' & _ & Hst'). congruence.
Qed.

Lemma coherent_run es l : coherent l -> coherent (run es l).
Proof.
  revert l. induction es as [|e es IH]; intros l Hco; [assumption|].
  rewrite LoopFacts.run_cons. apply IH. now apply coherent_step.
Qed.

End CoherentFacts.

(** ** Calls that share a request *)

Module CoalesceFacts.
Import MetricsCollector PosterManager Loop.

Lemma joined_lookup_out p k cws cm c :
  ~ In c (map fst cws) -> joined p k cws cm !! c = cm !! c.
Proof.
  revert cm. induction cws as [|[c' w'] cws IH]; intros cm Hnin; [reflexivity|].
  change (joined p k ((c', w') :: cws) cm)
    with (joined p k cws (<[c' := Waiting p k false]> cm)).
  rewrite IH by (intros Hin; apply Hnin; now right).
  apply lookup_insert_ne. intros ->. apply Hnin. now left.
Qed.

Lemma joined_lookup_in p k cws cm c :
  In c (map fst cws) -> joined p k cws cm !! c = Some (Waiting p k false).
Proof.
  revert cm. induction cws as [|[c' w'] cws IH]; intros cm; [intros []|].
  change (joined p k ((c', w') :: cws) cm)
    with (joined p k cws (<[c' := Waiting p k false]> cm)).
  destruct (in_dec Nat.eq_dec c (map fst cws)) as [Hin|Hnin].
  - intros _. now apply IH.
  - intros [Heq|Hin]; [|tauto]. cbn in Heq. subst c'.
    rewrite joined_lookup_out by assumption. apply lookup_insert_eq.
Qed.

(** Calls made while a request for their key is in flight join it and
    change nothing else. *)
Lemma calls_join animeId animeName cws l p :
  isInitialized (manager l) = true ->
  concurrentRequests (manager l) !! cacheKey animeId animeName = Some p ->
  List.NoDup (map fst cws) ->
  (forall c, In c (map fst cws) -> callers l !! c = None) ->
  run (calls animeId animeName cws) l
  = mk (manager l) (requests l)
       (joined p (cacheKey animeId animeName) cws (callers l)).
Proof.
  revert l. induction cws as [|[c w] cws IH]; intros l Hinit Hp Hnd Hfresh.
  - now destruct l.
  - change (calls animeId animeName ((c, w) :: cws))
      with (Call c animeId animeName w :: calls animeId animeName cws).
    rewrite LoopFacts.run_cons.
    rewrite LoopFacts.step_call; [|apply Hfresh; now left|assumption].
    rewrite (LoopFacts.enter_joiner _ _ _ _ _ _ Hp).
    cbn [map fst] in Hnd. inversion Hnd as [|? ? Hnin Hnd']; subst.
    rewrite IH; cbn [manager requests callers]; try assumption; [reflexivity|].
    intros c' Hin. rewrite lookup_insert_ne by (intros ->; contradiction).
    apply Hfresh. now right.
Qed.

(** The callers that joined resume with what the request settled to. *)
Lemma joiners_resume todo l p k r o :
  requests l !! p = Some r -> status r = Complete o ->
  List.NoDup todo ->
  (forall c, In c todo -> callers l !! c = Some (Waiting p k false)) ->
  let l' := run (map Resume todo) l in
  manager l' = manager l /\ requests l' = requests l /\
  (forall c, In c todo -> callers l' !! c = Some (Done p o)) /\
  (forall c, ~ In c todo -> callers l' !! c = callers l !! c).
Proof.
  revert l. induction todo as [|c todo IH]; intros l Hp Hst Hnd Hw.
  - cbn. repeat split; tauto.
  - inversion Hnd as [|? ? Hnin Hnd']; subst.
    cbn [map]. cbn zeta. rewrite LoopFacts.run_cons.
    rewrite (LoopFacts.step_resume c l p k false r o (Hw c (or_introl eq_refl)) Hp Hst).
    set (l1 := mk (manager l) (requests l) (<[c := Done p o]> (callers l))).
    destruct (IH l1 Hp Hst Hnd') as (H1 & H2 & H3 & H4).
    { intros c' Hin. cbn. rewrite lookup_insert_ne by (intros ->; contradiction).
      apply Hw. now right. }
    cbn zeta in H1, H2, H3, H4. repeat split; try assumption.
    + intros c' [->|Hin]; [|now apply H3].
      rewrite (H4 c' Hnin). cbn. apply lookup_insert_eq.
    + intros c' Hc'. rewrite H4 by (intros Hin; apply Hc'; now right). cbn.
      apply lookup_insert_ne. intros ->. apply Hc'. now left.
Qed.

(** Once the owner and the joiners await the request, it runs and they
    resume, the owner first. *)
Lemma settle_and_resume l2 P0 r0 st c1 rest w :
  requests l2 = P0 ++ [r0] -> status r0 = Running st ->
  callers l2 !! c1 = Some (Waiting (length P0) (key r0) true) ->
  (forall c, In c rest -> callers l2 !! c = Some (Waiting (length P0) (key r0) false)) ->
  List.NoDup (c1 :: rest) ->
  let fin := _getPosterInternal_finish (animeId r0) (animeName r0) (key r0)
               (startTime r0) w st (manager l2) in
  let lf := run ([Run (length P0) w] ++ map Resume (c1 :: rest)) l2 in
  requests lf = P0 ++ [mkRequest (animeId r0) (animeName r0) (key r0) (startTime r0)
                                 (Complete (fst fin))] /\
  (forall c, In c (c1 :: rest) -> callers lf !! c = Some (Done (length P0) (fst fin))) /\
  manager lf = with_concurrentRequests (snd fin)
                 (delete (key r0) (concurrentRequests (snd fin))).
Proof.
  intros Hpr Hst Hown Hjoin Hnd fin lf.
  inversion Hnd as [|? ? Hc1 Hnd']; subst.
  assert (Hrun : requests l2 !! length P0 = Some r0).
  { rewrite Hpr. apply LoopFacts.lookup_snoc. }
  pose proof (LoopFacts.step_run (length P0) w l2 r0 st Hrun Hst) as Hl3.
  cbn zeta in Hl3. fold fin in Hl3.
  set (r1 := mkRequest (animeId r0) (animeName r0) (key r0) (startTime r0)
                       (Complete (fst fin))) in *.
  set (l3 := mk (snd fin) (<[length P0 := r1]> (requests l2)) (callers l2)) in Hl3.
  assert (Hpr3 : requests l3 = P0 ++ [r1]).
  { subst l3. cbn. rewrite Hpr. apply LoopFacts.insert_snoc. }
  assert (Hdone : requests l3 !! length P0 = Some r1).
  { rewrite Hpr3. apply LoopFacts.lookup_snoc. }
  pose proof (LoopFacts.step_resume c1 l3 (length P0) (key r0) true r1 (fst fin)
                Hown Hdone eq_refl) as Hl4.
  set (l4 := mk _ (requests l3) _) in Hl4.
  destruct (joiners_resume rest l4 (length P0) (key r0) r1 (fst fin))
    as (H1 & H2 & H3 & H4).
  { exact Hdone. }
  { reflexivity. }
  { assumption. }
  { intros c Hin. subst l4 l3. cbn.
    rewrite lookup_insert_ne by (intros ->; contradiction). now apply Hjoin. }
  assert (Hlf : lf = run (map Resume rest) l4).
  { subst lf. cbn [app map].
    now rewrite LoopFacts.run_cons, Hl3, LoopFacts.run_cons, Hl4. }
  rewrite Hlf. split; [|split].
  - now rewrite H2.
  - intros c [<-|Hin].
    + rewrite H4 by assumption. subst l4. cbn. apply lookup_insert_eq.
    + now apply H3.
  - rewrite H1. reflexivity.
Qed.

(** What a request does to the chain when it runs to its end: one walk
    when it missed the cache and the call of the chain does not throw,
    nothing otherwise. *)
Lemma finish_chain animeId animeName k startTime w st m :
  fallbackChain (snd (_getPosterInternal_finish animeId animeName k startTime w st m))
  = match st, throws w ChainFetchPoster with
    | GotCache None, None =>
        snd (FallbackChain.fetchPoster animeId animeName (attempts w) (fallbackChain m))
    | _, _ => fallbackChain m
    end.
Proof.
  unfold _getPosterInternal_finish, on_error, try_finish.
  destruct st as [[cached|]|e]; cbn; try (now destruct (throws w ChainFetchPoster)).
  destruct (throws w ChainFetchPoster); cbn; [reflexivity|].
  destruct (FallbackChain.fetchPoster _ _ _ _) as [fr chain]. cbn.
  destruct (FallbackChain.url fr) as [u|]; cbn; [|reflexivity].
  destruct (Js.truthy u); cbn; [|reflexivity].
  destruct (throws w CacheSet); reflexivity.
Qed.

(** The chain is walked by the requests that run to their end, and by
    nothing else. *)
Lemma step_chain e l :
  fallbackChain (manager (step e l)) = fallbackChain (manager l) \/
  exists p w r,
    e = Run p w /\ requests l !! p = Some r /\ status r = Running (GotCache None) /\
    throws w ChainFetchPoster = None /\
    fallbackChain (manager (step e l))
    = snd (FallbackChain.fetchPoster (animeId r) (animeName r) (attempts w)
             (fallbackChain (manager l))).
Proof.
  destruct e as [c animeId animeName w|c w|p w|c]; unfold step.
  - left. destruct (callers l !! c); [reflexivity|].
    destruct (isInitialized (manager l)); [|reflexivity].
    apply LoopFacts.enter_fallbackChain.
  - left. destruct (callers l !! c) as [[animeId animeName cacheReady|? ? ?|? ?]|];
      try reflexivity.
    now rewrite LoopFacts.enter_fallbackChain.
  - destruct (requests l !! p) as [r|] eqn:Er; [|now left].
    destruct (status r) as [st|o] eqn:Est; [|now left].
    pose proof (finish_chain (animeId r) (animeName r) (key r) (startTime r) w st
                  (manager l)) as Hch.
    destruct (_getPosterInternal_finish (animeId r) (animeName r) (key r)
                (startTime r) w st (manager l)) as [o m1].
    cbn [fst snd manager] in *.
    destruct st as [[cached|]|err]; try (left; exact Hch).
    destruct (throws w ChainFetchPoster) eqn:Et; [left; exact Hch|].
    right. exists p, w, r. repeat split; assumption.
  - left. destruct (callers l !! c) as [[? ? ?|p k owner|? ?]|]; try reflexivity.
    destruct (requests l !! p) as [r|]; [|reflexivity].
    destruct (status r); [reflexivity|]. now destruct owner.
Qed.

(** One request entered on a loop, run and resumed. *)
Lemma enter_run_resume c animeId animeName w l :
  concurrentRequests (manager l) !! cacheKey animeId animeName = None ->
  let k := cacheKey animeId animeName in
  let p := length (requests l) in
  let st := fst (_getPosterInternal_start k w (manager l)) in
  let m2 := snd (_getPosterInternal_start k w (manager l)) in
  let fin := _getPosterInternal_finish animeId animeName k (now w) w st
               (with_concurrentRequests m2 (<[k := p]> (concurrentRequests m2))) in
  let lf := run [Run p w; Resume c] (enter c animeId animeName w l) in
  callers lf !! c = Some (Done p (fst fin)) /\
  manager lf = with_concurrentRequests (snd fin)
                 (delete k (concurrentRequests (snd fin))).
Proof.
  intros Hnone k p st m2 fin lf. subst lf.
  rewrite (LoopFacts.enter_owner _ _ _ _ _ Hnone). cbn zeta.
  set (r0 := mkRequest animeId animeName k (now w) (Running st)).
  set (l1 := mk _ _ _).
  destruct (settle_and_resume l1 (requests l) r0 st c [] w) as (_ & Hc & Hm).
  - reflexivity.
  - reflexivity.
  - subst l1. cbn. apply lookup_insert_eq.
  - intros c' [].
  - repeat constructor. intros [].
  - split; [apply Hc; now left | exact Hm].
Qed.

End CoalesceFacts.

(** ** C1: calls for one key share the request in flight *)

(** C1, as the code has it. Whatever the order in which the calls of
    [getPoster], the initialisations they await, the requests and the
    resumptions of the callers run, on a manager that starts with nothing
    in flight: a key has at most one request in progress, and it is the
    one registered in flight for the key; the in-flight entry of a key
    stands exactly as long as the caller that made the request is
    suspended on it, so it is cleared when that caller resumes, whatever
    the result; a caller that resumed has the result its request settled
    with, a fulfilled one, so the callers of one request have the same
    [url], [source] and [fromCache]; a call that reaches the in-flight
    check while a request is registered for its key awaits that request
    and starts nothing; and the chain is walked only by a request that
    missed the cache, once, when it runs to its end. In particular N calls
    for one key on an initialised manager with no request in flight for
    the key, all made before the request settles, make one request: it
    walks the chain once if it missed the cache (and the call of the chain
    does not throw), every caller resumes with its result, and the
    in-flight entry is gone. *)
Theorem C1_concurrent_calls_share_one_walk :
  forall m es animeId animeName c1 w1 rest w,
    PosterManager.concurrentRequests m = ∅ ->
    let l := Loop.run es (Loop.start m) in
    let key := PosterManager.cacheKey animeId animeName in
    (forall k p1 p2, Loop.in_progress l p1 k -> Loop.in_progress l p2 k -> p1 = p2) /\
    (forall k p, Loop.in_progress l p k ->
       PosterManager.concurrentRequests (Loop.manager l) !! k = Some p) /\
    (forall k p, PosterManager.concurrentRequests (Loop.manager l) !! k = Some p <->
       exists c, Loop.callers l !! c = Some (Loop.Waiting p k true)) /\
    (forall c p o, Loop.callers l !! c = Some (Loop.Done p o) ->
       Loop.outcome l p = Some o /\ exists r, o = PosterManager.Fulfilled r) /\
    (forall c p,
       Loop.callers l !! c = None ->
       PosterManager.isInitialized (Loop.manager l) = true ->
       PosterManager.concurrentRequests (Loop.manager l) !! key = Some p ->
       Loop.step (Loop.Call c animeId animeName w1) l
       = Loop.mk (Loop.manager l) (Loop.requests l)
           (<[c := Loop.Waiting p key false]> (Loop.callers l))) /\
    (forall e,
       PosterManager.fallbackChain (Loop.manager (Loop.step e l))
       = PosterManager.fallbackChain (Loop.manager l) \/
       exists p w' r,
         e = Loop.Run p w' /\ Loop.in_progress l p (Loop.key r) /\
         Loop.requests l !! p = Some r /\
         Loop.status r = Loop.Running (PosterManager.GotCache None) /\
         PosterManager.throws w' PosterManager.ChainFetchPoster = None /\
         PosterManager.fallbackChain (Loop.manager (Loop.step e l))
         = snd (FallbackChain.fetchPoster (Loop.animeId r) (Loop.animeName r)
                  (PosterManager.attempts w')
                  (PosterManager.fallbackChain (Loop.manager l)))) /\
    (PosterManager.isInitialized (Loop.manager l) = true ->
     PosterManager.concurrentRequests (Loop.manager l) !! key = None ->
     List.NoDup (c1 :: map fst rest) ->
     (forall c, In c (c1 :: map fst rest) -> Loop.callers l !! c = None) ->
     let p := length (Loop.requests l) in
     let st := fst (PosterManager._getPosterInternal_start key w1 (Loop.manager l)) in
     let lf := Loop.run (calls animeId animeName ((c1, w1) :: rest)
                         ++ [Loop.Run p w] ++ map Loop.Resume (c1 :: map fst rest)) l in
     exists r,
       Loop.requests lf
       = Loop.requests l
         ++ [Loop.mkRequest animeId animeName key (PosterManager.now w1)
               (Loop.Complete (PosterManager.Fulfilled r))] /\
       (forall c, In c (c1 :: map fst rest) ->
          Loop.callers lf !! c = Some (Loop.Done p (PosterManager.Fulfilled r))) /\
       PosterManager.concurrentRequests (Loop.manager lf) !! key = None /\
       PosterManager.fallbackChain (Loop.manager lf)
       = match st, PosterManager.throws w PosterManager.ChainFetchPoster with
         | PosterManager.GotCache None, None =>
             snd (FallbackChain.fetchPoster animeId animeName (PosterManager.attempts w)
                    (PosterManager.fallbackChain (Loop.manager l)))
         | _, _ => PosterManager.fallbackChain (Loop.manager l)
         end /\
       (st = PosterManager.GotCache None -> PosterManager.fromCache r = false)).
Proof.
  intros m es animeId animeName c1 w1 rest w Hm l key.
  assert (Hco : Loop.coherent l).
  { apply CoherentFacts.coherent_run. now apply CoherentFacts.coherent_start. }
  destruct Hco as (A & B & F & C & D & E & G).
  split; [|split; [|split; [|split; [|split; [|split]]]]].
  - intros k p1 p2 H1 H2. apply E in H1, H2. congruence.
  - intros k p. apply E.
  - intros k p. split; [apply A|]. intros [c Hc]. now apply (B c).
  - intros c p o Hc. split; [now apply (D c)|]. apply (G p). now apply (D c).
  - intros c p Hc Hinit Hp.
    rewrite LoopFacts.step_call by assumption.
    now apply LoopFacts.enter_joiner.
  - intros e. destruct (CoalesceFacts.step_chain e l) as [H|(p & w' & r & H1 & H2 & H3 & H4 & H5)];
      [now left|right].
    exists p, w', r. repeat split; try assumption.
    exists r, (PosterManager.GotCache None). repeat split; assumption.
  - intros Hinit Hnone Hnd Hfresh p st lf.
    inversion Hnd as [|? ? Hc1 Hnd']; subst.
    (* the first call starts the request *)
    set (m2 := snd (PosterManager._getPosterInternal_start key w1 (Loop.manager l))).
    set (r0 := Loop.mkRequest animeId animeName key (PosterManager.now w1) (Loop.Running st)).
    set (l1 := Loop.mk
                 (PosterManager.with_concurrentRequests m2
                    (<[key := p]> (PosterManager.concurrentRequests m2)))
                 (Loop.requests l ++ [r0])
                 (<[c1 := Loop.Waiting p key true]> (Loop.callers l))).
    assert (Hl1 : Loop.step (Loop.Call c1 animeId animeName w1) l = l1).
    { rewrite LoopFacts.step_call; [|apply Hfresh; now left|assumption].
      now rewrite (LoopFacts.enter_owner _ _ _ _ _ Hnone). }
    assert (Hinit1 : PosterManager.isInitialized (Loop.manager l1) = true).
    { subst l1 m2. cbn. rewrite ManagerFacts.start_isInitialized. assumption. }
    assert (Hp1 : PosterManager.concurrentRequests (Loop.manager l1) !! key = Some p).
    { subst l1. cbn. apply lookup_insert_eq. }
    (* the others join it *)
    set (l2 := Loop.mk (Loop.manager l1) (Loop.requests l1)
                 (joined p key rest (Loop.callers l1))).
    assert (Hl2 : Loop.run (calls animeId animeName rest) l1 = l2).
    { apply CoalesceFacts.calls_join; try assumption.
      intros c Hin. subst l1. cbn.
      rewrite lookup_insert_ne by (intros ->; contradiction).
      apply Hfresh. now right. }
    assert (Hown : Loop.callers l2 !! c1 = Some (Loop.Waiting p key true)).
    { subst l2 l1. cbn. rewrite CoalesceFacts.joined_lookup_out by assumption.
      apply lookup_insert_eq. }
    assert (Hjoin : forall c, In c (map fst rest) ->
              Loop.callers l2 !! c = Some (Loop.Waiting p key false)).
    { intros c Hin. subst l2. cbn. now apply CoalesceFacts.joined_lookup_in. }
    (* the request runs, and all resume *)
    destruct (CoalesceFacts.settle_and_resume l2 (Loop.requests l) r0 st c1
                (map fst rest) w eq_refl eq_refl Hown Hjoin Hnd) as (Hpf & Hcf & Hmf).
    cbn zeta in Hpf, Hcf, Hmf.
    cbn [Loop.animeId Loop.animeName Loop.key Loop.startTime r0] in Hpf, Hcf, Hmf.
    assert (Hlf : lf = Loop.run ([Loop.Run p w] ++ map Loop.Resume (c1 :: map fst rest)) l2).
    { subst lf.
      change (calls animeId animeName ((c1, w1) :: rest))
        with ([Loop.Call c1 animeId animeName w1] ++ calls animeId animeName rest).
      rewrite <- app_assoc, !LoopFacts.run_app.
      change (Loop.run [Loop.Call c1 animeId animeName w1] l)
        with (Loop.step (Loop.Call c1 animeId animeName w1) l).
      now rewrite Hl1, Hl2. }
    pose proof (CoalesceFacts.finish_chain animeId animeName key (PosterManager.now w1)
                  w st (Loop.manager l2)) as Hch.
    destruct (ManagerFacts.finish_fulfils animeId animeName key (PosterManager.now w1)
                w st (Loop.manager l2)) as [r Hr].
    rewrite Hlf. fold p in Hpf, Hcf, Hmf. rewrite Hr in Hpf, Hcf.
    exists r. split; [|split; [|split; [|split]]].
    + exact Hpf.
    + exact Hcf.
    + rewrite Hmf. cbn. apply lookup_delete_eq.
    + rewrite Hmf. cbn [Loop.manager PosterManager.fallbackChain
                        PosterManager.with_concurrentRequests].
      rewrite Hch. subst l2 l1 m2. cbn [Loop.manager PosterManager.fallbackChain
                        PosterManager.with_concurrentRequests].
      now rewrite LoopFacts.start_fallbackChain.
    + intros Hst. rewrite Hst in Hr.
      now apply ManagerFacts.finish_after_miss in Hr.
Qed.

Lemma C1_concurrent_calls_share_one_walk_witness :
  let l := quiet_loop in
  let w1 := calm_world 100 in
  let w := calm_world 200 in
  let lf := Loop.run (calls "1" "X" [(0%nat, w1); (1%nat, calm_world 101);
                                     (2%nat, calm_world 102)]
                      ++ [Loop.Run 0%nat w] ++ map Loop.Resume [0; 1; 2]%nat) l in
  exists r,
    Loop.requests lf
    = [] ++ [Loop.mkRequest "1" "X" "1:X" 100 (Loop.Complete (PosterManager.Fulfilled r))] /\
    (forall c, In c [0; 1; 2]%nat ->
       Loop.callers lf !! c = Some (Loop.Done 0 (PosterManager.Fulfilled r))) /\
    PosterManager.concurrentRequests (Loop.manager lf) !! "1:X" = None /\
    PosterManager.fallbackChain (Loop.manager lf)
    = snd (FallbackChain.fetchPoster "1" "X" (PosterManager.attempts w)
             (PosterManager.fallbackChain (Loop.manager l))) /\
    (PosterManager.GotCache None = PosterManager.GotCache None ->
     PosterManager.fromCache r = false).
Proof.
  refine (proj2 (proj2 (proj2 (proj2 (proj2 (proj2
            (C1_concurrent_calls_share_one_walk manager_with_kitsu [] "1" "X" 0%nat
               (calm_world 100) [(1%nat, calm_world 101); (2%nat, calm_world 102)]
               (calm_world 200) eq_refl))))))
            eq_refl eq_refl _ _).
  - repeat constructor; simpl; intuition discriminate.
  - intros c Hin. reflexivity.
Defined.

(** C1 as stated fails on a manager that is not initialised and persists
    its cache: each caller awaits its own initialisation, each with its own
    read of the cache file, and reaches the in-flight check when that read
    completes. Two calls for the same key are made together; the request of
    the first needs no input or output (the id is not one Kitsu accepts, so
    the only source refuses it at once) and has settled, and its entry is
    cleared, when the read of the second completes: the second call starts
    a request of its own, and the chain is walked twice. When the source is
    asked and fails, it is asked twice. *)
Lemma C1_counterexample_two_walks_on_cold_manager :
  let schedule animeId w :=
    [Loop.Call 0%nat animeId "X" (w 100); Loop.Call 1%nat animeId "X" (w 100);
     Loop.InitDone 0%nat (w 110); Loop.Run 0%nat (w 110); Loop.Resume 0%nat;
     Loop.InitDone 1%nat (w 112); Loop.Run 1%nat (w 112); Loop.Resume 1%nat] in
  let lf := Loop.run (schedule "abc" calm_world) (Loop.start cold_manager) in
  let lg := Loop.run (schedule "1" failing_world) (Loop.start cold_manager) in
  let kitsu_requests l :=
    option_map (fun s => PosterSource.totalRequests
                           (PosterSource.metrics (FallbackChain.base s)))
      (JsMap.get "kitsu"
         (FallbackChain.sources (PosterManager.fallbackChain (Loop.manager l)))) in
  PosterManager.concurrentRequests cold_manager = ∅ /\
  map Loop.key (Loop.requests lf) = ["abc:X"; "abc:X"] /\
  (exists r0 r1, Loop.callers lf !! 0%nat = Some (Loop.Done 0 r0) /\
                 Loop.callers lf !! 1%nat = Some (Loop.Done 1 r1)) /\
  MetricsCollector.cacheMisses (PosterManager.metrics (Loop.manager lf)) = 2 /\
  MetricsCollector.errorTypes (PosterManager.metrics (Loop.manager lf))
    !! "all_sources_failed" = Some 2 /\
  map Loop.key (Loop.requests lg) = ["1:X"; "1:X"] /\
  kitsu_requests (Loop.start cold_manager) = Some 0 /\
  kitsu_requests lg = Some 2.
Proof. vm_compute. repeat split. eexists _, _. split; reflexivity. Qed.

(** The test 'should handle concurrent requests efficiently': three
    simultaneous calls for the same anime on an initialised manager; all
    get the poster of Kitsu, not from the cache; one request was made and
    Kitsu was asked once; nothing is left in flight. *)
Example three_callers_one_request :
  let cws := [(0%nat, calm_world 100); (1%nat, calm_world 101);
              (2%nat, calm_world 102)] in
  let events := calls "1" "X" cws ++ [Loop.Run 0%nat (calm_world 200)]
                ++ map Loop.Resume [0; 1; 2]%nat in
  let r := PosterManager.Fulfilled
             (PosterManager.mkPosterResult (Some "u1") "kitsu" false 170) in
  let lf := Loop.run events quiet_loop in
  map (fun c => Loop.callers lf !! c) [0; 1; 2]%nat
    = [Some (Loop.Done 0 r); Some (Loop.Done 0 r); Some (Loop.Done 0 r)] /\
  length (Loop.requests lf) = 1%nat /\
  option_map (fun s => PosterSource.totalRequests
                         (PosterSource.metrics (FallbackChain.base s)))
    (JsMap.get "kitsu"
       (FallbackChain.sources (PosterManager.fallbackChain (Loop.manager lf))))
    = Some 1 /\
  PosterManager.concurrentRequests (Loop.manager lf) !! "1:X" = None.
Proof. vm_compute. repeat split. Qed.

(** A call made after the request for its key has settled and its owner
    has resumed finds nothing in flight: it starts a request of its own,
    which the cache serves. *)
Example a_late_call_is_served_by_the_cache :
  let events := [Loop.Call 0%nat "1" "X" (calm_world 100); Loop.Run 0%nat (calm_world 100);
                 Loop.Resume 0%nat;
                 Loop.Call 1%nat "1" "X" (calm_world 120); Loop.Run 1%nat (calm_world 120);
                 Loop.Resume 1%nat] in
  let lf := Loop.run events quiet_loop in
  Loop.callers lf !! 0%nat
    = Some (Loop.Done 0 (PosterManager.Fulfilled
                           (PosterManager.mkPosterResult (Some "u1") "kitsu" false 70))) /\
  Loop.callers lf !! 1%nat
    = Some (Loop.Done 1 (PosterManager.Fulfilled
                           (PosterManager.mkPosterResult (Some "u1") "kitsu" true 70))).
Proof. vm_compute. repeat split. Qed.

(** ** C2: [getPoster] does not throw *)

(** C2: a call of [getPoster] on string arguments returns a result and
    does not throw. The initialisation it may await throws nothing, and an
    error thrown in [_getPosterInternal] by the cache or by the chain is
    caught there, recorded in the global metrics by [recordError] and
    surfaced as the result with [source = "error"], no [url] and
    [fromCache = false]; otherwise the result is the one the [try] block
    returns. It is so for a call that runs alone, and, whatever the order
    of the events of several calls, every caller that resumes does so with
    a result, and every request that runs to its end settles with one. *)
Theorem C2_getPoster_never_raises :
  forall animeId animeName w m es,
    let key := PosterManager.cacheKey animeId animeName in
    let call := Loop.getPoster animeId animeName w m in
    PosterManager.concurrentRequests m = ∅ ->
    let st := fst (request_state animeId animeName w m) in
    let m2 := snd (request_state animeId animeName w m) in
    match PosterManager.try_finish animeId animeName key (PosterManager.now w) w st m2 with
    | (inl e, m3) =>
        fst call = Some (PosterManager.Fulfilled (error_result (PosterManager.now w) w)) /\
        PosterManager.metrics (snd call)
          = MetricsCollector.recordError e (PosterManager.metrics m3) /\
        MetricsCollector.failedRequests (PosterManager.metrics (snd call))
          = MetricsCollector.failedRequests (PosterManager.metrics m3) + 1
    | (inr r, m3) =>
        fst call = Some (PosterManager.Fulfilled r) /\
        PosterManager.metrics (snd call) = PosterManager.metrics m3
    end /\
    let l := Loop.run es (Loop.start m) in
    (forall c p o, Loop.callers l !! c = Some (Loop.Done p o) ->
       exists r, o = PosterManager.Fulfilled r) /\
    (forall p r st' w',
       Loop.requests l !! p = Some r -> Loop.status r = Loop.Running st' ->
       exists res,
         Loop.outcome (Loop.step (Loop.Run p w') l) p = Some (PosterManager.Fulfilled res) /\
         (forall e m3,
            PosterManager.try_finish (Loop.animeId r) (Loop.animeName r) (Loop.key r)
              (Loop.startTime r) w' st' (Loop.manager l) = (inl e, m3) ->
            res = error_result (Loop.startTime r) w' /\
            PosterManager.metrics (Loop.manager (Loop.step (Loop.Run p w') l))
            = MetricsCollector.recordError e (PosterManager.metrics m3))).
Proof.
  intros animeId animeName w m es key call Hempty st m2.
  assert (Hnone : PosterManager.concurrentRequests m !! key = None)
    by (rewrite Hempty; apply lookup_empty).
  split.
  - subst call st m2.
    unfold Loop.getPoster, request_state, PosterManager.initialize.
    rewrite LoopFacts.run_cons, LoopFacts.run_cons.
    destruct (PosterManager.isInitialized m) eqn:Hinit.
    + (* initialised: the call enters at once *)
      rewrite LoopFacts.step_call by (try exact Hinit; reflexivity).
      assert (Hskip : forall l, Loop.callers l !! 0%nat
                                = Some (Loop.Waiting 0 key true) ->
                      Loop.step (Loop.InitDone 0 w) l = l).
      { intros l Hl. unfold Loop.step. now rewrite Hl. }
      rewrite Hskip.
      2:{ rewrite (LoopFacts.enter_owner 0 animeId animeName w (Loop.start m) Hnone).
          cbn. apply lookup_insert_eq. }
      destruct (CoalesceFacts.enter_run_resume 0 animeId animeName w (Loop.start m) Hnone)
        as [Hc Hm].
      cbn zeta in Hc, Hm. cbn [Loop.requests Loop.start length Loop.manager] in Hc, Hm.
      rewrite Hc, Hm. fold key. cbn [fst snd].
      unfold PosterManager._getPosterInternal_finish.
      destruct (PosterManager.try_finish _ _ _ _ _ _ _) as [[e|r] m3]; simpl; auto.
    + (* not initialised: the call awaits the initialisation *)
      rewrite LoopFacts.step_call_uninitialised by (try exact Hinit; reflexivity).
      erewrite LoopFacts.step_init_done by (cbn; apply lookup_insert_eq).
      cbn [Loop.manager Loop.start Loop.requests Loop.callers].
      set (ready := CacheService.isInitialized (PosterManager.cache m)).
      set (m1 := PosterManager.initialize_body ready w m).
      assert (Hnone1 : PosterManager.concurrentRequests m1 !! key = None) by exact Hnone.
      destruct (CoalesceFacts.enter_run_resume 0 animeId animeName w
                  (Loop.mk m1 [] (<[0%nat := Loop.Initializing animeId animeName ready]> ∅))
                  Hnone1) as [Hc Hm].
      cbn zeta in Hc, Hm. cbn [Loop.requests length Loop.manager] in Hc, Hm.
      rewrite Hc, Hm. fold key. cbn [fst snd].
      unfold PosterManager._getPosterInternal_finish.
      destruct (PosterManager.try_finish _ _ _ _ _ _ _) as [[e|r] m3]; simpl; auto.
  - intros l.
    assert (Hco : Loop.coherent l).
    { apply CoherentFacts.coherent_run. now apply CoherentFacts.coherent_start. }
    destruct Hco as (A & B & F & C & D & E & G).
    split.
    + intros c p o Hc. apply (G p). now apply (D c).
    + intros p r st' w' Hr Hst.
      rewrite (LoopFacts.step_run p w' l r st' Hr Hst). cbn zeta.
      unfold Loop.outcome. cbn [Loop.requests Loop.manager].
      rewrite list_lookup_insert_eq by (eapply lookup_lt_Some; eassumption).
      cbn [Loop.status].
      unfold PosterManager._getPosterInternal_finish, PosterManager.on_error.
      destruct (PosterManager.try_finish _ _ _ _ _ _ _) as [[e|res] m3]; cbn [fst snd].
      * eexists. split; [reflexivity|]. intros e' m3' [= <- <-]. split; reflexivity.
      * eexists. split; [reflexivity|]. intros e' m3' [=].
Qed.

Lemma C2_getPoster_never_raises_witness :
  let w := throwing PosterManager.ChainFetchPoster type_error (calm_world 100) in
  let call := Loop.getPoster "1" "X" w manager_with_kitsu in
  fst call = Some (PosterManager.Fulfilled (error_result 100 w)) /\
  PosterManager.metrics (snd call)
    = MetricsCollector.recordError type_error
        (MetricsCollector.recordCacheMiss (PosterManager.metrics manager_with_kitsu)) /\
  MetricsCollector.failedRequests (PosterManager.metrics (snd call)) = 0 + 1.
Proof.
  exact (proj1 (C2_getPoster_never_raises "1" "X"
                  (throwing PosterManager.ChainFetchPoster type_error (calm_world 100))
                  manager_with_kitsu [] eq_refl)).
Defined.

(** The scenario of the specification: a ttl of 100 ms, an empty cache and
    one source that answers "u1". The first call fetches, the second is
    served by the cache, the third, 150 ms later, fetches again; the cache
    counted one hit and two misses. *)
Example ttl_scenario :
  let m0 := manager_with_kitsu in
  let c1 := Loop.getPoster "1" "X" (calm_world 1000) m0 in
  let c2 := Loop.getPoster "1" "X" (calm_world 1100) (snd c1) in
  let c3 := Loop.getPoster "1" "X" (calm_world 1250) (snd c2) in
  let view o := match o with
                | Some (PosterManager.Fulfilled r) =>
                    Some (PosterManager.url r, PosterManager.fromCache r)
                | _ => None
                end in
  PosterManager.config_cache_ttl m0 = 100 /\
  view (fst c1) = Some (Some "u1", false) /\
  view (fst c2) = Some (Some "u1", true) /\
  view (fst c3) = Some (Some "u1", false) /\
  CacheService.st_hits (CacheService.stats (PosterManager.cache (snd c3))) = 1 /\
  CacheService.st_misses (CacheService.stats (PosterManager.cache (snd c3))) = 2.
Proof. vm_compute. repeat split. Qed.

(** A call on a manager that is not initialised, with a cache file that
    cannot be parsed: the initialisation goes on with an empty cache, and
    the call returns the poster. *)
Example a_bad_cache_file_is_no_error :
  let w := PosterManager.mkWorld 100 (fun _ => None) CacheService.Unreadable
             (PosterManager.attempts (calm_world 100)) 160 170 in
  fst (Loop.getPoster "1" "X" w cold_manager)
  = Some (PosterManager.Fulfilled
            (PosterManager.mkPosterResult (Some "u1") "kitsu" false 70)).
Proof. vm_compute. reflexivity. Qed.

(** ** The cache under all its operations *)

Module JsMapMore.
Section WithValue.
Context {V : Type}.
Implicit Types (m : list (string * V)) (k : string) (v : V).

Lemma has_true_key k m : JsMap.has k m = true <-> In k (JsMap.keys m).
Proof.
  destruct (JsMap.has k m) eqn:E.
  - split; [intros _|reflexivity].
    destruct (in_dec String.string_dec k (JsMap.keys m)) as [Hin|Hnin]; [assumption|].
    apply JsMapFacts.has_false_not_key in Hnin. congruence.
  - apply JsMapFacts.has_false_not_key in E. split; [discriminate|tauto].
Qed.

Lemma has_get k m : JsMap.has k m = false <-> JsMap.get k m = None.
Proof. unfold JsMap.has. destruct (JsMap.get k m); split; congruence. Qed.

Lemma keys_of_set k v m :
  JsMap.keys (JsMap.set k v m)
  = if JsMap.has k m then JsMap.keys m else JsMap.keys m ++ [k].
Proof.
  unfold JsMap.has, JsMap.keys.
  induction m as [|[k' v'] m IH]; simpl; [reflexivity|].
  destruct (String.eqb k k') eqn:E; simpl; [reflexivity|].
  rewrite IH. now destruct (JsMap.get k m).
Qed.

Lemma length_delete_le k m : (length (JsMap.delete k m) <= length m)%nat.
Proof.
  induction m as [|[k' v'] m IH]; simpl; [lia|].
  destruct (String.eqb k k'); simpl; lia.
Qed.

Lemma length_delete_present k m :
  JsMap.has k m = true -> (length (JsMap.delete k m) < length m)%nat.
Proof.
  unfold JsMap.has.
  induction m as [|[k' v'] m IH]; simpl; [discriminate|].
  destruct (String.eqb k k') eqn:E; simpl.
  - intros _. pose proof (length_delete_le k m). lia.
  - intros H. specialize (IH H). lia.
Qed.

Lemma length_set k v m :
  length (JsMap.set k v m)
  = if JsMap.has k m then length m else S (length m).
Proof.
  rewrite <- (length_map fst (JsMap.set k v m)).
  change (map fst (JsMap.set k v m)) with (JsMap.keys (JsMap.set k v m)).
  rewrite keys_of_set. unfold JsMap.keys.
  destruct (JsMap.has k m); [|rewrite length_app]; rewrite length_map; simpl; lia.
Qed.

Lemma nodup_keys_delete k m :
  List.NoDup (JsMap.keys m) -> List.NoDup (JsMap.keys (JsMap.delete k m)).
Proof. intros H. rewrite JsMapFacts.keys_delete. now apply List.NoDup_filter. Qed.

Lemma nodup_keys_set k v m :
  List.NoDup (JsMap.keys m) -> List.NoDup (JsMap.keys (JsMap.set k v m)).
Proof.
  intros H. rewrite keys_of_set. destruct (JsMap.has k m) eqn:E; [assumption|].
  apply JsMapFacts.has_false_not_key in E.
  apply List.NoDup_app; [assumption | repeat constructor; intros [] |].
  intros x Hx [<-|[]]. contradiction.
Qed.

Lemma has_delete_other k k' m :
  JsMap.has k' m = false -> JsMap.has k' (JsMap.delete k m) = false.
Proof.
  rewrite !JsMapFacts.has_false_not_key, JsMapFacts.keys_delete.
  intros H Hin. apply List.filter_In in Hin. tauto.
Qed.

Lemma first_key_has k m : JsMap.first_key m = Some k -> JsMap.has k m = true.
Proof.
  destruct m as [|[k' v'] m]; simpl; [discriminate|].
  intros [= <-]. unfold JsMap.has. simpl. now rewrite String.eqb_refl.
Qed.

Lemma get_filter (f : string * V -> bool) k m :
  List.NoDup (JsMap.keys m) ->
  JsMap.get k (List.filter f m)
  = match JsMap.get k m with
    | Some v => if f (k, v) then Some v else None
    | None => None
    end.
Proof.
  induction m as [|[k' v'] m IH]; simpl; [reflexivity|].
  intros Hnd. inversion Hnd as [|? ? Hnin Hnd']; subst.
  specialize (IH Hnd').
  destruct (String.eqb k k') eqn:E.
  - apply String.eqb_eq in E. subst k'.
    destruct (f (k, v')) eqn:Ef; simpl.
    + now rewrite String.eqb_refl.
    + rewrite IH.
      apply JsMapFacts.get_None_not_key in Hnin. now rewrite Hnin.
  - destruct (f (k', v')); simpl; [rewrite E|]; exact IH.
Qed.

End WithValue.
End JsMapMore.

Module CacheInv.
Import CacheService.

Lemma ok_new config : CacheOps.ok (new config).
Proof. unfold CacheOps.ok, new, JsMap.size; simpl. repeat split; [constructor | lia]. Qed.

Lemma ok_get key now c : CacheOps.ok c -> CacheOps.ok (snd (get key now c)).
Proof.
  intros (Hnd & Hsz & Hb). unfold get.
  destruct (JsMap.get key (cache c)) as [e|] eqn:Eg; simpl.
  - assert (Hhas : JsMap.has key (cache c) = true)
      by (unfold JsMap.has; now rewrite Eg).
    pose proof (JsMapMore.length_delete_present key (cache c) Hhas) as Hlt.
    destruct (_isExpired e now); unfold CacheOps.ok, JsMap.size in *; simpl.
    + repeat split; [now apply JsMapMore.nodup_keys_delete | lia].
    + repeat split.
      * apply JsMapMore.nodup_keys_set. now apply JsMapMore.nodup_keys_delete.
      * rewrite JsMapMore.length_set.
        assert (Hno : JsMap.has key (JsMap.delete key (cache c)) = false).
        { apply JsMapMore.has_get. apply JsMapFacts.get_delete_same. }
        rewrite Hno.
        assert (length (JsMap.delete key (cache c)) = pred (length (cache c))).
        { clear - Hnd Eg. revert Hnd Eg. unfold JsMap.keys.
          induction (cache c) as [|[k' v'] m IH]; simpl; [discriminate|].
          intros Hnd. inversion Hnd as [|? ? Hnin Hnd']; subst.
          destruct (String.eqb key k') eqn:E.
          - intros _. apply String.eqb_eq in E. subst k'.
            apply JsMapFacts.get_None_not_key in Hnin.
            now rewrite (JsMapFacts.delete_absent _ _ Hnin).
          - intros Eg. simpl. rewrite (IH Hnd' Eg).
            destruct m; [discriminate|reflexivity]. }
        lia.
      * rewrite JsMapMore.length_set.
        assert (Hno : JsMap.has key (JsMap.delete key (cache c)) = false).
        { apply JsMapMore.has_get. apply JsMapFacts.get_delete_same. }
        rewrite Hno. lia.
  - unfold CacheOps.ok; simpl. auto.
Qed.

(** The map [set] leaves: the first key is gone when the cache was full and
    the key is new, and the entry stored is last. *)
Lemma set_shape key entry now c :
  let m0 := if evicts key c then
              match JsMap.first_key (cache c) with
              | Some firstKey => JsMap.delete firstKey (cache c)
              | None => cache c
              end
            else cache c in
  let m1 := if JsMap.has key m0 then JsMap.delete key m0 else m0 in
  let c' := set key entry now c in
  cache c' = JsMap.set key (CacheOps.stored entry now c) m1 /\
  st_size (stats c') = JsMap.size (cache c') /\
  maxSize c' = maxSize c /\ defaultTTL c' = defaultTTL c /\
  persistToDisk c' = persistToDisk c /\ isInitialized c' = isInitialized c.
Proof.
  unfold set, CacheOps.stored.
  destruct (evicts key c); cbn;
    destruct (persistToDisk c) eqn:Ep; cbn; rewrite ?Ep; repeat split; reflexivity.
Qed.

Lemma ok_set key entry now c : CacheOps.ok c -> CacheOps.ok (set key entry now c).
Proof.
  intros (Hnd & Hsz & Hb).
  destruct (set_shape key entry now c) as (Hc & Hs & Hm & _).
  cbv zeta in Hc. unfold CacheOps.ok. rewrite Hs, Hm, Hc. clear Hc Hs Hm.
  set (m0 := if evicts key c then _ else _).
  assert (Hnd0 : List.NoDup (JsMap.keys m0)).
  { subst m0. destruct (evicts key c); [|assumption].
    destruct (JsMap.first_key (cache c)); [|assumption].
    now apply JsMapMore.nodup_keys_delete. }
  assert (Hb0 : (JsMap.has key m0 = true /\
                 JsMap.size m0 <= Z.max 1 (maxSize c)) \/
                (JsMap.has key m0 = false /\
                 JsMap.size m0 + 1 <= Z.max 1 (maxSize c))).
  { subst m0. unfold evicts, JsMap.size in *.
    destruct (maxSize c <=? Z.of_nat (length (cache c))) eqn:Efull;
      destruct (JsMap.has key (cache c)) eqn:Ehas; simpl.
    - left. split; [assumption|lia].
    - right. destruct (JsMap.first_key (cache c)) as [fk|] eqn:Efk.
      + split; [now apply JsMapMore.has_delete_other|].
        pose proof (JsMapMore.length_delete_present fk (cache c)
                      (JsMapMore.first_key_has fk (cache c) Efk)). lia.
      + split; [assumption|].
        destruct (cache c) as [|[k0 v0] m0]; [simpl; lia|discriminate].
    - left. split; [assumption|lia].
    - right. split; [assumption|]. apply Z.leb_gt in Efull. lia. }
  clearbody m0. split; [|split; [reflexivity|]].
  - apply JsMapMore.nodup_keys_set.
    destruct (JsMap.has key m0); [|assumption].
    now apply JsMapMore.nodup_keys_delete.
  - unfold JsMap.size in *. rewrite JsMapMore.length_set.
    destruct Hb0 as [[Hhas Hle]|[Hhas Hle]]; rewrite Hhas.
    + assert (Hno : JsMap.has key (JsMap.delete key m0) = false).
      { apply JsMapMore.has_get. apply JsMapFacts.get_delete_same. }
      rewrite Hno.
      pose proof (JsMapMore.length_delete_present key m0 Hhas). lia.
    + rewrite Hhas. lia.
Qed.

Lemma ok_invalidate key c : CacheOps.ok c -> CacheOps.ok (snd (invalidate key c)).
Proof.
  intros (Hnd & Hsz & Hb). unfold CacheOps.ok, invalidate, JsMap.size in *; simpl.
  repeat split; [now apply JsMapMore.nodup_keys_delete|].
  pose proof (JsMapMore.length_delete_le key (cache c)). lia.
Qed.

Lemma ok_clear now c : CacheOps.ok c -> CacheOps.ok (clear now c).
Proof.
  intros _. unfold CacheOps.ok, clear, JsMap.size.
  destruct (persistToDisk _); simpl; repeat split; try constructor; lia.
Qed.

Lemma ok_cleanup now c : CacheOps.ok c -> CacheOps.ok (snd (cleanup now c)).
Proof.
  intros (Hnd & Hsz & Hb). unfold CacheOps.ok, cleanup, JsMap.size in *; simpl.
  repeat split.
  - unfold JsMap.keys in *. clear - Hnd.
    induction (cache c) as [|[k v] m IH]; simpl; [constructor|].
    inversion Hnd as [|? ? Hnin Hnd']; subst.
    destruct (negb (_isExpired v now)); simpl; [|auto].
    constructor; [|auto]. intros Hin. apply Hnin.
    apply in_map_iff in Hin. destruct Hin as ([k' v'] & <- & Hin).
    apply List.filter_In in Hin. apply in_map_iff. exists (k', v'). tauto.
  - pose proof (List.filter_length_le
                  (fun kv : string * Entry => negb (_isExpired (snd kv) now)) (cache c)).
    lia.
Qed.

Lemma maxSize_apply op c : maxSize (CacheOps.apply op c) = maxSize c.
Proof.
  destruct op as [key now|key entry now|key|now|now]; simpl.
  - apply LruFacts.maxSize_get.
  - apply LruFacts.maxSize_set.
  - reflexivity.
  - unfold clear. now destruct (persistToDisk _).
  - reflexivity.
Qed.

Lemma ok_apply op c : CacheOps.ok c -> CacheOps.ok (CacheOps.apply op c).
Proof.
  intros Hok. destruct op; simpl.
  - now apply ok_get.
  - now apply ok_set.
  - now apply ok_invalidate.
  - now apply ok_clear.
  - now apply ok_cleanup.
Qed.

Lemma ok_run ops c : CacheOps.ok c -> CacheOps.ok (CacheOps.run ops c) /\
                            maxSize (CacheOps.run ops c) = maxSize c.
Proof.
  revert c. induction ops as [|op ops IH]; intros c Hok; simpl; [auto|].
  destruct (IH (CacheOps.apply op c) (ok_apply op c Hok)) as [H1 H2].
  split; [assumption|]. rewrite H2. apply maxSize_apply.
Qed.

End CacheInv.

(** X1: whatever sequence of [get], [set], [invalidate], [clear] and
    [cleanup] a cache has served since it was created, its keys are
    distinct, its [size] statistic is the number of entries it holds, and
    it holds at most [maxSize] entries, where [maxSize] is the configured
    one or 1000 (at most one entry when the configured size is negative). *)
Theorem X1_cache_never_exceeds_maxSize :
  forall config ops,
    let c := CacheOps.run ops (CacheService.new config) in
    List.NoDup (JsMap.keys (CacheService.cache c)) /\
    CacheService.st_size (CacheService.stats c) = JsMap.size (CacheService.cache c) /\
    JsMap.size (CacheService.cache c) <= Z.max 1 (CacheService.maxSize c) /\
    CacheService.maxSize c = Js.num_or (CacheService.cfg_maxSize config) 1000.
Proof.
  intros config ops c.
  destruct (CacheInv.ok_run ops (CacheService.new config) (CacheInv.ok_new config))
    as [(H1 & H2 & H3) H4].
  repeat split; assumption.
Qed.

Example cache_of_capacity_two :
  let c := CacheOps.run sample_ops (CacheService.new small_config) in
  JsMap.keys (CacheService.cache c) = ["a"; "c"] /\
  CacheService.stats c = CacheService.mkStats 1 0 3 1 2.
Proof. vm_compute. split; reflexivity. Qed.

Module CacheMore.
Import CacheService.

Lemma victim_not_key key c k : CacheOps.victim key c = Some k -> k <> key.
Proof.
  unfold CacheOps.victim, evicts.
  destruct (maxSize c <=? JsMap.size (cache c)); simpl; [|discriminate].
  destruct (JsMap.has key (cache c)) eqn:Ehas; simpl; [discriminate|].
  intros Hfk <-. apply JsMapMore.first_key_has in Hfk. congruence.
Qed.

Lemma get_after_set key entry now c :
  JsMap.get key (cache (set key entry now c)) = Some (CacheOps.stored entry now c).
Proof.
  destruct (CacheInv.set_shape key entry now c) as (-> & _).
  apply JsMapFacts.get_set_same.
Qed.

(** [set] leaves the other keys alone, the evicted one apart. *)
Lemma get_other_after_set key entry now c k :
  k <> key ->
  JsMap.get k (cache (set key entry now c))
  = if decide (CacheOps.victim key c = Some k) then None else JsMap.get k (cache c).
Proof.
  intros Hne.
  destruct (CacheInv.set_shape key entry now c) as (-> & _).
  rewrite JsMapFacts.get_set_other by congruence.
  unfold CacheOps.victim.
  set (m0 := if evicts key c then _ else _).
  assert (Hm1 : JsMap.get k (if JsMap.has key m0 then JsMap.delete key m0 else m0)
                = JsMap.get k m0).
  { destruct (JsMap.has key m0); [|reflexivity].
    apply JsMapFacts.get_delete_other. congruence. }
  rewrite Hm1. subst m0.
  destruct (evicts key c).
  - destruct (JsMap.first_key (cache c)) as [fk|] eqn:Efk.
    + destruct (decide (Some fk = Some k)) as [[= ->]|Hd].
      * apply JsMapFacts.get_delete_same.
      * apply JsMapFacts.get_delete_other. congruence.
    + destruct (decide (None = Some k)); [discriminate|reflexivity].
  - destruct (decide (None = Some k)); [discriminate|reflexivity].
Qed.

Lemma list_to_map_get (l : list (string * Entry)) k :
  (list_to_map l : gmap string Entry) !! k = JsMap.get k l.
Proof.
  induction l as [|[k' v] l IH]; simpl; [apply lookup_empty|].
  destruct (String.eqb k k') eqn:E.
  - apply String.eqb_eq in E. subst. apply lookup_insert_eq.
  - apply String.eqb_neq in E. rewrite lookup_insert_ne by congruence. exact IH.
Qed.

(** What the loop of [_loadFromDisk] leaves under each key. *)
Lemma get_after_load now entries acc k :
  List.NoDup (map fst entries) ->
  JsMap.get k
    (fold_left (fun m kv => if _isExpired (snd kv) now then m
                            else JsMap.set (fst kv) (snd kv) m) entries acc)
  = match JsMap.get k entries with
    | Some e => if _isExpired e now then JsMap.get k acc else Some e
    | None => JsMap.get k acc
    end.
Proof.
  revert acc. induction entries as [|[k' e'] entries IH]; intros acc Hnd; simpl;
    [reflexivity|].
  inversion Hnd as [|? ? Hnin Hnd']; subst.
  rewrite IH by assumption.
  destruct (String.eqb k k') eqn:E.
  - apply String.eqb_eq in E. subst k'.
    apply JsMapFacts.get_None_not_key in Hnin. rewrite Hnin.
    destruct (_isExpired e' now); [reflexivity|apply JsMapFacts.get_set_same].
  - apply String.eqb_neq in E.
    assert (Hacc : JsMap.get k (if _isExpired e' now then acc else JsMap.set k' e' acc)
                   = JsMap.get k acc).
    { destruct (_isExpired e' now); [reflexivity|].
      apply JsMapFacts.get_set_other. congruence. }
    now rewrite Hacc.
Qed.

Lemma isExpired_mono e now now' :
  now <= now' -> _isExpired e now = true -> _isExpired e now' = true.
Proof. unfold _isExpired. intros H1 H2. apply Z.ltb_lt in H2. apply Z.ltb_lt. lia. Qed.

Lemma sets_snoc burst s c :
  CacheOps.sets (burst ++ [s]) c
  = set (fst (fst s)) (snd (fst s)) (snd s) (CacheOps.sets burst c).
Proof. unfold CacheOps.sets. now rewrite fold_left_app. Qed.

Lemma sets_persistToDisk burst c :
  persistToDisk (CacheOps.sets burst c) = persistToDisk c.
Proof.
  revert c. induction burst as [|s burst IH]; intros c; simpl; [reflexivity|].
  change (persistToDisk (CacheOps.sets burst (set (fst (fst s)) (snd (fst s)) (snd s) c))
          = persistToDisk c).
  rewrite IH. now destruct (CacheInv.set_shape (fst (fst s)) (snd (fst s)) (snd s) c)
    as (_ & _ & _ & _ & -> & _).
Qed.

Lemma set_saveTimeout key entry now c :
  persistToDisk c = true ->
  _saveTimeout (set key entry now c) = Some (mkTimeout (now + 1000) true).
Proof.
  intros Hp. unfold set. destruct (evicts key c); cbn; rewrite Hp; reflexivity.
Qed.

End CacheMore.

(** X2: a [set] followed by a [get] of the same key. The entry stored is
    the one given, with the clock of the [set] for a missing (or zero)
    [timestamp], the default TTL of the cache for a missing (or zero) [ttl]
    and 0 for missing [hits]; a [get] returns it, with one more hit, up to
    and including the instant [timestamp + ttl], and nothing after. The
    other keys keep their entries, except the first key of the map when the
    cache was full and the key new: that one is gone. *)
Theorem X2_set_then_get :
  forall key entry now c now',
    let c' := CacheService.set key entry now c in
    let e := CacheOps.stored entry now c in
    JsMap.get key (CacheService.cache c') = Some e /\
    fst (CacheService.get key now' c')
      = (if CacheService.timestamp e + CacheService.ttl e <? now'
         then None else Some (touch e)) /\
    (forall k, k <> key ->
       JsMap.get k (CacheService.cache c')
       = if decide (CacheOps.victim key c = Some k) then None
         else JsMap.get k (CacheService.cache c)) /\
    (forall k, CacheOps.victim key c = Some k ->
       k <> key /\ JsMap.get k (CacheService.cache c) <> None /\
       JsMap.size (CacheService.cache c) >= CacheService.maxSize c).
Proof.
  intros key entry now c now' c' e.
  pose proof (CacheMore.get_after_set key entry now c) as Hget. fold c' e in Hget.
  split; [exact Hget|]. split; [|split].
  - destruct (CacheService.timestamp e + CacheService.ttl e <? now') eqn:E.
    + apply Z.ltb_lt in E.
      now destruct (CacheFacts.get_expired key now' c' e Hget E) as (H & _).
    + apply Z.ltb_ge in E.
      now destruct (CacheFacts.get_live key now' c' e Hget E) as (H & _).
  - intros k Hne. now apply CacheMore.get_other_after_set.
  - intros k Hv. split; [now apply (CacheMore.victim_not_key key c)|].
    unfold CacheOps.victim, CacheService.evicts in Hv.
    destruct (CacheService.maxSize c <=? JsMap.size (CacheService.cache c)) eqn:Efull;
      simpl in Hv; [|discriminate].
    destruct (negb (JsMap.has key (CacheService.cache c))); [|discriminate].
    apply Z.leb_le in Efull. split; [|lia].
    apply JsMapMore.first_key_has in Hv. unfold JsMap.has in Hv.
    destruct (JsMap.get k (CacheService.cache c)); [discriminate|discriminate].
Qed.

(** X3: [cleanup] removes the expired entries and only them, and returns
    how many they were. It does not show through [get]: at the clock of the
    [cleanup] or later, a [get] of any key returns what it would have
    returned without it. A second [cleanup] at the same clock removes
    nothing. *)
Theorem X3_cleanup_removes_expired_only :
  forall now c,
    List.NoDup (JsMap.keys (CacheService.cache c)) ->
    let n := fst (CacheService.cleanup now c) in
    let c' := snd (CacheService.cleanup now c) in
    (forall k, JsMap.get k (CacheService.cache c')
               = match JsMap.get k (CacheService.cache c) with
                 | Some e => if CacheService._isExpired e now then None else Some e
                 | None => None
                 end) /\
    n = JsMap.size (CacheService.cache c) - JsMap.size (CacheService.cache c') /\
    0 <= n /\
    (forall k now', now <= now' ->
       fst (CacheService.get k now' c') = fst (CacheService.get k now' c)) /\
    fst (CacheService.cleanup now c') = 0 /\
    CacheService.cache (snd (CacheService.cleanup now c')) = CacheService.cache c'.
Proof.
  intros now c Hnd n c'.
  assert (Hget : forall k, JsMap.get k (CacheService.cache c')
               = match JsMap.get k (CacheService.cache c) with
                 | Some e => if CacheService._isExpired e now then None else Some e
                 | None => None
                 end).
  { intros k. subst c'. unfold CacheService.cleanup. simpl.
    rewrite JsMapMore.get_filter by assumption.
    destruct (JsMap.get k (CacheService.cache c)) as [e|]; [|reflexivity].
    simpl. now destruct (CacheService._isExpired e now). }
  assert (Hidem : List.filter
            (fun kv : string * CacheService.Entry =>
               negb (CacheService._isExpired (snd kv) now)) (CacheService.cache c')
          = CacheService.cache c').
  { subst c'. unfold CacheService.cleanup. simpl.
    generalize (CacheService.cache c) as m. intros m.
    induction m as [|[k e] m IH]; simpl; [reflexivity|].
    destruct (negb (CacheService._isExpired e now)) eqn:E; simpl;
      [rewrite E; f_equal|]; exact IH. }
  assert (Hn : n = JsMap.size (CacheService.cache c) - JsMap.size (CacheService.cache c')
               /\ 0 <= n).
  { split; [reflexivity|].
    subst n c'. unfold CacheService.cleanup, JsMap.size. simpl.
    pose proof (List.filter_length_le
                  (fun kv : string * CacheService.Entry =>
                     negb (CacheService._isExpired (snd kv) now)) (CacheService.cache c)).
    lia. }
  clearbody c' n. destruct Hn as [Hn1 Hn2].
  split; [exact Hget|]. split; [exact Hn1|]. split; [exact Hn2|]. split; [|split].
  - intros k now' Hle. unfold CacheService.get. rewrite Hget.
    destruct (JsMap.get k (CacheService.cache c)) as [e|]; [|reflexivity].
    destruct (CacheService._isExpired e now) eqn:E.
    + now rewrite (CacheMore.isExpired_mono e now now' Hle E).
    + now destruct (CacheService._isExpired e now').
  - unfold CacheService.cleanup. cbn [fst]. rewrite Hidem. lia.
  - unfold CacheService.cleanup. cbn [snd CacheService.cache CacheService.with_cache
                                      CacheService.with_stats]. exact Hidem.
Qed.

Lemma X3_cleanup_removes_expired_only_witness :
  let c := cache_with_one_entry in
  let n := fst (CacheService.cleanup 1101 c) in
  let c' := snd (CacheService.cleanup 1101 c) in
  (forall k, JsMap.get k (CacheService.cache c')
             = match JsMap.get k (CacheService.cache c) with
               | Some e => if CacheService._isExpired e 1101 then None else Some e
               | None => None
               end) /\
  n = JsMap.size (CacheService.cache c) - JsMap.size (CacheService.cache c') /\
  0 <= n /\
  (forall k now', 1101 <= now' ->
     fst (CacheService.get k now' c') = fst (CacheService.get k now' c)) /\
  fst (CacheService.cleanup 1101 c') = 0 /\
  CacheService.cache (snd (CacheService.cleanup 1101 c')) = CacheService.cache c'.
Proof.
  apply (X3_cleanup_removes_expired_only 1101 cache_with_one_entry).
  vm_compute. repeat constructor. intros [].
Defined.

(** X4: a cache document written by a save, read back by the
    initialisation of a new cache with persistence on, restores under each
    key the entry that was saved, hit count included, unless it has expired
    by the clock of the load; the [sets] and [evictions] counters are those
    saved, [hits] and [misses] start from 0, and [size] is the number of
    entries restored. *)
Theorem X4_saved_cache_loads_back :
  forall c t config entries now,
    CacheService.cfg_persistToDisk config = true ->
    CacheOps.enumerates entries (CacheService.cacheData t c) ->
    let c' := CacheService.initialize
                (CacheOps.read_back (CacheService.cacheData t c) entries) now
                (CacheService.new config) in
    CacheService.isInitialized c' = true /\
    (forall k, JsMap.get k (CacheService.cache c')
               = match JsMap.get k (CacheService.cache c) with
                 | Some e => if CacheService._isExpired e now then None else Some e
                 | None => None
                 end) /\
    CacheService.st_sets (CacheService.stats c')
      = CacheService.st_sets (CacheService.stats c) /\
    CacheService.st_evictions (CacheService.stats c')
      = CacheService.st_evictions (CacheService.stats c) /\
    CacheService.st_hits (CacheService.stats c') = 0 /\
    CacheService.st_misses (CacheService.stats c') = 0 /\
    CacheService.st_size (CacheService.stats c') = JsMap.size (CacheService.cache c').
Proof.
  intros c t config entries now Hp [Hnd Henum] c'.
  subst c'. unfold CacheService.initialize, CacheService.initialize_body,
    CacheOps.read_back, CacheService._loadFromDisk, CacheService.new.
  cbn. rewrite Hp. cbn.
  split; [reflexivity|]. split; [|split; [|split; [|repeat split]]].
  - intros k. rewrite CacheMore.get_after_load by assumption. simpl.
    rewrite <- (CacheMore.list_to_map_get entries k), Henum.
    unfold CacheService.cacheData. simpl. rewrite CacheMore.list_to_map_get.
    destruct (JsMap.get k (CacheService.cache c)) as [e|]; [|reflexivity].
    now destruct (CacheService._isExpired e now).
  - unfold Js.num_or. destruct (CacheService.st_sets (CacheService.stats c) =? 0) eqn:E;
      [apply Z.eqb_eq in E; congruence|reflexivity].
  - unfold Js.num_or.
    destruct (CacheService.st_evictions (CacheService.stats c) =? 0) eqn:E;
      [apply Z.eqb_eq in E; congruence|reflexivity].
Qed.

Lemma X4_saved_cache_loads_back_witness :
  let c := persistent_cache in
  let c' := CacheService.initialize
              (CacheOps.read_back (CacheService.cacheData 2000 c) (CacheService.cache c))
              1050
              (CacheService.new
                 (CacheService.mkConfig (Some 3) (Some 100) true "cache/poster-cache.json")) in
  CacheService.isInitialized c' = true /\
  (forall k, JsMap.get k (CacheService.cache c')
             = match JsMap.get k (CacheService.cache c) with
               | Some e => if CacheService._isExpired e 1050 then None else Some e
               | None => None
               end) /\
  CacheService.st_sets (CacheService.stats c')
    = CacheService.st_sets (CacheService.stats c) /\
  CacheService.st_evictions (CacheService.stats c')
    = CacheService.st_evictions (CacheService.stats c) /\
  CacheService.st_hits (CacheService.stats c') = 0 /\
  CacheService.st_misses (CacheService.stats c') = 0 /\
  CacheService.st_size (CacheService.stats c') = JsMap.size (CacheService.cache c').
Proof.
  apply (X4_saved_cache_loads_back persistent_cache 2000
           (CacheService.mkConfig (Some 3) (Some 100) true "cache/poster-cache.json")
           (CacheService.cache persistent_cache) 1050).
  - reflexivity.
  - split; [vm_compute; repeat constructor; intros []|reflexivity].
Defined.

(** X5: with persistence on, a burst of [set]s leaves one save pending, due
    one second after the last of them. Until then the timer writes
    nothing. When it fires it writes the cache as it then is, to the
    temporary file, and renames it over the cache file; after that it
    writes nothing more, until another [set] or [clear]. *)
Theorem X5_burst_of_sets_saves_once :
  forall c burst key entry t,
    CacheService.persistToDisk c = true ->
    let c' := CacheOps.sets (burst ++ [(key, entry, t)]) c in
    let target := CacheService.cacheFilePath c' in
    CacheService._saveTimeout c' = Some (CacheService.mkTimeout (t + 1000) true) /\
    (forall fails now, now < t + 1000 ->
       CacheService.fire_saveTimeout fails now c' = ([], c')) /\
    (forall now, t + 1000 <= now ->
       let fired := CacheService.fire_saveTimeout (fun _ => false) now c' in
       fst fired = [CacheService.MkdirDirnameOf target;
                    CacheService.WriteFile (target +:+ ".tmp")
                                           (CacheService.cacheData now c');
                    CacheService.Rename (target +:+ ".tmp") target] /\
       CacheService.cache (snd fired) = CacheService.cache c' /\
       forall fails now', CacheService.fire_saveTimeout fails now' (snd fired)
                          = ([], snd fired)).
Proof.
  intros c burst key entry t Hp c' target.
  assert (Ht : CacheService._saveTimeout c'
               = Some (CacheService.mkTimeout (t + 1000) true)).
  { subst c'. rewrite CacheMore.sets_snoc. simpl.
    apply CacheMore.set_saveTimeout. now rewrite CacheMore.sets_persistToDisk. }
  split; [exact Ht|]. split.
  - intros fails now Hlt. unfold CacheService.fire_saveTimeout. rewrite Ht. simpl.
    destruct (t + 1000 <=? now) eqn:E; [apply Z.leb_le in E; lia|reflexivity].
  - intros now Hle fired. subst fired.
    unfold CacheService.fire_saveTimeout. rewrite Ht. simpl.
    destruct (t + 1000 <=? now) eqn:E; [|apply Z.leb_gt in E; lia].
    simpl. split; [|split; [reflexivity|]].
    + unfold CacheService._saveToDisk_callback.
      now rewrite PersistFacts.perform_no_failure.
    + intros fails now'. reflexivity.
Qed.

Lemma X5_burst_of_sets_saves_once_witness :
  let c := persistent_cache in
  let c' := CacheOps.sets ([("2:Y", lru_entry "2", 1200)] ++ [("3:Z", lru_entry "3", 1500)]) c in
  let target := CacheService.cacheFilePath c' in
  CacheService._saveTimeout c' = Some (CacheService.mkTimeout (1500 + 1000) true) /\
  (forall fails now, now < 1500 + 1000 ->
     CacheService.fire_saveTimeout fails now c' = ([], c')) /\
  (forall now, 1500 + 1000 <= now ->
     let fired := CacheService.fire_saveTimeout (fun _ => false) now c' in
     fst fired = [CacheService.MkdirDirnameOf target;
                  CacheService.WriteFile (target +:+ ".tmp")
                                         (CacheService.cacheData now c');
                  CacheService.Rename (target +:+ ".tmp") target] /\
     CacheService.cache (snd fired) = CacheService.cache c' /\
     forall fails now', CacheService.fire_saveTimeout fails now' (snd fired)
                        = ([], snd fired)).
Proof.
  apply (X5_burst_of_sets_saves_once persistent_cache
           [("2:Y", lru_entry "2", 1200)] "3:Z" (lru_entry "3") 1500).
  reflexivity.
Defined.

(** ** Sequences of attempts on a source *)

Module EffectFacts.
Import PosterSource Attempts.

Lemma as_before_refl b : as_before b b.
Proof. repeat split. Qed.

Lemma as_before_trans b1 b2 b3 : as_before b1 b2 -> as_before b2 b3 -> as_before b1 b3.
Proof. intros (H1 & H2 & H3) (H4 & H5 & H6). repeat split; congruence. Qed.

Lemma pending_app b l :
  pending_reenable (with_timers b (timers b ++ l))
  = pending_reenable b ++ List.filter reenables l.
Proof. unfold pending_reenable. simpl. apply List.filter_app. Qed.

(** What a request to TMDB does to the source before it settles. *)
Lemma tmdb_makeRequest_base now r s :
  as_before (TMDBSource.base (snd (TMDBSource._makeRequest now r s))) (TMDBSource.base s) /\
  TMDBSource.cb (snd (TMDBSource._makeRequest now r s)) = TMDBSource.cb s.
Proof.
  destruct r as [paths| |status retry_after|]; simpl; auto using as_before_refl.
  destruct (status =? 401); simpl.
  { split; [|reflexivity]. unfold as_before, setEnabled, pending_reenable. simpl. auto. }
  destruct (status =? 404); simpl; auto using as_before_refl.
  destruct (status =? 429); simpl; auto using as_before_refl.
  destruct retry_after as [ra|]; auto using as_before_refl.
  destruct (ra =? 0); simpl; auto using as_before_refl.
  split; [|reflexivity]. unfold as_before. simpl. repeat split.
  unfold pending_reenable. simpl. rewrite List.filter_app. simpl.
  now rewrite app_nil_r.
Qed.

Lemma tmdb_search_base now r s :
  as_before (TMDBSource.base (snd (TMDBSource._search now r s))) (TMDBSource.base s) /\
  TMDBSource.cb (snd (TMDBSource._search now r s)) = TMDBSource.cb s /\
  match fst (TMDBSource._search now r s) with
  | Some url => Js.truthy url = true
  | None => True
  end.
Proof.
  unfold TMDBSource._search.
  pose proof (tmdb_makeRequest_base now r s) as (H1 & H2).
  destruct (TMDBSource._makeRequest now r s) as [[paths|e] s1]; simpl in *.
  - split; [assumption|]. split; [assumption|].
    destruct (List.filter Js.truthy (omap id paths)); [exact I|reflexivity].
  - split; [assumption|]. split; [assumption|exact I].
Qed.

Lemma tmdb_requestFn_base t0 env s :
  exists s3,
    as_before (TMDBSource.base s3) (TMDBSource.base s) /\
    TMDBSource.cb s3 = TMDBSource.cb s /\
    match fst (TMDBSource.requestFn t0 env s) with
    | Err.Return (Some url) =>
        Js.truthy url = true /\
        snd (TMDBSource.requestFn t0 env s)
        = TMDBSource.with_b
            (TMDBSource.with_cb s3
               (fst (Breaker._onSuccess (TMDBSource.cb s) (TMDBSource.base s3))))
            (snd (Breaker._onSuccess (TMDBSource.cb s) (TMDBSource.base s3)))
    | Err.Return None => snd (TMDBSource.requestFn t0 env s) = s3
    | Err.Throw e => is_precondition e = false /\ snd (TMDBSource.requestFn t0 env s) = s3
    end.
Proof.
  unfold TMDBSource.requestFn.
  set (s1 := TMDBSource._waitForRateLimit t0 (TMDBSource.t_req env) s).
  assert (H1 : as_before (TMDBSource.base s1) (TMDBSource.base s) /\
               TMDBSource.cb s1 = TMDBSource.cb s)
    by (split; [apply as_before_refl|reflexivity]).
  destruct H1 as [Hm1 Hc1].
  destruct (TMDBSource.reply env) as [tv movie|]; cbn [fst snd].
  2:{ exists s1. auto. }
  pose proof (tmdb_search_base (TMDBSource.t_end env) tv s1) as (Hm2 & Hc2 & Hu2).
  destruct (TMDBSource._search (TMDBSource.t_end env) tv s1) as [fromTv s2].
  cbn [fst snd] in *.
  assert (Hsel : exists posterUrl s3,
    (match fromTv with
     | Some u => (Some u, s2)
     | None => TMDBSource._search (TMDBSource.t_end env) movie s2
     end) = (posterUrl, s3) /\
    as_before (TMDBSource.base s3) (TMDBSource.base s) /\
    TMDBSource.cb s3 = TMDBSource.cb s /\
    match posterUrl with Some url => Js.truthy url = true | None => True end).
  { destruct fromTv as [u|].
    - exists (Some u), s2. split; [reflexivity|].
      split; [eapply as_before_trans; eassumption|]. split; [congruence|assumption].
    - pose proof (tmdb_search_base (TMDBSource.t_end env) movie s2) as (Hm3 & Hc3 & Hu3).
      destruct (TMDBSource._search (TMDBSource.t_end env) movie s2) as [fromMovie s3].
      cbn [fst snd] in *.
      exists fromMovie, s3. split; [reflexivity|]. split; [|split; [congruence|assumption]].
      eapply as_before_trans; [eassumption|]. eapply as_before_trans; eassumption. }
  destruct Hsel as (posterUrl & s3 & -> & Hm3 & Hc3 & Hu3).
  exists s3. split; [exact Hm3|]. split; [exact Hc3|].
  destruct posterUrl as [url|]; cbn [fst snd]; [|reflexivity].
  rewrite Hc3.
  destruct (Breaker._onSuccess (TMDBSource.cb s) (TMDBSource.base s3)) as [c b].
  cbn [fst snd]. auto.
Qed.

(** What one call of [fetchPoster] does to a source, by how it settles.
    A call turned away on a precondition leaves the source as the breaker
    check left it. A call let through found the source available; a
    failure went through [_recordFailure] (and the breaker's [_onFailure]
    where there is one), a success through [_recordSuccess], after the
    breaker's [_onSuccess] when a poster came back. *)
Lemma attempt_spec c s :
  let r := fst (fetch c s) in
  let s' := snd (fetch c s) in
  let t0 := FallbackChain.t_start (attempt c) in
  let te := FallbackChain.t_end (attempt c) in
  match r with
  | Err.Throw e =>
      if is_precondition e then s' = breaker_checked t0 s
      else
        isAvailable (FallbackChain.base s) = true /\
        exists b1, as_before b1 (FallbackChain.base s) /\
          match breaker s with
          | Some cb =>
              fst (Breaker._canMakeRequest t0 cb) = true /\
              breaker s' = Some (fst (Breaker._recordFailure e (te - t0) te
                                        (snd (Breaker._canMakeRequest t0 cb)) b1)) /\
              FallbackChain.base s'
              = snd (Breaker._recordFailure e (te - t0) te
                       (snd (Breaker._canMakeRequest t0 cb)) b1)
          | None =>
              breaker s' = None /\
              FallbackChain.base s' = PosterSource._recordFailure e (te - t0) b1
          end
  | Err.Return u =>
      isAvailable (FallbackChain.base s) = true /\
      exists b1, as_before b1 (FallbackChain.base s) /\
        match breaker s with
        | Some cb =>
            let cb1 := snd (Breaker._canMakeRequest t0 cb) in
            fst (Breaker._canMakeRequest t0 cb) = true /\
            if no_url u then
              breaker s' = Some cb1 /\
              FallbackChain.base s' = _recordSuccess (te - t0) te b1
            else
              breaker s' = Some (fst (Breaker._onSuccess cb1 b1)) /\
              FallbackChain.base s'
              = _recordSuccess (te - t0) te (snd (Breaker._onSuccess cb1 b1))
        | None =>
            breaker s' = None /\
            FallbackChain.base s' = _recordSuccess (te - t0) te b1
        end
  end.
Proof.
  intros r s' t0 te. subst r s' t0 te. unfold fetch.
  destruct s as [k|t|n]; unfold FallbackChain.source_fetchPoster.
  - (* Kitsu *)
    set (env := KitsuSource.mkEnv _ _ _). set (t0 := FallbackChain.t_start _).
    set (animeId := animeId c). set (animeName := animeName c).
    pose proof (AttemptFacts.rejected_on_precondition animeId animeName (attempt c)
                  (FallbackChain.Kitsu k)) as Hpre.
    unfold FallbackChain.source_fetchPoster in Hpre. fold env t0 in Hpre.
    rewrite KitsuFacts.kitsu_fetchPoster_unfold in *. cbn zeta in *.
    destruct (fst (Breaker._canMakeRequest t0 (KitsuSource.cb k))) eqn:Hcan;
      simpl negb in *; cbv iota in *.
    2:{ simpl in *. exact (Hpre _ eq_refl eq_refl). }
    destruct (negb (Js.truthy animeId) || Js.isNaN animeId)%bool.
    { simpl in *. exact (Hpre _ eq_refl eq_refl). }
    destruct (isAvailable (KitsuSource.base k)) eqn:Hav; simpl negb in *; cbv iota in *.
    2:{ simpl in *. exact (Hpre _ eq_refl eq_refl). }
    clear Hpre.
    set (k1 := KitsuSource.with_cb k _).
    pose proof (KitsuFacts.kitsu_requestFn_spec t0 env k1) as Hreq.
    destruct (KitsuSource.requestFn t0 env k1) as [[[url|]|e] k2]; simpl in Hreq; simpl.
    + destruct Hreq as [Htr ->]. split; [assumption|].
      exists (KitsuSource.base k). split; [apply as_before_refl|].
      split; [assumption|]. rewrite Htr. simpl. split; reflexivity.
    + subst k2. split; [assumption|].
      exists (KitsuSource.base k). split; [apply as_before_refl|].
      split; [assumption|]. simpl. split; reflexivity.
    + destruct Hreq as [Hp ->]. rewrite Hp. split; [assumption|].
      exists (KitsuSource.base k). split; [apply as_before_refl|].
      split; [assumption|].
      unfold KitsuSource._recordFailure. simpl.
      destruct (Breaker._recordFailure e _ _ _ _) as [cb2 b2]. simpl. split; reflexivity.
  - (* TMDB *)
    set (env := TMDBSource.mkEnv _ _ _). set (t0 := FallbackChain.t_start _).
    set (animeId := animeId c). set (animeName := animeName c).
    pose proof (AttemptFacts.rejected_on_precondition animeId animeName (attempt c)
                  (FallbackChain.Tmdb t)) as Hpre.
    unfold FallbackChain.source_fetchPoster in Hpre. fold env t0 in Hpre.
    rewrite TmdbFacts.tmdb_fetchPoster_unfold in *. cbn zeta in *.
    destruct (fst (Breaker._canMakeRequest t0 (TMDBSource.cb t))) eqn:Hcan;
      simpl negb in *; cbv iota in *.
    2:{ simpl in *. exact (Hpre _ eq_refl eq_refl). }
    destruct (negb (Js.truthy animeName)).
    { simpl in *. exact (Hpre _ eq_refl eq_refl). }
    destruct (TMDBSource.apiKey t).
    2:{ simpl in *. exact (Hpre _ eq_refl eq_refl). }
    destruct (isAvailable (TMDBSource.base t)) eqn:Hav; simpl negb in *; cbv iota in *.
    2:{ simpl in *. exact (Hpre _ eq_refl eq_refl). }
    clear Hpre.
    set (s1 := TMDBSource.with_cb t _).
    destruct (tmdb_requestFn_base t0 env s1) as (s3 & Hb & Hc & Hreq).
    destruct (TMDBSource.requestFn t0 env s1) as [[[url|]|e] s2]; simpl in Hreq; simpl.
    + destruct Hreq as [Htr ->]. split; [assumption|].
      exists (TMDBSource.base s3). split; [exact Hb|].
      split; [assumption|]. rewrite Htr. simpl. split; reflexivity.
    + subst s2. split; [assumption|].
      exists (TMDBSource.base s3). split; [exact Hb|].
      split; [assumption|]. simpl. rewrite Hc. split; reflexivity.
    + destruct Hreq as [Hp ->]. rewrite Hp. split; [assumption|].
      exists (TMDBSource.base s3). split; [exact Hb|].
      split; [assumption|].
      unfold TMDBSource._recordFailure. simpl. rewrite Hc. simpl.
      destruct (Breaker._recordFailure e _ _ _ _) as [cb2 b2]. simpl. split; reflexivity.
  - (* Nautiljon *)
    unfold NautiljonSource.fetchPoster, Exec._executeWithMetrics. simpl.
    destruct (isAvailable (NautiljonSource.base n)) eqn:Hav; simpl.
    2:{ reflexivity. }
    unfold NautiljonSource.requestFn. simpl.
    destruct (FallbackChain.nautiljon_reply (attempt c)) as [posterUrl|m|]; simpl.
    + split; [reflexivity|]. eexists. split; [apply as_before_refl|]. split; reflexivity.
    + split; [reflexivity|]. eexists. split; [apply as_before_refl|]. split; reflexivity.
    + split; [reflexivity|]. eexists. split; [apply as_before_refl|]. split; reflexivity.
Qed.

End EffectFacts.

Module BreakerMore.
Import PosterSource Attempts Breaker.

Lemma updateAverage_keeps rt b :
  totalRequests (metrics (_updateAverageResponseTime rt b)) = totalRequests (metrics b) /\
  successfulRequests (metrics (_updateAverageResponseTime rt b))
    = successfulRequests (metrics b) /\
  failedRequests (metrics (_updateAverageResponseTime rt b)) = failedRequests (metrics b) /\
  consecutiveFailures (metrics (_updateAverageResponseTime rt b))
    = consecutiveFailures (metrics b) /\
  isTemporarilyDisabled (metrics (_updateAverageResponseTime rt b))
    = isTemporarilyDisabled (metrics b) /\
  timers (_updateAverageResponseTime rt b) = timers b /\
  isEnabled (_updateAverageResponseTime rt b) = isEnabled b /\
  name (_updateAverageResponseTime rt b) = name b.
Proof. unfold _updateAverageResponseTime. simpl. repeat split. Qed.

(** The base-class [_recordFailure], in the fields the breaker looks at. *)
Lemma base_recordFailure e rt b :
  let b' := PosterSource._recordFailure e rt b in
  totalRequests (metrics b') = totalRequests (metrics b) + 1 /\
  successfulRequests (metrics b') = successfulRequests (metrics b) /\
  failedRequests (metrics b') = failedRequests (metrics b) + 1 /\
  consecutiveFailures (metrics b') = consecutiveFailures (metrics b) + 1 /\
  isTemporarilyDisabled (metrics b') = isTemporarilyDisabled (metrics b) /\
  timers b' = timers b /\ isEnabled b' = isEnabled b /\ name b' = name b.
Proof.
  unfold PosterSource._recordFailure.
  destruct (0 <? rt); simpl; repeat split.
Qed.

Lemma base_recordSuccess rt now b :
  let b' := _recordSuccess rt now b in
  totalRequests (metrics b') = totalRequests (metrics b) + 1 /\
  successfulRequests (metrics b') = successfulRequests (metrics b) + 1 /\
  failedRequests (metrics b') = failedRequests (metrics b) /\
  consecutiveFailures (metrics b') = 0 /\
  isTemporarilyDisabled (metrics b') = isTemporarilyDisabled (metrics b) /\
  timers b' = timers b /\ isEnabled b' = isEnabled b /\ name b' = name b.
Proof. unfold _recordSuccess. simpl. repeat split. Qed.

(** [_onFailure] on a breaker that is not half-open: it opens when the
    consecutive failures have reached the threshold, and sets the timer
    that clears the disabled flag. *)
Lemma onFailure_closed now cb b :
  circuitState cb <> HALF_OPEN ->
  _onFailure now cb b
  = if failureThreshold cb <=? consecutiveFailures (metrics b) then
      (with_nextAttemptTime (with_state cb OPEN) (now + disableDuration cb),
       with_timers (with_metrics b (set_isTemporarilyDisabled true (metrics b)))
         (timers b ++ [mkTimer (now + disableDuration cb) ReenableIfOpen]))
    else (cb, b).
Proof. unfold _onFailure. destruct (circuitState cb); [reflexivity|reflexivity|congruence]. Qed.

(** [_onFailure] on a half-open breaker: it opens again, and sets no
    timer. *)
Lemma onFailure_half_open now cb b :
  circuitState cb = HALF_OPEN ->
  _onFailure now cb b
  = (with_nextAttemptTime (with_state cb OPEN) (now + disableDuration cb),
     with_metrics b (set_isTemporarilyDisabled true (metrics b))).
Proof. unfold _onFailure. now intros ->. Qed.

Lemma onFailure_counts now cb b :
  let b' := snd (_onFailure now cb b) in
  totalRequests (metrics b') = totalRequests (metrics b) /\
  successfulRequests (metrics b') = successfulRequests (metrics b) /\
  failedRequests (metrics b') = failedRequests (metrics b) /\
  consecutiveFailures (metrics b') = consecutiveFailures (metrics b) /\
  isEnabled b' = isEnabled b /\ name b' = name b /\
  failureThreshold (fst (_onFailure now cb b)) = failureThreshold cb /\
  disableDuration (fst (_onFailure now cb b)) = disableDuration cb.
Proof.
  unfold _onFailure.
  destruct (circuitState cb); simpl; try (repeat split; reflexivity);
    destruct (failureThreshold cb <=? consecutiveFailures (metrics b)); simpl;
    repeat split; reflexivity.
Qed.

Lemma onSuccess_counts cb b :
  let b' := snd (_onSuccess cb b) in
  totalRequests (metrics b') = totalRequests (metrics b) /\
  successfulRequests (metrics b') = successfulRequests (metrics b) /\
  failedRequests (metrics b') = failedRequests (metrics b) /\
  timers b' = timers b /\ isEnabled b' = isEnabled b /\ name b' = name b /\
  failureThreshold (fst (_onSuccess cb b)) = failureThreshold cb /\
  disableDuration (fst (_onSuccess cb b)) = disableDuration cb /\
  nextAttemptTime (fst (_onSuccess cb b)) = nextAttemptTime cb.
Proof. unfold _onSuccess. destruct (circuitState cb); simpl; repeat split. Qed.

(** An open breaker turns the call away before [nextAttemptTime], and the
    source is as it was. *)
Lemma open_rejects c s cb :
  breaker s = Some cb ->
  circuitState cb = OPEN ->
  FallbackChain.t_start (attempt c) < nextAttemptTime cb ->
  fetch c s = (Err.Throw (Err.CircuitOpen (name (FallbackChain.base s))), s).
Proof.
  intros Hb Hopen Hlt. unfold fetch.
  assert (Hcan : _canMakeRequest (FallbackChain.t_start (attempt c)) cb = (false, cb)).
  { unfold _canMakeRequest. rewrite Hopen.
    destruct (nextAttemptTime cb <=? FallbackChain.t_start (attempt c)) eqn:E;
      [apply Z.leb_le in E; lia|reflexivity]. }
  destruct s as [k|t|n]; simpl in Hb; [| |discriminate]; injection Hb as <-;
    unfold FallbackChain.source_fetchPoster.
  - rewrite KitsuFacts.kitsu_fetchPoster_unfold. cbn zeta. rewrite Hcan. simpl.
    now rewrite KitsuBreaker.kitsu_with_cb_same.
  - rewrite TmdbFacts.tmdb_fetchPoster_unfold. cbn zeta. rewrite Hcan. simpl.
    now rewrite TmdbBreaker.tmdb_with_cb_same.
Qed.

End BreakerMore.

Module TimerFacts.
Import PosterSource Attempts.

(** The timers that fire at [now], in the order they fire, and the source
    they fire on. *)
Lemma fire_timers_unfold {S} `{SourceClass S} now (s : S) :
  Exec.fire_timers now s
  = fold_left (fun s t => run_timer (action t) s)
      (Js.sort_by due (List.filter (fun t => due t <=? now) (timers (base_of s))))
      (with_base s (with_timers (base_of s)
                      (List.filter (fun t => negb (due t <=? now)) (timers (base_of s))))).
Proof. reflexivity. Qed.

Lemma fold_invariant {S} (P : S -> Prop) (f : TimerAction -> S -> S) l s :
  (forall t s, In t l -> P s -> P (f (action t) s)) -> P s ->
  P (fold_left (fun s t => f (action t) s) l s).
Proof.
  revert s. induction l as [|t l IH]; intros s Hf Hs; simpl; [assumption|].
  apply IH; [intros; apply Hf; simpl; auto|apply Hf; simpl; auto].
Qed.

Lemma in_sorted_due {A} (key : A -> Z) (f : A -> bool) l x :
  In x (Js.sort_by key (List.filter f l)) -> In x l /\ f x = true.
Proof.
  intros Hin. apply List.filter_In.
  eapply Permutation_in; [|exact Hin].
  apply Permutation_sym, ChainFacts.sort_by_perm.
Qed.

(** What the timers of a source do to its base: each clears the disabled
    flag, with or without the consecutive failures, or leaves the metrics
    alone. *)
Lemma run_timer_metrics a (s : FallbackChain.Source) :
  let b := FallbackChain.base s in
  let s' := run_timer_on a s in
  breaker s' = breaker s /\
  timers (FallbackChain.base s') = timers b /\
  isEnabled (FallbackChain.base s') = isEnabled b /\
  name (FallbackChain.base s') = name b /\
  (metrics (FallbackChain.base s') = metrics b \/
   metrics (FallbackChain.base s') = set_isTemporarilyDisabled false (metrics b) \/
   metrics (FallbackChain.base s')
   = set_consecutiveFailures 0 (set_isTemporarilyDisabled false (metrics b))).
Proof.
  destruct s as [k|t|n]; destruct a as [| |l]; simpl; repeat split; auto.
  - destruct (Breaker.circuitState (KitsuSource.cb k)); reflexivity.
  - destruct (Breaker.circuitState (KitsuSource.cb k)); reflexivity.
  - destruct (Breaker.circuitState (KitsuSource.cb k)); reflexivity.
  - destruct (Breaker.circuitState (KitsuSource.cb k)); reflexivity.
  - destruct (Breaker.circuitState (KitsuSource.cb k)); simpl; auto.
  - destruct (Breaker.circuitState (TMDBSource.cb t)); reflexivity.
  - destruct (Breaker.circuitState (TMDBSource.cb t)); reflexivity.
  - destruct (Breaker.circuitState (TMDBSource.cb t)); reflexivity.
  - destruct (Breaker.circuitState (TMDBSource.cb t)); reflexivity.
  - destruct (Breaker.circuitState (TMDBSource.cb t)); simpl; auto.
Qed.

(** A timer that restores the rate limit leaves the base of its source
    alone. *)
Lemma run_timer_restore l (s : FallbackChain.Source) :
  FallbackChain.base (run_timer_on (RestoreRateLimit l) s) = FallbackChain.base s /\
  breaker (run_timer_on (RestoreRateLimit l) s) = breaker s.
Proof. destruct s; simpl; auto. Qed.

Lemma fold_wrap {S} (wrap : S -> FallbackChain.Source) (f : TimerAction -> S -> S)
    (g : TimerAction -> FallbackChain.Source -> FallbackChain.Source) l s :
  (forall a s, g a (wrap s) = wrap (f a s)) ->
  wrap (fold_left (fun s t => f (action t) s) l s)
  = fold_left (fun s t => g (action t) s) l (wrap s).
Proof.
  intros Hw. revert s. induction l as [|t l IH]; intros s; simpl; [reflexivity|].
  now rewrite IH, Hw.
Qed.

(** The event loop on a source of any class: the due timers run, earliest
    first, on the source without them. *)
Lemma fire_timers_source now s :
  let b := FallbackChain.base s in
  fire_timers now s
  = fold_left (fun s t => run_timer_on (action t) s)
      (Js.sort_by due (List.filter (fun t => due t <=? now) (timers b)))
      (FallbackChain.set_base s
         (with_timers b (List.filter (fun t => negb (due t <=? now)) (timers b)))).
Proof.
  destruct s as [k|t|n]; simpl; rewrite fire_timers_unfold.
  - now apply (fold_wrap FallbackChain.Kitsu run_timer run_timer_on).
  - now apply (fold_wrap FallbackChain.Tmdb run_timer run_timer_on).
  - now apply (fold_wrap FallbackChain.Nautiljon run_timer run_timer_on).
Qed.

Lemma set_base_timers s l :
  let s' := FallbackChain.set_base s (with_timers (FallbackChain.base s) l) in
  FallbackChain.base s' = with_timers (FallbackChain.base s) l /\
  breaker s' = breaker s.
Proof. destruct s; simpl; auto. Qed.

End TimerFacts.

Module CountFacts.
Import PosterSource Attempts.

Lemma counted_success rt now b b1 :
  metrics b1 = metrics b -> counted (metrics b) ->
  counted (metrics (_recordSuccess rt now b1)).
Proof.
  intros Hm (H1 & H2 & H3).
  destruct (BreakerMore.base_recordSuccess rt now b1) as (E1 & E2 & E3 & E4 & _).
  cbn zeta in *. unfold counted. rewrite E1, E2, E3, E4, Hm. lia.
Qed.

Lemma counted_failure e rt b b1 :
  metrics b1 = metrics b -> counted (metrics b) ->
  counted (metrics (PosterSource._recordFailure e rt b1)).
Proof.
  intros Hm (H1 & H2 & H3).
  destruct (BreakerMore.base_recordFailure e rt b1) as (E1 & E2 & E3 & E4 & _).
  cbn zeta in *. unfold counted. rewrite E1, E2, E3, E4, Hm. lia.
Qed.

Lemma counted_same_counts m m' :
  totalRequests m' = totalRequests m ->
  successfulRequests m' = successfulRequests m ->
  failedRequests m' = failedRequests m ->
  consecutiveFailures m' = consecutiveFailures m \/ consecutiveFailures m' = 0 ->
  counted m -> counted m'.
Proof. unfold counted. intros -> -> -> [->| ->]; lia. Qed.

Lemma counted_fetch c s :
  counted (metrics (FallbackChain.base s)) ->
  counted (metrics (FallbackChain.base (snd (fetch c s)))).
Proof.
  intros Hc. pose proof (EffectFacts.attempt_spec c s) as H. cbn zeta in H.
  destruct (fst (fetch c s)) as [u|e].
  - destruct H as (_ & b1 & (Hm & _) & H).
    destruct (breaker s) as [cb|].
    + destruct H as [_ H]. destruct (no_url u); destruct H as [_ ->].
      * now apply (counted_success _ _ (FallbackChain.base s)).
      * apply (counted_success _ _ (snd (Breaker._onSuccess
                 (snd (Breaker._canMakeRequest (FallbackChain.t_start (attempt c)) cb)) b1)));
          [reflexivity|].
        destruct (BreakerMore.onSuccess_counts
                    (snd (Breaker._canMakeRequest (FallbackChain.t_start (attempt c)) cb)) b1)
          as (E1 & E2 & E3 & _). cbn zeta in *.
        eapply counted_same_counts; [exact E1|exact E2|exact E3| |rewrite Hm; exact Hc].
        unfold Breaker._onSuccess. destruct (Breaker.circuitState _); simpl; auto.
    + destruct H as [_ ->]. now apply (counted_success _ _ (FallbackChain.base s)).
  - destruct (is_precondition e).
    + rewrite H, AttemptFacts.breaker_checked_base. exact Hc.
    + destruct H as (_ & b1 & (Hm & _) & H).
      destruct (breaker s) as [cb|].
      * destruct H as (_ & _ & ->). unfold Breaker._recordFailure.
        destruct (BreakerMore.onFailure_counts (FallbackChain.t_end (attempt c))
                    (snd (Breaker._canMakeRequest (FallbackChain.t_start (attempt c)) cb))
                    (PosterSource._recordFailure e
                       (FallbackChain.t_end (attempt c) - FallbackChain.t_start (attempt c)) b1))
          as (E1 & E2 & E3 & E4 & _). cbn zeta in *.
        eapply counted_same_counts; [exact E1|exact E2|exact E3|left; exact E4|].
        now apply (counted_failure _ _ (FallbackChain.base s)).
      * destruct H as [_ ->]. now apply (counted_failure _ _ (FallbackChain.base s)).
Qed.

Lemma counted_fire now s :
  counted (metrics (FallbackChain.base s)) ->
  counted (metrics (FallbackChain.base (fire_timers now s))).
Proof.
  intros Hc. rewrite TimerFacts.fire_timers_source. cbn zeta.
  apply (TimerFacts.fold_invariant
           (fun s => counted (metrics (FallbackChain.base s))) run_timer_on).
  - intros t s0 _ Hs0.
    destruct (TimerFacts.run_timer_metrics (action t) s0) as (_ & _ & _ & _ & Hm).
    cbn zeta in Hm. unfold counted in *.
    destruct Hm as [-> | [-> | ->]]; simpl; lia.
  - destruct (TimerFacts.set_base_timers s
                (List.filter (fun t => negb (due t <=? now))
                             (timers (FallbackChain.base s)))) as [-> _].
    exact Hc.
Qed.

End CountFacts.

(** X6: the counters of a source stay in agreement, whatever calls of
    [fetchPoster] and firings of its timers it goes through: every request
    counted is counted as a success or as a failure, never both and never
    neither, and the consecutive failures are among the failures. A call
    turned away before the request (breaker open, invalid arguments,
    source not available) counts nowhere. *)
Theorem X6_source_counters_agree :
  forall s ticks,
    Attempts.counted (PosterSource.metrics (FallbackChain.base s)) ->
    Attempts.counted
      (PosterSource.metrics (FallbackChain.base (Attempts.run ticks s))) /\
    (forall c, Attempts.turned_away (fst (Attempts.fetch c s)) = true ->
       PosterSource.metrics (FallbackChain.base (snd (Attempts.fetch c s)))
       = PosterSource.metrics (FallbackChain.base s)).
Proof.
  intros s ticks Hc. split.
  - revert s Hc. induction ticks as [|t ticks IH]; intros s Hc; [exact Hc|].
    simpl. apply IH. destruct t as [c|now]; simpl.
    + now apply CountFacts.counted_fetch.
    + now apply CountFacts.counted_fire.
  - intros c Hta. pose proof (EffectFacts.attempt_spec c s) as H. cbn zeta in H.
    destruct (fst (Attempts.fetch c s)) as [u|e]; simpl in Hta; [discriminate|].
    rewrite Hta in H. now rewrite H, AttemptFacts.breaker_checked_base.
Qed.

Lemma X6_source_counters_agree_witness :
  let s := FallbackChain.Kitsu test_kitsu in
  let ticks := [Attempts.Fetch (failing_call 2000); Attempts.Timers 5000;
                Attempts.Fetch (finding_call 6000)] in
  Attempts.counted
    (PosterSource.metrics (FallbackChain.base (Attempts.run ticks s))) /\
  (forall c, Attempts.turned_away (fst (Attempts.fetch c s)) = true ->
     PosterSource.metrics (FallbackChain.base (snd (Attempts.fetch c s)))
     = PosterSource.metrics (FallbackChain.base s)).
Proof.
  apply (X6_source_counters_agree (FallbackChain.Kitsu test_kitsu)).
  unfold Attempts.counted. simpl. lia.
Defined.

Module LockFacts.
Import PosterSource Attempts Breaker.

Lemma filter_empty {A} (f : A -> bool) l :
  List.filter f l = [] <-> (forall x, In x l -> f x = false).
Proof.
  induction l as [|a l IH]; simpl; [tauto|].
  destruct (f a) eqn:E; split.
  - discriminate.
  - intros H. specialize (H a (or_introl eq_refl)). congruence.
  - intros H x [<-|Hin]; [assumption|]. now apply IH.
  - intros H. apply IH. auto.
Qed.

Lemma not_reenables t : reenables t = false -> exists l, action t = RestoreRateLimit l.
Proof. unfold reenables. destruct (action t); try discriminate. eauto. Qed.

(** With the disabled flag set and no timer left to clear it, the timers
    that fire leave the base of the source as it is, those fired apart. *)
Lemma fire_when_locked now s :
  pending_reenable (FallbackChain.base s) = [] ->
  metrics (FallbackChain.base (fire_timers now s)) = metrics (FallbackChain.base s) /\
  isEnabled (FallbackChain.base (fire_timers now s)) = isEnabled (FallbackChain.base s) /\
  pending_reenable (FallbackChain.base (fire_timers now s)) = [] /\
  breaker (fire_timers now s) = breaker s.
Proof.
  intros Hp. rewrite TimerFacts.fire_timers_source. cbn zeta.
  set (b := FallbackChain.base s).
  set (s0 := FallbackChain.set_base s _).
  destruct (TimerFacts.set_base_timers s
              (List.filter (fun t => negb (due t <=? now)) (timers b))) as [Hb0 Hc0].
  fold b s0 in Hb0, Hc0.
  assert (Hinv : FallbackChain.base
                   (fold_left (fun s t => run_timer_on (action t) s)
                      (Js.sort_by due (List.filter (fun t => due t <=? now) (timers b))) s0)
                 = FallbackChain.base s0 /\
                 breaker (fold_left (fun s t => run_timer_on (action t) s)
                      (Js.sort_by due (List.filter (fun t => due t <=? now) (timers b))) s0)
                 = breaker s0).
  { apply (TimerFacts.fold_invariant
             (fun x => FallbackChain.base x = FallbackChain.base s0 /\
                       breaker x = breaker s0) run_timer_on); [|auto].
    intros t x Hin [Hx1 Hx2].
    apply TimerFacts.in_sorted_due in Hin. destruct Hin as [Hin _].
    assert (Hr : reenables t = false).
    { apply (proj1 (filter_empty reenables (timers b)) Hp). exact Hin. }
    destruct (not_reenables t Hr) as [l ->].
    destruct (TimerFacts.run_timer_restore l x) as [-> ->]. auto. }
  destruct Hinv as [-> ->]. rewrite Hb0, Hc0. simpl.
  repeat split.
  unfold pending_reenable. simpl. apply filter_empty.
  intros x Hin. apply List.filter_In in Hin. destruct Hin as [Hin _].
  apply (proj1 (filter_empty reenables (timers b)) Hp). exact Hin.
Qed.

End LockFacts.

Module RecoveryFacts.
Import PosterSource Attempts Breaker.

Lemma reenable_if_open x cb :
  breaker x = Some cb -> circuitState cb = OPEN ->
  isTemporarilyDisabled (metrics (FallbackChain.base (run_timer_on ReenableIfOpen x)))
  = false.
Proof.
  destruct x as [k|t|n]; simpl; intros [= <-] Hopen; now rewrite Hopen.
Qed.

Lemma timers_clear cb l :
  forall x,
    breaker x = Some cb -> circuitState cb = OPEN ->
    isTemporarilyDisabled (metrics (FallbackChain.base x)) = false \/
    (exists t, In t l /\ action t = ReenableIfOpen) ->
    let x' := fold_left (fun s t => run_timer_on (action t) s) l x in
    breaker x' = Some cb /\
    isTemporarilyDisabled (metrics (FallbackChain.base x')) = false.
Proof.
  induction l as [|t l IH]; intros x Hb Hopen Hor; cbn zeta.
  - simpl. destruct Hor as [H|(t & [] & _)]. auto.
  - simpl.
    destruct (TimerFacts.run_timer_metrics (action t) x) as (Hb' & _ & _ & _ & Hm).
    cbn zeta in *. apply IH; [congruence|assumption|].
    destruct Hor as [Hfalse|(t' & [<-|Hin] & Ha)].
    + left. destruct Hm as [-> | [-> | ->]]; simpl; auto.
    + left. rewrite Ha. now apply (reenable_if_open x cb).
    + right. eauto.
Qed.

End RecoveryFacts.

(** X9: the way back of a breaker that the threshold opened. When the
    timer set at the opening has fired the source is no longer marked
    temporarily disabled, the breaker still open. The next call made once
    the cooldown is over is let through as the probe; if it returns a poster
    the breaker is closed, the consecutive failures are 0 and the mark is
    clear. *)
Theorem X9_open_breaker_recovers :
  forall s cb due now probe,
    breaker s = Some cb ->
    Breaker.circuitState cb = Breaker.OPEN ->
    In (PosterSource.mkTimer due PosterSource.ReenableIfOpen)
       (PosterSource.timers (FallbackChain.base s)) ->
    due <= now ->
    Breaker.nextAttemptTime cb <= FallbackChain.t_start (Attempts.attempt probe) ->
    let s1 := Attempts.fire_timers now s in
    let s2 := snd (Attempts.fetch probe s1) in
    breaker s1 = Some cb /\
    PosterSource.isTemporarilyDisabled (PosterSource.metrics (FallbackChain.base s1)) = false /\
    (Attempts.found (fst (Attempts.fetch probe s1)) = true ->
     exists cb', breaker s2 = Some cb' /\
       Breaker.circuitState cb' = Breaker.CLOSED /\
       PosterSource.consecutiveFailures (PosterSource.metrics (FallbackChain.base s2)) = 0 /\
       PosterSource.isTemporarilyDisabled
         (PosterSource.metrics (FallbackChain.base s2)) = false).
Proof.
  intros s cb due now probe Hb Hopen Hin Hdue Hnext s1 s2.
  assert (H1 : breaker s1 = Some cb /\
               PosterSource.isTemporarilyDisabled
                 (PosterSource.metrics (FallbackChain.base s1)) = false).
  { subst s1. rewrite TimerFacts.fire_timers_source. cbn zeta.
    apply RecoveryFacts.timers_clear.
    - now destruct (TimerFacts.set_base_timers s
                      (List.filter (fun t => negb (PosterSource.due t <=? now))
                         (PosterSource.timers (FallbackChain.base s)))) as [_ ->].
    - exact Hopen.
    - right. exists (PosterSource.mkTimer due PosterSource.ReenableIfOpen).
      split; [|reflexivity].
      eapply Permutation_in; [apply ChainFacts.sort_by_perm|].
      apply List.filter_In. split; [exact Hin|]. simpl. now apply Z.leb_le. }
  destruct H1 as [Hb1 Hflag]. split; [exact Hb1|]. split; [exact Hflag|].
  intros Hfound. subst s2.
  pose proof (EffectFacts.attempt_spec probe s1) as H. cbn zeta in H.
  destruct (fst (Attempts.fetch probe s1)) as [u|e]; simpl in Hfound; [|discriminate].
  destruct H as (_ & b1 & (Hm & _) & H). rewrite Hb1 in H. cbn zeta in H.
  destruct H as [_ H]. apply negb_true_iff in Hfound. rewrite Hfound in H.
  destruct H as [Hb2 Hbase].
  assert (Hcan : snd (Breaker._canMakeRequest
                        (FallbackChain.t_start (Attempts.attempt probe)) cb)
                 = Breaker.with_state cb Breaker.HALF_OPEN).
  { unfold Breaker._canMakeRequest. rewrite Hopen.
    apply Z.leb_le in Hnext. now rewrite Hnext. }
  rewrite Hcan in Hb2, Hbase. unfold Breaker._onSuccess in Hb2, Hbase.
  simpl in Hb2, Hbase.
  eexists. split; [exact Hb2|]. rewrite Hbase. simpl. auto.
Qed.

Lemma X9_open_breaker_recovers_witness :
  let s := Attempts.after [failing_call 2000; failing_call 4000; failing_call 6000]
             (FallbackChain.Kitsu test_kitsu) in
  let s1 := Attempts.fire_timers 7050 s in
  let s2 := snd (Attempts.fetch (finding_call 7100) s1) in
  breaker s1 = Some (Breaker.mk Breaker.OPEN 3 1000 7050) /\
  PosterSource.isTemporarilyDisabled (PosterSource.metrics (FallbackChain.base s1)) = false /\
  (Attempts.found (fst (Attempts.fetch (finding_call 7100) s1)) = true ->
   exists cb', breaker s2 = Some cb' /\
     Breaker.circuitState cb' = Breaker.CLOSED /\
     PosterSource.consecutiveFailures (PosterSource.metrics (FallbackChain.base s2)) = 0 /\
     PosterSource.isTemporarilyDisabled
       (PosterSource.metrics (FallbackChain.base s2)) = false).
Proof.
  apply (X9_open_breaker_recovers
           (Attempts.after [failing_call 2000; failing_call 4000; failing_call 6000]
              (FallbackChain.Kitsu test_kitsu))
           (Breaker.mk Breaker.OPEN 3 1000 7050) 7050 7050 (finding_call 7100)).
  - reflexivity.
  - reflexivity.
  - vm_compute. left. reflexivity.
  - lia.
  - simpl. lia.
Defined.

Example breaker_full_cycle :
  let s := Attempts.after [failing_call 2000; failing_call 4000; failing_call 6000]
             (FallbackChain.Kitsu test_kitsu) in
  let s1 := Attempts.fire_timers 7050 s in
  Attempts.found (fst (Attempts.fetch (finding_call 7100) s1)) = true /\
  PosterSource.isAvailable
    (FallbackChain.base (snd (Attempts.fetch (finding_call 7100) s1))) = true /\
  PosterSource.isAvailable
    (FallbackChain.base
       (Attempts.run [Attempts.Timers 9000; Attempts.Fetch (finding_call 9100)]
          (snd (Attempts.fetch (failing_call 7100) s1)))) = false.
Proof. vm_compute. repeat split. Qed.

(** ** The walk of the chain *)

Module WalkFacts.
Import PosterSource Attempts.

Lemma get_keyed n srcs src :
  ChainMore.keyed srcs -> JsMap.get n srcs = Some src ->
  name (FallbackChain.base src) = n.
Proof.
  intros [Hk _]. induction srcs as [|[k v] srcs IH]; simpl; [discriminate|].
  pose proof (List.Forall_inv Hk) as Hkv. pose proof (List.Forall_inv_tail Hk) as Hk'.
  simpl in Hkv. destruct (String.eqb n k) eqn:E.
  - apply String.eqb_eq in E. intros [= <-]. congruence.
  - now apply IH.
Qed.

Lemma keyed_set n src' srcs :
  ChainMore.keyed srcs -> name (FallbackChain.base src') = n ->
  ChainMore.keyed (JsMap.set n src' srcs).
Proof.
  intros [Hk Hnd] Hn. split; [|now apply JsMapMore.nodup_keys_set].
  clear Hnd. induction srcs as [|[k v] srcs IH]; simpl.
  - repeat constructor. exact Hn.
  - pose proof (List.Forall_inv Hk) as Hkv. pose proof (List.Forall_inv_tail Hk) as Hk'.
    destruct (String.eqb n k) eqn:E.
    + apply String.eqb_eq in E. constructor; [simpl; congruence|assumption].
    + constructor; [assumption|now apply IH].
Qed.

Lemma keys_set_present n (src src' : FallbackChain.Source) srcs :
  JsMap.get n srcs = Some src -> JsMap.keys (JsMap.set n src' srcs) = JsMap.keys srcs.
Proof.
  intros Hg. rewrite JsMapMore.keys_of_set. unfold JsMap.has. now rewrite Hg.
Qed.

(** A call of [fetchPoster] leaves the name of its source. *)
Lemma fetch_name animeId animeName a s :
  name (FallbackChain.base (snd (FallbackChain.source_fetchPoster animeId animeName a s)))
  = name (FallbackChain.base s).
Proof.
  pose proof (EffectFacts.attempt_spec (mkCall animeId animeName a) s) as H.
  unfold fetch in H. cbn [Attempts.animeId Attempts.animeName attempt] in H.
  cbn zeta in H.
  destruct (FallbackChain.source_fetchPoster animeId animeName a s) as [r s'].
  cbn [fst snd] in *.
  destruct r as [u|e].
  - destruct H as (_ & b1 & (_ & _ & Hn) & H). rewrite <- Hn.
    destruct (breaker s) as [cb|].
    + destruct H as [_ H]. destruct (no_url u); destruct H as [_ ->].
      * apply BreakerMore.base_recordSuccess.
      * pose proof (BreakerMore.base_recordSuccess
                      (FallbackChain.t_end a - FallbackChain.t_start a)
                      (FallbackChain.t_end a)
                      (snd (Breaker._onSuccess
                              (snd (Breaker._canMakeRequest (FallbackChain.t_start a) cb))
                              b1))) as (_ & _ & _ & _ & _ & _ & _ & ->).
        apply BreakerMore.onSuccess_counts.
    + destruct H as [_ ->]. apply BreakerMore.base_recordSuccess.
  - destruct (is_precondition e).
    + subst s'. now rewrite AttemptFacts.breaker_checked_base.
    + destruct H as (_ & b1 & (_ & _ & Hn) & H). rewrite <- Hn.
      destruct (breaker s) as [cb|].
      * destruct H as (_ & _ & ->). unfold Breaker._recordFailure.
        pose proof (BreakerMore.onFailure_counts (FallbackChain.t_end a)
                      (snd (Breaker._canMakeRequest (FallbackChain.t_start a) cb))
                      (PosterSource._recordFailure e
                         (FallbackChain.t_end a - FallbackChain.t_start a) b1))
          as (_ & _ & _ & _ & _ & -> & _).
        apply BreakerMore.base_recordFailure.
      * destruct H as [_ ->]. apply BreakerMore.base_recordFailure.
Qed.

Lemma set_base_name s b :
  name (FallbackChain.base (FallbackChain.set_base s b)) = name b.
Proof. destruct s; reflexivity. Qed.

(** What one walk does to the map of the sources: [tried] are the names it
    has gone through. *)
Lemma walk_spec animeId animeName world ordered :
  forall srcs,
    ChainMore.keyed srcs -> List.NoDup ordered ->
    let r := fst (FallbackChain.walk animeId animeName world ordered srcs) in
    let srcs' := snd (FallbackChain.walk animeId animeName world ordered srcs) in
    ChainMore.keyed srcs' /\
    JsMap.keys srcs' = JsMap.keys srcs /\
    exists tried rest,
      ordered = tried ++ rest /\
      (forall k, ~ In k tried -> JsMap.get k srcs' = JsMap.get k srcs) /\
      (forall k s, JsMap.get k srcs = Some s ->
                   isAvailable (FallbackChain.base s) = false ->
                   JsMap.get k srcs' = Some s) /\
      (forall k s, In k tried -> JsMap.get k srcs = Some s ->
                   isAvailable (FallbackChain.base s) = true ->
                   JsMap.get k srcs'
                   = Some (ChainMore.attempted animeId animeName (world k) s)) /\
      match FallbackChain.url r with
      | Some u =>
          Js.truthy u = true /\
          (exists pre, tried = pre ++ [FallbackChain.source r]) /\
          exists s, JsMap.get (FallbackChain.source r) srcs = Some s /\
                    isAvailable (FallbackChain.base s) = true /\
                    fst (FallbackChain.source_fetchPoster animeId animeName
                           (world (FallbackChain.source r)) s)
                    = Err.Return (Some u)
      | None => FallbackChain.source r = "all_sources_failed" /\ rest = []
      end.
Proof.
  induction ordered as [|n rest0 IH]; intros srcs Hk Hnd; cbn zeta.
  - simpl. split; [assumption|]. split; [reflexivity|].
    exists [], []. repeat split; auto. intros k s [].
  - inversion Hnd as [|? ? Hnin Hnd']; subst.
    (* the walk goes on from [srcs1], which differs from [srcs] at [n] at most *)
    assert (Hgo : forall srcs1,
      ChainMore.keyed srcs1 -> JsMap.keys srcs1 = JsMap.keys srcs ->
      (forall k, k <> n -> JsMap.get k srcs1 = JsMap.get k srcs) ->
      (forall k s, JsMap.get k srcs = Some s ->
                   isAvailable (FallbackChain.base s) = false ->
                   JsMap.get k srcs1 = Some s) ->
      (forall s, JsMap.get n srcs = Some s ->
                 isAvailable (FallbackChain.base s) = true ->
                 JsMap.get n srcs1
                 = Some (ChainMore.attempted animeId animeName (world n) s)) ->
      let r := fst (FallbackChain.walk animeId animeName world rest0 srcs1) in
      let srcs' := snd (FallbackChain.walk animeId animeName world rest0 srcs1) in
      ChainMore.keyed srcs' /\
      JsMap.keys srcs' = JsMap.keys srcs /\
      exists tried rest,
        n :: rest0 = tried ++ rest /\
        (forall k, ~ In k tried -> JsMap.get k srcs' = JsMap.get k srcs) /\
        (forall k s, JsMap.get k srcs = Some s ->
                     isAvailable (FallbackChain.base s) = false ->
                     JsMap.get k srcs' = Some s) /\
        (forall k s, In k tried -> JsMap.get k srcs = Some s ->
                     isAvailable (FallbackChain.base s) = true ->
                     JsMap.get k srcs'
                     = Some (ChainMore.attempted animeId animeName (world k) s)) /\
        match FallbackChain.url r with
        | Some u =>
            Js.truthy u = true /\
            (exists pre, tried = pre ++ [FallbackChain.source r]) /\
            exists s, JsMap.get (FallbackChain.source r) srcs = Some s /\
                      isAvailable (FallbackChain.base s) = true /\
                      fst (FallbackChain.source_fetchPoster animeId animeName
                             (world (FallbackChain.source r)) s)
                      = Err.Return (Some u)
        | None => FallbackChain.source r = "all_sources_failed" /\ rest = []
        end).
    { intros srcs1 Hk1 Hkeys1 Hoth Hun Hatt.
      destruct (IH srcs1 Hk1 Hnd')
        as (Hk' & Hkeys' & tried & rest & -> & Hout & Hun' & Hatt' & Hres).
      assert (Hnt : ~ In n tried).
      { intros Hin. apply Hnin. apply in_or_app. now left. }
      cbn zeta. split; [assumption|]. split; [congruence|].
      exists (n :: tried), rest. split; [reflexivity|]. split; [|split; [|split]].
      - intros k Hkn. rewrite Hout by (intros Hin; apply Hkn; now right).
        apply Hoth. intros ->. apply Hkn. now left.
      - intros k s Hg Hav. apply Hun'; [now apply Hun|assumption].
      - intros k s [<-|Hin] Hg Hav.
        + rewrite Hout by assumption. now apply Hatt.
        + apply Hatt'; [assumption| |assumption].
          rewrite Hoth; [assumption|]. intros ->. contradiction.
      - destruct (FallbackChain.url _) as [u|]; [|assumption].
        destruct Hres as (Htr & [pre Hpre] & s & Hg & Hav & Hret).
        split; [assumption|]. split.
        + exists (n :: pre). simpl. f_equal. exact Hpre.
        + exists s. split; [|auto]. rewrite <- Hg. symmetry. apply Hoth.
          intros Heq. apply Hnin. apply in_or_app. left.
          apply (eq_ind_r (fun l => In n l)) with (1 := Hpre) || idtac.
          assert (Hin : In (FallbackChain.source
                              (fst (FallbackChain.walk animeId animeName world
                                      (tried ++ rest) srcs1))) tried).
          { pattern tried at 2. rewrite Hpre. apply in_or_app. right. now left. }
          now rewrite Heq in Hin. }
    simpl FallbackChain.walk.
    destruct (JsMap.get n srcs) as [src|] eqn:Hget in |- *.
    2:{ apply Hgo; auto. intros s Hs. congruence. }
    destruct (isAvailable (FallbackChain.base src)) eqn:Hav; cbn [negb].
    2:{ apply Hgo; auto. intros s Hs Hs'. assert (s = src) by congruence. subst s. congruence. }
    pose proof (get_keyed _ _ _ Hk Hget) as Hname.
    pose proof (fetch_name animeId animeName (world n) src) as Hname'.
    assert (Hset : forall src1,
      name (FallbackChain.base src1) = n ->
      src1 = ChainMore.attempted animeId animeName (world n) src ->
      ChainMore.keyed (JsMap.set n src1 srcs) /\
      JsMap.keys (JsMap.set n src1 srcs) = JsMap.keys srcs /\
      (forall k, k <> n -> JsMap.get k (JsMap.set n src1 srcs) = JsMap.get k srcs) /\
      (forall k s, JsMap.get k srcs = Some s ->
                   isAvailable (FallbackChain.base s) = false ->
                   JsMap.get k (JsMap.set n src1 srcs) = Some s) /\
      (forall s, JsMap.get n srcs = Some s ->
                 isAvailable (FallbackChain.base s) = true ->
                 JsMap.get n (JsMap.set n src1 srcs)
                 = Some (ChainMore.attempted animeId animeName (world n) s))).
    { intros src1 Hn1 Hatt. split; [now apply keyed_set|].
      split; [now apply keys_set_present with src|]. split; [|split].
      - intros k Hkn. apply JsMapFacts.get_set_other. congruence.
      - intros k s Hg Hun. rewrite JsMapFacts.get_set_other; [assumption|].
        intros <-. congruence.
      - intros s Hs _. assert (s = src) by congruence. subst s.
        rewrite JsMapFacts.get_set_same. now f_equal. }
    destruct (FallbackChain.source_fetchPoster animeId animeName (world n) src)
      as [[[posterUrl|]|e] src'] eqn:Hfetch; cbn [snd] in Hname'.
    + destruct (Hset src' ltac:(congruence)
                  ltac:(unfold ChainMore.attempted; now rewrite Hfetch))
        as (H1 & H2 & H3 & H4 & H5).
      destruct (Js.truthy posterUrl) eqn:Htr.
      * cbn [fst snd FallbackChain.url FallbackChain.source].
        split; [assumption|]. split; [assumption|].
        exists [n], rest0. split; [reflexivity|].
        split; [|split; [assumption|split]].
        { intros k Hkn. apply H3. intros ->. apply Hkn. now left. }
        { intros k s [<-|[]] Hg Hav'. now apply H5. }
        split; [exact Htr|]. split.
        { exists []. simpl. congruence. }
        exists src. rewrite Hname', Hname. rewrite Hfetch. auto.
      * now apply Hgo.
    + destruct (Hset src' ltac:(congruence)
                  ltac:(unfold ChainMore.attempted; now rewrite Hfetch))
        as (H1 & H2 & H3 & H4 & H5).
      now apply Hgo.
    + match goal with
      | |- context [JsMap.set n ?x srcs] => set (src'' := x)
      end.
      assert (Hn'' : name (FallbackChain.base src'') = n).
      { subst src''. destruct (_ <=? _); [|congruence].
        rewrite set_base_name. unfold temporarilyDisable. simpl. congruence. }
      destruct (Hset src'' Hn''
                  ltac:(unfold ChainMore.attempted; now rewrite Hfetch))
        as (H1 & H2 & H3 & H4 & H5).
      now apply Hgo.
Qed.

Lemma names_in_keys srcs x :
  ChainMore.keyed srcs -> In x (map snd srcs) ->
  In (name (FallbackChain.base x)) (JsMap.keys srcs).
Proof.
  intros [Hf _] Hin. apply in_map_iff in Hin as ([k v] & <- & Hin).
  rewrite List.Forall_forall in Hf. rewrite (Hf _ Hin). simpl.
  apply in_map_iff. exists (k, v). auto.
Qed.

Lemma keyed_tail kv srcs : ChainMore.keyed (kv :: srcs) -> ChainMore.keyed srcs.
Proof.
  intros [Hf Hnd]. split; [now apply List.Forall_inv_tail in Hf|].
  now inversion Hnd.
Qed.

(** A registered source is found under its name. *)
Lemma in_sources_get srcs x :
  ChainMore.keyed srcs -> In x (map snd srcs) ->
  JsMap.get (name (FallbackChain.base x)) srcs = Some x.
Proof.
  induction srcs as [|[k v] srcs IH]; intros Hk Hin; [destruct Hin|].
  pose proof (keyed_tail _ _ Hk) as Hk'.
  destruct Hk as [Hf Hnd]. pose proof (List.Forall_inv Hf) as Hkv. simpl in Hkv.
  simpl. destruct Hin as [Hx|Hin].
  - simpl in Hx. subst x. rewrite Hkv. now rewrite String.eqb_refl.
  - destruct (String.eqb (name (FallbackChain.base x)) k) eqn:E; [|now apply IH].
    apply String.eqb_eq in E. exfalso.
    inversion Hnd as [|? ? Hnin _]; subst. apply Hnin.
    rewrite <- E. apply (names_in_keys srcs x); assumption.
Qed.

Lemma get_in_sources (srcs : list (string * FallbackChain.Source)) k s :
  JsMap.get k srcs = Some s -> In s (map snd srcs).
Proof.
  induction srcs as [|[k' v] srcs IH]; simpl; [discriminate|].
  destruct (String.eqb k k'); [intros [= ->]; now left|]. intros H. right. now apply IH.
Qed.

Lemma names_keys srcs :
  ChainMore.keyed srcs ->
  map (fun s => name (FallbackChain.base s)) (map snd srcs) = JsMap.keys srcs.
Proof.
  intros [Hf _]. induction srcs as [|[k v] srcs IH]; [reflexivity|].
  simpl. f_equal.
  - exact (List.Forall_inv Hf).
  - apply IH. exact (List.Forall_inv_tail Hf).
Qed.

Lemma nodup_map_filter {A B} (f : A -> B) (p : A -> bool) l :
  List.NoDup (map f l) -> List.NoDup (map f (List.filter p l)).
Proof.
  induction l as [|x l IH]; simpl; intros Hnd; [constructor|].
  inversion Hnd as [|? ? Hnin Hnd']; subst.
  destruct (p x); simpl; [|now apply IH].
  constructor; [|now apply IH].
  intros Hin. apply Hnin. apply in_map_iff in Hin as (y & Hy & Hin).
  apply in_map_iff. exists y. split; [assumption|].
  now apply List.filter_In in Hin as [Hin _].
Qed.

Lemma in_ordered c s :
  In s (FallbackChain._getOrderedSources c)
  <-> In s (map snd (FallbackChain.sources c)) /\ isEnabled (FallbackChain.base s) = true.
Proof.
  destruct (ChainFacts.ordered_sources c) as [_ Hperm].
  split; intros H.
  - apply (List.filter_In (fun s => isEnabled (FallbackChain.base s))).
    eapply Permutation_in; [apply Permutation_sym; exact Hperm|assumption].
  - eapply Permutation_in; [exact Hperm|]. now apply List.filter_In.
Qed.

(** The walk goes through each enabled source once. *)
Lemma ordered_nodup c :
  ChainMore.keyed (FallbackChain.sources c) -> List.NoDup (ChainMore.ordered_names c).
Proof.
  intros Hk. unfold ChainMore.ordered_names.
  destruct (ChainFacts.ordered_sources c) as [_ Hperm].
  eapply Permutation_NoDup.
  - apply Permutation_map. exact Hperm.
  - apply nodup_map_filter. rewrite names_keys by assumption. apply Hk.
Qed.

Lemma no_enabled_source c :
  FallbackChain._getOrderedSources c = [] <->
  existsb (fun kv => isEnabled (FallbackChain.base (snd kv))) (FallbackChain.sources c)
  = false.
Proof.
  split.
  - intros Ho. destruct (existsb _ _) eqn:E; [|reflexivity].
    apply existsb_exists in E as ([k v] & Hin & Hen). simpl in Hen.
    assert (H : In v (FallbackChain._getOrderedSources c)).
    { apply in_ordered. split; [|assumption]. apply in_map_iff. exists (k, v). auto. }
    rewrite Ho in H. destruct H.
  - intros E. destruct (FallbackChain._getOrderedSources c) as [|s l] eqn:Ho; [reflexivity|].
    assert (H : In s (FallbackChain._getOrderedSources c)) by (rewrite Ho; now left).
    apply in_ordered in H as [Hin Hen]. apply in_map_iff in Hin as ([k v] & <- & Hin).
    assert (E' : existsb (fun kv => isEnabled (FallbackChain.base (snd kv)))
                   (FallbackChain.sources c) = true).
    { apply existsb_exists. exists (k, v). auto. }
    congruence.
Qed.

Lemma map_split {A B} (f : A -> B) l pre w rest :
  map f l = pre ++ w :: rest ->
  exists l1 x l2, l = l1 ++ x :: l2 /\ map f l1 = pre /\ f x = w /\ map f l2 = rest.
Proof.
  revert l. induction pre as [|p pre IH]; intros [|y l] H; simpl in H; try discriminate.
  - injection H as Hy Hl. exists [], y, l. auto.
  - injection H as Hy Hl. destruct (IH _ Hl) as (l1 & x & l2 & -> & <- & <- & <-).
    exists (y :: l1), x, l2. simpl. subst p. auto.
Qed.

Lemma sorted_split {A} (R : A -> A -> Prop) l1 x l2 :
  StronglySorted R (l1 ++ x :: l2) ->
  (forall y, In y l1 -> R y x) /\ (forall y, In y l2 -> R x y).
Proof.
  induction l1 as [|a l1 IH]; simpl; intros H.
  - inversion H as [|? ? _ Hall]; subst. split; [intros y []|].
    now rewrite List.Forall_forall in Hall.
  - inversion H as [|? ? Hs Hall]; subst. destruct (IH Hs) as [H1 H2].
    split; [|assumption]. intros y [<-|Hy]; [|now apply H1].
    rewrite List.Forall_forall in Hall. apply Hall. apply in_or_app. right. now left.
Qed.

(** [fetchPoster] of the chain, through the walk. *)
Lemma fetchPoster_walk animeId animeName world c :
  FallbackChain._getOrderedSources c <> [] ->
  FallbackChain.fetchPoster animeId animeName world c
  = (fst (FallbackChain.walk animeId animeName world (ChainMore.ordered_names c)
            (FallbackChain.sources c)),
     FallbackChain.mk (FallbackChain.sourcesConfig c)
       (snd (FallbackChain.walk animeId animeName world (ChainMore.ordered_names c)
               (FallbackChain.sources c)))).
Proof.
  intros Hne. unfold FallbackChain.fetchPoster, ChainMore.ordered_names.
  destruct (FallbackChain._getOrderedSources c) as [|s l]; [congruence|].
  now destruct (FallbackChain.walk _ _ _ _ _).
Qed.

Lemma fetchPoster_none animeId animeName world c :
  FallbackChain._getOrderedSources c = [] ->
  FallbackChain.fetchPoster animeId animeName world c
  = (FallbackChain.mkResult None "no_sources_available", c).
Proof. intros Ho. unfold FallbackChain.fetchPoster. now rewrite Ho. Qed.

Lemma keyed_register s c :
  ChainMore.keyed (FallbackChain.sources c) ->
  ChainMore.keyed (FallbackChain.sources (FallbackChain.registerSource s c)).
Proof. intros Hk. simpl. now apply keyed_set. Qed.

Lemma keyed_chain_of l : ChainMore.keyed (FallbackChain.sources (ChainMore.chain_of l)).
Proof.
  unfold ChainMore.chain_of.
  assert (H : forall c, ChainMore.keyed (FallbackChain.sources c) ->
            ChainMore.keyed (FallbackChain.sources
              (fold_left (fun c s => FallbackChain.registerSource s c) l c))).
  { induction l as [|s l IH]; intros c Hk; [assumption|]. simpl.
    apply IH. now apply keyed_register. }
  apply H. split; constructor.
Qed.

End WalkFacts.

(** X10: when the chain returns a poster, the URL is not empty and is the
    one returned by the source the result names, which is registered and
    was enabled and not temporarily disabled; when it returns none, the
    result names 'no_sources_available' if no registered source is enabled
    and 'all_sources_failed' otherwise. *)
Theorem X10_poster_comes_from_an_available_source :
  forall animeId animeName world c,
    ChainMore.keyed (FallbackChain.sources c) ->
    let r := fst (FallbackChain.fetchPoster animeId animeName world c) in
    match FallbackChain.url r with
    | Some u =>
        Js.truthy u = true /\
        exists s,
          JsMap.get (FallbackChain.source r) (FallbackChain.sources c) = Some s /\
          PosterSource.isAvailable (FallbackChain.base s) = true /\
          fst (FallbackChain.source_fetchPoster animeId animeName
                 (world (FallbackChain.source r)) s) = Err.Return (Some u)
    | None =>
        FallbackChain.source r
        = if existsb (fun kv => PosterSource.isEnabled (FallbackChain.base (snd kv)))
                     (FallbackChain.sources c)
          then "all_sources_failed" else "no_sources_available"
    end.
Proof.
  intros animeId animeName world c Hk r. subst r.
  destruct (FallbackChain._getOrderedSources c) as [|s0 l] eqn:Ho.
  - rewrite WalkFacts.fetchPoster_none by assumption. simpl.
    apply WalkFacts.no_enabled_source in Ho. now rewrite Ho.
  - assert (Hne : FallbackChain._getOrderedSources c <> []) by congruence.
    rewrite WalkFacts.fetchPoster_walk by assumption. cbn [fst].
    destruct (WalkFacts.walk_spec animeId animeName world (ChainMore.ordered_names c)
                (FallbackChain.sources c) Hk (WalkFacts.ordered_nodup c Hk))
      as (_ & _ & tried & rest & _ & _ & _ & _ & Hres).
    destruct (FallbackChain.url _) as [u|].
    + destruct Hres as (Htr & _ & s & Hs). split; [assumption|]. now exists s.
    + destruct Hres as [-> _].
      destruct (existsb _ _) eqn:E; [reflexivity|].
      apply WalkFacts.no_enabled_source in E. congruence.
Qed.

Lemma X10_poster_comes_from_an_available_source_witness :
  let r := fst (FallbackChain.fetchPoster "123" "X" sample_world sample_chain) in
  match FallbackChain.url r with
  | Some u =>
      Js.truthy u = true /\
      exists s,
        JsMap.get (FallbackChain.source r) (FallbackChain.sources sample_chain) = Some s /\
        PosterSource.isAvailable (FallbackChain.base s) = true /\
        fst (FallbackChain.source_fetchPoster "123" "X"
               (sample_world (FallbackChain.source r)) s) = Err.Return (Some u)
  | None =>
      FallbackChain.source r
      = if existsb (fun kv => PosterSource.isEnabled (FallbackChain.base (snd kv)))
                   (FallbackChain.sources sample_chain)
        then "all_sources_failed" else "no_sources_available"
  end.
Proof.
  apply (X10_poster_comes_from_an_available_source "123" "X" sample_world sample_chain).
  split; [repeat constructor|].
  vm_compute. repeat constructor; simpl; intuition discriminate.
Defined.

Module TouchFacts.
Import PosterSource.

(** Where the sources stand in the order of the walk, by their
    priorities. *)
Lemma around_the_winner c pre w rest sw :
  ChainMore.keyed (FallbackChain.sources c) ->
  ChainMore.ordered_names c = (pre ++ [w]) ++ rest ->
  JsMap.get w (FallbackChain.sources c) = Some sw ->
  forall k s,
    JsMap.get k (FallbackChain.sources c) = Some s ->
    (priority (FallbackChain.base sw) < priority (FallbackChain.base s) ->
     ~ In k (pre ++ [w])) /\
    (priority (FallbackChain.base s) < priority (FallbackChain.base sw) ->
     isEnabled (FallbackChain.base s) = true -> In k (pre ++ [w])).
Proof.
  intros Hk Hord Hw k s Hs.
  rewrite <- app_assoc in Hord. simpl in Hord.
  unfold ChainMore.ordered_names in Hord.
  apply WalkFacts.map_split in Hord as (l1 & x & l2 & Hl & Hpre & Hx & Hrest).
  destruct (ChainFacts.ordered_sources c) as [Hsorted _].
  rewrite Hl in Hsorted. apply WalkFacts.sorted_split in Hsorted as [Hbefore Hafter].
  assert (Hreg : forall y, In y (l1 ++ x :: l2) ->
                   JsMap.get (name (FallbackChain.base y)) (FallbackChain.sources c)
                   = Some y).
  { intros y Hy. rewrite <- Hl in Hy. apply WalkFacts.in_ordered in Hy as [Hy _].
    now apply WalkFacts.in_sources_get. }
  assert (Hxw : x = sw).
  { pose proof (Hreg x ltac:(apply in_or_app; right; now left)) as H.
    rewrite Hx, Hw in H. congruence. }
  subst x. split.
  - intros Hlt Hin. apply in_app_or in Hin as [Hin|[<-|[]]].
    + rewrite <- Hpre in Hin. apply in_map_iff in Hin as (y & Hy & Hin).
      pose proof (Hreg y ltac:(apply in_or_app; now left)) as H.
      rewrite Hy, Hs in H. assert (y = s) by congruence. subst y.
      specialize (Hbefore s Hin). simpl in Hbefore. lia.
    + assert (s = sw) by congruence. subst s. lia.
  - intros Hlt Hen.
    assert (Hin : In s (l1 ++ sw :: l2)).
    { rewrite <- Hl. apply WalkFacts.in_ordered. split; [|assumption].
      now apply WalkFacts.get_in_sources with k. }
    pose proof (WalkFacts.get_keyed _ _ _ Hk Hs) as Hname.
    apply in_app_or in Hin as [Hin|[<-|Hin]].
    + apply in_or_app. left. rewrite <- Hpre, <- Hname.
      now apply (in_map (fun s => name (FallbackChain.base s))).
    + lia.
    + specialize (Hafter s Hin). simpl in Hafter. lia.
Qed.

(** What a call of the chain does to the registered sources. *)
Lemma fetchPoster_spec :
  forall animeId animeName world c,
    ChainMore.keyed (FallbackChain.sources c) ->
    let r := fst (FallbackChain.fetchPoster animeId animeName world c) in
    let c' := snd (FallbackChain.fetchPoster animeId animeName world c) in
    let called k s := ChainMore.attempted animeId animeName (world k) s in
    JsMap.keys (FallbackChain.sources c') = JsMap.keys (FallbackChain.sources c) /\
    ChainMore.keyed (FallbackChain.sources c') /\
    (forall k s,
       JsMap.get k (FallbackChain.sources c) = Some s ->
       PosterSource.isAvailable (FallbackChain.base s) = false ->
       JsMap.get k (FallbackChain.sources c') = Some s) /\
    (forall u, FallbackChain.url r = Some u ->
       exists sw,
         JsMap.get (FallbackChain.source r) (FallbackChain.sources c) = Some sw /\
         JsMap.get (FallbackChain.source r) (FallbackChain.sources c')
         = Some (called (FallbackChain.source r) sw) /\
         forall k s,
           JsMap.get k (FallbackChain.sources c) = Some s ->
           (PosterSource.priority (FallbackChain.base sw)
            < PosterSource.priority (FallbackChain.base s) ->
            JsMap.get k (FallbackChain.sources c') = Some s) /\
           (PosterSource.priority (FallbackChain.base s)
            < PosterSource.priority (FallbackChain.base sw) ->
            PosterSource.isAvailable (FallbackChain.base s) = true ->
            JsMap.get k (FallbackChain.sources c') = Some (called k s))) /\
    (FallbackChain.url r = None ->
     forall k s,
       JsMap.get k (FallbackChain.sources c) = Some s ->
       PosterSource.isAvailable (FallbackChain.base s) = true ->
       JsMap.get k (FallbackChain.sources c') = Some (called k s)).
Proof.
  intros animeId animeName world c Hk r c' called. subst r c'.
  destruct (FallbackChain._getOrderedSources c) as [|s0 l] eqn:Ho.
  - rewrite WalkFacts.fetchPoster_none by assumption. cbn [fst snd FallbackChain.url].
    split; [reflexivity|]. split; [assumption|]. split; [auto|].
    split; [discriminate|]. intros _ k s Hs Hav. exfalso.
    assert (Hin : In s (FallbackChain._getOrderedSources c)).
    { apply WalkFacts.in_ordered. split; [now apply WalkFacts.get_in_sources with k|].
      unfold PosterSource.isAvailable in Hav. now apply andb_true_iff in Hav as [Hen _]. }
    rewrite Ho in Hin. destruct Hin.
  - assert (Hne : FallbackChain._getOrderedSources c <> []) by congruence.
    rewrite WalkFacts.fetchPoster_walk by assumption.
    cbn [fst snd FallbackChain.sources].
    destruct (WalkFacts.walk_spec animeId animeName world (ChainMore.ordered_names c)
                (FallbackChain.sources c) Hk (WalkFacts.ordered_nodup c Hk))
      as (Hk' & Hkeys & tried & rest & Hord & Hout & Hun & Hatt & Hres).
    split; [assumption|]. split; [assumption|]. split; [assumption|]. split.
    + intros u Hu. rewrite Hu in Hres.
      destruct Hres as (_ & [pre Hpre] & sw & Hsw & Hav & _).
      exists sw. split; [assumption|]. split.
      * apply Hatt; [|assumption|assumption].
        rewrite Hpre. apply in_or_app. right. now left.
      * intros k s Hs.
        assert (Hord' : ChainMore.ordered_names c
                        = (pre ++ [FallbackChain.source
                                     (fst (FallbackChain.walk animeId animeName world
                                             (ChainMore.ordered_names c)
                                             (FallbackChain.sources c)))]) ++ rest).
        { rewrite <- Hpre. exact Hord. }
        destruct (TouchFacts.around_the_winner c pre _ rest sw Hk Hord' Hsw k s Hs)
          as [Hlow Hhigh].
        split.
        -- intros Hlt. rewrite Hout; [assumption|]. rewrite Hpre. now apply Hlow.
        -- intros Hlt Hav'. apply Hatt; [|assumption|assumption].
           rewrite Hpre. apply Hhigh; [assumption|].
           unfold PosterSource.isAvailable in Hav'.
           now apply andb_true_iff in Hav' as [Hen _].
    + intros Hu k s Hs Hav. rewrite Hu in Hres. destruct Hres as [_ ->].
      rewrite app_nil_r in Hord. apply Hatt; [|assumption|assumption].
      rewrite <- Hord. unfold ChainMore.ordered_names.
      rewrite <- (WalkFacts.get_keyed _ _ _ Hk Hs).
      apply (in_map (fun s => PosterSource.name (FallbackChain.base s))).
      apply WalkFacts.in_ordered.
      split; [now apply WalkFacts.get_in_sources with k|].
      unfold PosterSource.isAvailable in Hav. now apply andb_true_iff in Hav as [Hen _].
Qed.

End TouchFacts.

(** X11: what a call of the chain does to the registered sources. It
    registers and unregisters none. A source that is disabled or
    temporarily disabled is left as it was. When a source returns the
    poster, the sources of a lower priority (a greater number) are left as
    they were, and that source and the available sources of a higher
    priority have each been called once. When no poster is returned, every
    available source has been called once. *)
Theorem X11_walk_stops_at_the_first_poster :
  forall animeId animeName world c,
    ChainMore.keyed (FallbackChain.sources c) ->
    let r := fst (FallbackChain.fetchPoster animeId animeName world c) in
    let c' := snd (FallbackChain.fetchPoster animeId animeName world c) in
    let called k s := ChainMore.attempted animeId animeName (world k) s in
    JsMap.keys (FallbackChain.sources c') = JsMap.keys (FallbackChain.sources c) /\
    ChainMore.keyed (FallbackChain.sources c') /\
    (forall k s,
       JsMap.get k (FallbackChain.sources c) = Some s ->
       PosterSource.isAvailable (FallbackChain.base s) = false ->
       JsMap.get k (FallbackChain.sources c') = Some s) /\
    (forall u, FallbackChain.url r = Some u ->
       exists sw,
         JsMap.get (FallbackChain.source r) (FallbackChain.sources c) = Some sw /\
         JsMap.get (FallbackChain.source r) (FallbackChain.sources c')
         = Some (called (FallbackChain.source r) sw) /\
         forall k s,
           JsMap.get k (FallbackChain.sources c) = Some s ->
           (PosterSource.priority (FallbackChain.base sw)
            < PosterSource.priority (FallbackChain.base s) ->
            JsMap.get k (FallbackChain.sources c') = Some s) /\
           (PosterSource.priority (FallbackChain.base s)
            < PosterSource.priority (FallbackChain.base sw) ->
            PosterSource.isAvailable (FallbackChain.base s) = true ->
            JsMap.get k (FallbackChain.sources c') = Some (called k s))) /\
    (FallbackChain.url r = None ->
     forall k s,
       JsMap.get k (FallbackChain.sources c) = Some s ->
       PosterSource.isAvailable (FallbackChain.base s) = true ->
       JsMap.get k (FallbackChain.sources c') = Some (called k s)).
Proof. exact TouchFacts.fetchPoster_spec. Qed.

Lemma X11_walk_stops_at_the_first_poster_witness :
  let c := sample_chain in
  let world := sample_world in
  let r := fst (FallbackChain.fetchPoster "123" "X" world c) in
  let c' := snd (FallbackChain.fetchPoster "123" "X" world c) in
  let called k s := ChainMore.attempted "123" "X" (world k) s in
  JsMap.keys (FallbackChain.sources c') = JsMap.keys (FallbackChain.sources c) /\
  ChainMore.keyed (FallbackChain.sources c') /\
  (forall k s,
     JsMap.get k (FallbackChain.sources c) = Some s ->
     PosterSource.isAvailable (FallbackChain.base s) = false ->
     JsMap.get k (FallbackChain.sources c') = Some s) /\
  (forall u, FallbackChain.url r = Some u ->
     exists sw,
       JsMap.get (FallbackChain.source r) (FallbackChain.sources c) = Some sw /\
       JsMap.get (FallbackChain.source r) (FallbackChain.sources c')
       = Some (called (FallbackChain.source r) sw) /\
       forall k s,
         JsMap.get k (FallbackChain.sources c) = Some s ->
         (PosterSource.priority (FallbackChain.base sw)
          < PosterSource.priority (FallbackChain.base s) ->
          JsMap.get k (FallbackChain.sources c') = Some s) /\
         (PosterSource.priority (FallbackChain.base s)
          < PosterSource.priority (FallbackChain.base sw) ->
          PosterSource.isAvailable (FallbackChain.base s) = true ->
          JsMap.get k (FallbackChain.sources c') = Some (called k s))) /\
  (FallbackChain.url r = None ->
   forall k s,
     JsMap.get k (FallbackChain.sources c) = Some s ->
     PosterSource.isAvailable (FallbackChain.base s) = true ->
     JsMap.get k (FallbackChain.sources c') = Some (called k s)).
Proof.
  apply (X11_walk_stops_at_the_first_poster "123" "X" sample_world sample_chain).
  split; [repeat constructor|].
  vm_compute. repeat constructor; simpl; intuition discriminate.
Defined.

(** ** The failure threshold of the chain *)

Module DisableFacts.
Import PosterSource.

(** A failed attempt of the chain on a Nautiljon source. *)
Lemma nautiljon_attempted animeId animeName a ns :
  isAvailable (NautiljonSource.base ns) = true ->
  ChainMore.nautiljon_fails a = true ->
  exists ns',
    ChainMore.attempted animeId animeName a (FallbackChain.Nautiljon ns)
    = FallbackChain.Nautiljon ns' /\
    isEnabled (NautiljonSource.base ns') = isEnabled (NautiljonSource.base ns) /\
    consecutiveFailures (metrics (NautiljonSource.base ns'))
    = consecutiveFailures (metrics (NautiljonSource.base ns)) + 1 /\
    if 10 <=? consecutiveFailures (metrics (NautiljonSource.base ns)) + 1 then
      isTemporarilyDisabled (metrics (NautiljonSource.base ns')) = true /\
      timers (NautiljonSource.base ns')
      = timers (NautiljonSource.base ns)
        ++ [mkTimer (FallbackChain.t_end a + 30 * 60 * 1000) ReenableAndReset]
    else
      isTemporarilyDisabled (metrics (NautiljonSource.base ns'))
      = isTemporarilyDisabled (metrics (NautiljonSource.base ns)) /\
      timers (NautiljonSource.base ns') = timers (NautiljonSource.base ns).
Proof.
  intros Hav Hfail.
  unfold ChainMore.attempted, FallbackChain.source_fetchPoster,
    NautiljonSource.fetchPoster, Exec._executeWithMetrics.
  cbn [base_of NautiljonSource.source_class]. rewrite Hav. cbn [negb].
  unfold ChainMore.nautiljon_fails in Hfail.
  unfold NautiljonSource.requestFn. cbn [NautiljonSource.reply].
  destruct (FallbackChain.nautiljon_reply a) as [u|m|]; [discriminate| |];
    cbn [record_failure NautiljonSource.source_class FallbackChain.base base_of
         NautiljonSource.with_b NautiljonSource.base snd fst NautiljonSource._ensureRateLimit
         NautiljonSource.t_end NautiljonSource.t_req];
    unfold FallbackChain._getFailureThreshold;
    match goal with
    | |- context [PosterSource._recordFailure ?e ?rt ?b] =>
        pose proof (BreakerMore.base_recordFailure e rt b)
          as (_ & _ & _ & Hcf & Hdis & Htim & Hen & _);
        cbn zeta in Hcf, Hdis, Htim, Hen; rewrite Hcf;
        destruct (10 <=? consecutiveFailures (metrics b) + 1); cbn;
        eexists; (split; [reflexivity|]); cbn;
        rewrite ?Hcf, ?Hdis, ?Htim, ?Hen; repeat split; auto
    end.
Qed.

Lemma after_app ws1 ws2 c :
  ChainMore.after (ws1 ++ ws2) c = ChainMore.after ws2 (ChainMore.after ws1 c).
Proof. apply fold_left_app. Qed.

Lemma results_app ws1 ws2 c :
  ChainMore.results (ws1 ++ ws2) c
  = ChainMore.results ws1 c ++ ChainMore.results ws2 (ChainMore.after ws1 c).
Proof.
  revert c. induction ws1 as [|w ws1 IH]; intros c; simpl; [reflexivity|].
  now rewrite IH.
Qed.

(** A call of the chain that returns no poster has called the Nautiljon
    source, if it was available. *)
Lemma failing_walk w c n ns :
  ChainMore.keyed (FallbackChain.sources c) ->
  JsMap.get n (FallbackChain.sources c) = Some (FallbackChain.Nautiljon ns) ->
  isAvailable (NautiljonSource.base ns) = true ->
  FallbackChain.url (fst (ChainMore.fetch w c)) = None ->
  ChainMore.keyed (FallbackChain.sources (snd (ChainMore.fetch w c))) /\
  JsMap.get n (FallbackChain.sources (snd (ChainMore.fetch w c)))
  = Some (ChainMore.attempted (ChainMore.w_animeId w) (ChainMore.w_animeName w)
            (ChainMore.w_world w n) (FallbackChain.Nautiljon ns)).
Proof.
  intros Hk Hget Hav Hnone. unfold ChainMore.fetch in *.
  destruct (TouchFacts.fetchPoster_spec (ChainMore.w_animeId w) (ChainMore.w_animeName w)
              (ChainMore.w_world w) c Hk) as (_ & Hk' & _ & _ & Hall).
  split; [assumption|]. now apply Hall.
Qed.

(** As long as the consecutive failures stay under 10, the failing
    Nautiljon source stays available. *)
Lemma failures_below n ws :
  forall c ns,
    ChainMore.keyed (FallbackChain.sources c) ->
    JsMap.get n (FallbackChain.sources c) = Some (FallbackChain.Nautiljon ns) ->
    isAvailable (NautiljonSource.base ns) = true ->
    consecutiveFailures (metrics (NautiljonSource.base ns)) + Z.of_nat (length ws) < 10 ->
    Forall (fun w => ChainMore.nautiljon_fails (ChainMore.w_world w n) = true) ws ->
    Forall (fun r => FallbackChain.url r = None) (ChainMore.results ws c) ->
    ChainMore.keyed (FallbackChain.sources (ChainMore.after ws c)) /\
    exists ns',
      JsMap.get n (FallbackChain.sources (ChainMore.after ws c))
      = Some (FallbackChain.Nautiljon ns') /\
      isAvailable (NautiljonSource.base ns') = true /\
      consecutiveFailures (metrics (NautiljonSource.base ns'))
      = consecutiveFailures (metrics (NautiljonSource.base ns)) + Z.of_nat (length ws).
Proof.
  induction ws as [|w ws IH]; intros c ns Hk Hget Hav Hlt Hfail Hnone.
  - simpl. split; [assumption|]. exists ns. repeat split; auto. lia.
  - pose proof (List.Forall_inv Hfail) as Hf. pose proof (List.Forall_inv_tail Hfail) as Hfs.
    simpl in Hnone.
    pose proof (List.Forall_inv Hnone) as Hn. pose proof (List.Forall_inv_tail Hnone) as Hns.
    destruct (failing_walk w c n ns Hk Hget Hav Hn) as [Hk1 Hget1].
    destruct (nautiljon_attempted (ChainMore.w_animeId w) (ChainMore.w_animeName w)
                (ChainMore.w_world w n) ns Hav Hf) as (ns1 & Hatt & Hen & Hcf & Hrest).
    rewrite Hatt in Hget1.
    cbn [length] in Hlt. rewrite Nat2Z.inj_succ in Hlt.
    destruct (10 <=? consecutiveFailures (metrics (NautiljonSource.base ns)) + 1) eqn:E;
      [apply Z.leb_le in E; lia|].
    destruct Hrest as [Hdis _].
    assert (Hav1 : isAvailable (NautiljonSource.base ns1) = true).
    { unfold isAvailable in *. now rewrite Hen, Hdis. }
    destruct (IH _ ns1 Hk1 Hget1 Hav1 ltac:(lia) Hfs Hns) as (Hk' & ns' & Hg' & Hav' & Hcf').
    simpl ChainMore.after. split; [assumption|]. exists ns'.
    split; [assumption|]. split; [assumption|].
    rewrite Hcf'. cbn [length]. lia.
Qed.

(** The timer of [temporarilyDisable], once due, makes the source
    available again. *)
Lemma timer_reenables now d (ns : NautiljonSource.t) :
  In (mkTimer d ReenableAndReset) (timers (NautiljonSource.base ns)) ->
  d <= now ->
  let ns' := Exec.fire_timers now ns in
  isTemporarilyDisabled (metrics (NautiljonSource.base ns')) = false /\
  consecutiveFailures (metrics (NautiljonSource.base ns')) = 0 /\
  isEnabled (NautiljonSource.base ns') = isEnabled (NautiljonSource.base ns).
Proof.
  intros Hin Hdue. cbn zeta. rewrite TimerFacts.fire_timers_unfold.
  cbn [base_of with_base run_timer NautiljonSource.source_class].
  set (l := Js.sort_by due _).
  assert (Hl : In (mkTimer d ReenableAndReset) l).
  { subst l. eapply Permutation_in; [apply ChainFacts.sort_by_perm|].
    apply List.filter_In. split; [assumption|]. simpl. now apply Z.leb_le. }
  apply in_split in Hl as (l1 & l2 & ->).
  rewrite fold_left_app. cbn [fold_left action].
  set (P := fun s : NautiljonSource.t =>
              isTemporarilyDisabled (metrics (NautiljonSource.base s)) = false /\
              consecutiveFailures (metrics (NautiljonSource.base s)) = 0 /\
              isEnabled (NautiljonSource.base s) = isEnabled (NautiljonSource.base ns)).
  set (E := fun s : NautiljonSource.t =>
              isEnabled (NautiljonSource.base s) = isEnabled (NautiljonSource.base ns)).
  assert (HE : E (fold_left (fun s t => NautiljonSource.timer_callback (action t) s) l1
                    (NautiljonSource.with_b ns
                       (with_timers (NautiljonSource.base ns)
                          (List.filter (fun t => negb (due t <=? now))
                             (timers (NautiljonSource.base ns))))))).
  { apply (TimerFacts.fold_invariant E NautiljonSource.timer_callback).
    - intros t s _ Hs. unfold E in *. destruct (action t); simpl; assumption.
    - reflexivity. }
  apply (TimerFacts.fold_invariant P NautiljonSource.timer_callback).
  - intros t s _ (H1 & H2 & H3). unfold P. destruct (action t); simpl; auto.
  - unfold P. simpl. repeat split. exact HE.
Qed.

End DisableFacts.

(** X12: a Nautiljon source that fails in ten calls of the chain in a row
    is disabled by the chain in the tenth. Until then it stays available;
    after the tenth it is temporarily disabled, the following calls of the
    chain leave it as it is, and the timer set for 30 minutes after the end
    of the tenth attempt makes it available again, with its consecutive
    failures back to 0. The calls are those in which no source returns a
    poster, so that the chain reaches the source. *)
Theorem X12_chain_disables_after_ten_failures :
  forall c ws w n ns,
    ChainMore.keyed (FallbackChain.sources c) ->
    JsMap.get n (FallbackChain.sources c) = Some (FallbackChain.Nautiljon ns) ->
    PosterSource.isAvailable (NautiljonSource.base ns) = true ->
    PosterSource.consecutiveFailures (PosterSource.metrics (NautiljonSource.base ns))
      + Z.of_nat (length ws) = 9 ->
    Forall (fun w => ChainMore.nautiljon_fails (ChainMore.w_world w n) = true)
           (ws ++ [w]) ->
    Forall (fun r => FallbackChain.url r = None) (ChainMore.results (ws ++ [w]) c) ->
    (forall ws1 ws2, ws = ws1 ++ ws2 ->
       exists ns1,
         JsMap.get n (FallbackChain.sources (ChainMore.after ws1 c))
         = Some (FallbackChain.Nautiljon ns1) /\
         PosterSource.isAvailable (NautiljonSource.base ns1) = true) /\
    exists ns',
      let due := FallbackChain.t_end (ChainMore.w_world w n) + 30 * 60 * 1000 in
      JsMap.get n (FallbackChain.sources (ChainMore.after (ws ++ [w]) c))
      = Some (FallbackChain.Nautiljon ns') /\
      PosterSource.consecutiveFailures (PosterSource.metrics (NautiljonSource.base ns'))
      = 10 /\
      PosterSource.isAvailable (NautiljonSource.base ns') = false /\
      (forall w',
         JsMap.get n (FallbackChain.sources
                        (snd (ChainMore.fetch w' (ChainMore.after (ws ++ [w]) c))))
         = Some (FallbackChain.Nautiljon ns')) /\
      (forall now, due <= now ->
         let ns'' := Exec.fire_timers now ns' in
         PosterSource.isAvailable (NautiljonSource.base ns'') = true /\
         PosterSource.consecutiveFailures
           (PosterSource.metrics (NautiljonSource.base ns'')) = 0).
Proof.
  intros c ws w n ns Hk Hget Hav Hcf Hfail Hnone.
  rewrite DisableFacts.results_app in Hnone.
  apply List.Forall_app in Hfail as [Hfail Hfw].
  apply List.Forall_app in Hnone as [Hnone Hnw].
  split.
  - intros ws1 ws2 ->.
    rewrite DisableFacts.results_app in Hnone.
    apply List.Forall_app in Hfail as [Hfail1 _].
    apply List.Forall_app in Hnone as [Hnone1 _].
    rewrite length_app, Nat2Z.inj_add in Hcf.
    destruct (DisableFacts.failures_below n ws1 c ns Hk Hget Hav ltac:(lia) Hfail1 Hnone1)
      as (_ & ns1 & Hg1 & Hav1 & _).
    now exists ns1.
  - destruct (DisableFacts.failures_below n ws c ns Hk Hget Hav ltac:(lia) Hfail Hnone)
      as (Hk9 & ns9 & Hg9 & Hav9 & Hcf9).
    rewrite DisableFacts.after_app. simpl ChainMore.after. simpl in Hnw.
    pose proof (List.Forall_inv Hnw) as Hn. pose proof (List.Forall_inv Hfw) as Hf.
    destruct (DisableFacts.failing_walk w _ n ns9 Hk9 Hg9 Hav9 Hn) as [Hk10 Hg10].
    destruct (DisableFacts.nautiljon_attempted (ChainMore.w_animeId w)
                (ChainMore.w_animeName w) (ChainMore.w_world w n) ns9 Hav9 Hf)
      as (ns10 & Hatt & Hen & Hcf10 & Hrest).
    rewrite Hatt in Hg10.
    destruct (10 <=? PosterSource.consecutiveFailures
                       (PosterSource.metrics (NautiljonSource.base ns9)) + 1) eqn:E;
      [|apply Z.leb_gt in E; lia].
    destruct Hrest as [Hdis Htim].
    assert (Hen10 : PosterSource.isEnabled (NautiljonSource.base ns10) = true).
    { rewrite Hen. unfold PosterSource.isAvailable in Hav9.
      now apply andb_true_iff in Hav9 as [H _]. }
    assert (Hun : PosterSource.isAvailable (NautiljonSource.base ns10) = false).
    { unfold PosterSource.isAvailable. rewrite Hdis. apply andb_false_r. }
    exists ns10. cbn zeta. split; [assumption|]. split; [lia|]. split; [assumption|].
    split.
    + intros w'. unfold ChainMore.fetch.
      destruct (TouchFacts.fetchPoster_spec (ChainMore.w_animeId w')
                  (ChainMore.w_animeName w') (ChainMore.w_world w') _ Hk10)
        as (_ & _ & Hskip & _).
      now apply Hskip.
    + intros now Hdue.
      destruct (DisableFacts.timer_reenables now
                  (FallbackChain.t_end (ChainMore.w_world w n) + 30 * 60 * 1000) ns10)
        as (H1 & H2 & H3); [|assumption|].
      { rewrite Htim. apply in_or_app. right. now left. }
      split; [|assumption]. unfold PosterSource.isAvailable.
      now rewrite H3, Hen10, H1.
Qed.

Lemma X12_chain_disables_after_ten_failures_witness :
  let c := ChainMore.chain_of [ChainMore.nautiljon] in
  let ws := map ChainMore.nautiljon_down
              [0; 10000; 20000; 30000; 40000; 50000; 60000; 70000; 80000] in
  let w := ChainMore.nautiljon_down 90000 in
  let n := "Nautiljon" in
  (forall ws1 ws2, ws = ws1 ++ ws2 ->
     exists ns1,
       JsMap.get n (FallbackChain.sources (ChainMore.after ws1 c))
       = Some (FallbackChain.Nautiljon ns1) /\
       PosterSource.isAvailable (NautiljonSource.base ns1) = true) /\
  exists ns',
    let due := FallbackChain.t_end (ChainMore.w_world w n) + 30 * 60 * 1000 in
    JsMap.get n (FallbackChain.sources (ChainMore.after (ws ++ [w]) c))
    = Some (FallbackChain.Nautiljon ns') /\
    PosterSource.consecutiveFailures (PosterSource.metrics (NautiljonSource.base ns'))
    = 10 /\
    PosterSource.isAvailable (NautiljonSource.base ns') = false /\
    (forall w',
       JsMap.get n (FallbackChain.sources
                      (snd (ChainMore.fetch w' (ChainMore.after (ws ++ [w]) c))))
       = Some (FallbackChain.Nautiljon ns')) /\
    (forall now, due <= now ->
       let ns'' := Exec.fire_timers now ns' in
       PosterSource.isAvailable (NautiljonSource.base ns'') = true /\
       PosterSource.consecutiveFailures
         (PosterSource.metrics (NautiljonSource.base ns'')) = 0).
Proof.
  refine (X12_chain_disables_after_ten_failures
            (ChainMore.chain_of [ChainMore.nautiljon])
            (map ChainMore.nautiljon_down
               [0; 10000; 20000; 30000; 40000; 50000; 60000; 70000; 80000])
            (ChainMore.nautiljon_down 90000) "Nautiljon"
            (NautiljonSource.new PosterSource.empty_config) _ eq_refl eq_refl eq_refl _ _).
  - split; [repeat constructor|]. vm_compute. repeat constructor. intros [].
  - repeat constructor.
  - vm_compute. repeat constructor.
Defined.

(** The same on the clock: ten calls ten seconds apart, each timing out
    after 5 s; the source is disabled at 95 s and back at 1895 s. *)
Example nautiljon_out_for_thirty_minutes :
  let c := ChainMore.after (map ChainMore.nautiljon_down
                              [0; 10000; 20000; 30000; 40000; 50000; 60000; 70000;
                               80000; 90000])
             (ChainMore.chain_of [ChainMore.nautiljon]) in
  option_map (fun s => (PosterSource.isAvailable (FallbackChain.base s),
                        map PosterSource.due (PosterSource.timers (FallbackChain.base s))))
             (JsMap.get "Nautiljon" (FallbackChain.sources c))
  = Some (false, [1895000]) /\
  fst (ChainMore.fetch (ChainMore.nautiljon_down 100000) c)
  = FallbackChain.mkResult None "all_sources_failed".
Proof. vm_compute. split; reflexivity. Qed.

(** ** Resetting the metrics *)

Module ResetFacts.
Import PosterSource.

Lemma get_map_values {V W} (f : V -> W) n (l : list (string * V)) :
  JsMap.get n (map (fun kv => (fst kv, f (snd kv))) l) = option_map f (JsMap.get n l).
Proof.
  induction l as [|[k v] l IH]; simpl; [reflexivity|].
  destruct (String.eqb n k); [reflexivity|assumption].
Qed.

Lemma set_base_breaker s b : breaker (FallbackChain.set_base s b) = breaker s.
Proof. destruct s; reflexivity. Qed.

Lemma set_base_base s b : FallbackChain.base (FallbackChain.set_base s b) = b.
Proof. destruct s; reflexivity. Qed.

End ResetFacts.

(** X13: [resetMetrics] of the manager starts the global metrics anew and
    zeroes the metrics of every registered source, which clears its
    temporary disabling: the source is available again if it is enabled.
    It leaves the cache, the timers of the source and its circuit breaker
    as they were: a source whose breaker is open is available to the
    chain, and rejects every call until the breaker's [nextAttemptTime] as
    before, without counting anything. *)
Theorem X13_resetMetrics_leaves_breakers_open :
  forall clock m n s,
    JsMap.get n (FallbackChain.sources (PosterManager.fallbackChain m)) = Some s ->
    let m' := PosterManager.resetMetrics clock m in
    PosterManager.cache m' = PosterManager.cache m /\
    PosterManager.metrics m' = MetricsCollector.new clock /\
    exists s',
      JsMap.get n (FallbackChain.sources (PosterManager.fallbackChain m')) = Some s' /\
      PosterSource.metrics (FallbackChain.base s') = PosterSource.zero_metrics /\
      PosterSource.isAvailable (FallbackChain.base s')
      = PosterSource.isEnabled (FallbackChain.base s) /\
      PosterSource.timers (FallbackChain.base s')
      = PosterSource.timers (FallbackChain.base s) /\
      breaker s' = breaker s /\
      forall cb c,
        breaker s = Some cb ->
        Breaker.circuitState cb = Breaker.OPEN ->
        FallbackChain.t_start (Attempts.attempt c) < Breaker.nextAttemptTime cb ->
        Attempts.fetch c s'
        = (Err.Throw (Err.CircuitOpen (PosterSource.name (FallbackChain.base s))), s').
Proof.
  intros clock m n s Hget m'. subst m'.
  split; [reflexivity|]. split; [reflexivity|].
  assert (Hget' : JsMap.get n (FallbackChain.sources
                                 (PosterManager.fallbackChain
                                    (PosterManager.resetMetrics clock m)))
                  = Some (FallbackChain.set_base s
                            (PosterSource.resetMetrics (FallbackChain.base s)))).
  { unfold PosterManager.resetMetrics, FallbackChain.resetMetrics.
    cbn [PosterManager.fallbackChain PosterManager.with_chain FallbackChain.sources].
    now rewrite (ResetFacts.get_map_values
                   (fun s => FallbackChain.set_base s
                               (PosterSource.resetMetrics (FallbackChain.base s)))),
      Hget. }
  eexists. split; [exact Hget'|].
  rewrite ResetFacts.set_base_base, ResetFacts.set_base_breaker.
  split; [reflexivity|]. split.
  { unfold PosterSource.isAvailable. simpl. apply andb_true_r. }
  split; [reflexivity|]. split; [reflexivity|].
  intros cb c Hcb Hopen Hlt.
  rewrite (BreakerMore.open_rejects c _ cb);
    [|now rewrite ResetFacts.set_base_breaker|assumption|assumption].
  now rewrite ResetFacts.set_base_base.
Qed.

Lemma X13_resetMetrics_leaves_breakers_open_witness :
  let m := manager_with_kitsu in
  let s := FallbackChain.Kitsu (KitsuSource.new PosterSource.empty_config) in
  let m' := PosterManager.resetMetrics 1000 m in
  PosterManager.cache m' = PosterManager.cache m /\
  PosterManager.metrics m' = MetricsCollector.new 1000 /\
  exists s',
    JsMap.get "kitsu" (FallbackChain.sources (PosterManager.fallbackChain m')) = Some s' /\
    PosterSource.metrics (FallbackChain.base s') = PosterSource.zero_metrics /\
    PosterSource.isAvailable (FallbackChain.base s')
    = PosterSource.isEnabled (FallbackChain.base s) /\
    PosterSource.timers (FallbackChain.base s')
    = PosterSource.timers (FallbackChain.base s) /\
    breaker s' = breaker s /\
    forall cb c,
      breaker s = Some cb ->
      Breaker.circuitState cb = Breaker.OPEN ->
      FallbackChain.t_start (Attempts.attempt c) < Breaker.nextAttemptTime cb ->
      Attempts.fetch c s'
      = (Err.Throw (Err.CircuitOpen (PosterSource.name (FallbackChain.base s))), s').
Proof.
  apply (X13_resetMetrics_leaves_breakers_open 1000 manager_with_kitsu "kitsu"
           (FallbackChain.Kitsu (KitsuSource.new PosterSource.empty_config))).
  reflexivity.
Defined.

(** ** The manager and its cache *)

Module ServeFacts.
Import PosterManager.

(** The loop of the chain returns a poster only if it is not empty. *)
Lemma walk_url_truthy animeId animeName world ordered :
  forall srcs u,
    FallbackChain.url (fst (FallbackChain.walk animeId animeName world ordered srcs))
    = Some u ->
    Js.truthy u = true.
Proof.
  induction ordered as [|n rest IH]; intros srcs u; simpl; [discriminate|].
  destruct (JsMap.get n srcs) as [src|]; [|apply IH].
  destruct (negb _); [apply IH|].
  destruct (FallbackChain.source_fetchPoster _ _ _ _) as [[[p|]|e] src']; try apply IH.
  destruct (Js.truthy p) eqn:E; [|apply IH].
  simpl. now intros [= <-].
Qed.

Lemma fetchPoster_url_truthy animeId animeName world c u :
  FallbackChain.url (fst (FallbackChain.fetchPoster animeId animeName world c)) = Some u ->
  Js.truthy u = true.
Proof.
  unfold FallbackChain.fetchPoster.
  destruct (FallbackChain._getOrderedSources c) as [|s l]; [discriminate|].
  destruct (FallbackChain.walk animeId animeName world _ (FallbackChain.sources c))
    as [r srcs] eqn:E.
  intros Hu. apply (walk_url_truthy animeId animeName world
                      (map (fun s => PosterSource.name (FallbackChain.base s)) (s :: l))
                      (FallbackChain.sources c)).
  now rewrite E.
Qed.

(** A request that misses the cache and finds a poster: the result, and
    the manager afterwards. *)
Lemma found animeId animeName startTime w m u :
  let key := cacheKey animeId animeName in
  let fr := FallbackChain.fetchPoster animeId animeName (attempts w) (fallbackChain m) in
  throws w CacheGet = None ->
  throws w ChainFetchPoster = None ->
  throws w CacheSet = None ->
  fst (CacheService.get key (now w) (cache m)) = None ->
  FallbackChain.url (fst fr) = Some u ->
  _getPosterInternal animeId animeName key startTime w m
  = (Fulfilled (mkPosterResult (Some u) (FallbackChain.source (fst fr)) false
                               (t_done w - startTime)),
     mk (config_cache_ttl m) (config_cache_maxSize m) (config_sources m)
        (CacheService.set key
           (CacheService.mkEntryInput animeId u (FallbackChain.source (fst fr))
              (Some (t_set w)) (Some (config_cache_ttl m)) (Some 1))
           (t_set w) (snd (CacheService.get key (now w) (cache m))))
        (snd fr)
        (MetricsCollector.recordSuccess (FallbackChain.source (fst fr)) 0
           (MetricsCollector.recordCacheMiss (metrics m)))
        (isInitialized m) (concurrentRequests m)).
Proof.
  intros key fr Hg Hc Hs Hmiss Hu.
  pose proof (fetchPoster_url_truthy _ _ _ _ _ Hu) as Htr.
  unfold _getPosterInternal, _getPosterInternal_start. rewrite Hg.
  destruct (CacheService.get key (now w) (cache m)) as [cr c1] eqn:Eget.
  simpl in Hmiss. subst cr.
  unfold _getPosterInternal_finish, try_finish. rewrite Hc.
  cbn [fallbackChain with_metrics with_cache].
  subst fr.
  destruct (FallbackChain.fetchPoster animeId animeName (attempts w) (fallbackChain m))
    as [r chain] eqn:Ef.
  cbn [fst snd] in *. rewrite Hu, Htr, Hs. reflexivity.
Qed.

Lemma get_defaultTTL key now c :
  CacheService.defaultTTL (snd (CacheService.get key now c)) = CacheService.defaultTTL c.
Proof.
  unfold CacheService.get. destruct (JsMap.get key (CacheService.cache c)); [|reflexivity].
  destruct (CacheService._isExpired _ _); reflexivity.
Qed.

(** A request on a manager whose cache has a live entry for the key. *)
Lemma hit animeId animeName startTime w m e :
  let key := cacheKey animeId animeName in
  throws w CacheGet = None ->
  JsMap.get key (CacheService.cache (cache m)) = Some e ->
  now w <= CacheService.timestamp e + CacheService.ttl e ->
  fst (_getPosterInternal animeId animeName key startTime w m)
  = Fulfilled (mkPosterResult (Some (CacheService.posterUrl e)) (CacheService.source e)
                              true (t_done w - startTime)) /\
  fallbackChain (snd (_getPosterInternal animeId animeName key startTime w m))
  = fallbackChain m.
Proof.
  intros key Hg He Hlive.
  destruct (CacheFacts.get_live key (now w) (cache m) e He Hlive) as (Hr & _).
  unfold _getPosterInternal, _getPosterInternal_start. rewrite Hg.
  destruct (CacheService.get key (now w) (cache m)) as [cr c1].
  simpl in Hr. subst cr.
  unfold _getPosterInternal_finish, try_finish. simpl. auto.
Qed.

Lemma miss key w m :
  throws w CacheGet = None ->
  fst (CacheService.get key (now w) (cache m)) = None ->
  fst (_getPosterInternal_start key w m) = GotCache None.
Proof.
  intros Hg Hmiss. unfold _getPosterInternal_start. rewrite Hg.
  destruct (CacheService.get key (now w) (cache m)) as [cr c1].
  simpl in *. now subst.
Qed.

End ServeFacts.

(** X14: a poster found by the chain is cached under [animeId:animeName]
    and served from there. The request that misses the cache and gets a
    poster from the chain returns it with [fromCache] false; a request for
    the same anime made up to and including [ttl] after the poster was
    cached returns the same URL and source with [fromCache] true, and asks
    no source; past that instant, or after [invalidateCache] of the anime
    or [clearCache], the request misses the cache again. *)
Theorem X14_found_poster_is_served_from_the_cache :
  forall animeId animeName startTime w m u startTime2 w2 clock,
    let key := PosterManager.cacheKey animeId animeName in
    let fr := fst (FallbackChain.fetchPoster animeId animeName (PosterManager.attempts w)
                     (PosterManager.fallbackChain m)) in
    PosterManager.throws w PosterManager.CacheGet = None ->
    PosterManager.throws w PosterManager.ChainFetchPoster = None ->
    PosterManager.throws w PosterManager.CacheSet = None ->
    fst (CacheService.get key (PosterManager.now w) (PosterManager.cache m)) = None ->
    FallbackChain.url fr = Some u ->
    PosterManager.throws w2 PosterManager.CacheGet = None ->
    let first := PosterManager._getPosterInternal animeId animeName key startTime w m in
    let m1 := snd first in
    let ttl := Js.num_or (Some (PosterManager.config_cache_ttl m))
                         (CacheService.defaultTTL (PosterManager.cache m)) in
    let again m := PosterManager._getPosterInternal animeId animeName key startTime2 w2 m in
    fst first
    = PosterManager.Fulfilled
        (PosterManager.mkPosterResult (Some u) (FallbackChain.source fr) false
           (PosterManager.t_done w - startTime)) /\
    (PosterManager.now w2 <= PosterManager.t_set w + ttl ->
     fst (again m1)
     = PosterManager.Fulfilled
         (PosterManager.mkPosterResult (Some u) (FallbackChain.source fr) true
            (PosterManager.t_done w2 - startTime2)) /\
     PosterManager.fallbackChain (snd (again m1)) = PosterManager.fallbackChain m1) /\
    (PosterManager.t_set w + ttl < PosterManager.now w2 ->
     fst (PosterManager._getPosterInternal_start key w2 m1) = PosterManager.GotCache None) /\
    fst (ManagerMore.invalidateCache animeId animeName m1) = true /\
    fst (PosterManager._getPosterInternal_start key w2
           (snd (ManagerMore.invalidateCache animeId animeName m1)))
    = PosterManager.GotCache None /\
    fst (PosterManager._getPosterInternal_start key w2 (ManagerMore.clearCache clock m1))
    = PosterManager.GotCache None.
Proof.
  intros animeId animeName startTime w m u startTime2 w2 clock key fr
         Hg Hc Hs Hmiss Hu Hg2 first m1 ttl again.
  pose proof (ServeFacts.found animeId animeName startTime w m u Hg Hc Hs Hmiss Hu)
    as Hfound. cbn zeta in Hfound. fold key fr in Hfound.
  subst first m1 again. rewrite Hfound. cbn [fst snd].
  set (c1 := snd (CacheService.get key (PosterManager.now w) (PosterManager.cache m))).
  set (input := CacheService.mkEntryInput animeId u (FallbackChain.source fr)
                  (Some (PosterManager.t_set w))
                  (Some (PosterManager.config_cache_ttl m)) (Some 1)).
  set (m1 := PosterManager.mk _ _ _ _ _ _ _ _).
  pose proof (CacheMore.get_after_set key input (PosterManager.t_set w) c1) as Hstored.
  set (e := CacheOps.stored input (PosterManager.t_set w) c1) in *.
  assert (Hstamp : CacheService.timestamp e = PosterManager.t_set w).
  { subst e. unfold CacheOps.stored, Js.num_or. simpl.
    destruct (PosterManager.t_set w =? 0); reflexivity. }
  assert (Httl : CacheService.ttl e = ttl).
  { subst e ttl c1. unfold CacheOps.stored. simpl.
    now rewrite ServeFacts.get_defaultTTL. }
  split; [reflexivity|]. split; [|split; [|split; [|split]]].
  - intros Hlive.
    apply (ServeFacts.hit animeId animeName startTime2 w2 m1 e Hg2 Hstored).
    rewrite Hstamp, Httl. exact Hlive.
  - intros Hdead. apply ServeFacts.miss; [assumption|].
    apply (CacheFacts.get_expired key (PosterManager.now w2) (PosterManager.cache m1) e
             Hstored).
    rewrite Hstamp, Httl. exact Hdead.
  - unfold ManagerMore.invalidateCache, CacheService.invalidate. simpl.
    fold key. unfold JsMap.has. cbn [PosterManager.cache m1] in Hstored.
    now rewrite Hstored.
  - apply ServeFacts.miss; [assumption|].
    unfold ManagerMore.invalidateCache, CacheService.invalidate. simpl. fold key.
    unfold CacheService.get. simpl.
    now rewrite JsMapFacts.get_delete_same.
  - apply ServeFacts.miss; [assumption|].
    unfold ManagerMore.clearCache, CacheService.clear, CacheService.get.
    destruct (CacheService.persistToDisk _); reflexivity.
Qed.

Lemma X14_found_poster_is_served_from_the_cache_witness :
  let m := manager_with_kitsu in
  let w := calm_world 1000 in
  let w2 := calm_world 1065 in
  let key := PosterManager.cacheKey "1" "X" in
  let fr := fst (FallbackChain.fetchPoster "1" "X" (PosterManager.attempts w)
                   (PosterManager.fallbackChain m)) in
  let first := PosterManager._getPosterInternal "1" "X" key 1000 w m in
  let m1 := snd first in
  let ttl := Js.num_or (Some (PosterManager.config_cache_ttl m))
                       (CacheService.defaultTTL (PosterManager.cache m)) in
  let again m := PosterManager._getPosterInternal "1" "X" key 1065 w2 m in
  fst first
  = PosterManager.Fulfilled
      (PosterManager.mkPosterResult (Some "u1") (FallbackChain.source fr) false
         (PosterManager.t_done w - 1000)) /\
  (PosterManager.now w2 <= PosterManager.t_set w + ttl ->
   fst (again m1)
   = PosterManager.Fulfilled
       (PosterManager.mkPosterResult (Some "u1") (FallbackChain.source fr) true
          (PosterManager.t_done w2 - 1065)) /\
   PosterManager.fallbackChain (snd (again m1)) = PosterManager.fallbackChain m1) /\
  (PosterManager.t_set w + ttl < PosterManager.now w2 ->
   fst (PosterManager._getPosterInternal_start key w2 m1) = PosterManager.GotCache None) /\
  fst (ManagerMore.invalidateCache "1" "X" m1) = true /\
  fst (PosterManager._getPosterInternal_start key w2
         (snd (ManagerMore.invalidateCache "1" "X" m1)))
  = PosterManager.GotCache None /\
  fst (PosterManager._getPosterInternal_start key w2 (ManagerMore.clearCache 2000 m1))
  = PosterManager.GotCache None.
Proof.
  exact (X14_found_poster_is_served_from_the_cache "1" "X" 1000 (calm_world 1000)
           manager_with_kitsu "u1" 1065 (calm_world 1065) 2000
           eq_refl eq_refl eq_refl eq_refl eq_refl eq_refl).
Defined.

(** The same on the clock: the poster cached at 1060 with a ttl of 100 is
    served from the cache at 1065 and at 1160, and no longer at 1161. *)
Example poster_cached_for_its_ttl :
  let m1 := snd (PosterManager._getPosterInternal "1" "X" "1:X" 1000 (calm_world 1000)
                   manager_with_kitsu) in
  let from_cache t :=
    match fst (PosterManager._getPosterInternal "1" "X" "1:X" t (calm_world t) m1) with
    | PosterManager.Fulfilled r => Some (PosterManager.fromCache r)
    | PosterManager.Rejected _ => None
    end in
  from_cache 1065 = Some true /\ from_cache 1160 = Some true /\
  from_cache 1161 = Some false.
Proof. vm_compute. repeat split. Qed.

Module NotCachedFacts.
Import PosterManager.

Lemma get_none_absent key now c :
  fst (CacheService.get key now c) = None ->
  JsMap.get key (CacheService.cache (snd (CacheService.get key now c))) = None.
Proof.
  unfold CacheService.get.
  destruct (JsMap.get key (CacheService.cache c)) as [e|] eqn:E; [|now rewrite <- E].
  destruct (CacheService._isExpired e now); simpl; [|discriminate].
  intros _. apply JsMapFacts.get_delete_same.
Qed.

Lemma recordFailure_counts errorType source m :
  let m' := MetricsCollector.recordFailure errorType source m in
  MetricsCollector.totalRequests m' = MetricsCollector.totalRequests m + 1 /\
  MetricsCollector.failedRequests m' = MetricsCollector.failedRequests m + 1 /\
  MetricsCollector.successfulRequests m' = MetricsCollector.successfulRequests m /\
  MetricsCollector.cacheMisses m' = MetricsCollector.cacheMisses m /\
  MetricsCollector.cacheHits m' = MetricsCollector.cacheHits m /\
  MetricsCollector.errorTypes m' !! errorType
  = Some (match MetricsCollector.errorTypes m !! errorType with
          | Some n => n | None => 0 end + 1).
Proof.
  unfold MetricsCollector.recordFailure. simpl. repeat split.
  apply lookup_insert_eq.
Qed.

End NotCachedFacts.

(** X15: only a poster that was found and stored is cached. A request
    that misses the cache and gets no poster from the chain, or whose
    write to the cache throws, returns no URL and is counted as one failed
    request. When the chain returned nothing, no entry is left under the
    key, the result names the source the chain gave and the failure is
    counted under the error type 'all_sources_failed', whatever the reason
    the chain gave. When the write threw, the result names the source
    'error', the failure is counted under the name of the error, and the
    poster the chain had found is not returned. *)
Theorem X15_only_found_posters_are_cached :
  forall animeId animeName startTime w m,
    let key := PosterManager.cacheKey animeId animeName in
    let fr := fst (FallbackChain.fetchPoster animeId animeName (PosterManager.attempts w)
                     (PosterManager.fallbackChain m)) in
    let res := PosterManager._getPosterInternal animeId animeName key startTime w m in
    let counted errorType :=
      MetricsCollector.errorTypes (PosterManager.metrics (snd res)) !! errorType
      = Some (match MetricsCollector.errorTypes (PosterManager.metrics m) !! errorType with
              | Some n => n | None => 0 end + 1) in
    PosterManager.throws w PosterManager.CacheGet = None ->
    PosterManager.throws w PosterManager.ChainFetchPoster = None ->
    fst (CacheService.get key (PosterManager.now w) (PosterManager.cache m)) = None ->
    FallbackChain.url fr = None \/ PosterManager.throws w PosterManager.CacheSet <> None ->
    (FallbackChain.url fr = None ->
     JsMap.get key (CacheService.cache (PosterManager.cache (snd res))) = None) /\
    MetricsCollector.totalRequests (PosterManager.metrics (snd res))
    = MetricsCollector.totalRequests (PosterManager.metrics m) + 1 /\
    MetricsCollector.failedRequests (PosterManager.metrics (snd res))
    = MetricsCollector.failedRequests (PosterManager.metrics m) + 1 /\
    MetricsCollector.successfulRequests (PosterManager.metrics (snd res))
    = MetricsCollector.successfulRequests (PosterManager.metrics m) /\
    match FallbackChain.url fr, PosterManager.throws w PosterManager.CacheSet with
    | Some _, Some e =>
        fst res = PosterManager.Fulfilled
                    (PosterManager.mkPosterResult None "error" false
                       (PosterManager.t_done w - startTime)) /\
        counted (if Js.truthy (MetricsCollector.err_name e)
                 then MetricsCollector.err_name e else "UnknownError")
    | _, _ =>
        fst res = PosterManager.Fulfilled
                    (PosterManager.mkPosterResult None (FallbackChain.source fr) false
                       (PosterManager.t_done w - startTime)) /\
        counted "all_sources_failed"
    end.
Proof.
  intros animeId animeName startTime w m key fr res counted Hg Hc Hmiss Hcase.
  subst res counted. cbn zeta.
  pose proof (NotCachedFacts.get_none_absent key _ _ Hmiss) as Habs.
  unfold PosterManager._getPosterInternal, PosterManager._getPosterInternal_start.
  rewrite Hg.
  destruct (CacheService.get key (PosterManager.now w) (PosterManager.cache m))
    as [cr c1] eqn:Eget.
  cbn [fst snd] in Hmiss, Habs. subst cr.
  unfold PosterManager._getPosterInternal_finish, PosterManager.try_finish.
  rewrite Hc. cbn [PosterManager.fallbackChain PosterManager.with_metrics
                   PosterManager.with_cache].
  subst fr.
  destruct (FallbackChain.fetchPoster animeId animeName (PosterManager.attempts w)
              (PosterManager.fallbackChain m)) as [r chain] eqn:Ef.
  cbn [fst snd] in *.
  destruct (FallbackChain.url r) as [u|] eqn:Eu.
  - pose proof (ServeFacts.fetchPoster_url_truthy animeId animeName
                  (PosterManager.attempts w) (PosterManager.fallbackChain m) u) as Htr.
    rewrite Ef in Htr. specialize (Htr Eu). rewrite Htr.
    destruct (PosterManager.throws w PosterManager.CacheSet) as [e|];
      [|destruct Hcase; [discriminate|congruence]].
    unfold PosterManager.on_error, MetricsCollector.recordError. cbn [fst snd].
    cbn [PosterManager.cache PosterManager.with_metrics PosterManager.with_chain
         PosterManager.with_cache PosterManager.metrics].
    split; [discriminate|].
    destruct (NotCachedFacts.recordFailure_counts
                (if Js.truthy (MetricsCollector.err_name e)
                 then MetricsCollector.err_name e else "UnknownError") None
                (MetricsCollector.recordCacheMiss (PosterManager.metrics m)))
      as (H1 & H2 & H3 & _ & _ & H6).
    cbn zeta in *. rewrite H1, H2, H3, H6. repeat split.
  - cbn [fst snd].
    cbn [PosterManager.cache PosterManager.with_metrics PosterManager.with_chain
         PosterManager.with_cache PosterManager.metrics].
    split; [intros _; assumption|].
    destruct (NotCachedFacts.recordFailure_counts "all_sources_failed" None
                (MetricsCollector.recordCacheMiss (PosterManager.metrics m)))
      as (H1 & H2 & H3 & _ & _ & H6).
    cbn zeta in *. rewrite H1, H2, H3, H6. repeat split.
Qed.

Lemma X15_only_found_posters_are_cached_witness :
  let m := manager_with_kitsu in
  let w := throwing PosterManager.CacheSet type_error (calm_world 1000) in
  let key := PosterManager.cacheKey "1" "X" in
  let fr := fst (FallbackChain.fetchPoster "1" "X" (PosterManager.attempts w)
                   (PosterManager.fallbackChain m)) in
  let res := PosterManager._getPosterInternal "1" "X" key 1000 w m in
  let counted errorType :=
    MetricsCollector.errorTypes (PosterManager.metrics (snd res)) !! errorType
    = Some (match MetricsCollector.errorTypes (PosterManager.metrics m) !! errorType with
            | Some n => n | None => 0 end + 1) in
  (FallbackChain.url fr = None ->
   JsMap.get key (CacheService.cache (PosterManager.cache (snd res))) = None) /\
  MetricsCollector.totalRequests (PosterManager.metrics (snd res))
  = MetricsCollector.totalRequests (PosterManager.metrics m) + 1 /\
  MetricsCollector.failedRequests (PosterManager.metrics (snd res))
  = MetricsCollector.failedRequests (PosterManager.metrics m) + 1 /\
  MetricsCollector.successfulRequests (PosterManager.metrics (snd res))
  = MetricsCollector.successfulRequests (PosterManager.metrics m) /\
  match FallbackChain.url fr, PosterManager.throws w PosterManager.CacheSet with
  | Some _, Some e =>
      fst res = PosterManager.Fulfilled
                  (PosterManager.mkPosterResult None "error" false
                     (PosterManager.t_done w - 1000)) /\
      counted (if Js.truthy (MetricsCollector.err_name e)
               then MetricsCollector.err_name e else "UnknownError")
  | _, _ =>
      fst res = PosterManager.Fulfilled
                  (PosterManager.mkPosterResult None (FallbackChain.source fr) false
                     (PosterManager.t_done w - 1000)) /\
      counted "all_sources_failed"
  end.
Proof.
  refine (X15_only_found_posters_are_cached "1" "X" 1000
            (throwing PosterManager.CacheSet type_error (calm_world 1000))
            manager_with_kitsu eq_refl eq_refl eq_refl _).
  right. discriminate.
Defined.

(** ** Switching a source off *)

Module SwitchFacts.
Import PosterSource.

Lemma keyed_setSourceEnabled n e c :
  ChainMore.keyed (FallbackChain.sources c) ->
  ChainMore.keyed (FallbackChain.sources (FallbackChain.setSourceEnabled n e c)).
Proof.
  intros Hk. unfold FallbackChain.setSourceEnabled.
  destruct (JsMap.get n (FallbackChain.sources c)) as [s|] eqn:E; [|assumption].
  cbn [FallbackChain.sources]. apply WalkFacts.keyed_set; [assumption|].
  rewrite WalkFacts.set_base_name.
  rewrite <- (WalkFacts.get_keyed _ _ _ Hk E).
  unfold setEnabled. now destruct e.
Qed.

(** The source that returned the poster was available. *)
Lemma winner_available animeId animeName world c u :
  ChainMore.keyed (FallbackChain.sources c) ->
  FallbackChain.url (fst (FallbackChain.fetchPoster animeId animeName world c)) = Some u ->
  exists s,
    JsMap.get (FallbackChain.source
                 (fst (FallbackChain.fetchPoster animeId animeName world c)))
              (FallbackChain.sources c) = Some s /\
    isAvailable (FallbackChain.base s) = true.
Proof.
  intros Hk.
  destruct (FallbackChain._getOrderedSources c) as [|s0 l] eqn:Ho.
  - rewrite WalkFacts.fetchPoster_none by assumption. discriminate.
  - rewrite WalkFacts.fetchPoster_walk by congruence. cbn [fst].
    destruct (WalkFacts.walk_spec animeId animeName world (ChainMore.ordered_names c)
                (FallbackChain.sources c) Hk (WalkFacts.ordered_nodup c Hk))
      as (_ & _ & tried & rest & _ & _ & _ & _ & Hres).
    intros Hu. rewrite Hu in Hres.
    destruct Hres as (_ & _ & s & Hs & Hav & _). now exists s.
Qed.

End SwitchFacts.

(** X16: a source switched off through the manager is not called. After
    [setSourceEnabled(name, false)] for a registered source for which
    [config.sources[name]] is truthy, a call of the chain leaves that
    source as it is and returns no poster from it. The lookup is truthy for
    a source that has an entry in the configuration of the manager, and
    also for a source without an entry whose name every object inherits
    from [Object.prototype] ('constructor', 'toString', ...). For any other
    source that is registered but has no entry in the configuration, the
    manager does nothing: the source stays as it was. *)
Theorem X16_source_switched_off_is_not_called :
  forall m n s animeId animeName world,
    ChainMore.keyed (FallbackChain.sources (PosterManager.fallbackChain m)) ->
    JsMap.get n (FallbackChain.sources (PosterManager.fallbackChain m)) = Some s ->
    let m1 := ManagerMore.setSourceEnabled n false m in
    let walk := FallbackChain.fetchPoster animeId animeName world
                  (PosterManager.fallbackChain m1) in
    (PosterManager.config_sources m !! n = None -> Js.inherited n = false ->
     m1 = m) /\
    (PosterManager.config_sources m !! n <> None \/ Js.inherited n = true ->
     (exists s1,
        JsMap.get n (FallbackChain.sources (PosterManager.fallbackChain m1)) = Some s1 /\
        PosterSource.isEnabled (FallbackChain.base s1) = false /\
        PosterSource.metrics (FallbackChain.base s1)
        = PosterSource.metrics (FallbackChain.base s) /\
        JsMap.get n (FallbackChain.sources (snd walk)) = Some s1) /\
     (FallbackChain.url (fst walk) <> None -> FallbackChain.source (fst walk) <> n)).
Proof.
  intros m n s animeId animeName world Hk Hget m1 walk. subst m1 walk.
  split.
  { unfold ManagerMore.setSourceEnabled. now intros -> ->. }
  intros Hcfg.
  assert (Hchain : PosterManager.fallbackChain (ManagerMore.setSourceEnabled n false m)
                   = FallbackChain.setSourceEnabled n false (PosterManager.fallbackChain m)).
  { unfold ManagerMore.setSourceEnabled.
    destruct (PosterManager.config_sources m !! n); [reflexivity|].
    destruct Hcfg as [Hcfg| ->]; [congruence|reflexivity]. }
  rewrite Hchain.
  set (c1 := FallbackChain.setSourceEnabled n false (PosterManager.fallbackChain m)).
  pose proof (SwitchFacts.keyed_setSourceEnabled n false _ Hk) as Hk1. fold c1 in Hk1.
  set (s1 := FallbackChain.set_base s
               (PosterSource.setEnabled false (FallbackChain.base s))).
  assert (Hget1 : JsMap.get n (FallbackChain.sources c1) = Some s1).
  { subst c1. unfold FallbackChain.setSourceEnabled. rewrite Hget.
    cbn [FallbackChain.sources]. apply JsMapFacts.get_set_same. }
  assert (Hbase1 : FallbackChain.base s1
                   = PosterSource.setEnabled false (FallbackChain.base s))
    by apply ResetFacts.set_base_base.
  assert (Hun : PosterSource.isAvailable (FallbackChain.base s1) = false)
    by now rewrite Hbase1.
  destruct (TouchFacts.fetchPoster_spec animeId animeName world c1 Hk1)
    as (_ & _ & Hskip & _).
  split.
  - exists s1. split; [assumption|]. rewrite Hbase1.
    split; [reflexivity|]. split; [reflexivity|]. now apply Hskip.
  - intros Hu Heq.
    destruct (FallbackChain.url (fst (FallbackChain.fetchPoster animeId animeName world c1)))
      as [u|] eqn:Eu; [|congruence].
    destruct (SwitchFacts.winner_available animeId animeName world c1 u Hk1 Eu)
      as (sw & Hsw & Hav).
    rewrite Heq, Hget1 in Hsw. congruence.
Qed.

Lemma X16_source_switched_off_is_not_called_witness :
  let m := ManagerMore.manager_with_two in
  let n := "kitsu" in
  let s := FallbackChain.Kitsu test_kitsu in
  let m1 := ManagerMore.setSourceEnabled n false m in
  let walk := FallbackChain.fetchPoster "123" "X" sample_world
                (PosterManager.fallbackChain m1) in
  (PosterManager.config_sources m !! n = None -> Js.inherited n = false ->
   m1 = m) /\
  (PosterManager.config_sources m !! n <> None \/ Js.inherited n = true ->
   (exists s1,
      JsMap.get n (FallbackChain.sources (PosterManager.fallbackChain m1)) = Some s1 /\
      PosterSource.isEnabled (FallbackChain.base s1) = false /\
      PosterSource.metrics (FallbackChain.base s1)
      = PosterSource.metrics (FallbackChain.base s) /\
      JsMap.get n (FallbackChain.sources (snd walk)) = Some s1) /\
   (FallbackChain.url (fst walk) <> None -> FallbackChain.source (fst walk) <> n)).
Proof.
  refine (X16_source_switched_off_is_not_called ManagerMore.manager_with_two "kitsu"
            (FallbackChain.Kitsu test_kitsu) "123" "X" sample_world _ eq_refl).
  split; [repeat constructor|].
  vm_compute. repeat constructor; simpl; intuition discriminate.
Defined.

(** On the sample: Kitsu, which has an entry in the configuration, can be
    switched off; Nautiljon, which has none, cannot; a source named
    'constructor', which has none either, can. *)
Example only_configured_sources_switch :
  let enabled name m :=
    option_map (fun s => PosterSource.isEnabled (FallbackChain.base s))
               (JsMap.get name (FallbackChain.sources (PosterManager.fallbackChain m))) in
  enabled "kitsu" (ManagerMore.setSourceEnabled "kitsu" false ManagerMore.manager_with_two)
  = Some false /\
  enabled "Nautiljon" (ManagerMore.setSourceEnabled "Nautiljon" false ManagerMore.manager_with_two)
  = Some true /\
  enabled "constructor"
    (ManagerMore.setSourceEnabled "constructor" false ManagerMore.manager_with_three)
  = Some false.
Proof. vm_compute. repeat split; reflexivity. Qed.

(** ** The global metrics *)

Module SumFacts.
Import MetricsOps.

Section WithValue.
Context {V : Type} (f : V -> Z).

Lemma sum_empty : sum_values f ∅ = 0.
Proof. apply map_fold_empty. Qed.

Lemma sum_insert_new k v (o : gmap string V) :
  o !! k = None -> sum_values f (<[k := v]> o) = sum_values f o + f v.
Proof.
  intros Hk. unfold sum_values.
  rewrite map_fold_insert_L; [reflexivity| |assumption].
  intros. lia.
Qed.

(** Writing a property of an object changes the sum by the difference. *)
Lemma sum_insert k v (o : gmap string V) :
  sum_values f (<[k := v]> o)
  = sum_values f o - match o !! k with Some old => f old | None => 0 end + f v.
Proof.
  destruct (o !! k) as [old|] eqn:Hk.
  - rewrite <- (insert_delete_eq o k v).
    rewrite sum_insert_new by apply lookup_delete_eq.
    rewrite <- (insert_delete_id o k old Hk) at 2.
    rewrite sum_insert_new by apply lookup_delete_eq. lia.
  - rewrite sum_insert_new by assumption. lia.
Qed.

Lemma sum_nonneg (o : gmap string V) :
  (forall k v, o !! k = Some v -> 0 <= f v) -> 0 <= sum_values f o.
Proof.
  induction o as [|k v o Hk _ IH] using map_first_key_ind.
  - intros _. rewrite sum_empty. lia.
  - intros H. rewrite sum_insert_new by assumption.
    assert (0 <= f v) by (apply (H k); apply lookup_insert_eq).
    assert (0 <= sum_values f o).
    { apply IH. intros k' v' Hk'. apply (H k').
      rewrite lookup_insert_ne; [assumption|]. intros <-. congruence. }
    lia.
Qed.

(** One entry is at most the sum, when none is negative. *)
Lemma sum_bounds k v (o : gmap string V) :
  (forall k v, o !! k = Some v -> 0 <= f v) ->
  o !! k = Some v -> f v <= sum_values f o.
Proof.
  intros Hpos Hk. rewrite <- (insert_delete_id o k v Hk).
  rewrite sum_insert_new by apply lookup_delete_eq.
  assert (0 <= sum_values f (delete k o)); [|lia].
  apply sum_nonneg. intros k' v' Hk'.
  destruct (decide (k = k')) as [<-|Hne].
  - rewrite lookup_delete_eq in Hk'. discriminate.
  - rewrite lookup_delete_ne in Hk' by assumption. now apply (Hpos k').
Qed.

End WithValue.

Lemma ratio_is_rate n d : 0 <= n <= d -> is_rate (CacheService.ratio n d).
Proof.
  intros [Hn Hd]. unfold is_rate, CacheService.ratio.
  destruct d as [|p|p]; try lia.
  - split; unfold Qle; simpl; lia.
  - split; unfold Qle; simpl; lia.
Qed.

End SumFacts.

Module CountInv.
Import MetricsCollector MetricsOps.

Lemma counts_new now : ok (new now).
Proof.
  unfold ok, new. simpl. rewrite !SumFacts.sum_empty.
  repeat split; try lia; intros;
    match goal with
    | H : ∅ !! _ = Some _ |- _ => rewrite lookup_empty in H; discriminate
    end.
Qed.

Lemma counts_average rt m : ok m -> ok (_updateAverageResponseTime rt m).
Proof. intros H. exact H. Qed.

Lemma usage_of_nonneg m source :
  ok m -> 0 <= success (usage_of m source) /\ 0 <= failure (usage_of m source).
Proof.
  intros (_ & _ & _ & _ & _ & _ & Hu & _). unfold usage_of.
  destruct (sourceUsage m !! source) as [u|] eqn:E; [now apply (Hu source)|simpl; lia].
Qed.

Lemma usage_of_old {f : Usage -> Z} m source :
  f (mkUsage 0 0) = 0 ->
  match sourceUsage m !! source with Some old => f old | None => 0 end
  = f (usage_of m source).
Proof. intros H0. unfold usage_of. now destruct (sourceUsage m !! source). Qed.

Lemma counts_recordSuccess source rt m : ok m -> ok (recordSuccess source rt m).
Proof.
  intros Hok. pose proof (usage_of_nonneg m source Hok) as [Hs Hf].
  destruct Hok as (Ht & Hss & He & Hsf & Hh & Hm & Hu & Hn).
  unfold recordSuccess.
  match goal with |- ok (if _ then _updateAverageResponseTime _ ?x else ?x) =>
    assert (Hx : ok x); [|destruct (0 <? rt); [apply counts_average|]; exact Hx] end.
  unfold ok. simpl.
  rewrite !SumFacts.sum_insert.
  rewrite (usage_of_old (f := success) m source eq_refl).
  rewrite (usage_of_old (f := failure) m source eq_refl). simpl.
  repeat split; try lia.
  - destruct (decide (source = k)) as [<-|Hne].
    + rewrite lookup_insert_eq in H. injection H as <-. simpl. lia.
    + rewrite lookup_insert_ne in H by assumption. now apply (Hu k).
  - destruct (decide (source = k)) as [<-|Hne].
    + rewrite lookup_insert_eq in H. injection H as <-. simpl. lia.
    + rewrite lookup_insert_ne in H by assumption. now apply (Hu k).
  - assumption.
Qed.

Lemma counts_recordFailure errorType source m : ok m -> ok (recordFailure errorType source m).
Proof.
  intros Hok.
  assert (Hus : forall s, 0 <= success (usage_of m s) /\ 0 <= failure (usage_of m s))
    by (intros s; now apply usage_of_nonneg).
  destruct Hok as (Ht & Hss & He & Hsf & Hh & Hm & Hu & Hn).
  unfold recordFailure, ok. simpl.
  rewrite SumFacts.sum_insert.
  assert (Hcount : 0 <= match errorTypes m !! errorType with Some n => n | None => 0 end).
  { destruct (errorTypes m !! errorType) as [n|] eqn:E; [|lia].
    specialize (Hn _ _ E). lia. }
  assert (Husage :
    let usage := match source with
                 | Some s => if Js.truthy s
                             then <[s := mkUsage (success (usage_of m s))
                                                 (failure (usage_of m s) + 1)]> (sourceUsage m)
                             else sourceUsage m
                 | None => sourceUsage m
                 end in
    sum_values success usage = successfulRequests m /\
    sum_values failure usage <= failedRequests m + 1 /\
    forall k u, usage !! k = Some u -> 0 <= success u /\ 0 <= failure u).
  { assert (Hsame : sum_values success (sourceUsage m) = successfulRequests m /\
                     sum_values failure (sourceUsage m) <= failedRequests m + 1 /\
                     forall k u, sourceUsage m !! k = Some u ->
                                 0 <= success u /\ 0 <= failure u).
    { split; [assumption|]. split; [lia|assumption]. }
    cbn zeta. destruct source as [s|]; [destruct (Js.truthy s)|]; try exact Hsame.
    rewrite !SumFacts.sum_insert.
    rewrite (usage_of_old (f := success) m s eq_refl).
    rewrite (usage_of_old (f := failure) m s eq_refl). simpl.
    split; [lia|]. split; [lia|].
    intros k u Hk. destruct (decide (s = k)) as [<-|Hne].
    - rewrite lookup_insert_eq in Hk. injection Hk as <-. simpl.
      specialize (Hus s). lia.
    - rewrite lookup_insert_ne in Hk by assumption. now apply (Hu k). }
  cbn zeta in Husage. destruct Husage as (H1 & H2 & H3).
  split; [lia|]. split; [assumption|]. split; [lia|]. split; [assumption|].
  split; [assumption|]. split; [assumption|]. split; [assumption|].
  intros k n Hk. destruct (decide (errorType = k)) as [<-|Hne].
  - rewrite lookup_insert_eq in Hk. injection Hk as <-. lia.
  - rewrite lookup_insert_ne in Hk by assumption. now apply (Hn k).
Qed.

Lemma counts_apply op m : ok m -> ok (apply op m).
Proof.
  intros Hok. destruct op as [| |source rt|errorType source|error|now]; simpl.
  - destruct Hok as (Ht & Hss & He & Hsf & Hh & Hm & Hu & Hn).
    unfold ok, recordCacheHit. simpl. repeat split; auto; try lia; now apply (Hu k).
  - destruct Hok as (Ht & Hss & He & Hsf & Hh & Hm & Hu & Hn).
    unfold ok, recordCacheMiss. simpl. repeat split; auto; try lia; now apply (Hu k).
  - now apply counts_recordSuccess.
  - now apply counts_recordFailure.
  - now apply counts_recordFailure.
  - apply counts_new.
Qed.

Lemma counts_run ops m : ok m -> ok (run ops m).
Proof.
  revert m. induction ops as [|op ops IH]; intros m Hok; [assumption|].
  simpl. apply IH. now apply counts_apply.
Qed.

End CountInv.

(** X17: the counters of the collector agree, whatever has been recorded
    since it was created or reset, under names of sources and of error
    types that are not names every object inherits ('constructor',
    'toString', ...). Every request counted is a success or a failure; the
    successes of the sources add up to the successful requests; the counts
    of the error types add up to the failed requests, and the failures of
    the sources to no more. So the rates reported are between 0 and 1, and
    the statistics by source and by error type are within the global
    counts. *)
Theorem X17_global_counters_agree :
  forall now ops,
    Forall MetricsOps.plain ops ->
    let m := MetricsOps.run ops (MetricsCollector.new now) in
    MetricsCollector.totalRequests m
    = MetricsCollector.successfulRequests m + MetricsCollector.failedRequests m /\
    MetricsOps.sum_values MetricsCollector.success (MetricsCollector.sourceUsage m)
    = MetricsCollector.successfulRequests m /\
    MetricsOps.totalErrors m = MetricsCollector.failedRequests m /\
    MetricsOps.sum_values MetricsCollector.failure (MetricsCollector.sourceUsage m)
    <= MetricsCollector.failedRequests m /\
    (forall clock,
       MetricsOps.is_rate (MetricsCollector.sv_successRate (MetricsCollector.getStats clock m)) /\
       MetricsOps.is_rate (MetricsCollector.sv_cacheHitRate (MetricsCollector.getStats clock m))) /\
    (forall source s,
       MetricsOps.getSourceStats m !! source = Some s ->
       MetricsOps.s_total s = MetricsOps.s_success s + MetricsOps.s_failure s /\
       0 <= MetricsOps.s_success s <= MetricsCollector.successfulRequests m /\
       0 <= MetricsOps.s_failure s <= MetricsCollector.failedRequests m /\
       MetricsOps.is_rate (MetricsOps.s_successRate s)) /\
    (forall errorType e,
       MetricsOps.getErrorStats m !! errorType = Some e ->
       0 < MetricsOps.e_count e <= MetricsCollector.failedRequests m).
Proof.
  intros now ops _ m.
  pose proof (CountInv.counts_run ops _ (CountInv.counts_new now)) as Hok. fold m in Hok.
  destruct Hok as (Ht & Hss & He & Hsf & Hh & Hm & Hu & Hn).
  assert (Hzero : is_true true -> MetricsOps.is_rate 0%Q).
  { intros _. split; unfold Qle; simpl; lia. }
  split; [assumption|]. split; [assumption|]. split; [assumption|].
  split; [assumption|]. split; [|split].
  - intros clock. unfold MetricsCollector.getStats. simpl.
    assert (Hs0 : 0 <= MetricsCollector.successfulRequests m).
    { rewrite <- Hss. apply SumFacts.sum_nonneg. intros k u Hk. now apply (Hu k). }
    assert (Hf0 : 0 <= MetricsCollector.failedRequests m).
    { rewrite <- He. apply SumFacts.sum_nonneg. intros k n Hk. specialize (Hn k n Hk). lia. }
    split.
    + destruct (0 <? MetricsCollector.totalRequests m); [|now apply Hzero].
      apply SumFacts.ratio_is_rate. lia.
    + destruct (0 <? _); [|now apply Hzero].
      apply SumFacts.ratio_is_rate. lia.
  - intros source s Hs. unfold MetricsOps.getSourceStats in Hs.
    apply lookup_fmap_Some in Hs as (u & <- & Hk). simpl.
    destruct (Hu source u Hk) as [Hus Huf].
    pose proof (SumFacts.sum_bounds MetricsCollector.success source u
                  (MetricsCollector.sourceUsage m)
                  (fun k v H => proj1 (Hu k v H)) Hk) as Hb1.
    pose proof (SumFacts.sum_bounds MetricsCollector.failure source u
                  (MetricsCollector.sourceUsage m)
                  (fun k v H => proj2 (Hu k v H)) Hk) as Hb2.
    split; [reflexivity|]. split; [lia|]. split; [lia|].
    destruct (0 <? _); [|now apply Hzero].
    apply SumFacts.ratio_is_rate. lia.
  - intros errorType e Hs. unfold MetricsOps.getErrorStats in Hs.
    apply lookup_fmap_Some in Hs as (n & <- & Hk). simpl.
    split; [now apply (Hn errorType)|].
    rewrite <- He.
    apply (SumFacts.sum_bounds (fun count => count) errorType n); [|assumption].
    intros k v Hv. specialize (Hn k v Hv). lia.
Qed.

Lemma X17_global_counters_agree_witness :
  let m := MetricsOps.run sample_counts (MetricsCollector.new 0) in
  MetricsCollector.totalRequests m
  = MetricsCollector.successfulRequests m + MetricsCollector.failedRequests m /\
  MetricsOps.sum_values MetricsCollector.success (MetricsCollector.sourceUsage m)
  = MetricsCollector.successfulRequests m /\
  MetricsOps.totalErrors m = MetricsCollector.failedRequests m /\
  MetricsOps.sum_values MetricsCollector.failure (MetricsCollector.sourceUsage m)
  <= MetricsCollector.failedRequests m /\
  (forall clock,
     MetricsOps.is_rate (MetricsCollector.sv_successRate (MetricsCollector.getStats clock m)) /\
     MetricsOps.is_rate (MetricsCollector.sv_cacheHitRate (MetricsCollector.getStats clock m))) /\
  (forall source s,
     MetricsOps.getSourceStats m !! source = Some s ->
     MetricsOps.s_total s = MetricsOps.s_success s + MetricsOps.s_failure s /\
     0 <= MetricsOps.s_success s <= MetricsCollector.successfulRequests m /\
     0 <= MetricsOps.s_failure s <= MetricsCollector.failedRequests m /\
     MetricsOps.is_rate (MetricsOps.s_successRate s)) /\
  (forall errorType e,
     MetricsOps.getErrorStats m !! errorType = Some e ->
     0 < MetricsOps.e_count e <= MetricsCollector.failedRequests m).
Proof.
  apply (X17_global_counters_agree 0 sample_counts).
  unfold sample_counts, MetricsOps.plain. repeat constructor.
Defined.


(** The counts of a small run. *)
Example counts_of_a_run :
  let m := MetricsOps.run sample_counts (MetricsCollector.new 0) in
  (MetricsCollector.totalRequests m, MetricsCollector.successfulRequests m,
   MetricsCollector.failedRequests m, MetricsCollector.cacheHits m,
   MetricsCollector.cacheMisses m) = (6, 3, 3, 1, 5) /\
  MetricsCollector.usage_of m "kitsu" = MetricsCollector.mkUsage 2 0 /\
  MetricsCollector.errorTypes m !! "all_sources_failed" = Some 2 /\
  MetricsCollector.errorTypes m !! "TypeError" = Some 1.
Proof. vm_compute. repeat split. Qed.

(** ** The rate limiters over time *)

Module WindowFacts.
Import LimiterRuns.

Lemma in_window_app window t l1 l2 :
  in_window window t (l1 ++ l2) = in_window window t l1 ++ in_window window t l2.
Proof. apply List.filter_app. Qed.

(** What was pruned at an earlier clock is out of the window at a later
    one. *)
Lemma prune_in_window window now c l :
  now <= c ->
  in_window window c (TMDBSource.prune window now l) = in_window window c l.
Proof.
  intros Hle. unfold in_window, TMDBSource.prune.
  induction l as [|t l IH]; simpl; [reflexivity|].
  destruct (Z.ltb_spec (now - t) window) as [H1|H1]; simpl.
  - now rewrite IH.
  - destruct (Z.ltb_spec (c - t) window) as [H2|H2]; [lia|assumption].
Qed.

Lemma prune_length window now l :
  (length (TMDBSource.prune window now l) <= length l)%nat.
Proof. apply List.filter_length_le. Qed.

(** Pruning a list that holds an entry out of the window shortens it. *)
Lemma prune_drops window now l t :
  In t l -> window <= now - t ->
  (length (TMDBSource.prune window now l) < length l)%nat.
Proof.
  intros Hin Hout. unfold TMDBSource.prune.
  induction l as [|x l IH]; [destruct Hin|]. simpl.
  destruct Hin as [->|Hin].
  - destruct (Z.ltb_spec (now - t) window); [lia|].
    pose proof (List.filter_length_le (fun time => now - time <? window) l). lia.
  - specialize (IH Hin). destruct (now - x <? window); simpl; lia.
Qed.

Lemma kept_pass c0 hist p s :
  kept c0 hist s ->
  c0 <= entered p ->
  entered p + match TMDBSource.waitTime (entered p) s with
              | Some w => w
              | None => 0
              end <= left p ->
  kept (left p) (hist ++ [left p]) (tmdb_pass p s) /\
  entered p <= left p.
Proof.
  intros [Hlen Hwin] Hc0 Hwait.
  assert (Hle : entered p <= left p).
  { destruct (TMDBSource.waitTime (entered p) s) as [w|] eqn:Ew; [|lia].
    apply LimiterFacts.tmdb_delay_positive in Ew as [Hw _]. lia. }
  split; [|assumption].
  unfold kept, tmdb_pass, TMDBSource._waitForRateLimit.
  cbn [TMDBSource.requestTimes TMDBSource.with_requestTimes
       TMDBSource.maxRequestsPer10Sec TMDBSource.rateLimitWindow].
  set (W := TMDBSource.rateLimitWindow s) in *.
  set (recent := TMDBSource.prune W (entered p) (TMDBSource.requestTimes s)).
  split.
  - rewrite length_app. cbn [length].
    pose proof (prune_length W (entered p) (TMDBSource.requestTimes s)) as Hrec.
    fold recent in Hrec.
    destruct (TMDBSource.waitTime (entered p) s) as [w|] eqn:Ew.
    + destruct (LimiterFacts.tmdb_delay_positive _ _ _ Ew)
        as (_ & _ & oldest & Hin & _ & Hdue).
      fold W in Hin, Hdue. change (SlidingWindow.recent W (entered p)
                                     (TMDBSource.requestTimes s)) with recent in Hin.
      pose proof (prune_drops W (left p) recent oldest Hin ltac:(lia)) as Hdrop.
      lia.
    + unfold TMDBSource.waitTime in Ew. fold W recent in Ew.
      destruct (Z.leb_spec (Z.pos (TMDBSource.maxRequestsPer10Sec s))
                           (Z.of_nat (length recent))) as [Hfull|Hfree]; [|lia].
      exfalso.
      destruct (TMDBSource.list_min recent) as [oldest|] eqn:Emin.
      * apply LimiterFacts.list_min_spec in Emin as [Hin _].
        apply List.filter_In in Hin as [_ Hlt]. apply Z.ltb_lt in Hlt.
        destruct (Z.ltb_spec 0 (W - (entered p - oldest) + 100)); [discriminate|lia].
      * destruct recent as [|x r]; [simpl in Hfull; lia|].
        destruct (LimiterFacts.list_min_nonempty (x :: r) ltac:(discriminate)) as [m Hm].
        congruence.
  - intros c Hc. rewrite !in_window_app. f_equal.
    rewrite Hwin by lia.
    destruct (TMDBSource.waitTime (entered p) s).
    + unfold recent. rewrite !prune_in_window by lia. reflexivity.
    + unfold recent. rewrite prune_in_window by lia. reflexivity.
Qed.

Lemma pass_settings p s :
  TMDBSource.maxRequestsPer10Sec (tmdb_pass p s) = TMDBSource.maxRequestsPer10Sec s /\
  TMDBSource.rateLimitWindow (tmdb_pass p s) = TMDBSource.rateLimitWindow s.
Proof. split; reflexivity. Qed.

(** The window ending at any request of a timely run holds no more
    requests than the limit. *)
Lemma window_bound ps :
  forall c0 hist s,
    kept c0 hist s ->
    tmdb_timely c0 ps s ->
    Z.of_nat (length (TMDBSource.requestTimes (tmdb_run ps s)))
    <= Z.pos (TMDBSource.maxRequestsPer10Sec s) /\
    forall ps1 p ps2,
      ps = ps1 ++ p :: ps2 ->
      Z.of_nat (length (in_window (TMDBSource.rateLimitWindow s) (left p)
                          (hist ++ map left (ps1 ++ [p]))))
      <= Z.pos (TMDBSource.maxRequestsPer10Sec s).
Proof.
  induction ps as [|q ps IH]; intros c0 hist s Hkept Htimely.
  - split; [apply Hkept|]. intros [|] ? ? H; discriminate.
  - destruct Htimely as (Hc0 & Hwait & Hrest).
    destruct (kept_pass c0 hist q s Hkept Hc0 Hwait) as [Hkept' Hle].
    destruct (IH _ _ _ Hkept' Hrest) as [Hlen Hall].
    split; [exact Hlen|].
    intros [|q' ps1] p ps2 Heq; injection Heq as <- ->.
    + cbn [map app]. destruct Hkept' as [Hlen' Hwin'].
      pose proof (Hwin' (left q) ltac:(lia)) as Hw.
      change (TMDBSource.rateLimitWindow (tmdb_pass q s))
        with (TMDBSource.rateLimitWindow s) in Hw.
      change (TMDBSource.maxRequestsPer10Sec (tmdb_pass q s))
        with (TMDBSource.maxRequestsPer10Sec s) in Hlen'.
      rewrite Hw.
      pose proof (List.filter_length_le
                    (fun t' => left q - t' <? TMDBSource.rateLimitWindow s)
                    (TMDBSource.requestTimes (tmdb_pass q s))) as Hf.
      unfold in_window. lia.
    + specialize (Hall ps1 p ps2 eq_refl).
      cbn [map app]. rewrite <- app_assoc in Hall. exact Hall.
Qed.

End WindowFacts.

(** X18: the limiter of TMDB holds its limit. When the requests pass the
    limiter one after the other, each that waits resuming no earlier than
    its timer is due, the window ending at any request holds no more
    requests than the limit (40 in 10 s unless a 429 has lowered it), that
    request included; and the limiter never keeps more timestamps than the
    limit. *)
Theorem X18_tmdb_limiter_holds_its_limit :
  forall c0 ps s,
    TMDBSource.requestTimes s = [] ->
    LimiterRuns.tmdb_timely c0 ps s ->
    Z.of_nat (length (TMDBSource.requestTimes (LimiterRuns.tmdb_run ps s)))
    <= Z.pos (TMDBSource.maxRequestsPer10Sec s) /\
    forall ps1 p ps2,
      ps = ps1 ++ p :: ps2 ->
      Z.of_nat (length (LimiterRuns.in_window (TMDBSource.rateLimitWindow s)
                          (LimiterRuns.left p)
                          (map LimiterRuns.left (ps1 ++ [p]))))
      <= Z.pos (TMDBSource.maxRequestsPer10Sec s).
Proof.
  intros c0 ps s Hempty Htimely.
  apply (WindowFacts.window_bound ps c0 [] s); [|assumption].
  split; rewrite Hempty; [simpl; lia|reflexivity].
Qed.

Lemma X18_tmdb_limiter_holds_its_limit_witness :
  let s := TMDBSource.new PosterSource.empty_config (Some "key") in
  Z.of_nat (length (TMDBSource.requestTimes (LimiterRuns.tmdb_run tmdb_burst s)))
  <= Z.pos (TMDBSource.maxRequestsPer10Sec s) /\
  forall ps1 p ps2,
    tmdb_burst = ps1 ++ p :: ps2 ->
    Z.of_nat (length (LimiterRuns.in_window (TMDBSource.rateLimitWindow s)
                        (LimiterRuns.left p)
                        (map LimiterRuns.left (ps1 ++ [p]))))
    <= Z.pos (TMDBSource.maxRequestsPer10Sec s).
Proof.
  apply (X18_tmdb_limiter_holds_its_limit 0 tmdb_burst
           (TMDBSource.new PosterSource.empty_config (Some "key")) eq_refl).
  vm_compute. repeat split; discriminate.
Defined.

(** The burst on the clock: the 41st request waits 10.1 s; after it the
    limiter holds one timestamp, after the 42nd two. *)
Example tmdb_burst_waits :
  let s := TMDBSource.new PosterSource.empty_config (Some "key") in
  TMDBSource.waitTime 0 (LimiterRuns.tmdb_run (repeat (LimiterRuns.mkPass 0 0) 40) s)
  = Some 10100 /\
  TMDBSource.requestTimes (LimiterRuns.tmdb_run tmdb_burst s) = [10100; 10100].
Proof. vm_compute. split; reflexivity. Qed.

(** X19: the delay TMDB announces is the one its limiter imposes.
    [getNextRequestDelay] is 0 exactly when [canMakeRequestNow] holds, and
    otherwise the time [_waitForRateLimit] would wait, more than 100 ms;
    and once that delay has passed a request can go at once, provided the
    limiter holds no more timestamps than its limit, as it does as long as
    the limit is not lowered. *)
Theorem X19_tmdb_announced_delay_is_the_wait :
  forall now s,
    let delay := LimiterRuns.getNextRequestDelay now s in
    delay = match TMDBSource.waitTime now s with Some w => w | None => 0 end /\
    (TMDBSource.canMakeRequestNow now s = true <-> delay = 0) /\
    (TMDBSource.canMakeRequestNow now s = false -> 100 < delay) /\
    (Z.of_nat (length (TMDBSource.requestTimes s))
     <= Z.pos (TMDBSource.maxRequestsPer10Sec s) ->
     TMDBSource.canMakeRequestNow (now + delay) s = true).
Proof.
  intros now s delay.
  assert (Hdelay : delay = match TMDBSource.waitTime now s with
                           | Some w => w | None => 0 end /\
                   (TMDBSource.canMakeRequestNow now s = false -> 100 < delay)).
  { subst delay. unfold LimiterRuns.getNextRequestDelay, TMDBSource.waitTime,
      TMDBSource.canMakeRequestNow.
    set (W := TMDBSource.rateLimitWindow s).
    set (recent := TMDBSource.prune W now (TMDBSource.requestTimes s)).
    destruct (Z.ltb_spec (Z.of_nat (length recent))
                (Z.pos (TMDBSource.maxRequestsPer10Sec s))) as [Hfree|Hfull].
    - destruct (Z.leb_spec (Z.pos (TMDBSource.maxRequestsPer10Sec s))
                  (Z.of_nat (length recent))); [lia|]. split; [reflexivity|discriminate].
    - destruct (Z.leb_spec (Z.pos (TMDBSource.maxRequestsPer10Sec s))
                  (Z.of_nat (length recent))); [|lia].
      destruct (Nat.eqb_spec (length recent) 0) as [Hnil|_]; [lia|].
      destruct (TMDBSource.list_min recent) as [oldest|] eqn:Emin.
      + apply LimiterFacts.list_min_spec in Emin as [Hin _].
        apply List.filter_In in Hin as [_ Hlt]. apply Z.ltb_lt in Hlt. fold W in Hlt.
        destruct (Z.ltb_spec 0 (W - (now - oldest) + 100)); [|lia].
        split; [lia|]. intros _. lia.
      + destruct recent as [|x r]; [simpl in *; lia|].
        destruct (LimiterFacts.list_min_nonempty (x :: r) ltac:(discriminate)) as [m Hm].
        congruence. }
  destruct Hdelay as [Hd Hpos].
  split; [exact Hd|]. split; [|split; [exact Hpos|]].
  - split.
    + intros Hcan. subst delay. unfold LimiterRuns.getNextRequestDelay. now rewrite Hcan.
    + intros H0. destruct (TMDBSource.canMakeRequestNow now s) eqn:E; [reflexivity|].
      specialize (Hpos eq_refl). lia.
  - intros Hlen. rewrite Hd.
    destruct (TMDBSource.waitTime now s) as [w|] eqn:Ew.
    + destruct (LimiterFacts.tmdb_delay_positive _ _ _ Ew)
        as (Hw & _ & oldest & Hin & _ & Hdue).
      unfold TMDBSource.canMakeRequestNow. apply Z.ltb_lt.
      set (W := TMDBSource.rateLimitWindow s) in *.
      rewrite <- (WindowFacts.prune_in_window W now (now + w)) by lia.
      change (SlidingWindow.recent W now (TMDBSource.requestTimes s))
        with (TMDBSource.prune W now (TMDBSource.requestTimes s)) in Hin.
      pose proof (WindowFacts.prune_drops W (now + w) _ oldest Hin ltac:(lia)) as Hdrop.
      pose proof (WindowFacts.prune_length W now (TMDBSource.requestTimes s)) as Hrec.
      change (LimiterRuns.in_window W (now + w)
                (TMDBSource.prune W now (TMDBSource.requestTimes s)))
        with (TMDBSource.prune W (now + w)
                (TMDBSource.prune W now (TMDBSource.requestTimes s))).
      lia.
    + rewrite Z.add_0_r. unfold TMDBSource.waitTime in Ew.
      unfold TMDBSource.canMakeRequestNow.
      set (W := TMDBSource.rateLimitWindow s) in *.
      set (recent := TMDBSource.prune W now (TMDBSource.requestTimes s)) in *.
      destruct (Z.leb_spec (Z.pos (TMDBSource.maxRequestsPer10Sec s))
                  (Z.of_nat (length recent))) as [Hfull|Hfree];
        [|now apply Z.ltb_lt].
      exfalso.
      destruct (TMDBSource.list_min recent) as [oldest|] eqn:Emin.
      * apply LimiterFacts.list_min_spec in Emin as [Hin _].
        apply List.filter_In in Hin as [_ Hlt]. apply Z.ltb_lt in Hlt.
        destruct (Z.ltb_spec 0 (W - (now - oldest) + 100)); [discriminate|lia].
      * destruct recent as [|x r]; [simpl in Hfull; lia|].
        destruct (LimiterFacts.list_min_nonempty (x :: r) ltac:(discriminate)) as [m Hm].
        congruence.
Qed.

Module SpacingFacts.
Import LimiterRuns.

Lemma filter_rev {A} (f : A -> bool) l : List.filter f (rev l) = rev (List.filter f l).
Proof.
  induction l as [|x l IH]; [reflexivity|]. simpl.
  rewrite List.filter_app, IH. simpl. destruct (f x); simpl; [reflexivity|].
  now rewrite app_nil_r.
Qed.

Lemma in_window_rev window t l :
  length (in_window window t (rev l)) = length (in_window window t l).
Proof. unfold in_window. now rewrite filter_rev, length_rev. Qed.

(** Requests that are [window / rate] apart: those in a window are fewer
    than the steps of the ladder that fit in it. *)
Lemma ladder rate window top :
  0 < rate -> 0 <= window ->
  forall l n,
    spaced rate window l ->
    match l with
    | t :: _ => window * (rate - Z.of_nat n) <= (top - t) * rate
    | [] => True
    end ->
    (length (in_window window top l) <= n)%nat.
Proof.
  intros Hr Hw. induction l as [|t l IH]; intros n Hsp Htop; simpl; [lia|].
  destruct Hsp as [Hgap Hsp].
  assert (Hnext : forall m, window * (rate - Z.of_nat m) <= (top - t) * rate + window ->
            match l with
            | b :: _ => window * (rate - Z.of_nat m) <= (top - b) * rate
            | [] => True
            end).
  { intros m Hm. destruct l as [|b l']; [exact I|]. nia. }
  destruct n as [|n'].
  - change (Z.of_nat 0) with 0 in Htop.
    assert (Hout : window <= top - t) by nia.
    destruct (Z.ltb_spec (top - t) window); [lia|].
    apply (IH 0%nat Hsp). apply Hnext. change (Z.of_nat 0) with 0. lia.
  - assert (Hrest : (length (in_window window top l) <= n')%nat).
    { apply (IH n' Hsp). apply Hnext. rewrite Nat2Z.inj_succ in Htop. nia. }
    unfold in_window in *. destruct (top - t <? window); simpl; lia.
Qed.

(** The window ending at the newest request holds no more than [rate]
    requests. *)
Lemma window_count rate window t l :
  0 < rate -> 0 <= window ->
  spaced rate window (t :: l) ->
  Z.of_nat (length (in_window window t (t :: l))) <= rate.
Proof.
  intros Hr Hw Hsp.
  pose proof (ladder rate window t Hr Hw (t :: l) (Z.to_nat rate) Hsp) as H.
  cbn beta iota in H. rewrite Z2Nat.id in H by lia.
  specialize (H ltac:(nia)). lia.
Qed.

(** Any run of a limiter that keeps the clock of the last request and
    makes the next one wait for the interval. *)
Section FixedInterval.
Context {S : Type} (pass : Pass -> S -> S) (last : S -> Z)
        (timely : Z -> list Pass -> S -> Prop) (rate window : Z).
Hypothesis rate_pos : 0 < rate.
Hypothesis window_nonneg : 0 <= window.
Hypothesis last_pass : forall p s, last (pass p s) = left p.
Hypothesis timely_cons :
  forall c0 p rest s,
    timely c0 (p :: rest) s ->
    window <= (left p - last s) * rate /\ timely (left p) rest (pass p s).

Lemma run_spaced ps :
  forall c0 s newest_first,
    spaced rate window newest_first ->
    match newest_first with t :: _ => last s = t | [] => True end ->
    timely c0 ps s ->
    forall ps1 p ps2,
      ps = ps1 ++ p :: ps2 ->
      spaced rate window (rev (map left (ps1 ++ [p])) ++ newest_first).
Proof.
  induction ps as [|q ps IH]; intros c0 s hist Hsp Hlast Ht ps1 p ps2 Heq;
    [destruct ps1; discriminate|].
  destruct (timely_cons _ _ _ _ Ht) as [Hgap Hrest].
  assert (Hsp' : spaced rate window (left q :: hist)).
  { simpl. split; [|assumption]. destruct hist as [|t h]; [exact I|]. now rewrite <- Hlast. }
  destruct ps1 as [|q' ps1]; injection Heq as <- ->.
  - exact Hsp'.
  - specialize (IH _ _ (left q :: hist) Hsp' (last_pass q s) Hrest ps1 p ps2 eq_refl).
    cbn [map app rev]. rewrite <- app_assoc. exact IH.
Qed.

Lemma run_count c0 ps s :
  timely c0 ps s ->
  forall ps1 p ps2,
    ps = ps1 ++ p :: ps2 ->
    Z.of_nat (length (in_window window (left p) (map left (ps1 ++ [p])))) <= rate.
Proof.
  intros Ht ps1 p ps2 Heq.
  pose proof (run_spaced ps c0 s [] I I Ht ps1 p ps2 Heq) as Hsp.
  rewrite app_nil_r in Hsp.
  rewrite <- in_window_rev.
  rewrite map_app, rev_app_distr in *. cbn [map rev app] in *.
  now apply window_count.
Qed.

Lemma run_gap c0 ps s :
  timely c0 ps s ->
  forall ps1 p q ps2,
    ps = ps1 ++ p :: q :: ps2 ->
    window <= (left q - left p) * rate.
Proof.
  intros Ht ps1 p q ps2 Heq.
  pose proof (run_spaced ps c0 s [] I I Ht (ps1 ++ [p]) q ps2
                ltac:(now rewrite <- app_assoc)) as Hsp.
  rewrite app_nil_r, !map_app, !rev_app_distr in Hsp. cbn [map rev app] in Hsp.
  now destruct Hsp as [Hgap _].
Qed.

End FixedInterval.

End SpacingFacts.

Module FixedFacts.
Import LimiterRuns.



(** The limiter of Kitsu leaves its interval as it is. *)
Lemma kitsu_run_interval ps (k : KitsuSource.t) :
  KitsuSource.minRequestInterval (kitsu_run ps k)
  = KitsuSource.minRequestInterval k.
Proof.
  revert k. induction ps as [|p ps IH]; intros k; [reflexivity|].
  simpl. now rewrite IH.
Qed.

(** Nautiljon: the same, with its interval in milliseconds. *)
Lemma nautiljon_cons c0 p rest (n : NautiljonSource.t) :
  NautiljonSource.minRequestInterval n = 6000 /\ nautiljon_timely c0 (p :: rest) n ->
  60000 <= (left p - NautiljonSource.lastRequestTime n) * 10 /\
  (NautiljonSource.minRequestInterval (nautiljon_pass p n) = 6000 /\
   nautiljon_timely (left p) rest (nautiljon_pass p n)).
Proof.
  intros [Hint (_ & Hwait & Hrest)].
  split; [|split; [exact Hint|exact Hrest]].
  unfold NautiljonSource._ensureRateLimit in Hwait. cbn [fst] in Hwait.
  rewrite Hint in Hwait.
  destruct (Z.ltb_spec (entered p - NautiljonSource.lastRequestTime n) 6000); lia.
Qed.

End FixedFacts.



(** The Kitsu source of the configuration the repository ships lets a
    burst of requests go at once: none waits. *)
Example shipped_kitsu_burst :
  let burst := [LimiterRuns.mkPass 10000 10000; LimiterRuns.mkPass 10000 10000;
                LimiterRuns.mkPass 10001 10001] in
  forall ps1 p ps2,
    burst = ps1 ++ p :: ps2 ->
    KitsuSource.waitTime (LimiterRuns.entered p)
      (LimiterRuns.kitsu_run ps1 (KitsuSource.new shipped_kitsu_config)) = None.
Proof.
  intros burst ps1 p ps2 _. unfold KitsuSource.waitTime.
  now rewrite FixedFacts.kitsu_run_interval.
Qed.

(** X21: the limiter of Nautiljon keeps ten requests a minute. When the
    requests pass the limiter one after the other, each that waits
    resuming no earlier than its timer is due, two requests in a row are
    let go at least 6 s apart, and the minute ending at any request holds
    no more than ten requests, that request included. *)
Theorem X21_nautiljon_limiter_keeps_ten_a_minute :
  forall c0 ps config,
    let n := NautiljonSource.new config in
    LimiterRuns.nautiljon_timely c0 ps n ->
    (forall ps1 p q ps2,
       ps = ps1 ++ p :: q :: ps2 ->
       6000 <= LimiterRuns.left q - LimiterRuns.left p) /\
    (forall ps1 p ps2,
       ps = ps1 ++ p :: ps2 ->
       Z.of_nat (length (LimiterRuns.in_window 60000 (LimiterRuns.left p)
                           (map LimiterRuns.left (ps1 ++ [p]))))
       <= 10).
Proof.
  intros c0 ps config n Htimely.
  set (timely := fun c0 ps (n : NautiljonSource.t) =>
                   NautiljonSource.minRequestInterval n = 6000 /\
                   LimiterRuns.nautiljon_timely c0 ps n).
  assert (Ht : timely c0 ps n) by (split; [reflexivity|assumption]).
  split.
  - intros ps1 p q ps2 Heq.
    pose proof (SpacingFacts.run_gap LimiterRuns.nautiljon_pass
                  NautiljonSource.lastRequestTime timely 10 60000 (fun p s => eq_refl)
                  FixedFacts.nautiljon_cons c0 ps n Ht ps1 p q ps2 Heq) as Hgap.
    lia.
  - intros ps1 p ps2 Heq.
    exact (SpacingFacts.run_count LimiterRuns.nautiljon_pass
             NautiljonSource.lastRequestTime timely 10 60000 ltac:(lia) ltac:(lia)
             (fun p s => eq_refl) FixedFacts.nautiljon_cons
             c0 ps n Ht ps1 p ps2 Heq).
Qed.

Lemma X21_nautiljon_limiter_keeps_ten_a_minute_witness :
  (forall ps1 p q ps2,
     nautiljon_passes = ps1 ++ p :: q :: ps2 ->
     6000 <= LimiterRuns.left q - LimiterRuns.left p) /\
  (forall ps1 p ps2,
     nautiljon_passes = ps1 ++ p :: ps2 ->
     Z.of_nat (length (LimiterRuns.in_window 60000 (LimiterRuns.left p)
                         (map LimiterRuns.left (ps1 ++ [p]))))
     <= 10).
Proof.
  apply (X21_nautiljon_limiter_keeps_ten_a_minute 0 nautiljon_passes
           PosterSource.empty_config).
  vm_compute. repeat split; discriminate.
Defined.

(** ** The circuit breaker operated by hand *)

Module HandFacts.
Import PosterSource Attempts.

Lemma set_breaker_base s cb : FallbackChain.base (set_breaker s cb) = FallbackChain.base s.
Proof. destruct s; reflexivity. Qed.

Lemma set_breaker_breaker s cb cb0 :
  breaker s = Some cb0 -> breaker (set_breaker s cb) = Some cb.
Proof. destruct s; simpl; [reflexivity|reflexivity|discriminate]. Qed.

Lemma opened duration now s cb :
  breaker s = Some cb ->
  let s1 := openCircuitBreaker duration now s in
  breaker s1 = Some (Breaker.with_nextAttemptTime (Breaker.with_state cb Breaker.OPEN)
                       (now + duration)) /\
  FallbackChain.base s1
  = with_metrics (FallbackChain.base s)
      (set_isTemporarilyDisabled true (metrics (FallbackChain.base s))).
Proof.
  intros Hb. unfold openCircuitBreaker, Breaker.openCircuitBreaker. rewrite Hb.
  split.
  - apply set_breaker_breaker with cb. now rewrite ResetFacts.set_base_breaker.
  - now rewrite set_breaker_base, ResetFacts.set_base_base.
Qed.

Lemma reset s cb :
  breaker s = Some cb ->
  let s1 := resetCircuitBreaker s in
  breaker s1 = Some (Breaker.with_nextAttemptTime (Breaker.with_state cb Breaker.CLOSED) 0) /\
  FallbackChain.base s1
  = with_metrics (FallbackChain.base s)
      (set_isTemporarilyDisabled false
         (set_consecutiveFailures 0 (metrics (FallbackChain.base s)))).
Proof.
  intros Hb. unfold resetCircuitBreaker, Breaker.resetCircuitBreaker. rewrite Hb.
  split.
  - apply set_breaker_breaker with cb. now rewrite ResetFacts.set_base_breaker.
  - now rewrite set_breaker_base, ResetFacts.set_base_base.
Qed.

End HandFacts.

(** The test 'should allow manual circuit breaker control', and what it
    does not try: a call after the duration is still turned away. *)
Example opened_by_hand_for_a_second :
  let s1 := Attempts.openCircuitBreaker 1000 0 (FallbackChain.Kitsu test_kitsu) in
  fst (Attempts.fetch (finding_call 6000) s1)
  = Err.Throw (Err.Unavailable "kitsu") /\
  Attempts.found (fst (Attempts.fetch (finding_call 6000)
                         (Attempts.resetCircuitBreaker s1))) = true.
Proof. vm_compute. split; reflexivity. Qed.

(** ** The comparison of titles *)

Module SimilarityFacts.
Import Text.

Lemma count_pair_add acc w1 w2 : count_pair acc w1 w2 = acc + count_pair 0 w1 w2.
Proof.
  unfold count_pair. destruct (_ && _); [|lia].
  destruct (bool_decide _); [lia|]. destruct (_ || _); lia.
Qed.

Lemma count_pair_sym w1 w2 : count_pair 0 w1 w2 = count_pair 0 w2 w1.
Proof.
  unfold count_pair. rewrite (andb_comm (2 <? length w1)%nat).
  destruct (_ && _); [|reflexivity].
  destruct (bool_decide (w1 = w2)) eqn:E1; destruct (bool_decide (w2 = w1)) eqn:E2.
  - reflexivity.
  - apply bool_decide_eq_true in E1. apply bool_decide_eq_false in E2. congruence.
  - apply bool_decide_eq_false in E1. apply bool_decide_eq_true in E2. congruence.
  - now rewrite (orb_comm (includes w1 w2)).
Qed.

Lemma count_pair_bounds w1 w2 : 0 <= count_pair 0 w1 w2 <= 2.
Proof.
  unfold count_pair. destruct (_ && _); [|lia].
  destruct (bool_decide _); [lia|]. destruct (_ || _); lia.
Qed.

Lemma count_pair_short w1 w2 : (length w1 <= 2)%nat -> count_pair 0 w1 w2 = 0.
Proof.
  intros H. unfold count_pair.
  destruct (Nat.ltb_spec 2 (length w1)); [lia|reflexivity].
Qed.

Lemma inner_loop w1 l2 acc :
  fold_left (fun a w2 => count_pair a w1 w2) l2 acc
  = acc + total (map (count_pair 0 w1) l2).
Proof.
  revert acc. induction l2 as [|w2 l2 IH]; intros acc; simpl; [unfold total; simpl; lia|].
  rewrite IH, count_pair_add. unfold total. simpl. lia.
Qed.

Lemma outer_loop l1 l2 acc :
  fold_left (fun a w1 => fold_left (fun a w2 => count_pair a w1 w2) l2 a) l1 acc
  = acc + total (map (fun w1 => total (map (count_pair 0 w1) l2)) l1).
Proof.
  revert acc. induction l1 as [|w1 l1 IH]; intros acc; simpl; [unfold total; simpl; lia|].
  rewrite IH, inner_loop. unfold total. simpl. lia.
Qed.

Lemma total_add {A} (f g : A -> Z) l :
  total (map (fun a => f a + g a) l) = total (map f l) + total (map g l).
Proof. unfold total. induction l as [|a l IH]; simpl; lia. Qed.

Lemma total_zero {A} (l : list A) : total (map (fun _ => 0) l) = 0.
Proof. unfold total. induction l; simpl; lia. Qed.

Lemma total_exchange {A B} (f : A -> B -> Z) l1 l2 :
  total (map (fun a => total (map (f a) l2)) l1)
  = total (map (fun b => total (map (fun a => f a b) l1)) l2).
Proof.
  induction l1 as [|a l1 IH]; simpl.
  - now rewrite total_zero.
  - unfold total at 1. simpl. fold (total (map (fun a => total (map (f a) l2)) l1)).
    rewrite IH. rewrite <- total_add. reflexivity.
Qed.

Lemma total_bounds {A} (f : A -> Z) lo hi l :
  (forall a, In a l -> lo <= f a <= hi) ->
  lo * Z.of_nat (length l) <= total (map f l) <= hi * Z.of_nat (length l).
Proof.
  unfold total. induction l as [|a l IH]; intros H; [simpl; lia|].
  cbn [map fold_right length]. rewrite Nat2Z.inj_succ.
  specialize (IH (fun x Hx => H x (or_intror Hx))).
  specialize (H a (or_introl eq_refl)). lia.
Qed.

(** The value of [commonWords] after the two loops. *)
Lemma common_words l1 l2 :
  fold_left (fun a w1 => fold_left (fun a w2 => count_pair a w1 w2) l2 a) l1 0
  = total (map (fun w1 => total (map (count_pair 0 w1) l2)) l1).
Proof. rewrite outer_loop. lia. Qed.

Lemma common_sym l1 l2 :
  total (map (fun w1 => total (map (count_pair 0 w1) l2)) l1)
  = total (map (fun w2 => total (map (count_pair 0 w2) l1)) l2).
Proof.
  rewrite total_exchange. f_equal. apply map_ext. intros w2.
  f_equal. apply map_ext. intros w1. apply count_pair_sym.
Qed.

Lemma common_bounds l1 l2 :
  0 <= total (map (fun w1 => total (map (count_pair 0 w1) l2)) l1)
  <= 2 * (Z.of_nat (length l1) * Z.of_nat (length l2)).
Proof.
  pose proof (total_bounds (fun w1 => total (map (count_pair 0 w1) l2))
                0 (2 * Z.of_nat (length l2)) l1) as H.
  assert (Hin : forall a, In a l1 ->
            0 <= total (map (count_pair 0 a) l2) <= 2 * Z.of_nat (length l2)).
  { intros a _.
    pose proof (total_bounds (count_pair 0 a) 0 2 l2
                  (fun b _ => count_pair_bounds a b)). lia. }
  specialize (H Hin). lia.
Qed.

Lemma common_short l1 l2 :
  Forall (fun w => (length w <= 2)%nat) l1 ->
  total (map (fun w1 => total (map (count_pair 0 w1) l2)) l1) = 0.
Proof.
  intros Hs.
  pose proof (total_bounds (fun w1 => total (map (count_pair 0 w1) l2)) 0 0 l1) as H.
  assert (Hin : forall a, In a l1 -> 0 <= total (map (count_pair 0 a) l2) <= 0).
  { intros a Ha. rewrite List.Forall_forall in Hs. specialize (Hs a Ha).
    pose proof (total_bounds (count_pair 0 a) 0 0 l2) as H2.
    assert (forall b, In b l2 -> 0 <= count_pair 0 a b <= 0)
      by (intros b _; rewrite count_pair_short by assumption; lia).
    specialize (H2 H0). lia. }
  specialize (H Hin). lia.
Qed.

Lemma split_from_nonempty piece in_run s : (1 <= length (split_from piece in_run s))%nat.
Proof.
  revert piece in_run. induction s as [|c s IH]; intros piece in_run; simpl; [lia|].
  destruct (is_space c); [destruct in_run|]; simpl; auto; lia.
Qed.

Lemma words_positive s : 1 <= words s.
Proof. unfold words, split_spaces. pose proof (split_from_nonempty [] false s). lia. Qed.

(** [_calculateSimilarity] on two strings that are not empty and differ. *)
Lemma similarity_unfold str1 str2 :
  str1 <> [] -> str2 <> [] -> str1 <> str2 ->
  _calculateSimilarity str1 str2
  = CacheService.ratio
      (total (map (fun w1 => total (map (count_pair 0 w1) (split_spaces str2)))
                  (split_spaces str1)))
      (Z.max (words str1) (words str2) * 2).
Proof.
  intros H1 H2 Hne. unfold _calculateSimilarity.
  destruct str1 as [|a s1]; [congruence|]. destruct str2 as [|b s2]; [congruence|].
  rewrite bool_decide_eq_false_2 by assumption.
  rewrite common_words. fold (words (a :: s1)) (words (b :: s2)).
  pose proof (words_positive (a :: s1)). pose proof (words_positive (b :: s2)).
  destruct (Z.ltb_spec 0 (Z.max (words (a :: s1)) (words (b :: s2)))); [reflexivity|lia].
Qed.

Lemma ratio_bounds c m k :
  0 < m -> 0 <= c <= 2 * (m * k) ->
  (0 <= CacheService.ratio c (m * 2))%Q /\
  (CacheService.ratio c (m * 2) <= inject_Z k)%Q.
Proof.
  intros Hm Hc. unfold CacheService.ratio.
  destruct (m * 2) as [|p|p] eqn:E; try lia.
  unfold Qle, inject_Z. simpl. split; [lia|]. nia.
Qed.

End SimilarityFacts.

(** X23: the score [_calculateSimilarity] gives two strings. It is the
    same whichever string comes first; it is 0 when one of them is empty
    and 1 when they are equal and not empty; it is never negative and never
    more than the number of words of either string, but it can be more
    than 1, as for 'abc abc' and 'abc abc abc', which score 2; and it is 0
    for two different strings when no word of the first is longer than two
    code units. *)
Theorem X23_similarity_score :
  forall str1 str2,
    Text._calculateSimilarity str1 str2 = Text._calculateSimilarity str2 str1 /\
    (str1 = [] \/ str2 = [] -> Text._calculateSimilarity str1 str2 = 0%Q) /\
    (str1 <> [] -> Text._calculateSimilarity str1 str1 = 1%Q) /\
    (0 <= Text._calculateSimilarity str1 str2)%Q /\
    (Text._calculateSimilarity str1 str2
     <= inject_Z (Z.min (Text.words str1) (Text.words str2)))%Q /\
    (Text._calculateSimilarity Text.title_twice Text.title_thrice == 2)%Q /\
    (Text.short_words str1 -> str1 <> str2 ->
     (Text._calculateSimilarity str1 str2 == 0)%Q).
Proof.
  intros str1 str2.
  pose proof (SimilarityFacts.words_positive str1) as Hw1.
  pose proof (SimilarityFacts.words_positive str2) as Hw2.
  assert (Hempty : str1 = [] \/ str2 = [] -> Text._calculateSimilarity str1 str2 = 0%Q).
  { intros [-> | ->]; [reflexivity|]. now destruct str1. }
  assert (Hsame : forall s, s <> [] -> Text._calculateSimilarity s s = 1%Q).
  { intros s Hs. unfold Text._calculateSimilarity. destruct s; [congruence|].
    now rewrite bool_decide_eq_true_2. }
  assert (Hone : (1 <= inject_Z (Z.min (Text.words str1) (Text.words str2)))%Q).
  { unfold Qle, inject_Z. simpl. lia. }
  split; [|split; [exact Hempty|split; [apply Hsame|]]].
  - destruct str1 as [|a s1]; [now destruct str2|].
    destruct str2 as [|b s2]; [reflexivity|].
    destruct (decide (a :: s1 = b :: s2)) as [->|Hne]; [reflexivity|].
    rewrite !SimilarityFacts.similarity_unfold by congruence.
    now rewrite SimilarityFacts.common_sym, Z.max_comm.
  - destruct (decide (str1 = [])) as [->|H1].
    { rewrite Hempty by auto.
      split; [apply Qle_refl|]. split; [eapply Qle_trans; [|exact Hone]; discriminate|].
      split; [reflexivity|]. intros _ _. reflexivity. }
    destruct (decide (str2 = [])) as [->|H2].
    { rewrite Hempty by auto.
      split; [apply Qle_refl|]. split; [eapply Qle_trans; [|exact Hone]; discriminate|].
      split; [reflexivity|]. intros _ _. reflexivity. }
    destruct (decide (str1 = str2)) as [<-|Hne].
    { rewrite Hsame by assumption.
      split; [discriminate|]. split; [exact Hone|].
      split; [reflexivity|]. intros _ Hc. congruence. }
    rewrite SimilarityFacts.similarity_unfold by assumption.
    pose proof (SimilarityFacts.common_bounds (Text.split_spaces str1)
                  (Text.split_spaces str2)) as Hb.
    fold (Text.words str1) (Text.words str2) in Hb.
    destruct (SimilarityFacts.ratio_bounds
                (Text.total (map (fun w1 => Text.total (map (Text.count_pair 0 w1)
                                                          (Text.split_spaces str2)))
                                 (Text.split_spaces str1)))
                (Z.max (Text.words str1) (Text.words str2))
                (Z.min (Text.words str1) (Text.words str2)))
      as [Hlo Hhi]; [lia|nia|].
    split; [exact Hlo|]. split; [exact Hhi|]. split; [reflexivity|].
    intros Hshort _. rewrite SimilarityFacts.common_short by exact Hshort.
    unfold CacheService.ratio. destruct (_ * 2); reflexivity.
Qed.

Module BestFacts.
Import Text.

(** The first of the results that score most is at the head of the sorted
    array. *)
Lemma sorted_head (l : list (Result * Q)) :
  match sort_by_score l with
  | [] => l = []
  | m :: _ =>
      exists pre post,
        l = pre ++ m :: post /\
        (forall y, In y pre -> (snd y < snd m)%Q) /\
        (forall y, In y post -> (snd y <= snd m)%Q)
  end.
Proof.
  induction l as [|x l IH]; [reflexivity|].
  simpl. destruct (sort_by_score l) as [|m rest].
  - subst l. simpl. exists [], []. repeat split; intros y [].
  - destruct IH as (pre & post & -> & Hpre & Hpost). simpl.
    destruct (Qle_bool (snd m) (snd x)) eqn:E.
    + apply Qle_bool_iff in E.
      exists [], (pre ++ m :: post). split; [reflexivity|].
      split; [intros y []|].
      intros y Hy. apply in_app_or in Hy as [Hy|[<-|Hy]].
      * apply Qlt_le_weak. eapply Qlt_le_trans; [now apply Hpre|exact E].
      * exact E.
      * eapply Qle_trans; [now apply Hpost|exact E].
    + assert (Hlt : (snd x < snd m)%Q).
      { apply Qnot_le_lt. intros H. apply Qle_bool_iff in H. congruence. }
      exists (x :: pre), post. split; [reflexivity|]. split; [|assumption].
      intros y [<-|Hy]; [assumption|now apply Hpre].
Qed.

End BestFacts.

(** X24: the result [_findBestMatch] picks. It returns one of the results
    given, with its score, only if that score is above 0.3; no result
    scores more, and those before it in the array score less: among the
    results that score most it is the first. It returns none when the
    array is empty or no result scores above 0.3. *)
Theorem X24_best_match_is_the_first_of_the_best :
  forall toLowerCase searchTerm results,
    match Text._findBestMatch toLowerCase searchTerm results with
    | Some (r, sc) =>
        sc = Text.score toLowerCase searchTerm r /\
        (3 # 10 < sc)%Q /\
        exists before after,
          results = before ++ r :: after /\
          (forall y, In y before -> (Text.score toLowerCase searchTerm y < sc)%Q) /\
          (forall y, In y after -> (Text.score toLowerCase searchTerm y <= sc)%Q)
    | None =>
        forall y, In y results -> (Text.score toLowerCase searchTerm y <= 3 # 10)%Q
    end.
Proof.
  intros toLowerCase searchTerm results.
  unfold Text._findBestMatch.
  destruct results as [|r0 rs] eqn:Er; [intros y []|]. rewrite <- Er. clear Er r0 rs.
  set (scored := map _ results).
  assert (Hscored : scored = map (fun r => (r, Text.score toLowerCase searchTerm r)) results)
    by reflexivity.
  pose proof (BestFacts.sorted_head scored) as Hhead.
  destruct (Text.sort_by_score scored) as [|[r sc] rest].
  - rewrite Hhead in Hscored. symmetry in Hscored. apply map_eq_nil in Hscored.
    subst results. intros y [].
  - destruct Hhead as (pre & post & Hsplit & Hpre & Hpost).
    rewrite Hscored in Hsplit.
    apply WalkFacts.map_split in Hsplit
      as (l1 & x & l2 & -> & <- & Hx & <-).
    injection Hx as -> <-. cbn [snd] in *.
    assert (Hbefore : forall y, In y l1 ->
              (Text.score toLowerCase searchTerm y < Text.score toLowerCase searchTerm r)%Q).
    { intros y Hy.
      apply (Hpre (y, Text.score toLowerCase searchTerm y)).
      apply in_map_iff. now exists y. }
    assert (Hafter : forall y, In y l2 ->
              (Text.score toLowerCase searchTerm y <= Text.score toLowerCase searchTerm r)%Q).
    { intros y Hy.
      apply (Hpost (y, Text.score toLowerCase searchTerm y)).
      apply in_map_iff. now exists y. }
    destruct (Qle_bool (Text.score toLowerCase searchTerm r) (3 # 10)) eqn:E; cbn [negb].
    + apply Qle_bool_iff in E. intros y Hy.
      apply in_app_or in Hy as [Hy|[<-|Hy]].
      * apply Qlt_le_weak. eapply Qlt_le_trans; [now apply Hbefore|exact E].
      * exact E.
      * eapply Qle_trans; [now apply Hafter|exact E].
    + split; [reflexivity|]. split.
      * apply Qnot_le_lt. intros H. apply Qle_bool_iff in H. congruence.
      * exists l1, l2. auto.
Qed.

(** A search for 'One Piece' among three titles: the two films score
    1/2 and 2/3, the second is picked. *)
Example best_match_of_three :
  let results := [Text.mkResult (Text.of_string "Naruto") (Text.of_string "u1") [];
                  Text.mkResult (Text.of_string "One Piece Film Red")
                                (Text.of_string "u2") [];
                  Text.mkResult (Text.of_string "One Piece: Stampede")
                                (Text.of_string "u3") []] in
  option_map (fun m => (Text.url (fst m), snd m))
             (Text._findBestMatch Text.ascii_lower (Text.of_string "One Piece") results)
  = Some (Text.of_string "u3", 4 # 6).
Proof. vm_compute. reflexivity. Qed.

Module TidyFacts.
Import Text.

Lemma space_cases c :
  is_space c = true -> (9 <= c <= 13 \/ c = 32 \/ c = 160 \/ 5760 <= c)%N.
Proof.
  unfold is_space.
  rewrite !orb_true_iff, !andb_true_iff, !N.leb_le, !N.eqb_eq. lia.
Qed.

Lemma word_cases c :
  is_word c = true -> (48 <= c <= 57 \/ 65 <= c <= 90 \/ c = 95 \/ 97 <= c <= 122)%N.
Proof.
  unfold is_word.
  rewrite !orb_true_iff, !andb_true_iff, !N.leb_le, !N.eqb_eq. lia.
Qed.

Lemma word_not_space c : is_word c = true -> is_space c = false.
Proof.
  intros H. destruct (is_space c) eqn:E; [|reflexivity].
  apply space_cases in E. apply word_cases in H. lia.
Qed.

Lemma hyphen_not_space : is_space hyphen = false.
Proof. reflexivity. Qed.

Lemma allowed_space c : allowed c = true -> is_space c = true -> c = space.
Proof.
  unfold allowed. intros Ha Hs.
  destruct (is_word c) eqn:Ew; [apply word_not_space in Ew; congruence|].
  destruct (N.eqb_spec c hyphen) as [->|_]; [rewrite hyphen_not_space in Hs; discriminate|].
  simpl in Ha. now apply N.eqb_eq in Ha.
Qed.

Lemma trim_start_clean s : starts_clean (trim_start s).
Proof.
  induction s as [|c s IH]; simpl; [exact I|].
  destruct (is_space c) eqn:E; [exact IH|exact E].
Qed.

Lemma trim_start_same s : starts_clean s -> trim_start s = s.
Proof. destruct s as [|c s]; simpl; [reflexivity|]. now intros ->. Qed.

Lemma trim_start_suffix s : exists pre, s = pre ++ trim_start s.
Proof.
  induction s as [|c s [pre IH]]; simpl; [now exists []|].
  destruct (is_space c); [|now exists []].
  exists (c :: pre). simpl. now f_equal.
Qed.

Lemma no_run_tail a s : no_run (a :: s) = true -> no_run s = true.
Proof. simpl. intros H. now apply andb_true_iff in H as [_ H]. Qed.

Lemma no_run_suffix pre s : no_run (pre ++ s) = true -> no_run s = true.
Proof.
  induction pre as [|a pre IH]; [trivial|]. intros H. apply IH.
  now apply no_run_tail with a.
Qed.

Lemma no_run_snoc s a :
  no_run (s ++ [a])
  = no_run s && match rev s with
                | b :: _ => negb (is_space b && is_space a)
                | [] => true
                end.
Proof.
  induction s as [|x s IH]; [reflexivity|].
  change (no_run ((x :: s) ++ [a]))
    with (match s ++ [a] with
          | b :: _ => negb (is_space x && is_space b)
          | [] => true
          end && no_run (s ++ [a])).
  rewrite IH. clear IH.
  destruct s as [|y s'].
  - simpl. now rewrite !andb_true_r.
  - change (no_run (x :: y :: s'))
      with (negb (is_space x && is_space y) && no_run (y :: s')).
    change (rev (x :: y :: s')) with (rev (y :: s') ++ [x]).
    change ((y :: s') ++ [a]) with (y :: (s' ++ [a])). cbv iota.
    destruct (rev (y :: s')) as [|z l] eqn:E.
    + apply (f_equal (@length N)) in E. rewrite length_rev in E. discriminate.
    + cbn [app]. now rewrite andb_assoc.
Qed.

Lemma no_run_rev s : no_run (rev s) = no_run s.
Proof.
  induction s as [|a s IH]; [reflexivity|].
  cbn [rev]. rewrite no_run_snoc, IH, rev_involutive. simpl.
  destruct s as [|b s']; simpl; [reflexivity|].
  rewrite (andb_comm (is_space b) (is_space a)). apply andb_comm.
Qed.

Lemma forallb_rev {A} (f : A -> bool) l : forallb f (rev l) = forallb f l.
Proof.
  induction l as [|a l IH]; [reflexivity|].
  simpl. rewrite forallb_app, IH. simpl. rewrite andb_true_r. apply andb_comm.
Qed.

Lemma forallb_suffix {A} (f : A -> bool) pre l :
  forallb f (pre ++ l) = true -> forallb f l = true.
Proof. rewrite forallb_app. intros H. now apply andb_true_iff in H as [_ H]. Qed.

(** The last code unit of a suffix is that of the string. *)
Lemma rev_suffix_clean pre (s : jsstring) :
  s <> [] -> starts_clean (rev (pre ++ s)) -> starts_clean (rev s).
Proof.
  intros Hs. rewrite rev_app_distr.
  destruct (rev s) as [|c r] eqn:E; [|trivial].
  apply (f_equal (@rev N)) in E. rewrite rev_involutive in E. simpl in E. congruence.
Qed.

(** [replace(/\s+/g, ' ')] leaves allowed code units, single spaces only. *)
Lemma collapse_spec in_run s :
  forallb (fun c => is_word c || is_space c || (c =? hyphen)%N) s = true ->
  forallb allowed (collapse_from in_run s) = true /\
  no_run (collapse_from in_run s) = true /\
  (in_run = true -> starts_clean (collapse_from in_run s)).
Proof.
  revert in_run. induction s as [|c s IH]; intros in_run Hall; [simpl; auto|].
  cbn [forallb] in Hall. apply andb_true_iff in Hall as [Hc Hall].
  cbn [collapse_from]. destruct (is_space c) eqn:Es.
  - destruct (IH true Hall) as (H1 & H2 & H3). specialize (H3 eq_refl).
    destruct in_run; [auto|].
    split; [cbn [forallb]; rewrite H1; reflexivity|]. split; [|discriminate].
    cbn [no_run]. rewrite H2, andb_true_r.
    destruct (collapse_from true s) as [|d t]; [reflexivity|].
    cbn [starts_clean] in H3. rewrite H3, andb_false_r. reflexivity.
  - destruct (IH false Hall) as (H1 & H2 & _).
    assert (Ha : allowed c = true).
    { unfold allowed. rewrite orb_false_r in Hc.
      apply orb_true_iff in Hc as [->| ->]; [reflexivity|]. now rewrite orb_true_r. }
    split; [cbn [forallb]; now rewrite Ha, H1|]. split; [|intros _; exact Es].
    cbn [no_run]. rewrite H2, andb_true_r, Es.
    now destruct (collapse_from false s).
Qed.

Lemma collapse_same in_run s :
  forallb allowed s = true -> no_run s = true ->
  (in_run = true -> starts_clean s) ->
  collapse_from in_run s = s.
Proof.
  revert in_run. induction s as [|c s IH]; intros in_run Hall Hrun Hstart; [reflexivity|].
  cbn [forallb] in Hall. apply andb_true_iff in Hall as [Hc Hall].
  pose proof (no_run_tail _ _ Hrun) as Hrun'.
  cbn [collapse_from]. destruct (is_space c) eqn:Es.
  - destruct in_run; [specialize (Hstart eq_refl); cbn [starts_clean] in Hstart; congruence|].
    rewrite (allowed_space c Hc Es). f_equal.
    apply IH; [assumption|assumption|]. intros _.
    destruct s as [|d t]; [exact I|]. cbn [no_run] in Hrun.
    rewrite Es in Hrun. cbn [andb negb] in Hrun.
    apply andb_true_iff in Hrun as [Hd _]. now apply negb_true_iff in Hd.
  - f_equal. apply IH; [assumption|assumption|discriminate].
Qed.

Lemma replace_allowed class s :
  (forall c, class c = false -> (is_word c || is_space c || (c =? hyphen)%N) = true) ->
  forallb (fun c => is_word c || is_space c || (c =? hyphen)%N) (replace_class class s)
  = true.
Proof.
  intros Hc. unfold replace_class. induction s as [|c s IH]; [reflexivity|].
  cbn [map forallb]. rewrite IH, andb_true_r.
  destruct (class c) eqn:E; [reflexivity|now apply Hc].
Qed.

Lemma replace_same class s :
  (forall c, allowed c = true -> class c = false) ->
  forallb allowed s = true -> replace_class class s = s.
Proof.
  intros Hc. unfold replace_class. induction s as [|c s IH]; [reflexivity|].
  cbn [map forallb]. intros H. apply andb_true_iff in H as [Ha Hs].
  now rewrite (Hc c Ha), IH.
Qed.

(** [trim] of a string of allowed code units without runs of spaces. *)
Lemma trim_tidy s :
  forallb allowed s = true -> no_run s = true -> tidy (trim s).
Proof.
  intros Hall Hrun. unfold trim.
  destruct (trim_start_suffix s) as [pre1 H1].
  set (v := trim_start s) in *.
  destruct (trim_start_suffix (rev v)) as [pre2 H2].
  set (u := trim_start (rev v)) in *.
  assert (Hv : forallb allowed v = true /\ no_run v = true).
  { rewrite H1 in Hall, Hrun.
    split; [now apply forallb_suffix with pre1|now apply no_run_suffix with pre1]. }
  assert (Hu : forallb allowed u = true /\ no_run u = true).
  { destruct Hv as [Hv1 Hv2].
    rewrite <- forallb_rev in Hv1. rewrite <- no_run_rev in Hv2.
    rewrite H2 in Hv1, Hv2.
    split; [now apply forallb_suffix with pre2|now apply no_run_suffix with pre2]. }
  destruct Hu as [Hu1 Hu2].
  split; [now rewrite forallb_rev|]. split; [now rewrite no_run_rev|]. split.
  - destruct u as [|c u'] eqn:Eu; [exact I|].
    apply (rev_suffix_clean pre2 (c :: u')); [discriminate|].
    rewrite <- H2, rev_involutive. apply trim_start_clean.
  - rewrite rev_involutive. apply trim_start_clean.
Qed.

Lemma trim_same s : tidy s -> trim s = s.
Proof.
  intros (_ & _ & H1 & H2). unfold trim.
  now rewrite (trim_start_same s H1), (trim_start_same _ H2), rev_involutive.
Qed.

End TidyFacts.

(** X25: what the normalisations leave of a string. [_normalizeSearchQuery]
    and [_normalizeForComparison] return words of the code units
    [A-Za-z0-9_] and the hyphen, with single spaces between them and no
    white space at either end: every other code unit, an accented letter
    for one, has become a space or is gone. A string that is already so is
    left as it is by [_normalizeSearchQuery], which therefore changes
    nothing when applied a second time. *)
Theorem X25_normalised_strings_are_tidy :
  forall toLowerCase s,
    Text.tidy (Text._normalizeSearchQuery s) /\
    Text.tidy (Text._normalizeForComparison toLowerCase s) /\
    (Text.tidy s -> Text._normalizeSearchQuery s = s) /\
    Text._normalizeSearchQuery (Text._normalizeSearchQuery s)
    = Text._normalizeSearchQuery s.
Proof.
  intros toLowerCase s.
  assert (Hq : forall s, Text.tidy (Text._normalizeSearchQuery s)).
  { intros q. unfold Text._normalizeSearchQuery, Text.collapse.
    destruct (TidyFacts.collapse_spec false
                (Text.replace_class
                   (fun c => negb (Text.is_word c || Text.is_space c
                                   || (c =? Text.hyphen)%N)) q))
      as (H1 & H2 & _).
    - apply TidyFacts.replace_allowed. intros c Hc. now apply negb_false_iff in Hc.
    - now apply TidyFacts.trim_tidy. }
  assert (Hfix : forall s, Text.tidy s -> Text._normalizeSearchQuery s = s).
  { intros q Ht. pose proof Ht as (Hall & Hrun & Hstart & _).
    unfold Text._normalizeSearchQuery, Text.collapse.
    rewrite TidyFacts.replace_same; [|intros c Hc|assumption].
    - rewrite TidyFacts.collapse_same by (assumption || discriminate).
      now apply TidyFacts.trim_same.
    - apply negb_false_iff. unfold Text.allowed in Hc.
      apply orb_true_iff in Hc as [Hc|Hc].
      + apply orb_true_iff in Hc as [->| ->]; [reflexivity|].
        now rewrite orb_true_r.
      + apply N.eqb_eq in Hc. subst c. reflexivity. }
  split; [apply Hq|]. split; [|split; [apply Hfix|apply Hfix, Hq]].
  unfold Text._normalizeForComparison, Text.collapse.
  destruct (TidyFacts.collapse_spec false
              (Text.replace_class
                 (fun c => negb (Text.is_word c || Text.is_space c)) (toLowerCase s)))
    as (H1 & H2 & _).
  - apply TidyFacts.replace_allowed. intros c Hc. apply negb_false_iff in Hc.
    now rewrite Hc.
  - now apply TidyFacts.trim_tidy.
Qed.

(** An accented title: the e acute of 'Pokémon', code unit 233, becomes a
    space, and the title two words. *)
Example accents_are_dropped :
  Text._normalizeForComparison Text.ascii_lower
    (Text.of_string "Pok" ++ [233%N] ++ Text.of_string "mon")
  = Text.of_string "pok mon".
Proof. reflexivity. Qed.

(** ** A provider that finds nothing, and the rest of the chain *)

Module ContinueFacts.
Import PosterSource.

(** A source that was called keeps its name, also through the [catch] of
    the chain. *)
Lemma attempted_name animeId animeName a s :
  name (FallbackChain.base (ChainMore.attempted animeId animeName a s))
  = name (FallbackChain.base s).
Proof.
  unfold ChainMore.attempted.
  pose proof (WalkFacts.fetch_name animeId animeName a s) as Hn.
  destruct (FallbackChain.source_fetchPoster animeId animeName a s) as [[u|e] s'];
    cbn [snd] in Hn; [assumption|].
  destruct (_ <=? _); [|assumption].
  now rewrite WalkFacts.set_base_name.
Qed.

(** A walk leaves the sources it does not go through as they are. *)
Lemma walk_keeps animeId animeName world ordered srcs k :
  ChainMore.keyed srcs -> List.NoDup ordered -> ~ In k ordered ->
  JsMap.get k (snd (FallbackChain.walk animeId animeName world ordered srcs))
  = JsMap.get k srcs.
Proof.
  intros Hk Hnd Hnin.
  destruct (WalkFacts.walk_spec animeId animeName world ordered srcs Hk Hnd)
    as (_ & _ & tried & rest & Hsplit & Hout & _).
  apply Hout. intros Hin. apply Hnin. rewrite Hsplit. apply in_or_app. now left.
Qed.

(** One turn of the loop on an available source that returns no poster:
    the walk goes on with the rest, the source being as the call and the
    [catch] left it. *)
Lemma walk_step animeId animeName world n rest srcs s :
  JsMap.get n srcs = Some s ->
  isAvailable (FallbackChain.base s) = true ->
  Attempts.found (fst (FallbackChain.source_fetchPoster animeId animeName (world n) s))
  = false ->
  FallbackChain.walk animeId animeName world (n :: rest) srcs
  = FallbackChain.walk animeId animeName world rest
      (JsMap.set n (ChainMore.attempted animeId animeName (world n) s) srcs).
Proof.
  intros Hget Hav Hnf. simpl. rewrite Hget, Hav. cbn [negb].
  unfold ChainMore.attempted.
  destruct (FallbackChain.source_fetchPoster animeId animeName (world n) s)
    as [[[posterUrl|]|e] s']; cbn [fst] in Hnf; try reflexivity.
  simpl in Hnf. destruct (Js.truthy posterUrl); [discriminate|reflexivity].
Qed.

(** The walk reaches a source when those before it in the order return no
    poster: the source, if it is available, is called, and the poster it
    returns is the result of the walk. *)
Lemma walk_reaches animeId animeName world :
  forall pre srcs k post sk,
    ChainMore.keyed srcs -> List.NoDup (pre ++ k :: post) ->
    (forall j sj, In j pre -> JsMap.get j srcs = Some sj ->
       isAvailable (FallbackChain.base sj) = true ->
       Attempts.found
         (fst (FallbackChain.source_fetchPoster animeId animeName (world j) sj))
       = false) ->
    JsMap.get k srcs = Some sk ->
    isAvailable (FallbackChain.base sk) = true ->
    JsMap.get k (snd (FallbackChain.walk animeId animeName world (pre ++ k :: post) srcs))
    = Some (ChainMore.attempted animeId animeName (world k) sk) /\
    (forall u,
       fst (FallbackChain.source_fetchPoster animeId animeName (world k) sk)
       = Err.Return (Some u) ->
       Js.truthy u = true ->
       fst (FallbackChain.walk animeId animeName world (pre ++ k :: post) srcs)
       = FallbackChain.mkResult (Some u) k).
Proof.
  induction pre as [|j pre IH]; intros srcs k post sk Hk Hnd Hpre Hget Hav.
  - cbn [app] in *. inversion Hnd as [|? ? Hnin Hnd']; subst.
    pose proof (WalkFacts.get_keyed _ _ _ Hk Hget) as Hname.
    destruct (Attempts.found
                (fst (FallbackChain.source_fetchPoster animeId animeName (world k) sk)))
      eqn:Ef.
    + (* the source returns a poster: the walk ends there *)
      simpl. rewrite Hget, Hav. cbn [negb].
      pose proof (WalkFacts.fetch_name animeId animeName (world k) sk) as Hn.
      unfold ChainMore.attempted.
      destruct (FallbackChain.source_fetchPoster animeId animeName (world k) sk)
        as [[[posterUrl|]|e] s'] eqn:E; cbn [fst snd] in *; try discriminate.
      simpl in Ef. destruct (Js.truthy posterUrl) eqn:Et; [|discriminate].
      cbn [fst snd]. split; [apply JsMapFacts.get_set_same|].
      intros u [= <-] _. now rewrite Hn, Hname.
    + rewrite (walk_step _ _ _ _ _ _ _ Hget Hav Ef).
      split.
      * rewrite walk_keeps; [apply JsMapFacts.get_set_same| |assumption|assumption].
        apply WalkFacts.keyed_set; [assumption|].
        now rewrite attempted_name.
      * intros u Hu Ht. rewrite Hu in Ef. simpl in Ef. now rewrite Ht in Ef.
  - cbn [app] in *. inversion Hnd as [|? ? Hnin Hnd']; subst.
    assert (Hjk : j <> k).
    { intros ->. apply Hnin. apply in_or_app. right. now left. }
    destruct (JsMap.get j srcs) as [sj|] eqn:Ej.
    + destruct (isAvailable (FallbackChain.base sj)) eqn:Eav.
      * pose proof (Hpre j sj ltac:(now left) Ej Eav) as Hnf.
        rewrite (walk_step _ _ _ _ _ _ _ Ej Eav Hnf).
        apply IH; try assumption.
        -- apply WalkFacts.keyed_set; [assumption|].
           rewrite attempted_name. now apply (WalkFacts.get_keyed _ srcs).
        -- intros j' sj' Hin Hj'. rewrite JsMapFacts.get_set_other in Hj'.
           ++ apply Hpre; [now right|assumption].
           ++ intros ->. apply Hnin. apply in_or_app. now left.
        -- rewrite JsMapFacts.get_set_other; [assumption|congruence].
      * assert (Hw : FallbackChain.walk animeId animeName world
                       (j :: pre ++ k :: post) srcs
                     = FallbackChain.walk animeId animeName world (pre ++ k :: post) srcs).
        { simpl. now rewrite Ej, Eav. }
        rewrite Hw. apply IH; try assumption.
        intros j' sj' Hin. apply Hpre. now right.
    + assert (Hw : FallbackChain.walk animeId animeName world
                     (j :: pre ++ k :: post) srcs
                   = FallbackChain.walk animeId animeName world (pre ++ k :: post) srcs).
      { simpl. now rewrite Ej. }
      rewrite Hw. apply IH; try assumption.
      intros j' sj' Hin. apply Hpre. now right.
Qed.

(** The place of a registered, enabled source in the order of the walk:
    the sources before it have a priority that is no greater, the sources
    after it one that is no smaller. *)
Lemma place_in_order c k sk :
  ChainMore.keyed (FallbackChain.sources c) ->
  JsMap.get k (FallbackChain.sources c) = Some sk ->
  isEnabled (FallbackChain.base sk) = true ->
  exists pre post,
    ChainMore.ordered_names c = pre ++ k :: post /\
    (forall j sj, In j pre -> JsMap.get j (FallbackChain.sources c) = Some sj ->
       j <> k /\ priority (FallbackChain.base sj) <= priority (FallbackChain.base sk)) /\
    (forall j sj, In j post -> JsMap.get j (FallbackChain.sources c) = Some sj ->
       j <> k /\ priority (FallbackChain.base sk) <= priority (FallbackChain.base sj)).
Proof.
  intros Hk Hget Hen.
  pose proof (WalkFacts.get_keyed _ _ _ Hk Hget) as Hname.
  assert (Hin : In sk (FallbackChain._getOrderedSources c)).
  { apply WalkFacts.in_ordered. split; [now apply WalkFacts.get_in_sources with k|assumption]. }
  apply in_split in Hin as (l1 & l2 & Hl).
  pose proof (WalkFacts.ordered_nodup c Hk) as Hnd.
  destruct (ChainFacts.ordered_sources c) as [Hsorted _].
  rewrite Hl in Hsorted. apply WalkFacts.sorted_split in Hsorted as [Hbefore Hafter].
  assert (Hreg : forall y, In y (l1 ++ sk :: l2) ->
                   JsMap.get (name (FallbackChain.base y)) (FallbackChain.sources c)
                   = Some y).
  { intros y Hy. rewrite <- Hl in Hy. apply WalkFacts.in_ordered in Hy as [Hy _].
    now apply WalkFacts.in_sources_get. }
  unfold ChainMore.ordered_names in *. rewrite Hl in *.
  rewrite map_app in *. cbn [map] in *. rewrite Hname in *.
  exists (map (fun s => name (FallbackChain.base s)) l1),
         (map (fun s => name (FallbackChain.base s)) l2).
  split; [reflexivity|]. split.
  - intros j sj Hj Hsj. apply in_map_iff in Hj as (y & Hy & Hyin).
    pose proof (Hreg y ltac:(apply in_or_app; now left)) as H.
    rewrite Hy, Hsj in H. assert (y = sj) by congruence. subst y.
    split; [|now apply Hbefore].
    intros ->. apply NoDup_remove_2 in Hnd. apply Hnd.
    apply in_or_app. left. apply in_map_iff. now exists sj.
  - intros j sj Hj Hsj. apply in_map_iff in Hj as (y & Hy & Hyin).
    pose proof (Hreg y ltac:(apply in_or_app; right; now right)) as H.
    rewrite Hy, Hsj in H. assert (y = sj) by congruence. subst y.
    split; [|now apply Hafter].
    intros ->. apply NoDup_remove_2 in Hnd. apply Hnd.
    apply in_or_app. right. apply in_map_iff. now exists sj.
Qed.

(** Every name of the order is the name of a registered source. *)
Lemma ordered_registered c j :
  ChainMore.keyed (FallbackChain.sources c) ->
  In j (ChainMore.ordered_names c) ->
  exists sj, JsMap.get j (FallbackChain.sources c) = Some sj.
Proof.
  intros Hk Hin. unfold ChainMore.ordered_names in Hin.
  apply in_map_iff in Hin as (y & Hy & Hyin).
  apply WalkFacts.in_ordered in Hyin as [Hyin _].
  exists y. rewrite <- Hy. now apply WalkFacts.in_sources_get.
Qed.

End ContinueFacts.

(** C6: an attempt of the chain that completes without an error and
    without a poster URL is a success of its provider, and the chain goes
    on. Let the walk reach the provider [n], which is available: the
    registered providers of a priority that is not greater are not
    available or return no poster. If the call of [n] returns without a
    URL, then [n] is left as that call left it, with one more request and
    one more success counted, no consecutive failure and the failures it
    had. The provider next in the order of priority is tried: a provider
    [k] of greater priority that is available, those between the two not
    being available, is called, and the poster it returns is the result of
    the chain. When no provider of greater priority is available, the
    chain returns no poster, with 'all_sources_failed'. *)
Theorem C6_not_found_is_a_success_and_chain_continues :
  forall animeId animeName world c n s u,
    let sources := FallbackChain.sources c in
    let priority_of x := PosterSource.priority (FallbackChain.base x) in
    let available x := PosterSource.isAvailable (FallbackChain.base x) in
    let call j sj := FallbackChain.source_fetchPoster animeId animeName (world j) sj in
    let r := fst (FallbackChain.fetchPoster animeId animeName world c) in
    let sources' := FallbackChain.sources
                      (snd (FallbackChain.fetchPoster animeId animeName world c)) in
    ChainMore.keyed sources ->
    JsMap.get n sources = Some s ->
    available s = true ->
    (forall j sj, JsMap.get j sources = Some sj -> j <> n ->
       priority_of sj <= priority_of s ->
       available sj = false \/ Attempts.found (fst (call j sj)) = false) ->
    fst (call n s) = Err.Return u ->
    no_url u = true ->
    (* a success of the provider *)
    (JsMap.get n sources' = Some (snd (call n s)) /\
     let m := PosterSource.metrics (FallbackChain.base s) in
     let m' := PosterSource.metrics (FallbackChain.base (snd (call n s))) in
     PosterSource.totalRequests m' = PosterSource.totalRequests m + 1 /\
     PosterSource.successfulRequests m' = PosterSource.successfulRequests m + 1 /\
     PosterSource.consecutiveFailures m' = 0 /\
     PosterSource.failedRequests m' = PosterSource.failedRequests m) /\
    (* the next provider is tried *)
    (forall k sk,
       JsMap.get k sources = Some sk ->
       available sk = true ->
       priority_of s < priority_of sk ->
       (forall j sj, JsMap.get j sources = Some sj -> j <> k ->
          priority_of s < priority_of sj <= priority_of sk -> available sj = false) ->
       JsMap.get k sources'
       = Some (ChainMore.attempted animeId animeName (world k) sk) /\
       (forall u', fst (call k sk) = Err.Return (Some u') -> Js.truthy u' = true ->
          r = FallbackChain.mkResult (Some u') k)) /\
    (* no provider is left *)
    ((forall j sj, JsMap.get j sources = Some sj ->
        priority_of s < priority_of sj -> available sj = false) ->
     r = FallbackChain.mkResult None "all_sources_failed").
Proof.
  intros animeId animeName world c n s u sources priority_of available call r sources'
         Hk Hget Hav Hbefore Hret Hnone.
  subst sources priority_of available call r sources'. cbn beta in *.
  assert (Hen : PosterSource.isEnabled (FallbackChain.base s) = true).
  { unfold PosterSource.isAvailable in Hav. now apply andb_true_iff in Hav as [Hen _]. }
  assert (Hnf : Attempts.found
                  (fst (FallbackChain.source_fetchPoster animeId animeName (world n) s))
                = false).
  { rewrite Hret. simpl. now rewrite Hnone. }
  assert (Hord : FallbackChain._getOrderedSources c <> []).
  { intros Ho.
    assert (Hin : In s (FallbackChain._getOrderedSources c)).
    { apply WalkFacts.in_ordered.
      split; [now apply WalkFacts.get_in_sources with n|assumption]. }
    rewrite Ho in Hin. destruct Hin. }
  rewrite (WalkFacts.fetchPoster_walk animeId animeName world c Hord).
  cbn [fst snd FallbackChain.sources].
  pose proof (WalkFacts.ordered_nodup c Hk) as Hnd.
  split; [|split].
  - (* the provider itself *)
    destruct (ContinueFacts.place_in_order c n s Hk Hget Hen)
      as (pre & post & Hsplit & Hpre & _).
    rewrite Hsplit in *.
    destruct (ContinueFacts.walk_reaches animeId animeName world pre
                (FallbackChain.sources c) n post s Hk Hnd) as [Hstate _];
      try assumption.
    { intros j sj Hj Hsj Havj. destruct (Hpre j sj Hj Hsj) as [Hjn Hle].
      destruct (Hbefore j sj Hsj Hjn Hle) as [H|H]; [congruence|assumption]. }
    split.
    + rewrite Hstate. unfold ChainMore.attempted.
      destruct (FallbackChain.source_fetchPoster animeId animeName (world n) s)
        as [[x|e] s']; [reflexivity|discriminate].
    + destruct (AttemptFacts.returned_without_poster _ _ _ _ _ Hret Hnone)
        as (_ & b & Hb & Hbase).
      cbn zeta. rewrite Hbase.
      pose proof (SourceFacts.recordSuccess_metrics
                    (FallbackChain.t_end (world n) - FallbackChain.t_start (world n))
                    (FallbackChain.t_end (world n)) b) as (H1 & H2 & H3 & H4 & _).
      simpl in H1, H2, H3, H4. rewrite <- Hb. auto.
  - (* the next provider *)
    intros k sk Hgetk Havk Hlt Hbetween.
    assert (Henk : PosterSource.isEnabled (FallbackChain.base sk) = true).
    { unfold PosterSource.isAvailable in Havk. now apply andb_true_iff in Havk as [H _]. }
    destruct (ContinueFacts.place_in_order c k sk Hk Hgetk Henk)
      as (pre & post & Hsplit & Hpre & _).
    rewrite Hsplit in *.
    apply (ContinueFacts.walk_reaches animeId animeName world pre
             (FallbackChain.sources c) k post sk Hk Hnd); try assumption.
    intros j sj Hj Hsj Havj. destruct (Hpre j sj Hj Hsj) as [Hjk Hle].
    destruct (String.eqb_spec j n) as [->|Hjn].
    + assert (sj = s) by congruence. now subst sj.
    + destruct (Z_le_gt_dec (PosterSource.priority (FallbackChain.base sj))
                            (PosterSource.priority (FallbackChain.base s))) as [Hle'|Hgt].
      * destruct (Hbefore j sj Hsj Hjn Hle') as [H|H]; [congruence|assumption].
      * rewrite (Hbetween j sj Hsj Hjk ltac:(lia)) in Havj. discriminate.
  - (* no provider is left *)
    intros Hafter.
    destruct (WalkFacts.walk_spec animeId animeName world (ChainMore.ordered_names c)
                (FallbackChain.sources c) Hk Hnd)
      as (_ & _ & tried & rest & _ & _ & _ & _ & Hres).
    destruct (FallbackChain.walk animeId animeName world (ChainMore.ordered_names c)
                (FallbackChain.sources c)) as [[url source] srcs'].
    cbn [fst snd FallbackChain.url FallbackChain.source] in *.
    destruct url as [x|].
    + exfalso. destruct Hres as (Htr & _ & sw & Hsw & Havw & Hfound).
      assert (Hf : Attempts.found
                     (fst (FallbackChain.source_fetchPoster animeId animeName
                             (world source) sw)) = true).
      { rewrite Hfound. simpl. now rewrite Htr. }
      destruct (String.eqb_spec source n) as [->|Hsn].
      * assert (sw = s) by congruence. subst sw. congruence.
      * destruct (Z_le_gt_dec (PosterSource.priority (FallbackChain.base sw))
                              (PosterSource.priority (FallbackChain.base s))) as [Hle|Hgt].
        -- destruct (Hbefore source sw Hsw Hsn Hle) as [H|H]; congruence.
        -- rewrite (Hafter source sw Hsw ltac:(lia)) in Havw. discriminate.
    + destruct Hres as [-> _]. reflexivity.
Qed.

Lemma C6_not_found_is_a_success_and_chain_continues_witness :
  let sources := FallbackChain.sources sample_chain in
  let s := FallbackChain.Kitsu test_kitsu in
  let priority_of x := PosterSource.priority (FallbackChain.base x) in
  let available x := PosterSource.isAvailable (FallbackChain.base x) in
  let call j sj := FallbackChain.source_fetchPoster "123" "X" (sample_world j) sj in
  let r := fst (FallbackChain.fetchPoster "123" "X" sample_world sample_chain) in
  let sources' := FallbackChain.sources
                    (snd (FallbackChain.fetchPoster "123" "X" sample_world sample_chain)) in
  (JsMap.get "kitsu" sources' = Some (snd (call "kitsu" s)) /\
   let m := PosterSource.metrics (FallbackChain.base s) in
   let m' := PosterSource.metrics (FallbackChain.base (snd (call "kitsu" s))) in
   PosterSource.totalRequests m' = PosterSource.totalRequests m + 1 /\
   PosterSource.successfulRequests m' = PosterSource.successfulRequests m + 1 /\
   PosterSource.consecutiveFailures m' = 0 /\
   PosterSource.failedRequests m' = PosterSource.failedRequests m) /\
  (forall k sk,
     JsMap.get k sources = Some sk ->
     available sk = true ->
     priority_of s < priority_of sk ->
     (forall j sj, JsMap.get j sources = Some sj -> j <> k ->
        priority_of s < priority_of sj <= priority_of sk -> available sj = false) ->
     JsMap.get k sources'
     = Some (ChainMore.attempted "123" "X" (sample_world k) sk) /\
     (forall u', fst (call k sk) = Err.Return (Some u') -> Js.truthy u' = true ->
        r = FallbackChain.mkResult (Some u') k)) /\
  ((forall j sj, JsMap.get j sources = Some sj ->
      priority_of s < priority_of sj -> available sj = false) ->
   r = FallbackChain.mkResult None "all_sources_failed").
Proof.
  refine (C6_not_found_is_a_success_and_chain_continues "123" "X" sample_world
            sample_chain "kitsu" (FallbackChain.Kitsu test_kitsu) None
            _ eq_refl eq_refl _ eq_refl eq_refl).
  - split; [repeat constructor|].
    vm_compute. repeat constructor; simpl; intuition discriminate.
  - intros j sj Hj Hjn Hle. left.
    cbn in Hj. destruct (String.eqb j "Nautiljon") eqn:E1.
    + injection Hj as <-. vm_compute in Hle. now contradiction Hle.
    + destruct (String.eqb j "kitsu") eqn:E2; [|discriminate].
      apply String.eqb_eq in E2. contradiction.
Defined.

(** On the sample: Kitsu answers 404, which counts as a success for Kitsu,
    and Nautiljon, next in the order of priority, is called and supplies
    the poster. *)
Example nautiljon_is_tried_after_kitsu :
  let r := FallbackChain.fetchPoster "123" "X" sample_world sample_chain in
  let nautiljon := FallbackChain.Nautiljon (NautiljonSource.new PosterSource.empty_config) in
  fst (FallbackChain.source_fetchPoster "123" "X" (sample_world "kitsu")
         (FallbackChain.Kitsu test_kitsu)) = Err.Return None /\
  JsMap.get "Nautiljon" (FallbackChain.sources (snd r))
  = Some (ChainMore.attempted "123" "X" (sample_world "Nautiljon") nautiljon) /\
  option_map (fun s => PosterSource.totalRequests
                         (PosterSource.metrics (FallbackChain.base s)))
             (JsMap.get "Nautiljon" (FallbackChain.sources (snd r))) = Some 1 /\
  fst r = FallbackChain.mkResult (Some "https://www.nautiljon.com/images/x.jpg")
                                 "Nautiljon".
Proof. vm_compute. repeat split. Qed.

(** ** Requests in flight and the circuit breaker *)

Module FlightFacts.
Import PosterSource Breaker BreakerSpec.

Lemma canMakeRequest_cases now cb :
  (fst (_canMakeRequest now cb) = false /\
   circuitState cb = OPEN /\ now < nextAttemptTime cb /\
   snd (_canMakeRequest now cb) = cb) \/
  (fst (_canMakeRequest now cb) = true /\
   ~ (circuitState cb = OPEN /\ now < nextAttemptTime cb) /\
   circuitState (snd (_canMakeRequest now cb)) = on_entry (circuitState cb) /\
   nextAttemptTime (snd (_canMakeRequest now cb)) = nextAttemptTime cb /\
   failureThreshold (snd (_canMakeRequest now cb)) = failureThreshold cb /\
   disableDuration (snd (_canMakeRequest now cb)) = disableDuration cb).
Proof.
  unfold _canMakeRequest. destruct (circuitState cb) eqn:Es.
  - right. simpl. rewrite Es. repeat split. intros [H _]. discriminate.
  - destruct (nextAttemptTime cb <=? now) eqn:E.
    + right. apply Z.leb_le in E. simpl. repeat split. intros [_ H]. lia.
    + left. apply Z.leb_gt in E. auto.
  - right. simpl. rewrite Es. repeat split. intros [H _]. discriminate.
Qed.

(** A call up to its first pending [await]: the base of the source is as
    it was, and the breaker is as [_canMakeRequest] left it; when the
    breaker throws the call back the source is as it was. *)
Lemma enter_breaker animeId animeName now s cb :
  breaker s = Some cb ->
  let r := Flights.enter animeId animeName now s in
  FallbackChain.base (snd r) = FallbackChain.base s /\
  breaker (snd r) = Some (snd (_canMakeRequest now cb)) /\
  ((fst (_canMakeRequest now cb) = false /\
    fst r = Flights.Refused (Err.CircuitOpen (name (FallbackChain.base s))) /\
    snd r = s) \/
   (fst (_canMakeRequest now cb) = true /\
    forall n, fst r <> Flights.Refused (Err.CircuitOpen n))).
Proof.
  intros Hb.
  destruct s as [k|t|n]; simpl in Hb; [| |discriminate]; injection Hb as <-;
    unfold Flights.enter.
  - unfold Flights.kitsu_enter.
    destruct (canMakeRequest_cases now (KitsuSource.cb k))
      as [(Hcan & _ & _ & Hsame)|(Hcan & _)];
      destruct (_canMakeRequest now (KitsuSource.cb k)) as [can c];
      cbn [fst snd] in *; subst can; cbn [negb].
    + subst c. cbn. rewrite KitsuBreaker.kitsu_with_cb_same. repeat split. left. repeat split.
    + destruct (negb (Js.truthy animeId) || Js.isNaN animeId)%bool;
        [cbn; repeat split; right; split; [reflexivity|discriminate]|].
      destruct (negb (isAvailable (KitsuSource.base (KitsuSource.with_cb k c))));
        [cbn; repeat split; right; split; [reflexivity|discriminate]|].
      destruct (KitsuSource.waitTime now (KitsuSource.with_cb k c));
        cbn; repeat split; right; split; try reflexivity; discriminate.
  - unfold Flights.tmdb_enter.
    destruct (canMakeRequest_cases now (TMDBSource.cb t))
      as [(Hcan & _ & _ & Hsame)|(Hcan & _)];
      destruct (_canMakeRequest now (TMDBSource.cb t)) as [can c];
      cbn [fst snd] in *; subst can; cbn [negb].
    + subst c. cbn. rewrite TmdbBreaker.tmdb_with_cb_same. repeat split. left. repeat split.
    + destruct (negb (Js.truthy animeName));
        [cbn; repeat split; right; split; [reflexivity|discriminate]|].
      destruct (TMDBSource.apiKey (TMDBSource.with_cb t c));
        [|cbn; repeat split; right; split; [reflexivity|discriminate]].
      destruct (negb (isAvailable (TMDBSource.base (TMDBSource.with_cb t c))));
        [cbn; repeat split; right; split; [reflexivity|discriminate]|].
      destruct (TMDBSource.waitTime now (TMDBSource.with_cb t c));
        cbn; repeat split; right; split; try reflexivity; discriminate.
Qed.

Lemma waited_keeps now s :
  FallbackChain.base (Flights.waited now s) = FallbackChain.base s /\
  breaker (Flights.waited now s) = breaker s.
Proof. destruct s; split; reflexivity. Qed.

Lemma on_success_spec s cb :
  breaker s = Some cb ->
  breaker (Flights.on_success s) = Some (fst (_onSuccess cb (FallbackChain.base s))) /\
  FallbackChain.base (Flights.on_success s) = snd (_onSuccess cb (FallbackChain.base s)).
Proof.
  intros Hb. destruct s as [k|t|n]; simpl in Hb; [| |discriminate]; injection Hb as <-;
    unfold Flights.on_success; cbn [FallbackChain.base base_of KitsuSource.source_class
                                     TMDBSource.source_class].
  - destruct (_onSuccess (KitsuSource.cb k) (KitsuSource.base k)); split; reflexivity.
  - destruct (_onSuccess (TMDBSource.cb t) (TMDBSource.base t)); split; reflexivity.
Qed.

Lemma recordFailure_spec e rt now s cb :
  breaker s = Some cb ->
  breaker (Flights.recordFailure e rt now s)
  = Some (fst (Breaker._recordFailure e rt now cb (FallbackChain.base s))) /\
  FallbackChain.base (Flights.recordFailure e rt now s)
  = snd (Breaker._recordFailure e rt now cb (FallbackChain.base s)).
Proof.
  intros Hb. destruct s as [k|t|n]; simpl in Hb; [| |discriminate]; injection Hb as <-;
    unfold Flights.recordFailure;
    cbn [FallbackChain.base base_of record_failure KitsuSource.source_class
         TMDBSource.source_class].
  - unfold KitsuSource._recordFailure.
    destruct (Breaker._recordFailure e rt now (KitsuSource.cb k) (KitsuSource.base k));
      split; reflexivity.
  - unfold TMDBSource._recordFailure.
    destruct (Breaker._recordFailure e rt now (TMDBSource.cb t) (TMDBSource.base t));
      split; reflexivity.
Qed.

(** What the answer does to a source with a breaker before the request is
    settled: the breaker and the metrics are as they were, up to
    [_onSuccess] when a poster comes back. *)
Lemma respond_spec a ph now s cb o s1 :
  breaker s = Some cb ->
  Flights.respond a ph now s = Some (o, s1) ->
  exists s0,
    breaker s0 = Some cb /\
    Attempts.as_before (FallbackChain.base s0) (FallbackChain.base s) /\
    s1 = match o with
         | Flights.Returned (Some _) => Flights.on_success s0
         | _ => s0
         end.
Proof.
  intros Hb Hr.
  destruct s as [k|t|n]; simpl in Hb; [| |discriminate]; injection Hb as <-.
  - exists (FallbackChain.Kitsu k). split; [reflexivity|].
    split; [apply EffectFacts.as_before_refl|].
    destruct a as [poster|status statusText|m| | |]; destruct ph; try discriminate;
      cbn in Hr.
    + destruct (match poster with
                | Some p => Js.str_or (KitsuSource.large p)
                              (Js.str_or (KitsuSource.medium p)
                                 (Js.str_or (KitsuSource.original p) None))
                | None => None
                end) as [url|]; injection Hr as <- <-; reflexivity.
    + destruct (status =? 404); injection Hr as <- <-; reflexivity.
    + injection Hr as <- <-. reflexivity.
  - destruct a as [| | |r| |]; destruct ph; try discriminate; cbn in Hr;
      pose proof (EffectFacts.tmdb_search_base now r t) as (Hm & Hc & _);
      destruct (TMDBSource._search now r t) as [[url|] t1]; cbn [fst snd] in *;
      injection Hr as <- <-; exists (FallbackChain.Tmdb t1);
      (split; [cbn; now rewrite Hc|]); (split; [exact Hm|reflexivity]).
Qed.

(** A failure recorded at [now] is a step of the breaker. *)
Lemma recordFailure_step e rt now cb b :
  let r := Breaker._recordFailure e rt now cb b in
  failureThreshold (fst r) = failureThreshold cb /\
  disableDuration (fst r) = disableDuration cb /\
  step (failureThreshold cb) (disableDuration cb) (state_of cb b) (Failed now)
       (state_of (fst r) (snd r)).
Proof.
  cbn zeta. unfold Breaker._recordFailure.
  destruct (BreakerMore.base_recordFailure e rt b) as (_ & _ & _ & Hcf & Hdis & _).
  cbn zeta in Hcf, Hdis.
  set (b1 := PosterSource._recordFailure e rt b) in *.
  assert (Hcase : circuitState cb = HALF_OPEN \/ circuitState cb <> HALF_OPEN)
    by (destruct (circuitState cb); auto; right; discriminate).
  destruct Hcase as [Hh|Hh].
  - rewrite (BreakerMore.onFailure_half_open now cb b1 Hh). cbn [fst snd].
    split; [reflexivity|]. split; [reflexivity|].
    match goal with |- step _ _ _ _ ?post =>
      replace post with (mkState OPEN (now + disableDuration cb) (failures (state_of cb b) + 1) true)
        by (unfold state_of; cbn; now rewrite Hcf)
    end.
    apply step_failed_opens. now left.
  - rewrite (BreakerMore.onFailure_closed now cb b1 Hh).
    destruct (failureThreshold cb <=? consecutiveFailures (metrics b1)) eqn:E;
      cbn [fst snd].
    + apply Z.leb_le in E. split; [reflexivity|]. split; [reflexivity|].
      match goal with |- step _ _ _ _ ?post =>
        replace post with (mkState OPEN (now + disableDuration cb) (failures (state_of cb b) + 1) true)
          by (unfold state_of; cbn; now rewrite Hcf)
      end.
      apply step_failed_opens. right. cbn. lia.
    + apply Z.leb_gt in E. split; [reflexivity|]. split; [reflexivity|].
      replace (state_of cb b1)
        with (mkState (state (state_of cb b)) (nextAttemptAt (state_of cb b))
                      (failures (state_of cb b) + 1) (disabled (state_of cb b)))
        by (unfold state_of; cbn; now rewrite Hcf, Hdis).
      apply step_failed_counts; [exact Hh|cbn; lia].
Qed.

(** A poster that comes back is a step of the breaker, whether the success
    is recorded or not. *)
Lemma found_step thr cd cb b rt now (recorded : bool) :
  let c1 := fst (_onSuccess cb b) in
  let b1 := snd (_onSuccess cb b) in
  let b2 := if recorded then _recordSuccess rt now b1 else b1 in
  failureThreshold c1 = failureThreshold cb /\
  disableDuration c1 = disableDuration cb /\
  step thr cd (state_of cb b) (Found recorded) (state_of c1 b2).
Proof.
  cbn zeta. unfold _onSuccess.
  assert (Hcase : circuitState cb = HALF_OPEN \/ circuitState cb <> HALF_OPEN)
    by (destruct (circuitState cb); auto; right; discriminate).
  destruct Hcase as [Hh|Hh].
  - rewrite Hh. cbn [fst snd]. split; [reflexivity|]. split; [reflexivity|].
    match goal with |- step _ _ _ _ ?post =>
      replace post with (mkState CLOSED (nextAttemptAt (state_of cb b)) 0 false)
        by (destruct recorded; reflexivity)
    end.
    apply step_found_closes. exact Hh.
  - assert (Hsame : match circuitState cb with
                    | HALF_OPEN =>
                        (with_state cb CLOSED,
                         with_metrics b
                           (set_isTemporarilyDisabled false
                              (set_consecutiveFailures 0 (metrics b))))
                    | _ => (cb, b)
                    end = (cb, b))
      by (destruct (circuitState cb); congruence).
    rewrite Hsame. cbn [fst snd]. split; [reflexivity|]. split; [reflexivity|].
    destruct recorded.
    + match goal with |- step _ _ _ _ ?post =>
        replace post with (mkState (state (state_of cb b)) (nextAttemptAt (state_of cb b)) 0
                      (disabled (state_of cb b)))
          by reflexivity
      end.
      now apply step_found_recorded.
    + now apply step_found_dropped.
Qed.

Lemma recordSuccess_state rt now cb b :
  state_of cb (_recordSuccess rt now b)
  = mkState (state (state_of cb b)) (nextAttemptAt (state_of cb b)) 0
            (disabled (state_of cb b)).
Proof. reflexivity. Qed.

(** What the callback of a timer does to the breaker. *)
Lemma run_timer_state a s cb :
  breaker s = Some cb ->
  breaker (Attempts.run_timer_on a s) = Some cb /\
  state_of cb (FallbackChain.base (Attempts.run_timer_on a s))
  = fired (state_of cb (FallbackChain.base s)) a.
Proof.
  intros Hb. destruct s as [k|t|n]; simpl in Hb; [| |discriminate]; injection Hb as <-;
    destruct a as [| |l]; cbn; try (split; reflexivity).
  - unfold state_of. cbn. destruct (circuitState (KitsuSource.cb k)); split; reflexivity.
  - unfold state_of. cbn. destruct (circuitState (TMDBSource.cb t)); split; reflexivity.
Qed.

Lemma run_timers_state l :
  forall s cb,
    breaker s = Some cb ->
    breaker (fold_left (fun s t => Attempts.run_timer_on (action t) s) l s) = Some cb /\
    state_of cb (FallbackChain.base
                   (fold_left (fun s t => Attempts.run_timer_on (action t) s) l s))
    = fold_left fired (map action l) (state_of cb (FallbackChain.base s)).
Proof.
  induction l as [|t l IH]; intros s cb Hb; [split; [assumption|reflexivity]|].
  cbn [fold_left map].
  destruct (run_timer_state (action t) s cb Hb) as [Hb1 Hs1].
  destruct (IH _ cb Hb1) as [Hb2 Hs2]. split; [assumption|]. now rewrite Hs2, Hs1.
Qed.

Lemma fire_timers_state now s cb :
  breaker s = Some cb ->
  breaker (Attempts.fire_timers now s) = Some cb /\
  state_of cb (FallbackChain.base (Attempts.fire_timers now s))
  = fold_left fired (due_actions now (FallbackChain.base s))
      (state_of cb (FallbackChain.base s)).
Proof.
  intros Hb. rewrite TimerFacts.fire_timers_source. cbn zeta.
  set (b := FallbackChain.base s).
  destruct (TimerFacts.set_base_timers s
              (List.filter (fun t => negb (due t <=? now)) (timers b))) as [Hb0 Hc0].
  fold b in Hb0, Hc0. rewrite Hb in Hc0.
  destruct (run_timers_state
              (Js.sort_by due (List.filter (fun t => due t <=? now) (timers b)))
              _ cb Hc0) as [H1 H2].
  split; [assumption|]. rewrite H2, Hb0. reflexivity.
Qed.

Lemma state_eta x : Flights.mk (Flights.source x) (Flights.flights x) = x.
Proof. now destruct x. Qed.

Lemma state_of_metrics cb b1 b2 :
  metrics b1 = metrics b2 -> state_of cb b1 = state_of cb b2.
Proof. unfold state_of. now intros ->. Qed.

(** The request function has returned no poster, or thrown: what
    [_executeWithMetrics] records is a step of the breaker. *)
Lemma settle_step f now r s cb :
  breaker s = Some cb ->
  (forall u, r <> Err.Return (Some u)) ->
  let res := Flights.settle f now r s in
  exists cb',
    breaker (snd res) = Some cb' /\
    failureThreshold cb' = failureThreshold cb /\
    disableDuration cb' = disableDuration cb /\
    step (failureThreshold cb) (disableDuration cb)
      (state_of cb (FallbackChain.base s))
      (if Flights.abandoned f then Quiet
       else match r with Err.Return _ => NotFound | Err.Throw _ => Failed now end)
      (state_of cb' (FallbackChain.base (snd res))).
Proof.
  intros Hb Hr. cbn zeta. unfold Flights.settle.
  destruct (Flights.abandoned f).
  - exists cb. cbn. repeat split; try assumption. apply step_quiet.
  - destruct r as [u|err]; cbn [fst snd].
    + exists cb. rewrite ResetFacts.set_base_breaker, ResetFacts.set_base_base.
      repeat split; try assumption. rewrite recordSuccess_state. apply step_not_found.
    + destruct (recordFailure_spec err (now - Flights.startTime f) now s cb Hb)
        as [Hb1 Hbase1].
      destruct (recordFailure_step err (now - Flights.startTime f) now cb
                  (FallbackChain.base s)) as (H1 & H2 & H3).
      cbn zeta in H1, H2, H3.
      eexists. split; [exact Hb1|]. rewrite Hbase1. repeat split; assumption.
Qed.

(** The request function has returned a poster, after [_onSuccess]. *)
Lemma found_settle f now u s0 cb :
  breaker s0 = Some cb ->
  let res := Flights.settle f now (Err.Return (Some u)) (Flights.on_success s0) in
  exists cb',
    breaker (snd res) = Some cb' /\
    failureThreshold cb' = failureThreshold cb /\
    disableDuration cb' = disableDuration cb /\
    step (failureThreshold cb) (disableDuration cb)
      (state_of cb (FallbackChain.base s0))
      (Found (negb (Flights.abandoned f)))
      (state_of cb' (FallbackChain.base (snd res))).
Proof.
  intros Hb. cbn zeta.
  destruct (on_success_spec s0 cb Hb) as [Hb1 Hbase1].
  destruct (found_step (failureThreshold cb) (disableDuration cb) cb
              (FallbackChain.base s0) (now - Flights.startTime f) now
              (negb (Flights.abandoned f))) as (H1 & H2 & H3).
  cbn zeta in H1, H2, H3.
  unfold Flights.settle. destruct (Flights.abandoned f); cbn [fst snd negb] in *.
  - eexists. split; [exact Hb1|]. rewrite Hbase1. repeat split; assumption.
  - eexists. rewrite ResetFacts.set_base_breaker, ResetFacts.set_base_base.
    split; [exact Hb1|]. rewrite Hbase1. repeat split; assumption.
Qed.

End FlightFacts.

Module StepFacts.

(** Every event is a step of the breaker. *)
Lemma event_is_step :
  forall (x : Flights.t) (e : Flights.Event) cb,
    breaker (Flights.source x) = Some cb ->
    let x' := snd (Flights.step e x) in
    exists cb',
      breaker (Flights.source x') = Some cb' /\
      Breaker.failureThreshold cb' = Breaker.failureThreshold cb /\
      Breaker.disableDuration cb' = Breaker.disableDuration cb /\
      BreakerSpec.step (Breaker.failureThreshold cb) (Breaker.disableDuration cb)
        (BreakerSpec.state_of cb (FallbackChain.base (Flights.source x)))
        (BreakerSpec.observe e x)
        (BreakerSpec.state_of cb' (FallbackChain.base (Flights.source x'))) /\
      (forall now, BreakerSpec.observe e x = BreakerSpec.Rejected now ->
         Flights.step e x
         = (Some (Err.Throw (Err.CircuitOpen
                     (PosterSource.name (FallbackChain.base (Flights.source x))))), x)).
Proof.
  intros x e cb Hb. cbn zeta.
  assert (Hquiet : exists cb',
            breaker (Flights.source x) = Some cb' /\
            Breaker.failureThreshold cb' = Breaker.failureThreshold cb /\
            Breaker.disableDuration cb' = Breaker.disableDuration cb /\
            BreakerSpec.step (Breaker.failureThreshold cb) (Breaker.disableDuration cb)
              (BreakerSpec.state_of cb (FallbackChain.base (Flights.source x)))
              BreakerSpec.Quiet
              (BreakerSpec.state_of cb' (FallbackChain.base (Flights.source x))) /\
            (forall now : Z, BreakerSpec.Quiet = BreakerSpec.Rejected now ->
               (@None (Err.result (option string)), x)
               = (Some (Err.Throw (Err.CircuitOpen
                          (PosterSource.name (FallbackChain.base (Flights.source x))))), x))).
  { exists cb. repeat split; try assumption; [apply BreakerSpec.step_quiet|discriminate]. }
  destruct e as [rid animeId animeName now|rid now|rid a now|rid now|now];
    unfold Flights.step, BreakerSpec.observe.
  - (* a call *)
    destruct (Flights.flights x !! rid) as [f|]; [exact Hquiet|].
    destruct (FlightFacts.enter_breaker animeId animeName now (Flights.source x) cb Hb)
      as (Hbase & Hb1 & Hcase). cbn zeta in Hbase, Hb1, Hcase.
    destruct (FlightFacts.canMakeRequest_cases now cb)
      as [(Hcan & Hopen & Hlt & Hsame)|(Hcan & Hnr & Hst & Hnext & Hthr & Hdur)];
      destruct Hcase as [(Hcan' & Hr & Hs)|(Hcan' & Hr)]; try congruence.
    + (* thrown back by the breaker *)
      destruct (Flights.enter animeId animeName now (Flights.source x)) as [r s1].
      cbn [fst snd] in *. rewrite Hr, Hs. cbn [fst snd Flights.source].
      exists cb. repeat split; try assumption.
      * apply BreakerSpec.step_rejected. split; assumption.
      * intros ? _. now rewrite FlightFacts.state_eta.
    + (* let through *)
      destruct (Flights.enter animeId animeName now (Flights.source x)) as [r s1].
      cbn [fst snd] in *.
      assert (Hlabel : match r with
                       | Flights.Refused (Err.CircuitOpen _) => BreakerSpec.Rejected now
                       | _ => BreakerSpec.Passed now
                       end = BreakerSpec.Passed now).
      { destruct r as [err|f]; [|reflexivity].
        destruct err; try reflexivity. now destruct (Hr name). }
      rewrite Hlabel.
      assert (Hstep : BreakerSpec.step (Breaker.failureThreshold cb)
                        (Breaker.disableDuration cb)
                        (BreakerSpec.state_of cb (FallbackChain.base (Flights.source x)))
                        (BreakerSpec.Passed now)
                        (BreakerSpec.state_of (snd (Breaker._canMakeRequest now cb))
                           (FallbackChain.base s1))).
      { replace (BreakerSpec.state_of (snd (Breaker._canMakeRequest now cb))
                   (FallbackChain.base s1))
          with (BreakerSpec.mkState
                  (BreakerSpec.on_entry
                     (BreakerSpec.state
                        (BreakerSpec.state_of cb (FallbackChain.base (Flights.source x)))))
                  (BreakerSpec.nextAttemptAt
                     (BreakerSpec.state_of cb (FallbackChain.base (Flights.source x))))
                  (BreakerSpec.failures
                     (BreakerSpec.state_of cb (FallbackChain.base (Flights.source x))))
                  (BreakerSpec.disabled
                     (BreakerSpec.state_of cb (FallbackChain.base (Flights.source x)))))
          by (unfold BreakerSpec.state_of; cbn; now rewrite Hst, Hnext, Hbase).
        apply BreakerSpec.step_passed. exact Hnr. }
      destruct r as [err|f]; cbn [fst snd Flights.source];
        (eexists; split; [exact Hb1|]; repeat split; try assumption; discriminate).
  - (* the timer of the rate limiter *)
    destruct (Flights.flights x !! rid) as [f|]; [|exact Hquiet].
    destruct (Flights.phase f); try exact Hquiet.
    cbn [fst snd Flights.source].
    destruct (FlightFacts.waited_keeps now (Flights.source x)) as [Hbase Hbr].
    exists cb. rewrite Hbr, Hbase. repeat split; try assumption;
      [apply BreakerSpec.step_quiet|discriminate].
  - (* an answer *)
    destruct (Flights.flights x !! rid) as [f|]; [|exact Hquiet].
    destruct (Flights.respond a (Flights.phase f) now (Flights.source x))
      as [[o s1]|] eqn:Er; [|exact Hquiet].
    destruct (FlightFacts.respond_spec a (Flights.phase f) now (Flights.source x) cb o s1
                Hb Er) as (s0 & Hb0 & (Hm & _ & _) & Hs1).
    rewrite <- (FlightFacts.state_of_metrics cb _ _ Hm).
    destruct o as [[u|]|err|]; subst s1.
    + destruct (FlightFacts.found_settle f now u s0 cb Hb0) as (cb' & H1 & H2 & H3 & H4).
      cbn zeta in H1, H4.
      destruct (Flights.settle f now (Err.Return (Some u)) (Flights.on_success s0))
        as [d s2]. cbn [fst snd Flights.source] in *.
      exists cb'. repeat split; try assumption. discriminate.
    + destruct (FlightFacts.settle_step f now (Err.Return None) s0 cb Hb0)
        as (cb' & H1 & H2 & H3 & H4); [discriminate|].
      cbn zeta in H1, H4.
      destruct (Flights.settle f now (Err.Return None) s0) as [d s2].
      cbn [fst snd Flights.source] in *.
      exists cb'. repeat split; try assumption.
      destruct (Flights.abandoned f); discriminate.
    + destruct (FlightFacts.settle_step f now (Err.Throw err) s0 cb Hb0)
        as (cb' & H1 & H2 & H3 & H4); [discriminate|].
      cbn zeta in H1, H4.
      destruct (Flights.settle f now (Err.Throw err) s0) as [d s2].
      cbn [fst snd Flights.source] in *.
      exists cb'. repeat split; try assumption.
      destruct (Flights.abandoned f); discriminate.
    + cbn [fst snd Flights.source].
      exists cb. repeat split; try assumption; [apply BreakerSpec.step_quiet|discriminate].
  - (* the timeout *)
    destruct (Flights.flights x !! rid) as [f|]; [|exact Hquiet].
    destruct (Flights.abandoned f); [exact Hquiet|].
    cbn [fst snd Flights.source].
    destruct (FlightFacts.recordFailure_spec Err.Timeout (now - Flights.startTime f) now
                (Flights.source x) cb Hb) as [Hb1 Hbase1].
    destruct (FlightFacts.recordFailure_step Err.Timeout (now - Flights.startTime f) now cb
                (FallbackChain.base (Flights.source x))) as (H1 & H2 & H3).
    cbn zeta in H1, H2, H3.
    eexists. split; [exact Hb1|]. rewrite Hbase1.
    repeat split; try assumption. discriminate.
  - (* the timers *)
    cbn [fst snd Flights.source].
    destruct (FlightFacts.fire_timers_state now (Flights.source x) cb Hb) as [Hb1 Hs1].
    exists cb. rewrite Hs1. repeat split; try assumption;
      [apply BreakerSpec.step_fired|discriminate].
Qed.

End StepFacts.

(** ** C3: the circuit breaker *)

(** C3, as the code has it: whatever the requests in flight on a source
    with a circuit breaker (KitsuSource, TMDBSource), every event is a step
    of [BreakerSpec.step] with the source's own threshold and cooldown,
    which no event changes. While the breaker is open and the clock is
    before [nextAttemptTime] a call is thrown back and everything is left
    as it was: nothing is requested. Otherwise the call is let through, an
    open breaker becoming half-open; a half-open breaker lets every call
    through, not one. A failure that is recorded opens the breaker, with
    [nextAttemptTime] the clock of the failure plus the cooldown and the
    source marked temporarily disabled, when the breaker is half-open or
    when the consecutive failures reach the threshold, also when it is open
    already (the failure of a request that was in flight): the cooldown
    starts again. A request that returns a poster closes a half-open
    breaker, with the consecutive failures at 0 and the disabled flag
    clear, also when the timeout had given the request up. A success that
    is recorded zeroes the consecutive failures; without a poster it leaves
    a half-open breaker half-open. The timers clear the disabled flag. *)
Theorem C3_breaker_follows_step_relation :
  forall (x : Flights.t) (e : Flights.Event) cb,
    breaker (Flights.source x) = Some cb ->
    let x' := snd (Flights.step e x) in
    exists cb',
      breaker (Flights.source x') = Some cb' /\
      Breaker.failureThreshold cb' = Breaker.failureThreshold cb /\
      Breaker.disableDuration cb' = Breaker.disableDuration cb /\
      BreakerSpec.step (Breaker.failureThreshold cb) (Breaker.disableDuration cb)
        (BreakerSpec.state_of cb (FallbackChain.base (Flights.source x)))
        (BreakerSpec.observe e x)
        (BreakerSpec.state_of cb' (FallbackChain.base (Flights.source x'))) /\
      (forall now, BreakerSpec.observe e x = BreakerSpec.Rejected now ->
         Flights.step e x
         = (Some (Err.Throw (Err.CircuitOpen
                     (PosterSource.name (FallbackChain.base (Flights.source x))))), x)).
Proof. exact StepFacts.event_is_step. Qed.

Lemma C3_breaker_follows_step_relation_witness :
  let x := probing in
  let e := Flights.Replied 0%nat (Flights.KitsuRejected "Network error") 5050 in
  let x' := snd (Flights.step e x) in
  exists cb',
    breaker (Flights.source x') = Some cb' /\
    Breaker.failureThreshold cb' = 3 /\
    Breaker.disableDuration cb' = 1000 /\
    BreakerSpec.step 3 1000
      (BreakerSpec.mkState Breaker.HALF_OPEN 4000 0 false)
      (BreakerSpec.observe e x)
      (BreakerSpec.state_of cb' (FallbackChain.base (Flights.source x'))) /\
    (forall now, BreakerSpec.observe e x = BreakerSpec.Rejected now ->
       Flights.step e x = (Some (Err.Throw (Err.CircuitOpen "kitsu")), x)).
Proof.
  exact (C3_breaker_follows_step_relation probing
           (Flights.Replied 0%nat (Flights.KitsuRejected "Network error") 5050)
           (KitsuSource.cb (kitsu_in Breaker.HALF_OPEN 4000)) eq_refl).
Defined.

(** What the specification does not expect of the breaker, on Kitsu with a
    threshold of 3 and a cooldown of one second. A half-open breaker lets
    every call through: two calls made while it is half-open are both in
    flight. A failure recorded while the breaker is open starts the
    cooldown again: of two requests in flight, the failure of the first
    opens the breaker until 9000, the failure of the second until 9001. *)
Example breaker_with_requests_in_flight :
  let x1 := Flights.run [Flights.Call 0%nat "1" "A" 5000; Flights.Call 1%nat "2" "B" 5001]
              (Flights.start (FallbackChain.Kitsu (kitsu_in Breaker.HALF_OPEN 4000))) in
  let next x := option_map (fun cb => (Breaker.circuitState cb, Breaker.nextAttemptTime cb))
                  (breaker (Flights.source x)) in
  size (Flights.flights x1) = 2%nat /\
  next (Flights.run [Flights.TimedOut 0%nat 8000] two_in_flight) = Some (Breaker.OPEN, 9000) /\
  next (Flights.run [Flights.TimedOut 0%nat 8000; Flights.TimedOut 1%nat 8001] two_in_flight)
  = Some (Breaker.OPEN, 9001).
Proof. vm_compute. repeat split. Qed.

(** ** The breaker at its threshold, and locked *)

Module LockedFacts.
Import PosterSource Breaker BreakerSpec.

(** A closed breaker has fewer consecutive failures than its threshold:
    every step keeps it so. *)
Lemma step_below thr cd s l s' :
  1 <= thr ->
  step thr cd s l s' ->
  (state s = CLOSED -> failures s < thr) ->
  (state s' = CLOSED -> failures s' < thr).
Proof.
  intros Hthr Hstep. destruct Hstep; cbn; intros Hinv; try (intros; lia); try assumption.
  - destruct (state s); cbn; intros; try discriminate; auto.
  - discriminate.
  - revert s Hinv. induction actions as [|a actions IH]; intros s Hinv; [assumption|].
    cbn [fold_left]. apply IH. destruct a; cbn; [intros; lia| |assumption].
    destruct (state s) eqn:Es; cbn; intros; try discriminate; try congruence; auto.
Qed.

(** An event that records a failure: [_recordFailure] runs on the source,
    which is as it was in its breaker, its metrics and its re-enabling
    timers. *)
Lemma failed_event e x now cb :
  breaker (Flights.source x) = Some cb ->
  observe e x = Failed now ->
  exists err rt s0,
    breaker s0 = Some cb /\
    Attempts.as_before (FallbackChain.base s0) (FallbackChain.base (Flights.source x)) /\
    Flights.source (snd (Flights.step e x)) = Flights.recordFailure err rt now s0.
Proof.
  intros Hb. destruct e as [rid animeId animeName t|rid t|rid a t|rid t|t];
    unfold observe, Flights.step.
  - destruct (Flights.flights x !! rid); [discriminate|].
    destruct (Flights.enter animeId animeName t (Flights.source x)) as [[err|f] s1];
      cbn [fst]; [destruct err|]; discriminate.
  - discriminate.
  - destruct (Flights.flights x !! rid) as [f|]; [|discriminate].
    destruct (Flights.respond a (Flights.phase f) t (Flights.source x))
      as [[o s1]|] eqn:Er; [|discriminate].
    destruct (FlightFacts.respond_spec a (Flights.phase f) t (Flights.source x) cb o s1
                Hb Er) as (s0 & Hb0 & Has & Hs1).
    destruct o as [[u|]|err|]; try discriminate.
    + destruct (Flights.abandoned f); discriminate.
    + unfold Flights.settle. destruct (Flights.abandoned f); [discriminate|].
      intros [= <-]. subst s1. cbn [fst snd Flights.source]. eauto 8.
  - destruct (Flights.flights x !! rid) as [f|]; [|discriminate].
    destruct (Flights.abandoned f); [discriminate|].
    intros [= <-]. cbn [fst snd Flights.source].
    exists Err.Timeout, (t - Flights.startTime f), (Flights.source x).
    split; [assumption|]. split; [apply EffectFacts.as_before_refl|reflexivity].
  - discriminate.
Qed.

(** A call on a source that is not available is thrown back on a
    precondition. *)
Lemma enter_unavailable animeId animeName now s cb :
  breaker s = Some cb ->
  isAvailable (FallbackChain.base s) = false ->
  exists err, fst (Flights.enter animeId animeName now s) = Flights.Refused err /\
              is_precondition err = true.
Proof.
  intros Hb Hav.
  destruct s as [k|t|n]; simpl in Hb; [| |discriminate]; injection Hb as <-;
    unfold Flights.enter; cbn in Hav.
  - unfold Flights.kitsu_enter.
    destruct (_canMakeRequest now (KitsuSource.cb k)) as [can c].
    destruct can; cbn [negb]; [|cbn; eauto].
    destruct (negb (Js.truthy animeId) || Js.isNaN animeId)%bool; [cbn; eauto|].
    cbn [KitsuSource.base KitsuSource.with_cb]. rewrite Hav. cbn. eauto.
  - unfold Flights.tmdb_enter.
    destruct (_canMakeRequest now (TMDBSource.cb t)) as [can c].
    destruct can; cbn [negb]; [|cbn; eauto].
    destruct (negb (Js.truthy animeName)); [cbn; eauto|].
    cbn [TMDBSource.apiKey TMDBSource.with_cb].
    destruct (TMDBSource.apiKey t); [|cbn; eauto].
    cbn [TMDBSource.base TMDBSource.with_cb]. rewrite Hav. cbn. eauto.
Qed.

(** A locked source stays locked through every event: a call is thrown
    back on a precondition, and nothing is counted. *)
Lemma locked_step e x :
  locked x ->
  locked (snd (Flights.step e x)) /\
  metrics (FallbackChain.base (Flights.source (snd (Flights.step e x))))
  = metrics (FallbackChain.base (Flights.source x)) /\
  (forall d, fst (Flights.step e x) = Some d -> Attempts.turned_away d = true).
Proof.
  intros Hl. pose proof Hl as ((cb & Hb & Hst) & Hdis & Hp & Hfl).
  assert (Hsame : locked x /\
                  metrics (FallbackChain.base (Flights.source x))
                  = metrics (FallbackChain.base (Flights.source x)) /\
                  (forall d, @None (Err.result (option string)) = Some d ->
                             Attempts.turned_away d = true))
    by (split; [assumption|split; [reflexivity|discriminate]]).
  destruct e as [rid animeId animeName t|rid t|rid a t|rid t|t];
    unfold Flights.step; rewrite ?Hfl, ?lookup_empty; try exact Hsame.
  - (* a call *)
    assert (Hav : isAvailable (FallbackChain.base (Flights.source x)) = false)
      by (unfold isAvailable; rewrite Hdis; apply andb_false_r).
    destruct (enter_unavailable animeId animeName t (Flights.source x) cb Hb Hav)
      as (err & Herr & Hpre).
    destruct (FlightFacts.enter_breaker animeId animeName t (Flights.source x) cb Hb)
      as (Hbase & Hb1 & _). cbn zeta in Hbase, Hb1.
    destruct (Flights.enter animeId animeName t (Flights.source x)) as [r s1].
    cbn [fst snd] in *. subst r. cbn [fst snd Flights.source].
    split; [|split; [now rewrite Hbase|]].
    + unfold locked. cbn [Flights.source Flights.flights]. rewrite Hbase.
      split; [|auto]. eexists. split; [exact Hb1|].
      destruct (FlightFacts.canMakeRequest_cases t cb)
        as [(_ & _ & _ & ->)|(_ & _ & -> & _)]; [assumption|].
      destruct (circuitState cb); cbn; congruence.
    + intros d [= <-]. exact Hpre.
  - (* the timers *)
    cbn [fst snd Flights.source].
    destruct (LockFacts.fire_when_locked t (Flights.source x) Hp) as (Hm & _ & Hp' & Hb').
    split; [|split; [assumption|discriminate]].
    unfold locked. cbn [Flights.source Flights.flights]. rewrite Hm, Hb'.
    split; [eauto|auto].
Qed.

Lemma locked_run es :
  forall x,
    locked x ->
    Forall (fun r => Attempts.turned_away r = true) (Flights.delivered es x) /\
    metrics (FallbackChain.base (Flights.source (Flights.run es x)))
    = metrics (FallbackChain.base (Flights.source x)) /\
    isAvailable (FallbackChain.base (Flights.source (Flights.run es x))) = false /\
    locked (Flights.run es x).
Proof.
  induction es as [|e es IH]; intros x Hl.
  - cbn. split; [constructor|]. split; [reflexivity|]. split; [|assumption].
    destruct Hl as (_ & Hdis & _). unfold isAvailable. rewrite Hdis. apply andb_false_r.
  - destruct (locked_step e x Hl) as (Hl1 & Hm1 & Hd1).
    destruct (IH _ Hl1) as (H1 & H2 & H3 & H4).
    change (Flights.run (e :: es) x) with (Flights.run es (snd (Flights.step e x))).
    split; [|split; [congruence|split; assumption]].
    cbn [Flights.delivered].
    destruct (fst (Flights.step e x)) as [d|] eqn:Ed; [|assumption].
    constructor; [now apply Hd1|assumption].
Qed.

(** A call before [nextAttemptTime] on an open breaker is thrown back, and
    everything is as it was. *)
Lemma open_rejects_call x cb rid animeId animeName now :
  breaker (Flights.source x) = Some cb ->
  circuitState cb = OPEN -> now < nextAttemptTime cb ->
  Flights.flights x !! rid = None ->
  Flights.step (Flights.Call rid animeId animeName now) x
  = (Some (Err.Throw (Err.CircuitOpen (name (FallbackChain.base (Flights.source x))))), x).
Proof.
  intros Hb Hopen Hlt Hfresh. unfold Flights.step. rewrite Hfresh.
  destruct (FlightFacts.enter_breaker animeId animeName now (Flights.source x) cb Hb)
    as (_ & _ & [(_ & Hr & Hs)|(Hcan & _)]).
  - destruct (Flights.enter animeId animeName now (Flights.source x)) as [r s1].
    cbn [fst snd] in *. subst r s1. now rewrite FlightFacts.state_eta.
  - destruct (FlightFacts.canMakeRequest_cases now cb) as [(Hc & _)|(_ & Hn & _)];
      [congruence|]. destruct Hn. split; assumption.
Qed.

End LockedFacts.

Module ThresholdFacts.
Import PosterSource Breaker BreakerSpec.

(** Whatever the events, the breaker keeps its settings, and is never
    closed with as many consecutive failures as its threshold. *)
Lemma run_below es :
  forall x cb,
    breaker (Flights.source x) = Some cb ->
    1 <= failureThreshold cb ->
    (circuitState cb = CLOSED ->
     consecutiveFailures (metrics (FallbackChain.base (Flights.source x)))
     < failureThreshold cb) ->
    exists cb1,
      breaker (Flights.source (Flights.run es x)) = Some cb1 /\
      failureThreshold cb1 = failureThreshold cb /\
      disableDuration cb1 = disableDuration cb /\
      (circuitState cb1 = CLOSED ->
       consecutiveFailures (metrics (FallbackChain.base (Flights.source (Flights.run es x))))
       < failureThreshold cb).
Proof.
  induction es as [|e es IH]; intros x cb Hb Hthr Hinv; [exists cb; auto|].
  destruct (StepFacts.event_is_step x e cb Hb) as (cb' & Hb' & Ht & Hd & Hstep & _).
  cbn zeta in Hb', Hstep.
  pose proof (LockedFacts.step_below _ _ _ _ _ Hthr Hstep Hinv) as Hinv'.
  destruct (IH (snd (Flights.step e x)) cb' Hb') as (cb1 & H1 & H2 & H3 & H4).
  - now rewrite Ht.
  - rewrite Ht. exact Hinv'.
  - exists cb1. change (Flights.run (e :: es) x)
      with (Flights.run es (snd (Flights.step e x))).
    rewrite <- Ht, <- Hd. repeat split; try assumption; congruence.
Qed.

(** A failure recorded on a breaker that is not half-open. *)
Lemma failure_when_not_half_open err rt now s0 cb :
  breaker s0 = Some cb ->
  circuitState cb <> HALF_OPEN ->
  let s2 := Flights.recordFailure err rt now s0 in
  let n := consecutiveFailures (metrics (FallbackChain.base s0)) + 1 in
  consecutiveFailures (metrics (FallbackChain.base s2)) = n /\
  name (FallbackChain.base s2) = name (FallbackChain.base s0) /\
  if failureThreshold cb <=? n then
    breaker s2 = Some (with_nextAttemptTime (with_state cb OPEN) (now + disableDuration cb)) /\
    isTemporarilyDisabled (metrics (FallbackChain.base s2)) = true /\
    In (mkTimer (now + disableDuration cb) ReenableIfOpen)
       (timers (FallbackChain.base s2))
  else
    breaker s2 = Some cb /\
    isTemporarilyDisabled (metrics (FallbackChain.base s2))
    = isTemporarilyDisabled (metrics (FallbackChain.base s0)).
Proof.
  intros Hb Hh. cbn zeta.
  destruct (FlightFacts.recordFailure_spec err rt now s0 cb Hb) as [Hb2 Hbase2].
  rewrite Hb2, Hbase2. unfold Breaker._recordFailure.
  destruct (BreakerMore.base_recordFailure err rt (FallbackChain.base s0))
    as (_ & _ & _ & Hcf & Hdis & _ & _ & Hname). cbn zeta in Hcf, Hdis, Hname.
  set (b1 := PosterSource._recordFailure err rt (FallbackChain.base s0)) in *.
  rewrite (BreakerMore.onFailure_closed now cb b1 Hh). rewrite <- Hcf.
  destruct (failureThreshold cb <=? consecutiveFailures (metrics b1)); cbn [fst snd].
  - cbn. repeat split; try assumption. apply in_or_app. right. now left.
  - repeat split; assumption.
Qed.

End ThresholdFacts.

(** X7: the circuit breaker of a source (Kitsu, TMDB) opens at its
    threshold, whatever requests are in flight. With a threshold of at
    least 1, and from a state where the breaker is not closed with as many
    consecutive failures as the threshold, after any events the breaker is
    never closed with that many: a failure recorded while it is closed is
    counted, and below the threshold leaves the breaker closed and the
    disabled flag as it was; the failure that brings the count to the
    threshold opens the breaker until the clock of that failure plus the
    cooldown, marks the source temporarily disabled and sets the timer
    that clears the mark at that time. From then on a call made before that
    time is thrown back with 'Circuit breaker ouvert' and leaves everything
    as it is. *)
Theorem X7_breaker_opens_at_threshold :
  forall x es cb e now,
    breaker (Flights.source x) = Some cb ->
    1 <= Breaker.failureThreshold cb ->
    (Breaker.circuitState cb = Breaker.CLOSED ->
     PosterSource.consecutiveFailures
       (PosterSource.metrics (FallbackChain.base (Flights.source x)))
     < Breaker.failureThreshold cb) ->
    let x1 := Flights.run es x in
    let failures y :=
      PosterSource.consecutiveFailures
        (PosterSource.metrics (FallbackChain.base (Flights.source y))) in
    let disabled y :=
      PosterSource.isTemporarilyDisabled
        (PosterSource.metrics (FallbackChain.base (Flights.source y))) in
    exists cb1,
      breaker (Flights.source x1) = Some cb1 /\
      Breaker.failureThreshold cb1 = Breaker.failureThreshold cb /\
      Breaker.disableDuration cb1 = Breaker.disableDuration cb /\
      (Breaker.circuitState cb1 = Breaker.CLOSED ->
       failures x1 < Breaker.failureThreshold cb) /\
      (Breaker.circuitState cb1 = Breaker.CLOSED ->
       BreakerSpec.observe e x1 = BreakerSpec.Failed now ->
       let x2 := snd (Flights.step e x1) in
       let reopen := now + Breaker.disableDuration cb in
       failures x2 = failures x1 + 1 /\
       exists cb2, breaker (Flights.source x2) = Some cb2 /\
         if failures x1 + 1 <? Breaker.failureThreshold cb then
           Breaker.circuitState cb2 = Breaker.CLOSED /\ disabled x2 = disabled x1
         else
           failures x2 = Breaker.failureThreshold cb /\
           Breaker.circuitState cb2 = Breaker.OPEN /\
           Breaker.nextAttemptTime cb2 = reopen /\
           disabled x2 = true /\
           In (PosterSource.mkTimer reopen PosterSource.ReenableIfOpen)
              (PosterSource.timers (FallbackChain.base (Flights.source x2))) /\
           forall rid animeId animeName t,
             Flights.flights x2 !! rid = None -> t < reopen ->
             Flights.step (Flights.Call rid animeId animeName t) x2
             = (Some (Err.Throw (Err.CircuitOpen
                         (PosterSource.name (FallbackChain.base (Flights.source x2))))),
                x2)).
Proof.
  intros x es cb e now Hb Hthr Hinv x1 failures disabled.
  destruct (ThresholdFacts.run_below es x cb Hb Hthr Hinv) as (cb1 & Hb1 & Ht & Hd & Hinv1).
  fold x1 in Hb1, Hinv1. exists cb1.
  split; [assumption|]. split; [assumption|]. split; [assumption|].
  split; [assumption|].
  intros Hclosed Hf x2 reopen.
  destruct (LockedFacts.failed_event e x1 now cb1 Hb1 Hf)
    as (err & rt & s0 & Hb0 & (Hm & _ & _) & Hs2).
  destruct (ThresholdFacts.failure_when_not_half_open err rt now s0 cb1 Hb0)
    as (Hcf & Hname & Hcase); [congruence|].
  cbn zeta in Hcf, Hname, Hcase. fold x2 in Hs2. rewrite <- Hs2 in Hcf, Hname, Hcase.
  rewrite Hm in Hcf, Hcase. rewrite Ht, Hd in Hcase.
  specialize (Hinv1 Hclosed).
  subst failures disabled reopen. cbn beta.
  split; [exact Hcf|].
  set (n := PosterSource.consecutiveFailures
              (PosterSource.metrics (FallbackChain.base (Flights.source x1)))) in *.
  destruct (n + 1 <? Breaker.failureThreshold cb) eqn:E.
  - apply Z.ltb_lt in E.
    destruct (Breaker.failureThreshold cb <=? n + 1) eqn:E2;
      [apply Z.leb_le in E2; lia|].
    destruct Hcase as [Hb2 Hdis2]. exists cb1. repeat split; assumption.
  - apply Z.ltb_ge in E.
    destruct (Breaker.failureThreshold cb <=? n + 1) eqn:E2;
      [|apply Z.leb_gt in E2; lia].
    destruct Hcase as (Hb2 & Hdis2 & Htimer).
    eexists. split; [exact Hb2|].
    cbn [Breaker.circuitState Breaker.nextAttemptTime
         Breaker.with_nextAttemptTime Breaker.with_state].
    repeat split; try assumption; [lia|].
    intros rid animeId animeName t Hfresh Hlt.
    apply (LockedFacts.open_rejects_call _ _ rid animeId animeName t Hb2);
      [reflexivity| |assumption].
    exact Hlt.
Qed.

Lemma X7_breaker_opens_at_threshold_witness :
  let x1 := Flights.run [] two_in_flight in
  let e := Flights.TimedOut 0%nat 8000 in
  let failures y :=
    PosterSource.consecutiveFailures
      (PosterSource.metrics (FallbackChain.base (Flights.source y))) in
  let disabled y :=
    PosterSource.isTemporarilyDisabled
      (PosterSource.metrics (FallbackChain.base (Flights.source y))) in
  exists cb1,
    breaker (Flights.source x1) = Some cb1 /\
    Breaker.failureThreshold cb1 = 3 /\
    Breaker.disableDuration cb1 = 1000 /\
    (Breaker.circuitState cb1 = Breaker.CLOSED -> failures x1 < 3) /\
    (Breaker.circuitState cb1 = Breaker.CLOSED ->
     BreakerSpec.observe e x1 = BreakerSpec.Failed 8000 ->
     let x2 := snd (Flights.step e x1) in
     let reopen := 8000 + 1000 in
     failures x2 = failures x1 + 1 /\
     exists cb2, breaker (Flights.source x2) = Some cb2 /\
       if failures x1 + 1 <? 3 then
         Breaker.circuitState cb2 = Breaker.CLOSED /\ disabled x2 = disabled x1
       else
         failures x2 = 3 /\
         Breaker.circuitState cb2 = Breaker.OPEN /\
         Breaker.nextAttemptTime cb2 = reopen /\
         disabled x2 = true /\
         In (PosterSource.mkTimer reopen PosterSource.ReenableIfOpen)
            (PosterSource.timers (FallbackChain.base (Flights.source x2))) /\
         forall rid animeId animeName t,
           Flights.flights x2 !! rid = None -> t < reopen ->
           Flights.step (Flights.Call rid animeId animeName t) x2
           = (Some (Err.Throw (Err.CircuitOpen
                       (PosterSource.name (FallbackChain.base (Flights.source x2))))),
              x2)).
Proof.
  apply (X7_breaker_opens_at_threshold two_in_flight []
           (Breaker.mk Breaker.CLOSED 3 1000 0) (Flights.TimedOut 0%nat 8000) 8000).
  - reflexivity.
  - simpl. lia.
  - intros _. vm_compute. reflexivity.
Defined.

(** X8: a source with a circuit breaker (Kitsu, TMDB) whose probe fails
    does not come back by itself. A failure recorded while the breaker is
    half-open opens it again, until the clock of the failure plus the
    cooldown, and marks the source temporarily disabled, but sets no timer
    to clear the mark, as is done when the threshold opens the breaker. If
    no re-enabling timer was pending and no request is left in flight, the
    source is locked; and a locked source stays locked whatever happens:
    every call is thrown back before any request, whatever the clock, the
    timers that fire change nothing, the metrics stay as they are, and the
    source is never available (until it is reset or re-enabled by hand). A
    request still in flight is not covered: it can close the breaker when
    it returns a poster. *)
Theorem X8_failed_probe_locks_the_source_out :
  forall x e now cb y es,
    breaker (Flights.source x) = Some cb ->
    Breaker.circuitState cb = Breaker.HALF_OPEN ->
    Attempts.pending_reenable (FallbackChain.base (Flights.source x)) = [] ->
    BreakerSpec.observe e x = BreakerSpec.Failed now ->
    let x1 := snd (Flights.step e x) in
    (exists cb1, breaker (Flights.source x1) = Some cb1 /\
       Breaker.circuitState cb1 = Breaker.OPEN /\
       Breaker.nextAttemptTime cb1 = now + Breaker.disableDuration cb) /\
    PosterSource.isTemporarilyDisabled
      (PosterSource.metrics (FallbackChain.base (Flights.source x1))) = true /\
    Attempts.pending_reenable (FallbackChain.base (Flights.source x1)) = [] /\
    (Flights.flights x1 = ∅ -> locked x1) /\
    (locked y ->
     Forall (fun r => Attempts.turned_away r = true) (Flights.delivered es y) /\
     PosterSource.metrics (FallbackChain.base (Flights.source (Flights.run es y)))
     = PosterSource.metrics (FallbackChain.base (Flights.source y)) /\
     PosterSource.isAvailable (FallbackChain.base (Flights.source (Flights.run es y)))
     = false /\
     locked (Flights.run es y)).
Proof.
  intros x e now cb y es Hb Hh Hp Hf x1.
  destruct (LockedFacts.failed_event e x now cb Hb Hf)
    as (err & rt & s0 & Hb0 & (Hm & Hp0 & _) & Hs1).
  destruct (FlightFacts.recordFailure_spec err rt now s0 cb Hb0) as [Hb1 Hbase1].
  unfold Breaker._recordFailure in Hb1, Hbase1.
  rewrite (BreakerMore.onFailure_half_open _ _ _ Hh) in Hb1, Hbase1.
  cbn [fst snd] in Hb1, Hbase1. rewrite <- Hs1 in Hb1, Hbase1. fold x1 in Hb1, Hbase1.
  destruct (BreakerMore.base_recordFailure err rt (FallbackChain.base s0))
    as (_ & _ & _ & _ & _ & Htimers & _). cbn zeta in Htimers.
  assert (Hdis1 : PosterSource.isTemporarilyDisabled
                    (PosterSource.metrics (FallbackChain.base (Flights.source x1))) = true)
    by now rewrite Hbase1.
  assert (Hp1 : Attempts.pending_reenable (FallbackChain.base (Flights.source x1)) = []).
  { rewrite Hbase1. unfold Attempts.pending_reenable in *. cbn [PosterSource.timers
      PosterSource.with_metrics]. rewrite Htimers. now rewrite Hp0. }
  split; [eexists; split; [exact Hb1|split; reflexivity]|].
  split; [assumption|]. split; [assumption|]. split.
  - intros Hfl. unfold locked. split; [|auto].
    eexists. split; [exact Hb1|]. discriminate.
  - apply LockedFacts.locked_run.
Qed.

Lemma X8_failed_probe_locks_the_source_out_witness :
  let x := probing in
  let e := Flights.Replied 0%nat (Flights.KitsuRejected "Network error") 5050 in
  let x1 := snd (Flights.step e x) in
  let es := [Flights.Timers 6050; Flights.Call 1%nat "123" "Test Anime" 6100;
             Flights.Timers 9000000; Flights.Call 2%nat "123" "Test Anime" 9000001] in
  (exists cb1, breaker (Flights.source x1) = Some cb1 /\
     Breaker.circuitState cb1 = Breaker.OPEN /\
     Breaker.nextAttemptTime cb1 = 5050 + 1000) /\
  PosterSource.isTemporarilyDisabled
    (PosterSource.metrics (FallbackChain.base (Flights.source x1))) = true /\
  Attempts.pending_reenable (FallbackChain.base (Flights.source x1)) = [] /\
  (Flights.flights x1 = ∅ -> locked x1) /\
  (locked x1 ->
   Forall (fun r => Attempts.turned_away r = true) (Flights.delivered es x1) /\
   PosterSource.metrics (FallbackChain.base (Flights.source (Flights.run es x1)))
   = PosterSource.metrics (FallbackChain.base (Flights.source x1)) /\
   PosterSource.isAvailable (FallbackChain.base (Flights.source (Flights.run es x1)))
   = false /\
   locked (Flights.run es x1)).
Proof.
  exact (X8_failed_probe_locks_the_source_out probing
           (Flights.Replied 0%nat (Flights.KitsuRejected "Network error") 5050) 5050
           (KitsuSource.cb (kitsu_in Breaker.HALF_OPEN 4000))
           (snd (Flights.step
                   (Flights.Replied 0%nat (Flights.KitsuRejected "Network error") 5050)
                   probing))
           [Flights.Timers 6050; Flights.Call 1%nat "123" "Test Anime" 6100;
            Flights.Timers 9000000; Flights.Call 2%nat "123" "Test Anime" 9000001]
           eq_refl eq_refl eq_refl eq_refl).
Defined.

(** The probe that is given up by the timeout is a failure too, but its
    request goes on. Here it returns a poster after a call, made when the
    cooldown was over, has set the breaker half-open: the breaker closes
    and the source is available again. *)
Example an_abandoned_probe_closes_the_breaker :
  let view x := (option_map Breaker.circuitState (breaker (Flights.source x)),
                 PosterSource.isAvailable (FallbackChain.base (Flights.source x))) in
  let x1 := Flights.run [Flights.TimedOut 0%nat 8000] probing in
  let x2 := Flights.run [Flights.Call 1%nat "123" "Test Anime" 9500] x1 in
  let x3 := Flights.run [Flights.Replied 0%nat kitsu_poster 9600] x2 in
  view x1 = (Some Breaker.OPEN, false) /\
  view x2 = (Some Breaker.HALF_OPEN, false) /\
  view x3 = (Some Breaker.CLOSED, true).
Proof. vm_compute. repeat split. Qed.

(** X22: a circuit breaker opened by hand does not close by itself.
    [openCircuitBreaker] opens the breaker until [now + duration] and marks
    the source temporarily disabled, and sets no timer to clear the mark.
    If no re-enabling timer was pending and no request is in flight, every
    later call is thrown back before any request, also after the duration,
    and the source is never available, until [resetCircuitBreaker] closes
    the breaker, clears the mark and zeroes the consecutive failures. A
    request in flight when the breaker is opened is not covered: it can
    close the breaker when it returns a poster. *)
Theorem X22_breaker_opened_by_hand_stays_shut :
  forall x cb duration now es,
    breaker (Flights.source x) = Some cb ->
    Attempts.pending_reenable (FallbackChain.base (Flights.source x)) = [] ->
    Flights.flights x = ∅ ->
    let x1 := Flights.mk (Attempts.openCircuitBreaker duration now (Flights.source x))
                         (Flights.flights x) in
    let x2 := Flights.run es x1 in
    let s3 := Attempts.resetCircuitBreaker (Flights.source x2) in
    option_map Breaker.circuitState (breaker (Flights.source x1)) = Some Breaker.OPEN /\
    option_map Breaker.nextAttemptTime (breaker (Flights.source x1)) = Some (now + duration) /\
    Forall (fun r => Attempts.turned_away r = true) (Flights.delivered es x1) /\
    PosterSource.isAvailable (FallbackChain.base (Flights.source x2)) = false /\
    Flights.flights x2 = ∅ /\
    option_map Breaker.circuitState (breaker s3) = Some Breaker.CLOSED /\
    PosterSource.consecutiveFailures (PosterSource.metrics (FallbackChain.base s3)) = 0 /\
    PosterSource.isAvailable (FallbackChain.base s3)
    = PosterSource.isEnabled (FallbackChain.base (Flights.source x2)).
Proof.
  intros x cb duration now es Hb Hp Hfl x1 x2 s3.
  destruct (HandFacts.opened duration now (Flights.source x) cb Hb) as [Hb1 Hbase1].
  cbn zeta in Hb1, Hbase1.
  assert (Hl1 : locked x1).
  { unfold locked. subst x1. cbn [Flights.source Flights.flights].
    rewrite Hb1, Hbase1. split; [eexists; split; [reflexivity|discriminate]|].
    split; [reflexivity|]. split; assumption. }
  destruct (LockedFacts.locked_run es x1 Hl1) as (Hout & _ & Hun & Hl2).
  fold x2 in Hun, Hl2.
  destruct Hl2 as ((cb2 & Hb2 & _) & _ & _ & Hfl2).
  destruct (HandFacts.reset (Flights.source x2) cb2 Hb2) as [Hb3 Hbase3].
  fold s3 in Hb3, Hbase3.
  subst x1. cbn [Flights.source] in *. rewrite Hb1, Hb3, Hbase3. cbn.
  repeat split; try assumption.
  unfold PosterSource.isAvailable. cbn. apply andb_true_r.
Qed.

Lemma X22_breaker_opened_by_hand_stays_shut_witness :
  let x := Flights.start (FallbackChain.Kitsu test_kitsu) in
  let es := [Flights.Call 0%nat "123" "Test Anime" 500; Flights.Timers 5000;
             Flights.Call 1%nat "123" "Test Anime" 6000] in
  let x1 := Flights.mk (Attempts.openCircuitBreaker 1000 0 (Flights.source x))
                       (Flights.flights x) in
  let x2 := Flights.run es x1 in
  let s3 := Attempts.resetCircuitBreaker (Flights.source x2) in
  option_map Breaker.circuitState (breaker (Flights.source x1)) = Some Breaker.OPEN /\
  option_map Breaker.nextAttemptTime (breaker (Flights.source x1)) = Some (0 + 1000) /\
  Forall (fun r => Attempts.turned_away r = true) (Flights.delivered es x1) /\
  PosterSource.isAvailable (FallbackChain.base (Flights.source x2)) = false /\
  Flights.flights x2 = ∅ /\
  option_map Breaker.circuitState (breaker s3) = Some Breaker.CLOSED /\
  PosterSource.consecutiveFailures (PosterSource.metrics (FallbackChain.base s3)) = 0 /\
  PosterSource.isAvailable (FallbackChain.base s3)
  = PosterSource.isEnabled (FallbackChain.base (Flights.source x2)).
Proof.
  exact (X22_breaker_opened_by_hand_stays_shut
           (Flights.start (FallbackChain.Kitsu test_kitsu))
           (KitsuSource.cb test_kitsu) 1000 0
           [Flights.Call 0%nat "123" "Test Anime" 500; Flights.Timers 5000;
            Flights.Call 1%nat "123" "Test Anime" 6000] eq_refl eq_refl eq_refl).
Defined.

(** A request in flight when the breaker is opened by hand: it returns a
    poster after a call, made when the duration was over, has set the
    breaker half-open, and the breaker closes. *)
Example opened_by_hand_with_a_request_in_flight :
  let x0 := Flights.run [Flights.Call 0%nat "123" "Test Anime" 5000]
              (Flights.start (FallbackChain.Kitsu test_kitsu)) in
  let x1 := Flights.mk (Attempts.openCircuitBreaker 1000 5100 (Flights.source x0))
                       (Flights.flights x0) in
  let x2 := Flights.run [Flights.Call 1%nat "123" "Test Anime" 6500;
                         Flights.Replied 0%nat kitsu_poster 6600] x1 in
  option_map Breaker.circuitState (breaker (Flights.source x1)) = Some Breaker.OPEN /\
  option_map Breaker.circuitState (breaker (Flights.source x2)) = Some Breaker.CLOSED /\
  PosterSource.isAvailable (FallbackChain.base (Flights.source x2)) = true.
Proof. vm_compute. repeat split. Qed.

Module AloneFacts.
Import PosterSource.

Lemma waited_one s f t :
  Flights.step (Flights.Waited 0 t) (Flights.mk s {[0%nat := f]})
  = match Flights.phase f with
    | Flights.Waiting =>
        (None, Flights.mk (Flights.waited t s)
                 {[0%nat := Flights.mkFlight (Flights.startTime f) Flights.Fetching
                               (Flights.abandoned f)]})
    | _ => (None, Flights.mk s {[0%nat := f]})
    end.
Proof.
  unfold Flights.step. cbn [Flights.flights Flights.source].
  rewrite lookup_singleton_eq. destruct (Flights.phase f); reflexivity.
Qed.

Lemma replied_one s f a t :
  Flights.step (Flights.Replied 0 a t) (Flights.mk s {[0%nat := f]})
  = match Flights.respond a (Flights.phase f) t s with
    | Some (Flights.SearchesOn, s1) =>
        (None, Flights.mk s1
                 {[0%nat := Flights.mkFlight (Flights.startTime f) Flights.FetchingMovie
                               (Flights.abandoned f)]})
    | Some (Flights.Returned posterUrl, s1) =>
        (fst (Flights.settle f t (Err.Return posterUrl) s1),
         Flights.mk (snd (Flights.settle f t (Err.Return posterUrl) s1)) ∅)
    | Some (Flights.Threw err, s1) =>
        (fst (Flights.settle f t (Err.Throw err) s1),
         Flights.mk (snd (Flights.settle f t (Err.Throw err) s1)) ∅)
    | None => (None, Flights.mk s {[0%nat := f]})
    end.
Proof.
  unfold Flights.step. cbn [Flights.flights Flights.source].
  rewrite lookup_singleton_eq.
  destruct (Flights.respond a (Flights.phase f) t s) as [[[u|err|] s1]|]; try reflexivity.
  - destruct (Flights.settle f t (Err.Return u) s1). reflexivity.
  - destruct (Flights.settle f t (Err.Throw err) s1). reflexivity.
Qed.

Lemma timedOut_one s f t :
  Flights.abandoned f = false ->
  Flights.step (Flights.TimedOut 0 t) (Flights.mk s {[0%nat := f]})
  = (Some (Err.Throw Err.Timeout),
     Flights.mk (Flights.recordFailure Err.Timeout (t - Flights.startTime f) t s)
       {[0%nat := Flights.mkFlight (Flights.startTime f) (Flights.phase f) true]}).
Proof.
  intros Hf. unfold Flights.step. cbn [Flights.flights Flights.source].
  rewrite lookup_singleton_eq, Hf. reflexivity.
Qed.

(** With nothing in flight, only a call does anything. *)
Lemma idle e s :
  (forall rid animeId animeName t, e <> Flights.Call rid animeId animeName t) ->
  (forall t, e <> Flights.Timers t) ->
  Flights.step e (Flights.mk s ∅) = (None, Flights.mk s ∅).
Proof.
  intros Hc Ht. destruct e; unfold Flights.step; cbn [Flights.flights];
    rewrite ?lookup_empty; try reflexivity.
  - now destruct (Hc rid animeId animeName now).
  - now destruct (Ht now).
Qed.

Lemma call_first animeId animeName t s :
  Flights.step (Flights.Call 0 animeId animeName t) (Flights.start s)
  = match Flights.enter animeId animeName t s with
    | (Flights.Refused err, s1) => (Some (Err.Throw err), Flights.mk s1 ∅)
    | (Flights.Took f, s1) => (None, Flights.mk s1 {[0%nat := f]})
    end.
Proof.
  unfold Flights.step, Flights.start. cbn [Flights.flights Flights.source].
  rewrite lookup_empty.
  destruct (Flights.enter animeId animeName t s) as [[err|f] s1]; reflexivity.
Qed.

Lemma delivered_cons e es x :
  Flights.delivered (e :: es) x
  = match fst (Flights.step e x) with
    | Some r => r :: Flights.delivered es (snd (Flights.step e x))
    | None => Flights.delivered es (snd (Flights.step e x))
    end.
Proof. reflexivity. Qed.

Lemma flights_run_cons e es x :
  Flights.run (e :: es) x = Flights.run es (snd (Flights.step e x)).
Proof. reflexivity. Qed.

(** Events that are not calls nor timers deliver nothing and change
    nothing when no request is in flight. *)
Lemma idle_run es s :
  Forall (fun e => (forall rid animeId animeName t, e <> Flights.Call rid animeId animeName t) /\
                   (forall t, e <> Flights.Timers t)) es ->
  Flights.delivered es (Flights.mk s ∅) = [] /\
  Flights.run es (Flights.mk s ∅) = Flights.mk s ∅.
Proof.
  induction 1 as [|e es [Hc Ht] _ IH]; [split; reflexivity|].
  rewrite delivered_cons, flights_run_cons, (idle e s Hc Ht). exact IH.
Qed.

Lemma attempt_tail_idle animeId animeName a s :
  Forall (fun e => (forall rid animeId animeName t, e <> Flights.Call rid animeId animeName t) /\
                   (forall t, e <> Flights.Timers t))
         (tail (attempt_events animeId animeName a s)).
Proof.
  unfold attempt_events. cbn [tail].
  constructor; [split; discriminate|].
  destruct s as [k|t|n].
  - destruct (FallbackChain.kitsu_reply a); repeat constructor; discriminate.
  - destruct (FallbackChain.tmdb_reply a); repeat constructor; discriminate.
  - destruct (FallbackChain.nautiljon_reply a); repeat constructor; discriminate.
Qed.

(** A call that is thrown back is the whole attempt. *)
Lemma refused_alone animeId animeName a s err s1 :
  Flights.enter animeId animeName (FallbackChain.t_start a) s = (Flights.Refused err, s1) ->
  Flights.delivered (attempt_events animeId animeName a s) (Flights.start s)
  = [Err.Throw err] /\
  Flights.run (attempt_events animeId animeName a s) (Flights.start s) = Flights.mk s1 ∅.
Proof.
  intros He.
  pose proof (attempt_tail_idle animeId animeName a s) as Hidle.
  change (attempt_events animeId animeName a s)
    with (Flights.Call 0 animeId animeName (FallbackChain.t_start a)
          :: tail (attempt_events animeId animeName a s)) in *.
  cbn [tail] in Hidle.
  rewrite delivered_cons, flights_run_cons, call_first, He. cbn [fst snd].
  destruct (idle_run _ s1 Hidle) as [-> ->]. split; reflexivity.
Qed.

Lemma kitsu_alone animeId animeName a k :
  let s := FallbackChain.Kitsu k in
  (forall f s1, Flights.enter animeId animeName (FallbackChain.t_start a) s = (Flights.Took f, s1) ->
             Flights.phase f = Flights.Fetching ->
             FallbackChain.t_req a = FallbackChain.t_start a) ->
  Flights.delivered (attempt_events animeId animeName a s) (Flights.start s)
  = [fst (FallbackChain.source_fetchPoster animeId animeName a s)] /\
  Flights.source (Flights.run (attempt_events animeId animeName a s) (Flights.start s))
  = snd (FallbackChain.source_fetchPoster animeId animeName a s).
Proof.
  intros s Hreq.
  destruct (Flights.enter animeId animeName (FallbackChain.t_start a) s) as [[err|f] s1] eqn:He.
  - destruct (refused_alone animeId animeName a s err s1 He) as [-> ->].
    cbn [Flights.source]. subst s.
    unfold FallbackChain.source_fetchPoster.
    rewrite KitsuFacts.kitsu_fetchPoster_unfold. cbn zeta.
    cbn [Flights.enter] in He. unfold Flights.kitsu_enter in He.
    destruct (Breaker._canMakeRequest (FallbackChain.t_start a) (KitsuSource.cb k)) as [can c].
    cbn [fst snd].
    destruct can; cbn [negb] in *.
    2:{ injection He as <- <-. split; reflexivity. }
    destruct (negb (Js.truthy animeId) || Js.isNaN animeId)%bool.
    { injection He as <- <-. split; reflexivity. }
    unfold Exec._executeWithMetrics.
    cbn [base_of KitsuSource.source_class KitsuSource.base KitsuSource.with_cb] in *.
    destruct (isAvailable (KitsuSource.base k)); cbn [negb] in *.
    2:{ injection He as <- <-. split; reflexivity. }
    destruct (KitsuSource.waitTime _ _); discriminate.
  - subst s.
    unfold FallbackChain.source_fetchPoster.
    rewrite KitsuFacts.kitsu_fetchPoster_unfold. cbn zeta.
    unfold attempt_events. cbn zeta.
    rewrite !delivered_cons, !flights_run_cons, call_first, He. cbn [fst snd].
    rewrite waited_one.
    specialize (Hreq f s1 eq_refl).
    cbn [Flights.enter] in He. unfold Flights.kitsu_enter in He.
    destruct (Breaker._canMakeRequest (FallbackChain.t_start a) (KitsuSource.cb k)) as [can c].
    cbn [fst snd].
    destruct can; cbn [negb] in *; [|discriminate].
    destruct (negb (Js.truthy animeId) || Js.isNaN animeId)%bool; [discriminate|].
    unfold Exec._executeWithMetrics.
    cbn [base_of with_base record_failure KitsuSource.source_class
         KitsuSource.base KitsuSource.with_cb] in *.
    destruct (isAvailable (KitsuSource.base k)); cbn [negb] in *; [|discriminate].
    (* the request has left the limiter *)
    set (k1 := KitsuSource.with_cb k c) in *.
    set (k2 := KitsuSource.with_lastRequestTime k1 (FallbackChain.t_req a)).
    set (f1 := Flights.mkFlight (FallbackChain.t_start a) Flights.Fetching false).
    assert (Hgo : match Flights.phase f with
                  | Flights.Waiting =>
                      (@None (Err.result (option string)),
                       Flights.mk (Flights.waited (FallbackChain.t_req a) s1)
                         {[0%nat := Flights.mkFlight (Flights.startTime f) Flights.Fetching
                                       (Flights.abandoned f)]})
                  | _ => (None, Flights.mk s1 {[0%nat := f]})
                  end
                  = (None, Flights.mk (FallbackChain.Kitsu k2) {[0%nat := f1]})).
    { destruct (KitsuSource.waitTime (FallbackChain.t_start a) k1);
        injection He as <- <-; cbn [Flights.phase Flights.startTime Flights.abandoned] in *.
      - reflexivity.
      - subst k2. now rewrite (Hreq eq_refl). }
    rewrite Hgo. cbn [fst snd]. clear Hgo Hreq He f s1.
    unfold KitsuSource.requestFn. cbn [KitsuSource._waitForRateLimit snd KitsuSource.t_req
      KitsuSource.t_end KitsuSource.reply]. fold k1. fold k2.
    destruct (FallbackChain.kitsu_reply a) as [poster|status statusText|m|].
    + rewrite delivered_cons, flights_run_cons, replied_one.
      cbn [Flights.respond Flights.phase f1].
      destruct (match poster with
                | Some p => Js.str_or (KitsuSource.large p)
                              (Js.str_or (KitsuSource.medium p)
                                 (Js.str_or (KitsuSource.original p) None))
                | None => None
                end) as [url|].
      * unfold Flights.on_success.
        destruct (Breaker._onSuccess (KitsuSource.cb k2) (KitsuSource.base k2)) as [c2 b2].
        cbn. split; reflexivity.
      * cbn. split; reflexivity.
    + rewrite delivered_cons, flights_run_cons, replied_one.
      cbn [Flights.respond Flights.phase f1].
      destruct (status =? 404); cbn; split; reflexivity.
    + rewrite delivered_cons, flights_run_cons, replied_one. cbn. split; reflexivity.
    + rewrite delivered_cons, flights_run_cons, timedOut_one by reflexivity. cbn. split; reflexivity.
Qed.

Lemma tmdb_alone animeId animeName a t :
  let s := FallbackChain.Tmdb t in
  (forall f s1, Flights.enter animeId animeName (FallbackChain.t_start a) s = (Flights.Took f, s1) ->
             Flights.phase f = Flights.Fetching ->
             FallbackChain.t_req a = FallbackChain.t_start a) ->
  Flights.delivered (attempt_events animeId animeName a s) (Flights.start s)
  = [fst (FallbackChain.source_fetchPoster animeId animeName a s)] /\
  Flights.source (Flights.run (attempt_events animeId animeName a s) (Flights.start s))
  = snd (FallbackChain.source_fetchPoster animeId animeName a s).
Proof.
  intros s Hreq.
  destruct (Flights.enter animeId animeName (FallbackChain.t_start a) s) as [[err|f] s1] eqn:He.
  - destruct (refused_alone animeId animeName a s err s1 He) as [-> ->].
    cbn [Flights.source]. subst s.
    unfold FallbackChain.source_fetchPoster.
    rewrite TmdbFacts.tmdb_fetchPoster_unfold. cbn zeta.
    cbn [Flights.enter] in He. unfold Flights.tmdb_enter in He.
    destruct (Breaker._canMakeRequest (FallbackChain.t_start a) (TMDBSource.cb t)) as [can c].
    cbn [fst snd].
    destruct can; cbn [negb] in *.
    2:{ injection He as <- <-. split; reflexivity. }
    destruct (negb (Js.truthy animeName)).
    { injection He as <- <-. split; reflexivity. }
    cbn [TMDBSource.apiKey TMDBSource.base TMDBSource.with_cb] in *.
    destruct (TMDBSource.apiKey t).
    2:{ injection He as <- <-. split; reflexivity. }
    destruct (isAvailable (TMDBSource.base t)); cbn [negb] in *.
    2:{ injection He as <- <-. split; reflexivity. }
    destruct (TMDBSource.waitTime _ _); discriminate.
  - subst s.
    unfold FallbackChain.source_fetchPoster.
    rewrite TmdbFacts.tmdb_fetchPoster_unfold. cbn zeta.
    unfold attempt_events. cbn zeta.
    rewrite !delivered_cons, !flights_run_cons, call_first, He. cbn [fst snd].
    rewrite waited_one.
    specialize (Hreq f s1 eq_refl).
    cbn [Flights.enter] in He. unfold Flights.tmdb_enter in He.
    destruct (Breaker._canMakeRequest (FallbackChain.t_start a) (TMDBSource.cb t)) as [can c].
    cbn [fst snd].
    destruct can; cbn [negb] in *; [|discriminate].
    destruct (negb (Js.truthy animeName)); [discriminate|].
    set (t1 := TMDBSource.with_cb t c) in *.
    change (TMDBSource.apiKey t1) with (TMDBSource.apiKey t) in *.
    change (TMDBSource.base t1) with (TMDBSource.base t) in *.
    destruct (TMDBSource.apiKey t) as [key|]; [|discriminate].
    destruct (isAvailable (TMDBSource.base t)); cbn [negb] in *; [|discriminate].
    set (t2 := TMDBSource._waitForRateLimit (FallbackChain.t_start a)
                 (FallbackChain.t_req a) t1).
    set (f1 := Flights.mkFlight (FallbackChain.t_start a) Flights.Fetching false).
    assert (Hgo : match Flights.phase f with
                  | Flights.Waiting =>
                      (@None (Err.result (option string)),
                       Flights.mk (Flights.waited (FallbackChain.t_req a) s1)
                         {[0%nat := Flights.mkFlight (Flights.startTime f) Flights.Fetching
                                       (Flights.abandoned f)]})
                  | _ => (None, Flights.mk s1 {[0%nat := f]})
                  end
                  = (None, Flights.mk (FallbackChain.Tmdb t2) {[0%nat := f1]})).
    { subst t2. unfold TMDBSource._waitForRateLimit.
      destruct (TMDBSource.waitTime (FallbackChain.t_start a) t1);
        cbn beta iota in He; injection He as <- <-; cbn [Flights.phase Flights.startTime Flights.abandoned] in *.
      - reflexivity.
      - now rewrite (Hreq eq_refl). }
    rewrite Hgo. cbn [fst snd]. clear Hgo Hreq He f s1.
    unfold TMDBSource.requestFn. cbn [TMDBSource.t_req TMDBSource.t_end TMDBSource.reply].
    fold t2.
    destruct (FallbackChain.tmdb_reply a) as [tv movie|].
    + rewrite delivered_cons, flights_run_cons, replied_one.
      cbn [Flights.respond Flights.phase f1].
      destruct (TMDBSource._search (FallbackChain.t_end a) tv t2) as [[url|] t3].
      * unfold Flights.on_success.
        destruct (Breaker._onSuccess (TMDBSource.cb t3) (TMDBSource.base t3)) as [c3 b3].
        cbn [fst snd Flights.settle Flights.abandoned f1].
        rewrite delivered_cons, flights_run_cons, idle by discriminate.
        cbn. split; reflexivity.
      * cbn [fst snd].
        rewrite delivered_cons, flights_run_cons, replied_one.
        cbn [Flights.respond Flights.phase].
        destruct (TMDBSource._search (FallbackChain.t_end a) movie t3) as [[url|] t4].
        -- unfold Flights.on_success.
           destruct (Breaker._onSuccess (TMDBSource.cb t4) (TMDBSource.base t4)) as [c4 b4].
           cbn. split; reflexivity.
        -- cbn. split; reflexivity.
    + rewrite delivered_cons, flights_run_cons, timedOut_one by reflexivity. cbn. split; reflexivity.
Qed.

Lemma nautiljon_alone animeId animeName a n :
  let s := FallbackChain.Nautiljon n in
  (forall f s1, Flights.enter animeId animeName (FallbackChain.t_start a) s = (Flights.Took f, s1) ->
             Flights.phase f = Flights.Fetching ->
             FallbackChain.t_req a = FallbackChain.t_start a) ->
  Flights.delivered (attempt_events animeId animeName a s) (Flights.start s)
  = [fst (FallbackChain.source_fetchPoster animeId animeName a s)] /\
  Flights.source (Flights.run (attempt_events animeId animeName a s) (Flights.start s))
  = snd (FallbackChain.source_fetchPoster animeId animeName a s).
Proof.
  intros s Hreq.
  destruct (Flights.enter animeId animeName (FallbackChain.t_start a) s) as [[err|f] s1] eqn:He.
  - destruct (refused_alone animeId animeName a s err s1 He) as [-> ->].
    cbn [Flights.source]. subst s.
    unfold FallbackChain.source_fetchPoster, NautiljonSource.fetchPoster,
      Exec._executeWithMetrics.
    cbn [Flights.enter] in He. unfold Flights.nautiljon_enter in He.
    cbn [base_of NautiljonSource.source_class] in *.
    destruct (isAvailable (NautiljonSource.base n)); cbn [negb] in *.
    2:{ injection He as <- <-. split; reflexivity. }
    destruct (_ <? _); discriminate.
  - subst s.
    unfold FallbackChain.source_fetchPoster, NautiljonSource.fetchPoster,
      Exec._executeWithMetrics.
    unfold attempt_events. cbn zeta.
    rewrite !delivered_cons, !flights_run_cons, call_first, He. cbn [fst snd].
    rewrite waited_one.
    specialize (Hreq f s1 eq_refl).
    cbn [Flights.enter] in He. unfold Flights.nautiljon_enter in He.
    cbn [base_of with_base record_failure NautiljonSource.source_class] in *.
    destruct (isAvailable (NautiljonSource.base n)); cbn [negb] in *; [|discriminate].
    set (n2 := NautiljonSource.mk (NautiljonSource.base n) (FallbackChain.t_req a)
                 (NautiljonSource.minRequestInterval n)).
    set (f1 := Flights.mkFlight (FallbackChain.t_start a) Flights.Fetching false).
    assert (Hgo : match Flights.phase f with
                  | Flights.Waiting =>
                      (@None (Err.result (option string)),
                       Flights.mk (Flights.waited (FallbackChain.t_req a) s1)
                         {[0%nat := Flights.mkFlight (Flights.startTime f) Flights.Fetching
                                       (Flights.abandoned f)]})
                  | _ => (None, Flights.mk s1 {[0%nat := f]})
                  end
                  = (None, Flights.mk (FallbackChain.Nautiljon n2) {[0%nat := f1]})).
    { destruct (_ <? _); injection He as <- <-;
        cbn [Flights.phase Flights.startTime Flights.abandoned] in *.
      - reflexivity.
      - subst n2. now rewrite (Hreq eq_refl). }
    rewrite Hgo. cbn [fst snd]. clear Hgo Hreq He f s1.
    unfold NautiljonSource.requestFn.
    cbn [NautiljonSource._ensureRateLimit snd NautiljonSource.t_req NautiljonSource.t_end
         NautiljonSource.reply]. fold n2.
    destruct (FallbackChain.nautiljon_reply a) as [u|m|].
    + rewrite delivered_cons, flights_run_cons, replied_one. cbn. split; reflexivity.
    + rewrite delivered_cons, flights_run_cons, replied_one. cbn. split; reflexivity.
    + rewrite delivered_cons, flights_run_cons, timedOut_one by reflexivity. cbn. split; reflexivity.
Qed.

End AloneFacts.

(** An attempt that runs alone on a source is the run of its events: the
    call is settled as [source.fetchPoster] settles, and the source is left
    as it leaves it. (A request that passes the limiter without waiting is
    let go at the clock of the call.) *)
Example an_attempt_alone_is_its_events :
  forall animeId animeName a s,
    (forall f s1,
       Flights.enter animeId animeName (FallbackChain.t_start a) s = (Flights.Took f, s1) ->
       Flights.phase f = Flights.Fetching ->
       FallbackChain.t_req a = FallbackChain.t_start a) ->
    let events := attempt_events animeId animeName a s in
    Flights.delivered events (Flights.start s)
    = [fst (FallbackChain.source_fetchPoster animeId animeName a s)] /\
    Flights.source (Flights.run events (Flights.start s))
    = snd (FallbackChain.source_fetchPoster animeId animeName a s).
Proof.
  intros animeId animeName a [k|t|n] Hreq.
  - now apply AloneFacts.kitsu_alone.
  - now apply AloneFacts.tmdb_alone.
  - now apply AloneFacts.nautiljon_alone.
Qed.

